(** * SICD Volume 3 image projections: a shallow embedding of
      [sarkit/standards/sicd/projection/calc.py]

    The projection kernel is NumPy code over [float64] arrays.  Every
    function of the kernel is written once, over an abstract scalar type
    [F], and run at two instances:

    - [spec_float] at precision 53 / exponent bound 1024, the IEEE 754
      binary64 format NumPy computes in (signed zeros, infinities, NaN and
      round-to-nearest-even included);
    - [R], exact real arithmetic, used where a statement is about the
      algebra of the formulas rather than about their rounding.

    Batches (the leading axes of the NumPy arrays) are flattened lists,
    one entry per point.

    The module [Io] holds the part of [sarkit/standards/sicd/io.py]
    that computes: the image segmentation of [SicdNitfWriter], the
    fields of the image subheaders that follow from it, and the checks
    of [write_image]. *)

From Stdlib Require Import ZArith List Bool Ascii String DecimalString Lia.
From Stdlib Require Import Reals Lra Psatz.
From Stdlib Require Import Floats.SpecFloat.
Import ListNotations.

Set Implicit Arguments.

(* ================================================================== *)
(** * Scalars                                                          *)
(* ================================================================== *)

(** The scalar operations the kernel uses.  Python's [a > b] is
    [fltb b a], [a <= b] is [fleb a b], [a == b] is [feqb a b];
    [of_Z] is the conversion of a Python [int] (or of an integral
    [float] literal such as [1.0]) to a scalar. *)
Class Arith (F : Type) := {
  fadd : F -> F -> F;
  fsub : F -> F -> F;
  fmul : F -> F -> F;
  fdiv : F -> F -> F;
  fneg : F -> F;
  fabs : F -> F;
  fsqrt : F -> F;
  fltb : F -> F -> bool;
  fleb : F -> F -> bool;
  feqb : F -> F -> bool;
  of_Z : Z -> F
}.

(** [np.nan] and [np.isfinite]. *)
Class Special (F : Type) := {
  fnan : F;
  fisfinite : F -> bool
}.

(** The transcendental functions: [np.cos], [np.sin], [np.deg2rad]. *)
Class Trig (F : Type) := {
  fcos : F -> F;
  fsin : F -> F;
  fdeg2rad : F -> F
}.

Declare Scope fl_scope.
Delimit Scope fl_scope with fl.
Notation "x + y" := (fadd x y) : fl_scope.
Notation "x - y" := (fsub x y) : fl_scope.
Notation "x * y" := (fmul x y) : fl_scope.
Notation "x / y" := (fdiv x y) : fl_scope.
Notation "- x" := (fneg x) : fl_scope.
Notation "x >? y" := (fltb y x) : fl_scope.
Notation "x <? y" := (fltb x y) : fl_scope.
Notation "x <=? y" := (fleb x y) : fl_scope.
Notation "x =? y" := (feqb x y) : fl_scope.

(** ** binary64 *)

Definition prec64 : Z := 53.
Definition emax64 : Z := 1024.

Definition b64_of_Z (z : Z) : spec_float :=
  binary_normalize prec64 emax64 z 0 false.

Definition b64_isfinite (x : spec_float) : bool :=
  match x with
  | S754_zero _ | S754_finite _ _ _ => true
  | S754_infinity _ | S754_nan => false
  end.

#[export] Instance Binary64 : Arith spec_float := {
  fadd := SFadd prec64 emax64;
  fsub := SFsub prec64 emax64;
  fmul := SFmul prec64 emax64;
  fdiv := SFdiv prec64 emax64;
  fneg := SFopp;
  fabs := SFabs;
  fsqrt := SFsqrt prec64 emax64;
  fltb := SFltb;
  fleb := SFleb;
  feqb := SFeqb;
  of_Z := b64_of_Z
}.

#[export] Instance Binary64_special : Special spec_float := {
  fnan := S754_nan;
  fisfinite := b64_isfinite
}.

(** ** Exact reals *)

Definition Rltb (x y : R) : bool := if Rlt_dec x y then true else false.
Definition Rleb (x y : R) : bool := if Rle_dec x y then true else false.
Definition Reqb (x y : R) : bool := if Req_dec_T x y then true else false.

#[export] Instance Exact : Arith R := {
  fadd := Rplus;
  fsub := Rminus;
  fmul := Rmult;
  fdiv := Rdiv;
  fneg := Ropp;
  fabs := Rabs;
  fsqrt := sqrt;
  fltb := Rltb;
  fleb := Rleb;
  feqb := Reqb;
  of_Z := IZR
}.

#[export] Instance Exact_trig : Trig R := {
  fcos := cos;
  fsin := sin;
  fdeg2rad := fun x => (x * (PI / 180))%R
}.

(* ================================================================== *)
(** * Vectors, matrices, polynomials                                   *)
(* ================================================================== *)

(** The last axis of a [(..., 3)] array. *)
Record vec3 (F : Type) := V3 { v0 : F; v1 : F; v2 : F }.

(** The last axis of a [(..., 2)] array. *)
Record vec2 (F : Type) := V2 { w0 : F; w1 : F }.

(** A [(2, 2)] array, by rows. *)
Record mat2 (F : Type) := M2 { m00 : F; m01 : F; m10 : F; m11 : F }.

(** A polynomial's coefficient array, lowest degree first.  NumPy's
    polynomial routines index [c[-1]], so the array is never empty. *)
Inductive poly (A : Type) :=
| PLast (c : A)
| PCons (c : A) (rest : poly A).

Fixpoint pmap {A B : Type} (f : A -> B) (p : poly A) : poly B :=
  match p with
  | PLast c => PLast (f c)
  | PCons c r => PCons (f c) (pmap f r)
  end.

Local Open Scope fl_scope.

Section LinearAlgebra.
Context {F : Type} `{Arith F}.

Definition vmap (f : F -> F) (a : vec3 F) : vec3 F :=
  V3 (f (v0 a)) (f (v1 a)) (f (v2 a)).

Definition vzip (f : F -> F -> F) (a b : vec3 F) : vec3 F :=
  V3 (f (v0 a) (v0 b)) (f (v1 a) (v1 b)) (f (v2 a) (v2 b)).

(** [a + b], [a - b], [a * b] on [(3,)] arrays. *)
Definition vadd : vec3 F -> vec3 F -> vec3 F := vzip fadd.
Definition vsub : vec3 F -> vec3 F -> vec3 F := vzip fsub.
Definition vmul : vec3 F -> vec3 F -> vec3 F := vzip fmul.
Definition vneg : vec3 F -> vec3 F := vmap fneg.

(** [s * a] with a scalar (or a [(..., 1)] array) on the left. *)
Definition vscale (s : F) (a : vec3 F) : vec3 F := vmap (fun x => s * x) a.

(** [a * s] with the scalar on the right. *)
Definition vscale_r (a : vec3 F) (s : F) : vec3 F := vmap (fun x => x * s) a.

(** [a / s]. *)
Definition vdivs (a : vec3 F) (s : F) : vec3 F := vmap (fun x => x / s) a.

(** [a.sum(axis=-1)]: the reduction adds the entries left to right. *)
Definition vsum (a : vec3 F) : F := (v0 a + v1 a) + v2 a.

(** [np.dot(a, b)] and [(a * b).sum(axis=-1)]; the order in which a
    BLAS adds the three products is taken to be that of the
    reduction. *)
Definition vdot (a b : vec3 F) : F := vsum (vmul a b).

(** [np.cross(a, b)]. *)
Definition cross (a b : vec3 F) : vec3 F :=
  V3 (v1 a * v2 b - v2 a * v1 b)
     (v2 a * v0 b - v0 a * v2 b)
     (v0 a * v1 b - v1 a * v0 b).

(** [np.linalg.norm(a)] on a [(3,)] array and
    [np.linalg.norm(a, axis=-1)]: the root of the sum of squares. *)
Definition vnorm (a : vec3 F) : F := fsqrt (vdot a a).

(** [np.linalg.norm(a)] on an array of more than one axis with neither
    [ord] nor [axis]: NumPy ravels the array and returns the 2-norm of
    all its entries. *)
Definition ravel3 (l : list (vec3 F)) : list F :=
  flat_map (fun a => [v0 a; v1 a; v2 a]) l.

Definition norm_ravel (l : list (vec3 F)) : F :=
  fsqrt (fold_left (fun acc x => acc + x * x) (ravel3 l) (of_Z 0)).

(** [x ** 2], [x ** (-1)] and [x ** (-2)].  On an array NumPy squares by
    one multiplication; on a scalar it calls the C library's [pow],
    modelled here by the correctly rounded product and quotients
    ([pow] returns [+inf] for a zero raised to [-2], as [1 / (x * x)]
    does). *)
Definition sq (x : F) : F := x * x.
Definition pow_m1 (x : F) : F := of_Z 1 / x.
Definition pow_m2 (x : F) : F := of_Z 1 / (x * x).

(** [m @ v] for a [(2, 2)] matrix and a [(2, 1)] column. *)
Definition mat2_apply (m : mat2 F) (v : vec2 F) : vec2 F :=
  V2 (m00 m * w0 v + m01 m * w1 v) (m10 m * w0 v + m11 m * w1 v).

Definition mat2_scale (s : F) (m : mat2 F) : mat2 F :=
  M2 (s * m00 m) (s * m01 m) (s * m10 m) (s * m11 m).

Definition mat2_neg (m : mat2 F) : mat2 F :=
  M2 (- m00 m) (- m01 m) (- m10 m) (- m11 m).

Definition mat2_mul (a b : mat2 F) : mat2 F :=
  M2 (m00 a * m00 b + m01 a * m10 b) (m00 a * m01 b + m01 a * m11 b)
     (m10 a * m00 b + m11 a * m10 b) (m10 a * m01 b + m11 a * m11 b).

(** ** Polynomials ([numpy.polynomial.polynomial]) *)

(** [npp.polyval(x, c)]: Horner's scheme from the highest coefficient,
    started at [c[-1] + x * 0]. *)
Fixpoint polyval (x : F) (c : poly F) : F :=
  match c with
  | PLast cn => cn + x * of_Z 0
  | PCons ci rest => ci + polyval x rest * x
  end.

(** [npp.polyder(c)] along axis 0: entry [j - 1] of the derivative is
    [j * c[j]] (after [c *= scl] with [scl = 1]); the derivative of a
    constant is [c[:1] * 0].  [lmul] and [rmul] multiply an entry by a
    scalar on the left and on the right. *)
Section Polyder.
Context {A : Type} (lmul : F -> A -> A) (rmul : A -> F -> A).

Fixpoint polyder_from (j : Z) (c : poly A) : poly A :=
  match c with
  | PLast cn => PLast (lmul (of_Z j) (rmul cn (of_Z 1)))
  | PCons ci rest =>
      PCons (lmul (of_Z j) (rmul ci (of_Z 1))) (polyder_from (j + 1)%Z rest)
  end.

Definition polyder_with (c : poly A) : poly A :=
  match c with
  | PLast c0 => PLast (rmul c0 (of_Z 0))
  | PCons _ rest => polyder_from 1%Z rest
  end.

End Polyder.

Definition polyder : poly F -> poly F := polyder_with fmul fmul.

(** A [(N, 3)] coefficient array: one row of xyz per power. *)
Definition poly3 := poly (vec3 F).

(** [_xyzpolyval(x, c)]: [npp.polyval] evaluates each column of [c];
    [np.moveaxis] puts xyz last. *)
Definition _xyzpolyval (x : F) (c : poly3) : vec3 F :=
  V3 (polyval x (pmap (@v0 F) c))
     (polyval x (pmap (@v1 F) c))
     (polyval x (pmap (@v2 F) c)).

Definition polyder3 : poly3 -> poly3 := polyder_with vscale vscale_r.

(** A two-dimensional coefficient array [c[i][j]], one row per power
    [i] of the first variable; the entries of a row go with the powers
    [j] of the second. *)
Definition poly2d := poly (poly F).

Fixpoint pzip {A : Type} (f : A -> A -> A) (a b : poly A) : poly A :=
  match a, b with
  | PCons x r, PCons y s => PCons (f x y) (pzip f r s)
  | PCons x _, PLast y | PLast x, PCons y _ | PLast x, PLast y => PLast (f x y)
  end.

(** [npp.polyval(x, c)] on a two-dimensional [c]: Horner's scheme on
    whole rows. *)
Fixpoint polyval_rows (x : F) (c : poly2d) : poly F :=
  match c with
  | PLast row => pmap (fun cn => cn + x * of_Z 0) row
  | PCons row rest => pzip fadd row (pmap (fun v => v * x) (polyval_rows x rest))
  end.

(** [npp.polyval2d(x, y, c)]: [polyval(x, c)] along the first axis,
    then [polyval(y, ., tensor=False)] on the result. *)
Definition polyval2d (x y : F) (c : poly2d) : F :=
  polyval y (polyval_rows x c).

End LinearAlgebra.

Local Close Scope fl_scope.

(* ================================================================== *)
(** * Data model ([params])                                            *)
(* ================================================================== *)

(** Python exceptions the kernel can raise. *)
Inductive error :=
| ValueError
| TypeError
| AssertionError
| LinAlgError
| NotImplementedError.

(** A call either raises or returns. *)
Definition result (A : Type) : Type := (error + A)%type.

Definition raise {A : Type} (e : error) : result A := inl e.
Definition ret {A : Type} (a : A) : result A := inr a.

Definition bind {A B : Type} (c : result A) (k : A -> result B) : result B :=
  match c with
  | inl e => inl e
  | inr a => k a
  end.

Notation "x <- c ;; k" := (bind c (fun x => k))
  (at level 61, c at next level, right associativity).

Definition returns {A : Type} (c : result A) : Prop := exists a, c = inr a.
Definition raises {A : Type} (c : result A) : Prop := exists e, c = inl e.

Inductive collect_type := MONOSTATIC | BISTATIC.

(** [SideOfTrack] is ["L"] or ["R"]. *)
Inductive side_of_track := LEFT | RIGHT.

(** Modelled from the spec: [params.MetadataParams], whose declaration
    is in [params.py].  The fields are those of the spec's data model;
    [Grid_Type] and [IFA] are the strings the kernel compares them
    with.  A field that is not populated for the collect type is never
    read by the code of that collect type. *)
Record MetadataParams (F : Type) := {
  Collect_Type : collect_type;
  SCP : vec3 F;
  SCP_Lat : F;
  SCP_Lon : F;
  SCP_HAE : F;
  uRow : vec3 F;
  uCol : vec3 F;
  SideOfTrack : side_of_track;
  Grid_Type : string;
  IFA : string;
  cT_COA : poly (poly F);
  ARP_Poly : poly (vec3 F);
  Xmt_Poly : poly (vec3 F);
  Rcv_Poly : poly (vec3 F);
  GRP_Poly : poly (vec3 F);
  cPA : poly F;
  cKSF : poly F;
  ARP_SCP_COA : vec3 F;
  VARP_SCP_COA : vec3 F;
  Xmt_SCP_COA : vec3 F;
  VXmt_SCP_COA : vec3 F;
  Rcv_SCP_COA : vec3 F;
  VRcv_SCP_COA : vec3 F
}.

(** Modelled from the spec: the method [MetadataParams.is_monostatic],
    declared in [params.py]: whether the collect type is MONOSTATIC. *)
Definition is_monostatic {F : Type} (m : MetadataParams F) : bool :=
  match Collect_Type m with
  | MONOSTATIC => true
  | BISTATIC => false
  end.

(** Modelled from the spec: [params.CoaPosVels], one entry per point.
    An ensemble holds the monostatic fields or the bistatic ones; the
    bistatic fields the solvers leave at [None] are options. *)
Module CoaPosVels.
Record mono (F : Type) := Mono {
  ARP_COA : vec3 F;
  VARP_COA : vec3 F
}.
Record bi (F : Type) := Bi {
  GRP_COA : option (vec3 F);
  tx_COA : option F;
  tr_COA : option F;
  Xmt_COA : vec3 F;
  VXmt_COA : vec3 F;
  Rcv_COA : vec3 F;
  VRcv_COA : vec3 F
}.
Inductive t (F : Type) :=
| Monostatic (pts : list (mono F))
| Bistatic (pts : list (bi F)).
End CoaPosVels.

(** Modelled from the spec: [params.ProjectionSets], one entry per
    image grid location; [bt_COA] is the field [t_COA] of a bistatic
    ensemble. *)
Module ProjectionSets.
Record mono (F : Type) := Mono {
  t_COA : F;
  ARP_COA : vec3 F;
  VARP_COA : vec3 F;
  R_COA : F;
  Rdot_COA : F
}.
Record bi (F : Type) := Bi {
  bt_COA : F;
  tx_COA : option F;
  tr_COA : option F;
  Xmt_COA : vec3 F;
  VXmt_COA : vec3 F;
  Rcv_COA : vec3 F;
  VRcv_COA : vec3 F;
  R_Avg_COA : F;
  Rdot_Avg_COA : F
}.
Inductive t (F : Type) :=
| Monostatic (pts : list (mono F))
| Bistatic (pts : list (bi F)).
End ProjectionSets.

(** Modelled from the spec: [params.ScenePointRRdotParams]. *)
Record ScenePointRRdotParams (F : Type) := {
  R_Avg_PT : F;
  Rdot_Avg_PT : F;
  bP_PT : vec3 F;
  bPDot_PT : vec3 F;
  uSPN_PT : vec3 F
}.

(** Modelled from the spec: [params.ScenePointGpXyParams]. *)
Record ScenePointGpXyParams (F : Type) := {
  uGX : vec3 F;
  uGY : vec3 F;
  M_RRdot_GPXY : mat2 F;
  M_GPXY_RRdot : mat2 F
}.

(** Modelled from the spec: [sarkit.standards.geocoords], the geodetic
    library ([ecf_to_geodetic] returns latitude and longitude in
    degrees and the height above the ellipsoid, per point). *)
Class Geocoords (F : Type) := {
  ecf_to_geodetic : vec3 F -> vec3 F;
  geodetic_to_ecf : vec3 F -> vec3 F
}.

(** ** Boolean-mask indexing *)

(** [x[mask]]. *)
Fixpoint select {A : Type} (mask : list bool) (xs : list A) : list A :=
  match mask, xs with
  | b :: m, x :: r => if b then x :: select m r else select m r
  | _, _ => []
  end.

(** [x[mask] = new]: the entries of [new] go to the selected places, in
    order. *)
Fixpoint assign {A : Type} (mask : list bool) (xs new : list A) : list A :=
  match mask, xs with
  | true :: m, x :: r =>
      match new with
      | n :: ns => n :: assign m r ns
      | [] => x :: assign m r []
      end
  | false :: m, x :: r => x :: assign m r new
  | _, _ => xs
  end.

(** [x[mask] = v] with one value for all selected places. *)
Fixpoint assign_all {A : Type} (mask : list bool) (xs : list A) (v : A) : list A :=
  match mask, xs with
  | b :: m, x :: r => (if b then v else x) :: assign_all m r v
  | _, _ => xs
  end.

(** Entry-wise combination of arrays of one shape.  (Arrays of unequal
    length, which NumPy would refuse or stretch, are cut to the
    shortest; the kernel builds the arrays it combines with one
    shape.) *)
Fixpoint map2 {A B C : Type} (f : A -> B -> C) (xs : list A) (ys : list B) : list C :=
  match xs, ys with
  | x :: r, y :: s => f x y :: map2 f r s
  | _, _ => []
  end.

Fixpoint map3 {A B C D : Type} (f : A -> B -> C -> D)
  (xs : list A) (ys : list B) (zs : list C) : list D :=
  match xs, ys, zs with
  | x :: r, y :: s, z :: u => f x y z :: map3 f r s u
  | _, _, _ => []
  end.

(** Runs a point-wise step that can raise over a batch; the first
    exception aborts the call. *)
Fixpoint mapM {A B : Type} (f : A -> result B) (xs : list A) : result (list B) :=
  match xs with
  | [] => ret []
  | x :: r => y <- f x ;; ys <- mapM f r ;; ret (y :: ys)
  end.

(* ================================================================== *)
(** * The projection kernel ([calc.py])                                *)
(* ================================================================== *)

Local Open Scope fl_scope.

Section Kernel.
Context {F : Type} {AR : Arith F} {SP : Special F} {TR : Trig F} {GC : Geocoords F}.

(** Modelled from the spec: [sarkit.constants.speed_of_light], declared
    in [sarkit/constants.py]; the specification gives
    [c = 299,792,458 m/s]. *)
Definition speed_of_light : F := of_Z 299792458.

(** [{"L": +1, "R": -1}[proj_metadata.SideOfTrack]]. *)
Definition look_of (s : side_of_track) : Z :=
  match s with
  | LEFT => 1
  | RIGHT => -1
  end.

(** ** Image grid and image plane *)

Definition image_grid_to_image_plane_point_pt
  (proj_metadata : MetadataParams F) (il : vec2 F) : vec3 F :=
  let xrow := w0 il in
  let ycol := w1 il in
  let delta_ip_pts :=
    vadd (vscale xrow (uRow proj_metadata)) (vscale ycol (uCol proj_metadata)) in
  vadd (SCP proj_metadata) delta_ip_pts.

Definition image_grid_to_image_plane_point
  (proj_metadata : MetadataParams F) (image_grid_locations : list (vec2 F))
  : list (vec3 F) :=
  map (image_grid_to_image_plane_point_pt proj_metadata) image_grid_locations.

Definition cos_theta_col (proj_metadata : MetadataParams F) : F :=
  vdot (uRow proj_metadata) (uCol proj_metadata).

Definition sin_theta_col (proj_metadata : MetadataParams F) : F :=
  fsqrt (of_Z 1 - sq (cos_theta_col proj_metadata)).

Definition m_il_ippt (proj_metadata : MetadataParams F) : mat2 F :=
  let c := cos_theta_col proj_metadata in
  mat2_scale (pow_m2 (sin_theta_col proj_metadata))
    (M2 (of_Z 1) (- c) (- c) (of_Z 1)).

Definition image_plane_point_to_image_grid_pt
  (proj_metadata : MetadataParams F) (image_plane_point : vec3 F) : vec2 F :=
  let delta_ip_pt := vsub image_plane_point (SCP proj_metadata) in
  mat2_apply (m_il_ippt proj_metadata)
    (V2 (vsum (vmul delta_ip_pt (uRow proj_metadata)))
        (vsum (vmul delta_ip_pt (uCol proj_metadata)))).

(** The function has no [raise] and no check on the angle between
    [uRow] and [uCol].  Under NumPy's default error state a division
    by zero or an invalid operation warns and yields an infinity or
    NaN: every call returns. *)
Definition image_plane_point_to_image_grid
  (proj_metadata : MetadataParams F) (image_plane_points : list (vec3 F))
  : result (list (vec2 F)) :=
  ret (map (image_plane_point_to_image_grid_pt proj_metadata) image_plane_points).

(** ** COA time, positions and velocities *)

Definition compute_coa_time
  (proj_metadata : MetadataParams F) (image_grid_locations : list (vec2 F))
  : list F :=
  map (fun tgt => polyval2d (w0 tgt) (w1 tgt) (cT_COA proj_metadata))
      image_grid_locations.

Definition compute_coa_pos_vel
  (proj_metadata : MetadataParams F) (t_coa : list F) : CoaPosVels.t F :=
  if is_monostatic proj_metadata then
    CoaPosVels.Monostatic
      (map (fun t =>
              CoaPosVels.Mono
                (_xyzpolyval t (ARP_Poly proj_metadata))
                (_xyzpolyval t (polyder3 (ARP_Poly proj_metadata))))
           t_coa)
  else
    let grp_coa := map (fun t => _xyzpolyval t (GRP_Poly proj_metadata)) t_coa in
    (* transmit time *)
    let x0 := map (fun t => _xyzpolyval t (Xmt_Poly proj_metadata)) t_coa in
    let r_x0 := norm_ravel (map2 vsub x0 grp_coa) in
    let tx_coa := map (fun t => t - r_x0 / speed_of_light) t_coa in
    (* receive time *)
    let r0 := map (fun t => _xyzpolyval t (Rcv_Poly proj_metadata)) t_coa in
    let r_r0 := norm_ravel (map2 vsub r0 grp_coa) in
    let tr_coa := map (fun t => t + r_r0 / speed_of_light) t_coa in
    CoaPosVels.Bistatic
      (map3 (fun grp tx tr =>
               CoaPosVels.Bi (Some grp) (Some tx) (Some tr)
                 (_xyzpolyval tx (Xmt_Poly proj_metadata))
                 (_xyzpolyval tx (polyder3 (Xmt_Poly proj_metadata)))
                 (_xyzpolyval tr (Rcv_Poly proj_metadata))
                 (_xyzpolyval tr (polyder3 (Rcv_Poly proj_metadata))))
            grp_coa tx_coa tr_coa).

(** ** SCP range, range rate and slant plane normal *)

Record scp_bistatic_results := {
  r_avg_scp_coa : F;
  rdot_avg_scp_coa : F;
  bp_scp_coa : vec3 F;
  bpdot_scp_coa : vec3 F
}.

Definition _scp_r_rdot_projection_contour_bistatic
  (proj_metadata : MetadataParams F) : scp_bistatic_results :=
  let scp := SCP proj_metadata in
  let r_xmt_scp_coa := vnorm (vsub (Xmt_SCP_COA proj_metadata) scp) in
  let u_xmt_scp_coa := vdivs (vsub (Xmt_SCP_COA proj_metadata) scp) r_xmt_scp_coa in
  let rdot_xmt_scp_coa := vdot (VXmt_SCP_COA proj_metadata) u_xmt_scp_coa in
  let u_xmtdot_scp_coa :=
    vdivs (vsub (VXmt_SCP_COA proj_metadata) (vscale rdot_xmt_scp_coa u_xmt_scp_coa))
          r_xmt_scp_coa in
  let r_rcv_scp_coa := vnorm (vsub (Rcv_SCP_COA proj_metadata) scp) in
  let u_rcv_scp_coa := vdivs (vsub (Rcv_SCP_COA proj_metadata) scp) r_rcv_scp_coa in
  let rdot_rcv_scp_coa := vdot (VRcv_SCP_COA proj_metadata) u_rcv_scp_coa in
  let u_rcvdot_scp_coa :=
    vdivs (vsub (VRcv_SCP_COA proj_metadata) (vscale rdot_rcv_scp_coa u_rcv_scp_coa))
          r_rcv_scp_coa in
  {| r_avg_scp_coa := (r_xmt_scp_coa + r_rcv_scp_coa) / of_Z 2;
     rdot_avg_scp_coa := (rdot_xmt_scp_coa + rdot_rcv_scp_coa) / of_Z 2;
     bp_scp_coa := vdivs (vadd u_xmt_scp_coa u_rcv_scp_coa) (of_Z 2);
     bpdot_scp_coa := vdivs (vadd u_xmtdot_scp_coa u_rcvdot_scp_coa) (of_Z 2) |}.

Definition compute_scp_coa_r_rdot (proj_metadata : MetadataParams F) : F * F :=
  if is_monostatic proj_metadata then
    let d := vsub (ARP_SCP_COA proj_metadata) (SCP proj_metadata) in
    let r_scp_coa := vnorm d in
    let u_pt_scp_coa := vdivs d r_scp_coa in
    let rdot_scp_coa := vdot (VARP_SCP_COA proj_metadata) u_pt_scp_coa in
    (r_scp_coa, rdot_scp_coa)
  else
    let bistatic_results := _scp_r_rdot_projection_contour_bistatic proj_metadata in
    (r_avg_scp_coa bistatic_results, rdot_avg_scp_coa bistatic_results).

Definition compute_scp_coa_slant_plane_normal
  (proj_metadata : MetadataParams F) : vec3 F :=
  let look := look_of (SideOfTrack proj_metadata) in
  let spn_scp_coa :=
    if is_monostatic proj_metadata then
      vscale (of_Z look)
        (cross (vsub (ARP_SCP_COA proj_metadata) (SCP proj_metadata))
               (VARP_SCP_COA proj_metadata))
    else
      let bistatic_results := _scp_r_rdot_projection_contour_bistatic proj_metadata in
      vscale (of_Z look)
        (cross (bp_scp_coa bistatic_results) (bpdot_scp_coa bistatic_results)) in
  vdivs spn_scp_coa (vnorm spn_scp_coa).

(** ** Scene point range and range rate parameters *)

(** Everything of [compute_pt_r_rdot_parameters] before the last
    normalisation, for one point; the fifth component is [spn_pt]. *)
Definition pt_r_rdot_pre (look : Z) (xmt vxmt rcv vrcv pt : vec3 F)
  : F * F * vec3 F * vec3 F * vec3 F :=
  let r_xmt_pt := vnorm (vsub xmt pt) in
  let u_xmt_pt := vdivs (vsub xmt pt) r_xmt_pt in
  let rdot_xmt_pt := vsum (vmul vxmt u_xmt_pt) in
  let u_xmtdot_pt := vdivs (vsub vxmt (vscale rdot_xmt_pt u_xmt_pt)) r_xmt_pt in
  let r_rcv_pt := vnorm (vsub rcv pt) in
  let u_rcv_pt := vdivs (vsub rcv pt) r_rcv_pt in
  let rdot_rcv_pt := vsum (vmul vrcv u_rcv_pt) in
  let u_rcvdot_pt := vdivs (vsub vrcv (vscale rdot_rcv_pt u_rcv_pt)) r_rcv_pt in
  let r_avg_pt := (r_xmt_pt + r_rcv_pt) / of_Z 2 in
  let rdot_avg_pt := (rdot_xmt_pt + rdot_rcv_pt) / of_Z 2 in
  let bp_pt := vdivs (vadd u_xmt_pt u_rcv_pt) (of_Z 2) in
  let bpdot_pt := vdivs (vadd u_xmtdot_pt u_rcvdot_pt) (of_Z 2) in
  let spn_pt := vscale (of_Z look) (cross bp_pt bpdot_pt) in
  (r_avg_pt, rdot_avg_pt, bp_pt, bpdot_pt, spn_pt).

(** [compute_pt_r_rdot_parameters] on the bistatic fields.  [uSPN_PT]
    divides by [np.linalg.norm(spn_pt)], called without an axis: the
    norm of the whole [spn_pt] array. *)
Definition pt_r_rdot_parameters_bi (proj_metadata : MetadataParams F)
  (pts : list (CoaPosVels.bi F)) (scene_points : list (vec3 F))
  : list (ScenePointRRdotParams F) :=
  let look := look_of (SideOfTrack proj_metadata) in
  let pre :=
    map2 (fun c pt =>
            pt_r_rdot_pre look (CoaPosVels.Xmt_COA c) (CoaPosVels.VXmt_COA c)
              (CoaPosVels.Rcv_COA c) (CoaPosVels.VRcv_COA c) pt)
         pts scene_points in
  let n := norm_ravel (map snd pre) in
  map (fun p =>
         match p with
         | (r_avg_pt, rdot_avg_pt, bp_pt, bpdot_pt, spn_pt) =>
             {| R_Avg_PT := r_avg_pt;
                Rdot_Avg_PT := rdot_avg_pt;
                bP_PT := bp_pt;
                bPDot_PT := bpdot_pt;
                uSPN_PT := vdivs spn_pt n |}
         end) pre.

(** An ensemble without the bistatic fields has [Xmt_COA = None]:
    [None - pt] raises [TypeError]. *)
Definition compute_pt_r_rdot_parameters (proj_metadata : MetadataParams F)
  (coa_pos_vels : CoaPosVels.t F) (scene_points : list (vec3 F))
  : result (list (ScenePointRRdotParams F)) :=
  match coa_pos_vels with
  | CoaPosVels.Bistatic pts =>
      ret (pt_r_rdot_parameters_bi proj_metadata pts scene_points)
  | CoaPosVels.Monostatic _ => raise TypeError
  end.

(** ** Ground plane basis and sensitivity matrices *)

(** [np.linalg.inv] on one [(2, 2)] matrix, by its closed form; an
    exactly singular matrix raises [LinAlgError]. *)
Definition inv2 (m : mat2 F) : result (mat2 F) :=
  let det := m00 m * m11 m - m01 m * m10 m in
  if det =? of_Z 0 then raise LinAlgError
  else ret (M2 (m11 m / det) (- m01 m / det) (- m10 m / det) (m00 m / det)).

(** [np.stack((c0, c1), axis=-1)] of two [(..., 2)] arrays: the stacked
    arrays are the columns of the result. *)
Definition stack_columns (c0 c1 : vec2 F) : mat2 F :=
  M2 (w0 c0) (w0 c1) (w1 c0) (w1 c1).

Definition gp_xy_parameters_pt (pt ugpn bp_pt bpdot_pt : vec3 F)
  : result (ScenePointGpXyParams F) :=
  let gx := vsub bp_pt (vscale_r ugpn (vsum (vmul bp_pt ugpn))) in
  let ugx := vdivs gx (vnorm gx) in
  let _sgn_criteria := vsum (vmul ugpn pt) in
  let sgn := if _sgn_criteria >? of_Z 0 then of_Z 1 else of_Z (-1) in
  let gy := vscale sgn (cross ugpn ugx) in
  let ugy := vdivs gy (vnorm gy) in
  let m_rrdot_gpxy :=
    mat2_neg
      (stack_columns
         (V2 (vsum (vmul bp_pt ugx)) (of_Z 0))
         (V2 (vsum (vmul bpdot_pt ugx)) (vsum (vmul bpdot_pt ugy)))) in
  m_gpxy_rrdot <- inv2 m_rrdot_gpxy ;;
  ret {| uGX := ugx;
         uGY := ugy;
         M_RRdot_GPXY := m_rrdot_gpxy;
         M_GPXY_RRdot := m_gpxy_rrdot |}.

Definition compute_gp_xy_parameters
  (scene_points ugpn bp_points bpdot_points : list (vec3 F))
  : result (list (ScenePointGpXyParams F)) :=
  mapM (fun a => match a with (pt, u, bp, bpdot) => gp_xy_parameters_pt pt u bp bpdot end)
       (combine (combine (combine scene_points ugpn) bp_points) bpdot_points).

(** ** R/Rdot contours *)

(** The SCP reference range and range rate of a monostatic point. *)
Definition r_rdot_scp_mono (proj_metadata : MetadataParams F)
  (c : CoaPosVels.mono F) : F * F :=
  let r_scp_vector := vsub (CoaPosVels.ARP_COA c) (SCP proj_metadata) in
  let r_scp := vnorm r_scp_vector in
  let rdot_scp := vsum (vmul (CoaPosVels.VARP_COA c) r_scp_vector) / r_scp in
  (r_scp, rdot_scp).

(** Lines 348 to 369: from the reference values to [(r, rdot)] at one
    image grid location. *)
Definition rgazim_pfa_contour (proj_metadata : MetadataParams F)
  (tgt : vec2 F) (t_coa : F) (scp_ref : F * F) : F * F :=
  let rg_tgts := w0 tgt in
  let az_tgts := w1 tgt in
  let r_scp := fst scp_ref in
  let rdot_scp := snd scp_ref in
  let theta := polyval t_coa (cPA proj_metadata) in
  let dtheta_dt := polyval t_coa (polyder (cPA proj_metadata)) in
  let ksf := polyval theta (cKSF proj_metadata) in
  let dksf_dtheta := polyval theta (polyder (cKSF proj_metadata)) in
  let dphi_dka := rg_tgts * fcos theta + az_tgts * fsin theta in
  let dphi_dkc := (- rg_tgts) * fsin theta + az_tgts * fcos theta in
  let delta_r := ksf * dphi_dka in
  let delta_rdot := (dksf_dtheta * dphi_dka + ksf * dphi_dkc) * dtheta_dt in
  (r_scp + delta_r, rdot_scp + delta_rdot).

(** The SCP reference values per point: from [ARP_COA] and [VARP_COA]
    (monostatic), or [R_Avg_PT] and [Rdot_Avg_PT] of
    [compute_pt_r_rdot_parameters] at the SCP (bistatic).  Reading the
    fields of the other collect type finds [None] and raises
    [TypeError]. *)
Definition rgazim_pfa_scp_ref (proj_metadata : MetadataParams F)
  (coa_pos_vels : CoaPosVels.t F) : result (list (F * F)) :=
  if is_monostatic proj_metadata then
    match coa_pos_vels with
    | CoaPosVels.Monostatic pts => ret (map (r_rdot_scp_mono proj_metadata) pts)
    | CoaPosVels.Bistatic _ => raise TypeError
    end
  else
    match coa_pos_vels with
    | CoaPosVels.Bistatic pts =>
        pt_r_rdot_params <-
          compute_pt_r_rdot_parameters proj_metadata coa_pos_vels
            (map (fun _ => SCP proj_metadata) pts) ;;
        ret (map (fun q => (R_Avg_PT q, Rdot_Avg_PT q)) pt_r_rdot_params)
    | CoaPosVels.Monostatic _ => raise TypeError
    end.

Definition r_rdot_from_rgazim_pfa (proj_metadata : MetadataParams F)
  (image_grid_locations : list (vec2 F)) (t_coa : list F)
  (coa_pos_vels : CoaPosVels.t F) : result (list (F * F)) :=
  scp_ref <- rgazim_pfa_scp_ref proj_metadata coa_pos_vels ;;
  ret (map3 (rgazim_pfa_contour proj_metadata) image_grid_locations t_coa scp_ref).

(** The functions [compute_coa_r_rdot] dispatches to.  All but the
    first are defined with no parameter and a body that raises
    [NotImplementedError]. *)
Inductive r_rdot_func :=
| func_r_rdot_from_rgazim_pfa
| func_r_rdot_from_rgazim_rgazcomp
| func_r_rdot_from_rgzero
| func_r_rdot_from_xrgycr
| func_r_rdot_from_xctyat
| func_r_rdot_from_plane.

Definition r_rdot_from_rgazim_rgazcomp : result (list (F * F)) := raise NotImplementedError.
Definition r_rdot_from_rgzero : result (list (F * F)) := raise NotImplementedError.
Definition r_rdot_from_xrgycr : result (list (F * F)) := raise NotImplementedError.
Definition r_rdot_from_xctyat : result (list (F * F)) := raise NotImplementedError.
Definition r_rdot_from_plane : result (list (F * F)) := raise NotImplementedError.

(** [r_rdot_func(proj_metadata, image_grid_locations, t_coa,
    coa_pos_vels)]: a call with four arguments.  A function defined
    with no parameter raises [TypeError] on it, before its body runs. *)
Definition call_r_rdot_func (f : r_rdot_func) (proj_metadata : MetadataParams F)
  (image_grid_locations : list (vec2 F)) (t_coa : list F)
  (coa_pos_vels : CoaPosVels.t F) : result (list (F * F)) :=
  match f with
  | func_r_rdot_from_rgazim_pfa =>
      r_rdot_from_rgazim_pfa proj_metadata image_grid_locations t_coa coa_pos_vels
  | _ => raise TypeError
  end.

(** Lines 306 to 318: the function chosen for the grid type and the
    image formation algorithm, [None] when there is none. *)
Definition select_r_rdot_func (proj_metadata : MetadataParams F) : option r_rdot_func :=
  if String.eqb (Grid_Type proj_metadata) "RGAZIM" then
    let f1 := if String.eqb (IFA proj_metadata) "PFA"
              then Some func_r_rdot_from_rgazim_pfa else None in
    if String.eqb (IFA proj_metadata) "RGAZCOMP"
    then Some func_r_rdot_from_rgazim_rgazcomp else f1
  else if String.eqb (Grid_Type proj_metadata) "RGZERO" then Some func_r_rdot_from_rgzero
  else if String.eqb (Grid_Type proj_metadata) "XRGYCR" then Some func_r_rdot_from_xrgycr
  else if String.eqb (Grid_Type proj_metadata) "XCTYAT" then Some func_r_rdot_from_xctyat
  else if String.eqb (Grid_Type proj_metadata) "PLANE" then Some func_r_rdot_from_plane
  else None.

Definition compute_coa_r_rdot (proj_metadata : MetadataParams F)
  (image_grid_locations : list (vec2 F)) (t_coa : list F)
  (coa_pos_vels : CoaPosVels.t F) : result (list (F * F)) :=
  match select_r_rdot_func proj_metadata with
  | None => raise ValueError
  | Some r_rdot_func =>
      call_r_rdot_func r_rdot_func proj_metadata image_grid_locations t_coa coa_pos_vels
  end.

(** ** Projection sets *)

Definition compute_projection_sets (proj_metadata : MetadataParams F)
  (image_grid_locations : list (vec2 F)) : result (ProjectionSets.t F) :=
  let t_coa := compute_coa_time proj_metadata image_grid_locations in
  let coa_pos_vels := compute_coa_pos_vel proj_metadata t_coa in
  r_rdot <- compute_coa_r_rdot proj_metadata image_grid_locations t_coa coa_pos_vels ;;
  match coa_pos_vels with
  | CoaPosVels.Monostatic pts =>
      ret (ProjectionSets.Monostatic
             (map3 (fun t c rr =>
                      ProjectionSets.Mono t (CoaPosVels.ARP_COA c)
                        (CoaPosVels.VARP_COA c) (fst rr) (snd rr))
                   t_coa pts r_rdot))
  | CoaPosVels.Bistatic pts =>
      ret (ProjectionSets.Bistatic
             (map3 (fun t c rr =>
                      ProjectionSets.Bi t (CoaPosVels.tx_COA c) (CoaPosVels.tr_COA c)
                        (CoaPosVels.Xmt_COA c) (CoaPosVels.VXmt_COA c)
                        (CoaPosVels.Rcv_COA c) (CoaPosVels.VRcv_COA c)
                        (fst rr) (snd rr))
                   t_coa pts r_rdot))
  end.

(** ** R/Rdot to ground plane, monostatic *)

(** [arpz] before the no-solution test: the signed distance of
    [ARP_COA] from the plane, along the plane's normal. *)
Definition mono_arpz (ps : ProjectionSets.mono F) (gref uz : vec3 F) : F :=
  vsum (vmul (vsub (ProjectionSets.ARP_COA ps) gref) uz).

Definition r_rdot_to_ground_plane_mono_pt (proj_metadata : MetadataParams F)
  (ps : ProjectionSets.mono F) (gref ugpn : vec3 F) : vec3 F :=
  let ARP := ProjectionSets.ARP_COA ps in
  let VARP := ProjectionSets.VARP_COA ps in
  let R_ := ProjectionSets.R_COA ps in
  let Rdot := ProjectionSets.Rdot_COA ps in
  let uz := ugpn in
  (* ARP distance from the plane and ARP ground plane nadir *)
  let arpz0 := mono_arpz ps gref uz in
  let arpz := if fabs arpz0 >? R_ then fnan else arpz0 in
  let agpn := vsub ARP (vscale arpz uz) in
  (* ground plane distance and sine/cosine graze *)
  let g := fsqrt (sq R_ - sq arpz) in
  let cos_graz := g / R_ in
  let sin_graz := arpz / R_ in
  (* velocity components in x and y *)
  let vz := vsum (vmul VARP uz) in
  let vx0 := fsqrt (vsum (vmap sq VARP) - sq vz) in
  let vx := if vx0 =? of_Z 0 then fnan else vx0 in
  let ux := vdivs (vsub VARP (vscale vz uz)) vx in
  let uy := cross uz ux in
  (* cosine and sine of the azimuth angle *)
  let cos_az0 := (- Rdot + vz * sin_graz) / (vx * cos_graz) in
  let cos_az :=
    if (cos_az0 <? of_Z (-1)) || (cos_az0 >? of_Z 1) then fnan else cos_az0 in
  let look := look_of (SideOfTrack proj_metadata) in
  let sin_az := of_Z look * fsqrt (of_Z 1 - sq cos_az) in
  vadd (vadd agpn (vscale (g * cos_az) ux)) (vscale (g * sin_az) uy).

(** The four [assert ... is not None] fail on a bistatic ensemble. *)
Definition r_rdot_to_ground_plane_mono (proj_metadata : MetadataParams F)
  (projection_sets : ProjectionSets.t F) (gref ugpn : list (vec3 F))
  : result (list (vec3 F)) :=
  match projection_sets with
  | ProjectionSets.Monostatic pts =>
      ret (map3 (r_rdot_to_ground_plane_mono_pt proj_metadata) pts gref ugpn)
  | ProjectionSets.Bistatic _ => raise AssertionError
  end.

(** ** R/Rdot to ground plane, bistatic *)

(** [_calc_up(lat_deg, lon_deg)]; the same expression gives [u_up_scp]
    in [r_rdot_to_ground_plane_bi]. *)
Definition _calc_up (lat_deg lon_deg : F) : vec3 F :=
  V3 (fcos (fdeg2rad lat_deg) * fcos (fdeg2rad lon_deg))
     (fcos (fdeg2rad lat_deg) * fsin (fdeg2rad lon_deg))
     (fsin (fdeg2rad lat_deg)).

(** The variables of the loop of [r_rdot_to_ground_plane_bi]. *)
Record bi_state := {
  bi_g : list (vec3 F);
  bi_delta_gp : list F;
  bi_success : bool;
  bi_above_threshold : list bool
}.

Definition bi_step (proj_metadata : MetadataParams F)
  (pts : list (ProjectionSets.bi F)) (ugpn : list (vec3 F))
  (delta_gp_gpp : F) (st : bi_state) : result bi_state :=
  let above_threshold := bi_above_threshold st in
  let g := bi_g st in
  let sel := select above_threshold pts in
  pt_r_rdot_params <-
    compute_pt_r_rdot_parameters proj_metadata
      (CoaPosVels.Bistatic
         (map (fun p =>
                 CoaPosVels.Bi None None None
                   (ProjectionSets.Xmt_COA p) (ProjectionSets.VXmt_COA p)
                   (ProjectionSets.Rcv_COA p) (ProjectionSets.VRcv_COA p))
              sel))
      (select above_threshold g) ;;
  gp_xy_params <-
    compute_gp_xy_parameters (select above_threshold g) (select above_threshold ugpn)
      (map (@bP_PT F) pt_r_rdot_params) (map (@bPDot_PT F) pt_r_rdot_params) ;;
  let delta_r_avg :=
    map2 (fun p q => ProjectionSets.R_Avg_COA p - R_Avg_PT q) sel pt_r_rdot_params in
  let delta_rdot_avg :=
    map2 (fun p q => ProjectionSets.Rdot_Avg_COA p - Rdot_Avg_PT q) sel pt_r_rdot_params in
  let delta_gxgy :=
    map3 (fun q dr drdot => mat2_apply (M_GPXY_RRdot q) (V2 dr drdot))
         gp_xy_params delta_r_avg delta_rdot_avg in
  let delta_gp :=
    assign above_threshold (bi_delta_gp st)
      (map (fun d => fsqrt (sq (w0 d) + sq (w1 d))) delta_gxgy) in
  let g' :=
    assign above_threshold g
      (map3 (fun gi d q =>
               vadd gi (vadd (vscale (w0 d) (uGX q)) (vscale (w1 d) (uGY q))))
            (select above_threshold g) delta_gxgy gp_xy_params) in
  ret {| bi_g := g';
         bi_delta_gp := delta_gp;
         bi_success := forallb (fun d => d <=? delta_gp_gpp) delta_gp;
         bi_above_threshold := map (fun d => d >? delta_gp_gpp) delta_gp |}.

(** [for _ in range(maxiter): ...; if success: break]. *)
Fixpoint bi_loop (proj_metadata : MetadataParams F)
  (pts : list (ProjectionSets.bi F)) (ugpn : list (vec3 F))
  (delta_gp_gpp : F) (maxiter : nat) (st : bi_state) : result bi_state :=
  match maxiter with
  | O => ret st
  | S k =>
      st' <- bi_step proj_metadata pts ugpn delta_gp_gpp st ;;
      if bi_success st' then ret st'
      else bi_loop proj_metadata pts ugpn delta_gp_gpp k st'
  end.

(** The six [assert ... is not None] fail on a monostatic ensemble. *)
Definition r_rdot_to_ground_plane_bi (proj_metadata : MetadataParams F)
  (projection_sets : ProjectionSets.t F) (gref ugpn : list (vec3 F))
  (delta_gp_gpp : F) (maxiter : nat)
  : result (list (vec3 F) * list F * bool) :=
  match projection_sets with
  | ProjectionSets.Monostatic _ => raise AssertionError
  | ProjectionSets.Bistatic pts =>
      let scp := SCP proj_metadata in
      let u_up_scp := _calc_up (SCP_Lat proj_metadata) (SCP_Lon proj_metadata) in
      let g_0 :=
        map3 (fun (_ : ProjectionSets.bi F) gr u =>
                let dist_gp := vsum (vmul (vsub gr scp) u) / vsum (vmul u_up_scp u) in
                vadd scp (vscale dist_gp u_up_scp))
             pts gref ugpn in
      st <- bi_loop proj_metadata pts ugpn delta_gp_gpp maxiter
              {| bi_g := g_0;
                 bi_delta_gp := map (fun _ => fnan) g_0;
                 bi_success := false;
                 bi_above_threshold := map (fun _ => true) g_0 |} ;;
      ret (bi_g st, bi_delta_gp st, bi_success st)
  end.

(** ** Scene to image *)

(** [np.isfinite(p).all(axis=-1)]. *)
Definition isfinite3 (a : vec3 F) : bool :=
  fisfinite (v0 a) && fisfinite (v1 a) && fisfinite (v2 a).

Definition nan3 : vec3 F := V3 fnan fnan fnan.

(** The variables of the loop of [scene_to_image]. *)
Record s2i_state := {
  s2i_g : list (vec3 F);
  s2i_image_grid_locations : list (vec2 F);
  s2i_delta_gp : list F;
  s2i_success : bool;
  s2i_p : list (vec3 F);
  s2i_above_threshold : list bool;
  s2i_r_rdot_to_ground_success : list bool
}.

Definition s2i_step (proj_metadata : MetadataParams F) (s u_gpn : list (vec3 F))
  (u_proj u_ipn : vec3 F) (sf : F)
  (delta_gp_s2i : F) (bistat_delta_gp_gpp : F) (bistat_maxiter : nat)
  (st : s2i_state) : result s2i_state :=
  let above_threshold := s2i_above_threshold st in
  let g := s2i_g st in
  (* project ground points to image plane points *)
  let dist :=
    map (fun gi => pow_m1 sf * vsum (vmul (vsub (SCP proj_metadata) gi) u_ipn))
        (select above_threshold g) in
  let i := map2 (fun gi d => vadd gi (vscale d u_proj)) (select above_threshold g) dist in
  (* image grid coordinates of the image plane points *)
  il <- image_plane_point_to_image_grid proj_metadata i ;;
  let image_grid_locations :=
    assign above_threshold (s2i_image_grid_locations st) il in
  (* COA projection sets *)
  projection_sets <-
    compute_projection_sets proj_metadata (select above_threshold image_grid_locations) ;;
  (* precise projection to the ground plane *)
  p_flags <-
    (if is_monostatic proj_metadata then
       pa <- r_rdot_to_ground_plane_mono proj_metadata projection_sets
               (select above_threshold s) (select above_threshold u_gpn) ;;
       let p := assign above_threshold (s2i_p st) pa in
       ret (p,
            assign above_threshold (s2i_r_rdot_to_ground_success st)
              (map isfinite3 (select above_threshold p)))
     else
       r <- r_rdot_to_ground_plane_bi proj_metadata projection_sets
              (select above_threshold s) (select above_threshold u_gpn)
              bistat_delta_gp_gpp bistat_maxiter ;;
       match r with
       | (pa, _, ok) =>
           ret (assign above_threshold (s2i_p st) pa,
                assign_all above_threshold (s2i_r_rdot_to_ground_success st) ok)
       end) ;;
  let p := fst p_flags in
  let r_rdot_to_ground_success := snd p_flags in
  (* displacement between ground plane points and scene points *)
  let delta_p := map2 vsub s p in
  let delta_gp := map vnorm delta_p in
  (* compare displacement to threshold *)
  let above_threshold' := map (fun d => d >? delta_gp_s2i) delta_gp in
  let g' :=
    assign above_threshold' g
      (map2 vadd (select above_threshold' g) (select above_threshold' delta_p)) in
  ret {| s2i_g := g';
         s2i_image_grid_locations := image_grid_locations;
         s2i_delta_gp := delta_gp;
         s2i_success :=
           forallb (fun d => d <=? delta_gp_s2i) delta_gp
           && forallb (fun b => b) r_rdot_to_ground_success;
         s2i_p := p;
         s2i_above_threshold := above_threshold';
         s2i_r_rdot_to_ground_success := r_rdot_to_ground_success |}.

(** [for _ in range(maxiter): ...; if success: break]. *)
Fixpoint s2i_loop (proj_metadata : MetadataParams F) (s u_gpn : list (vec3 F))
  (u_proj u_ipn : vec3 F) (sf : F)
  (delta_gp_s2i : F) (bistat_delta_gp_gpp : F) (bistat_maxiter : nat)
  (maxiter : nat) (st : s2i_state) : result s2i_state :=
  match maxiter with
  | O => ret st
  | S k =>
      st' <- s2i_step proj_metadata s u_gpn u_proj u_ipn sf
               delta_gp_s2i bistat_delta_gp_gpp bistat_maxiter st ;;
      if s2i_success st' then ret st'
      else s2i_loop proj_metadata s u_gpn u_proj u_ipn sf
             delta_gp_s2i bistat_delta_gp_gpp bistat_maxiter k st'
  end.

(** The state before the first pass. *)
Definition s2i_init (s : list (vec3 F)) : s2i_state :=
  {| s2i_g := s;
     s2i_image_grid_locations := map (fun _ => V2 fnan fnan) s;
     s2i_delta_gp := map (fun _ => fnan) s;
     s2i_success := false;
     s2i_p := map (fun _ => nan3) s;
     s2i_above_threshold := map (fun _ => true) s;
     s2i_r_rdot_to_ground_success := map (fun _ => false) s |}.

(** [scene_to_image] up to its [return]: the final values of all the
    variables of the loop. *)
Definition scene_to_image_run (proj_metadata : MetadataParams F)
  (scene_points : list (vec3 F))
  (delta_gp_s2i : F) (maxiter : nat)
  (bistat_delta_gp_gpp : F) (bistat_maxiter : nat) : result s2i_state :=
  let s := scene_points in
  let u_gpn := map (fun si => vdivs si (vnorm si)) s in
  let u_proj := compute_scp_coa_slant_plane_normal proj_metadata in
  let ipn := cross (uRow proj_metadata) (uCol proj_metadata) in
  let u_ipn := vdivs ipn (vnorm ipn) in
  let sf := vdot u_proj u_ipn in
  s2i_loop proj_metadata s u_gpn u_proj u_ipn sf
    delta_gp_s2i bistat_delta_gp_gpp bistat_maxiter maxiter (s2i_init s).

Definition scene_to_image (proj_metadata : MetadataParams F)
  (scene_points : list (vec3 F))
  (delta_gp_s2i : F) (maxiter : nat)
  (bistat_delta_gp_gpp : F) (bistat_maxiter : nat)
  : result (list (vec2 F) * list F * bool) :=
  st <- scene_to_image_run proj_metadata scene_points
          delta_gp_s2i maxiter bistat_delta_gp_gpp bistat_maxiter ;;
  ret (s2i_image_grid_locations st, s2i_delta_gp st, s2i_success st).

(** ** R/Rdot to a surface of constant HAE *)

(** The variables of the loop of [r_rdot_to_constant_hae_surface]. *)
Record hae_state := {
  hae_gref : list (vec3 F);
  hae_u_gpn : list (vec3 F);
  hae_u_up : list (vec3 F);
  hae_gpp : list (vec3 F);
  hae_delta_hae : list F;
  hae_success : bool;
  hae_above_threshold : list bool;
  hae_r_rdot_to_plane_success : list bool
}.

(** The precise projection to the ground plane of the selected points:
    the points found and, for a bistatic collect, the solver's
    [success].  The [assert]s fail on an ensemble of the other collect
    type. *)
Definition hae_project (proj_metadata : MetadataParams F)
  (projection_sets : ProjectionSets.t F) (above_threshold : list bool)
  (gref u_gpn : list (vec3 F))
  (bistat_delta_gp_gpp : F) (bistat_maxiter : nat)
  : result (list (vec3 F) * option bool) :=
  if is_monostatic proj_metadata then
    match projection_sets with
    | ProjectionSets.Monostatic pts =>
        ga <- r_rdot_to_ground_plane_mono proj_metadata
                (ProjectionSets.Monostatic (select above_threshold pts))
                (select above_threshold gref) (select above_threshold u_gpn) ;;
        ret (ga, None)
    | ProjectionSets.Bistatic _ => raise AssertionError
    end
  else
    match projection_sets with
    | ProjectionSets.Bistatic pts =>
        r <- r_rdot_to_ground_plane_bi proj_metadata
               (ProjectionSets.Bistatic
                  (map (fun p =>
                          ProjectionSets.Bi (ProjectionSets.bt_COA p) None None
                            (ProjectionSets.Xmt_COA p) (ProjectionSets.VXmt_COA p)
                            (ProjectionSets.Rcv_COA p) (ProjectionSets.VRcv_COA p)
                            (ProjectionSets.R_Avg_COA p) (ProjectionSets.Rdot_Avg_COA p))
                       (select above_threshold pts)))
               (select above_threshold gref) (select above_threshold u_gpn)
               bistat_delta_gp_gpp bistat_maxiter ;;
        match r with (ga, _, ok) => ret (ga, Some ok) end
    | ProjectionSets.Monostatic _ => raise AssertionError
    end.

(** The body of the loop up to [if success: break]. *)
Definition hae_pass (proj_metadata : MetadataParams F)
  (projection_sets : ProjectionSets.t F) (hae0 : list F)
  (delta_hae_max : F) (bistat_delta_gp_gpp : F) (bistat_maxiter : nat)
  (st : hae_state) : result hae_state :=
  let above_threshold := hae_above_threshold st in
  pr <- hae_project proj_metadata projection_sets above_threshold
          (hae_gref st) (hae_u_gpn st) bistat_delta_gp_gpp bistat_maxiter ;;
  let gpp := assign above_threshold (hae_gpp st) (fst pr) in
  let r_rdot_to_plane_success :=
    match snd pr with
    | None =>
        assign above_threshold (hae_r_rdot_to_plane_success st)
          (map isfinite3 (select above_threshold gpp))
    | Some ok => assign_all above_threshold (hae_r_rdot_to_plane_success st) ok
    end in
  (* ECEF to WGS 84 geodetic *)
  let gpp_llh := map ecf_to_geodetic (select above_threshold gpp) in
  (* unit vector in increasing height direction, height difference at GPP *)
  let u_up :=
    assign above_threshold (hae_u_up st)
      (map (fun llh => _calc_up (v0 llh) (v1 llh)) gpp_llh) in
  let delta_hae :=
    assign above_threshold (hae_delta_hae st)
      (map2 (fun llh h0 => v2 llh - h0) gpp_llh (select above_threshold hae0)) in
  (* is GPP sufficiently close to the HAE0 surface *)
  ret {| hae_gref := hae_gref st;
         hae_u_gpn := hae_u_gpn st;
         hae_u_up := u_up;
         hae_gpp := gpp;
         hae_delta_hae := delta_hae;
         hae_success :=
           forallb (fun d => d <=? delta_hae_max) delta_hae
           && forallb (fun b => b) r_rdot_to_plane_success;
         hae_above_threshold := map (fun d => d >? delta_hae_max) delta_hae;
         hae_r_rdot_to_plane_success := r_rdot_to_plane_success |}.

(** [delta_hae[above_threshold] * u_up[above_threshold, :]] multiplies
    a [(k,)] array by a [(k, 3)] array.  NumPy aligns the shapes from
    the right: for [k = 1] the one height difference scales the one
    vector; for [k = 3] entry [j] of the height differences multiplies
    component [j] of every vector; any other [k] raises [ValueError]. *)
Definition hae_scaled_up (delta_hae : list F) (u_up : list (vec3 F))
  : result (list (vec3 F)) :=
  match delta_hae with
  | [d] => ret (map (vscale d) u_up)
  | [d0; d1; d2] => ret (map (vmul (V3 d0 d1 d2)) u_up)
  | _ => raise ValueError
  end.

(** The body of the loop after [if success: break]. *)
Definition hae_update (st : hae_state) : result hae_state :=
  let above_threshold := hae_above_threshold st in
  du <- hae_scaled_up (select above_threshold (hae_delta_hae st))
          (select above_threshold (hae_u_up st)) ;;
  ret {| hae_gref :=
           assign above_threshold (hae_gref st)
             (map2 vsub (select above_threshold (hae_gpp st)) du);
         hae_u_gpn :=
           assign above_threshold (hae_u_gpn st)
             (select above_threshold (hae_u_up st));
         hae_u_up := hae_u_up st;
         hae_gpp := hae_gpp st;
         hae_delta_hae := hae_delta_hae st;
         hae_success := hae_success st;
         hae_above_threshold := above_threshold;
         hae_r_rdot_to_plane_success := hae_r_rdot_to_plane_success st |}.

(** [for _ in range(nlim): ...]. *)
Fixpoint hae_loop (proj_metadata : MetadataParams F)
  (projection_sets : ProjectionSets.t F) (hae0 : list F)
  (delta_hae_max : F) (bistat_delta_gp_gpp : F) (bistat_maxiter : nat)
  (nlim : nat) (st : hae_state) : result hae_state :=
  match nlim with
  | O => ret st
  | S k =>
      st1 <- hae_pass proj_metadata projection_sets hae0
               delta_hae_max bistat_delta_gp_gpp bistat_maxiter st ;;
      if hae_success st1 then ret st1
      else
        st2 <- hae_update st1 ;;
        hae_loop proj_metadata projection_sets hae0
          delta_hae_max bistat_delta_gp_gpp bistat_maxiter k st2
  end.

(** The state before the first pass: ground plane 1 through the SCP
    moved to height [hae0], normal to the local up at the SCP. *)
Definition hae_init (proj_metadata : MetadataParams F) (hae0 : list F) : hae_state :=
  let u_gpn1 := _calc_up (SCP_Lat proj_metadata) (SCP_Lon proj_metadata) in
  let gref1 :=
    map (fun h0 => vadd (SCP proj_metadata) (vscale (h0 - SCP_HAE proj_metadata) u_gpn1))
        hae0 in
  {| hae_gref := gref1;
     hae_u_gpn := map (fun _ => u_gpn1) hae0;
     hae_u_up := map (fun _ => nan3) hae0;
     hae_gpp := map (fun _ => nan3) hae0;
     hae_delta_hae := map (fun _ => fnan) hae0;
     hae_success := false;
     hae_above_threshold := map (fun _ => true) hae0;
     hae_r_rdot_to_plane_success := map (fun _ => false) hae0 |}.

(** The collect type of the ensemble is the metadata's, or an [assert]
    fails before the loop. *)
Definition hae_check_fields (proj_metadata : MetadataParams F)
  (projection_sets : ProjectionSets.t F) : result unit :=
  match is_monostatic proj_metadata, projection_sets with
  | true, ProjectionSets.Monostatic _ | false, ProjectionSets.Bistatic _ => ret tt
  | _, _ => raise AssertionError
  end.

(** [r_rdot_to_constant_hae_surface] up to the end of its loop. *)
Definition r_rdot_to_constant_hae_surface_run (proj_metadata : MetadataParams F)
  (projection_sets : ProjectionSets.t F) (hae0 : list F)
  (delta_hae_max : F) (nlim : nat)
  (bistat_delta_gp_gpp : F) (bistat_maxiter : nat) : result hae_state :=
  _ <- hae_check_fields proj_metadata projection_sets ;;
  hae_loop proj_metadata projection_sets hae0
    delta_hae_max bistat_delta_gp_gpp bistat_maxiter nlim
    (hae_init proj_metadata hae0).

(** The slant plane normal tangent to the R/Rdot contour at GPP. *)
Definition hae_u_spn (proj_metadata : MetadataParams F)
  (projection_sets : ProjectionSets.t F) (gpp : list (vec3 F))
  : result (list (vec3 F)) :=
  let look := look_of (SideOfTrack proj_metadata) in
  match projection_sets with
  | ProjectionSets.Monostatic pts =>
      ret (map2 (fun p gp =>
                   let spn :=
                     vscale (of_Z look)
                       (cross (ProjectionSets.VARP_COA p)
                              (vsub gp (ProjectionSets.ARP_COA p))) in
                   vdivs spn (vnorm spn))
                pts gpp)
  | ProjectionSets.Bistatic pts =>
      gpp_r_rdot_params <-
        compute_pt_r_rdot_parameters proj_metadata
          (CoaPosVels.Bistatic
             (map (fun p =>
                     CoaPosVels.Bi None None None
                       (ProjectionSets.Xmt_COA p) (ProjectionSets.VXmt_COA p)
                       (ProjectionSets.Rcv_COA p) (ProjectionSets.VRcv_COA p))
                  pts))
          gpp ;;
      ret (map (@uSPN_PT F) gpp_r_rdot_params)
  end.

Definition r_rdot_to_constant_hae_surface (proj_metadata : MetadataParams F)
  (projection_sets : ProjectionSets.t F) (hae0 : list F)
  (delta_hae_max : F) (nlim : nat)
  (bistat_delta_gp_gpp : F) (bistat_maxiter : nat)
  : result (list (vec3 F) * list F * bool) :=
  st <- r_rdot_to_constant_hae_surface_run proj_metadata projection_sets hae0
          delta_hae_max nlim bistat_delta_gp_gpp bistat_maxiter ;;
  u_spn <- hae_u_spn proj_metadata projection_sets (hae_gpp st) ;;
  (* straight-line projection from GPP along uSPN to point SLP *)
  let slp :=
    map3 (fun gp d uu =>
            let sf := vsum (vmul (fst uu) (snd uu)) in
            vsub gp (vdivs (vscale d (snd uu)) sf))
         (hae_gpp st) (hae_delta_hae st) (combine (hae_u_up st) u_spn) in
  let slp_llh := map ecf_to_geodetic slp in
  (* surface point: HAE moved onto the HAE0 surface *)
  let spp_llh := map2 (fun llh h0 => V3 (v0 llh) (v1 llh) h0) slp_llh hae0 in
  let spp_tgt := map geodetic_to_ecf spp_llh in
  ret (spp_tgt, hae_delta_hae st, hae_success st).

End Kernel.

(* ================================================================== *)
(** * SICD NITF packaging ([io.py])                                    *)
(* ================================================================== *)

Module Io.

Local Open Scope string_scope.
Local Open Scope Z_scope.

(** Python exceptions the packaging code can raise. *)
Inductive error :=
| ValueError
| KeyError
| ZeroDivisionError
| OverflowError.

Definition result (A : Type) : Type := (error + A)%type.

(** The NumPy dtypes of [PIXEL_TYPES], and any other dtype by its
    name. *)
Inductive dtype :=
| complex64
| real_imag_int16
| amp_phase_uint8
| other_dtype (name : string).

Definition dtype_eqb (a b : dtype) : bool :=
  match a, b with
  | complex64, complex64 => true
  | real_imag_int16, real_imag_int16 => true
  | amp_phase_uint8, amp_phase_uint8 => true
  | other_dtype x, other_dtype y => String.eqb x y
  | _, _ => false
  end.

Record pixel_type_info := {
  bytes : Z;
  pvtype : string;
  subcat : string * string;
  dtype_of : dtype
}.

(** [PIXEL_TYPES[pixel_type]]; [pixel_type] is what
    [findtext("./{*}ImageData/{*}PixelType")] returned, [None] when the
    element is missing.  A key the dict does not hold raises
    [KeyError]. *)
Definition PIXEL_TYPES (pixel_type : option string) : result pixel_type_info :=
  match pixel_type with
  | None => inl KeyError
  | Some k =>
      if String.eqb k "RE32F_IM32F" then
        inr {| bytes := 8; pvtype := "R"; subcat := ("I", "Q"); dtype_of := complex64 |}
      else if String.eqb k "RE16I_IM16I" then
        inr {| bytes := 4; pvtype := "SI"; subcat := ("I", "Q");
               dtype_of := real_imag_int16 |}
      else if String.eqb k "AMP8I_PHS8I" then
        inr {| bytes := 2; pvtype := "INT"; subcat := ("M", "P");
               dtype_of := amp_phase_uint8 |}
      else inl KeyError
  end.

(** ** Image segmentation ([SicdNitfWriter.__init__], lines 678 to 699) *)

Definition is_size_max : Z := 10 ^ 10 - 2.
Definition iloc_max : Z := 99999.

(** A Python [int] as an operand of [/]: the quotient of two ints is
    the correctly rounded binary64 quotient of the exact integers. *)
Definition int_operand (z : Z) : spec_float :=
  match z with
  | 0 => S754_zero false
  | Z.pos p => S754_finite false p 0
  | Z.neg p => S754_finite true p 0
  end.

(** [a / b] on Python ints. *)
Definition truediv (a b : Z) : result spec_float :=
  if b =? 0 then inl ZeroDivisionError
  else inr (SFdiv prec64 emax64 (int_operand a) (int_operand b)).

(** [int(np.floor(x))]: an infinity raises [OverflowError], NaN
    [ValueError]. *)
Definition floor_to_int (x : spec_float) : result Z :=
  match x with
  | S754_zero _ => inr 0
  | S754_finite s m e => inr (Z.shiftl (cond_Zopp s (Z.pos m)) e)
  | S754_infinity _ => inl OverflowError
  | S754_nan => inl ValueError
  end.

(** [num_rows_limit] for rows of [bytes_per_row] bytes. *)
Definition num_rows_limit (bytes_per_row : Z) : result Z :=
  match truediv is_size_max bytes_per_row with
  | inl e => inl e
  | inr q =>
      match floor_to_int q with
      | inl e => inl e
      | inr limit_1 => inr (Z.min iloc_max limit_1)
      end
  end.

(** An entry of [image_segment_limits]:
    [(row_start, row_stop, col_start, col_stop)]. *)
Definition segment_limits : Type := (Z * Z * Z * Z)%type.

(** The [while row_offset < rows] loop.  It need not end: [fuel] bounds
    the number of passes, and [None] says that the bound was reached
    with the condition of the loop still true. *)
Fixpoint segment_loop (fuel : nat) (rows cols num_rows_limit row_offset : Z)
  : option (list segment_limits) :=
  if row_offset <? rows then
    match fuel with
    | O => None
    | S fuel' =>
        let next_rows := Z.min rows (row_offset + num_rows_limit) in
        option_map (cons (row_offset, next_rows, 0, cols))
          (segment_loop fuel' rows cols num_rows_limit next_rows)
    end
  else Some [].

(** Modelled from the spec: [rows] and [cols] are what
    [XmlHelper.load] returns for [NumRows] and [NumCols] (declared in
    [sicd/xml.py]), the image dimensions as Python ints. *)
Definition image_segment_limits (fuel : nat) (pixel_type : option string) (rows cols : Z)
  : result (option (list segment_limits)) :=
  match PIXEL_TYPES pixel_type with
  | inl e => inl e
  | inr info =>
      let bytes_per_row := cols * bytes info in
      let product_size := bytes_per_row * rows in
      match num_rows_limit bytes_per_row with
      | inl e => inl e
      | inr num_rows_limit =>
          if product_size <=? is_size_max then inr (Some [(0, rows, 0, cols)])
          else inr (segment_loop fuel rows cols num_rows_limit 0)
      end
  end.

(** ** Image subheaders *)

(** [s.zfill(width)] on a string of digits. *)
Definition zfill (width : nat) (s : string) : string :=
  string_of_list_ascii (repeat "0"%char (width - String.length s)) ++ s.

(** [f"{n:0{width}d}"]: decimal, padded with zeros after the sign. *)
Definition format_0d (width : nat) (n : Z) : string :=
  let digits := NilZero.string_of_uint (N.to_uint (Z.abs_N n)) in
  if n <? 0 then "-" ++ zfill (width - 1) digits else zfill width digits.

(** The fields of an image subheader that come from the segmentation. *)
Record ImageSegmentHeader := {
  IID1 : string;
  NROWS : Z;
  NCOLS : Z;
  NPPBH : Z;
  NPPBV : Z;
  IDLVL : Z;
  IALVL : Z;
  ILOC : string
}.

Definition image_segment_header (n_segments : nat) (num_rows_limit cols : Z)
  (i : nat) (entry : segment_limits) : ImageSegmentHeader :=
  match entry with
  | (row_start, row_stop, _, _) =>
      let this_rows := row_stop - row_start in
      {| IID1 := "SICD" ++ format_0d 3 (if Nat.eqb n_segments 1 then 0 else Z.of_nat i + 1);
         NROWS := this_rows;
         NCOLS := cols;
         NPPBH := if cols >? 8192 then 0 else cols;
         NPPBV := if this_rows >? 8192 then 0 else this_rows;
         IDLVL := Z.of_nat i + 1;
         IALVL := Z.of_nat i;
         ILOC := format_0d 5 (if Nat.eqb i 0 then 0 else num_rows_limit) ++ "00000" |}
  end.

(** [for i, entry in enumerate(image_segment_limits)]. *)
Definition image_segment_headers (num_rows_limit cols : Z)
  (image_segment_limits : list segment_limits) : list ImageSegmentHeader :=
  map (fun ie => image_segment_header (List.length image_segment_limits)
                   num_rows_limit cols (fst ie) (snd ie))
      (combine (seq 0 (List.length image_segment_limits)) image_segment_limits).

(** ** [SicdNitfWriter.write_image] *)

(** A one-dimensional integer array (of dtype [int64]), or an array of
    another dtype. *)
Inductive start_array :=
| int_array (values : list Z)
| other_array.

(** The result of an [int64] operation: NumPy wraps around. *)
Definition int64 (z : Z) : Z := (z + 2 ^ 63) mod 2 ^ 64 - 2 ^ 63.

(** An entry-wise operation on two one-dimensional arrays: arrays of
    one length are combined entry by entry, an array of length 1 is
    stretched, any other pair of lengths raises [ValueError]. *)
Definition broadcast {A : Type} (f : Z -> Z -> A) (xs ys : list Z) : result (list A) :=
  if Nat.eqb (List.length xs) (List.length ys) then inr (map2 f xs ys)
  else
    match xs, ys with
    | [x], _ => inr (map (f x) ys)
    | _, [y] => inr (map (fun x => f x y) xs)
    | _, _ => inl ValueError
    end.

(** [np.any(mask)]. *)
Definition any (mask : list bool) : bool := existsb (fun b => b) mask.

(** [write_image] up to its last line: the checks, then the
    [start_indices] of [self._nitf_writer.write(array,
    start_indices=tuple(startarr))].  [array_dtype] and [array_shape]
    are [array.dtype] and [array.shape]; [start] is [None] or
    [np.asarray(start)]. *)
Definition write_image (pixel_type : option string) (rows cols : Z)
  (array_dtype : dtype) (array_shape : list Z) (start : option start_array)
  : result (list Z) :=
  match PIXEL_TYPES pixel_type with
  | inl e => inl e
  | inr info =>
      if negb (dtype_eqb (dtype_of info) array_dtype) then inl ValueError
      else
        let sicd_shape := [rows; cols] in
        let start_checked :=
          match start with
          | None =>
              match broadcast (fun a b => negb (a =? b)) array_shape sicd_shape with
              | inl e => inl e
              | inr differs =>
                  if any differs then inl ValueError else inr (int_array [0; 0])
              end
          | Some startarr => inr startarr
          end in
        match start_checked with
        | inl e => inl e
        | inr other_array => inl ValueError
        | inr (int_array startarr) =>
            if any (map (fun x => x <? 0) startarr) then inl ValueError
            else
              match broadcast (fun a b => int64 (a + b)) startarr array_shape with
              | inl e => inl e
              | inr stop =>
                  match broadcast (fun a b => a >? b) stop sicd_shape with
                  | inl e => inl e
                  | inr beyond =>
                      if any beyond then inl ValueError else inr startarr
                  end
              end
        end
  end.

End Io.


(* ================================================================== *)
(** * Field updates and sample inputs                                  *)
(* ================================================================== *)

Section Fixtures.
Context {F : Type} `{Arith F}.

Definition zero3 : vec3 F := V3 (of_Z 0) (of_Z 0) (of_Z 0).

(** The metadata [m] with another [SideOfTrack], every other field
    kept. *)
Definition with_SideOfTrack (side : side_of_track) (m : MetadataParams F)
  : MetadataParams F :=
  {| Collect_Type := Collect_Type m; SCP := SCP m;
     SCP_Lat := SCP_Lat m; SCP_Lon := SCP_Lon m; SCP_HAE := SCP_HAE m;
     uRow := uRow m; uCol := uCol m;
     SideOfTrack := side;
     Grid_Type := Grid_Type m; IFA := IFA m;
     cT_COA := cT_COA m; ARP_Poly := ARP_Poly m;
     Xmt_Poly := Xmt_Poly m; Rcv_Poly := Rcv_Poly m; GRP_Poly := GRP_Poly m;
     cPA := cPA m; cKSF := cKSF m;
     ARP_SCP_COA := ARP_SCP_COA m; VARP_SCP_COA := VARP_SCP_COA m;
     Xmt_SCP_COA := Xmt_SCP_COA m; VXmt_SCP_COA := VXmt_SCP_COA m;
     Rcv_SCP_COA := Rcv_SCP_COA m; VRcv_SCP_COA := VRcv_SCP_COA m |}.

(** A monostatic RGAZIM/PFA collect around the given SCP and image
    plane axes: the ARP passes [arp0] at time 0 with velocity [varp0];
    COA time, polar angle and scale factor polynomials are the
    constants [0], [0] and [ksf0]. *)
Definition sample_mono (scp urow ucol arp0 varp0 : vec3 F) (ksf0 : F)
  : MetadataParams F :=
  {| Collect_Type := MONOSTATIC; SCP := scp;
     SCP_Lat := of_Z 0; SCP_Lon := of_Z 0; SCP_HAE := of_Z 0;
     uRow := urow; uCol := ucol;
     SideOfTrack := LEFT;
     Grid_Type := "RGAZIM"; IFA := "PFA";
     cT_COA := PLast (PLast (of_Z 0));
     ARP_Poly := PCons arp0 (PLast varp0);
     Xmt_Poly := PLast zero3; Rcv_Poly := PLast zero3; GRP_Poly := PLast zero3;
     cPA := PLast (of_Z 0); cKSF := PLast ksf0;
     ARP_SCP_COA := arp0; VARP_SCP_COA := varp0;
     Xmt_SCP_COA := zero3; VXmt_SCP_COA := zero3;
     Rcv_SCP_COA := zero3; VRcv_SCP_COA := zero3 |}.

(** A bistatic collect with the given transmit, receive and reference
    point polynomials. *)
Definition sample_bi (scp : vec3 F) (xmt rcv grp : poly (vec3 F))
  : MetadataParams F :=
  {| Collect_Type := BISTATIC; SCP := scp;
     SCP_Lat := of_Z 0; SCP_Lon := of_Z 0; SCP_HAE := of_Z 0;
     uRow := V3 (of_Z 1) (of_Z 0) (of_Z 0); uCol := V3 (of_Z 0) (of_Z 1) (of_Z 0);
     SideOfTrack := LEFT;
     Grid_Type := "RGAZIM"; IFA := "PFA";
     cT_COA := PLast (PLast (of_Z 0));
     ARP_Poly := PLast zero3;
     Xmt_Poly := xmt; Rcv_Poly := rcv; GRP_Poly := grp;
     cPA := PLast (of_Z 0); cKSF := PLast (of_Z 1);
     ARP_SCP_COA := zero3; VARP_SCP_COA := zero3;
     Xmt_SCP_COA := zero3; VXmt_SCP_COA := zero3;
     Rcv_SCP_COA := zero3; VRcv_SCP_COA := zero3 |}.

End Fixtures.

(** The unit axes. *)
Definition e_x {F : Type} `{Arith F} : vec3 F := V3 (of_Z 1) (of_Z 0) (of_Z 0).
Definition e_y {F : Type} `{Arith F} : vec3 F := V3 (of_Z 0) (of_Z 1) (of_Z 0).
Definition e_z {F : Type} `{Arith F} : vec3 F := V3 (of_Z 0) (of_Z 0) (of_Z 1).

(** An SCP on the equator at longitude 0: the WGS 84 semi-major axis
    along x. *)
Definition scp_equator {F : Type} `{Arith F} : vec3 F :=
  V3 (of_Z 6378137) (of_Z 0) (of_Z 0).

(** [1e-9] as a binary64 number. *)
Definition tol_1e_9 : spec_float := b64_of_Z 1 / b64_of_Z 1000000000.

(** [x] and [y] differ by at most [tol]: [abs(x - y) <= tol]. *)
Definition within {F : Type} `{Arith F} (tol x y : F) : bool :=
  fabs (x - y) <=? tol.

(** ** Inputs for the image grid / image plane conversions *)

(** Orthogonal unit axes at an SCP on the equator, in binary64 and in
    exact arithmetic. *)
Definition meta_orthogonal : MetadataParams spec_float :=
  sample_mono scp_equator e_x e_y (V3 (b64_of_Z 7000000) (of_Z 0) (of_Z 0)) e_y (of_Z 1).

Definition meta_orthogonal_exact : MetadataParams R :=
  sample_mono scp_equator e_x e_y (V3 7000000%R 0%R 0%R) e_y 1%R.

(** An SCP on the equator at longitude 45 degrees (6378137 m from the
    Earth's centre to the nearest metre), with two pairs of unit axes
    in the equatorial plane: [(0.6, 0.8, 0)] with [(-0.8, 0.6, 0)],
    orthogonal, and [(0.6, 0.8, 0)] with [(0.8, 0.6, 0)], 16.3 degrees
    apart. *)
Definition scp_equator_45 : vec3 spec_float :=
  V3 (b64_of_Z 4510024) (b64_of_Z 4510024) (b64_of_Z 0).

Definition axis_06_08 : vec3 spec_float :=
  V3 (b64_of_Z 6 / b64_of_Z 10) (b64_of_Z 8 / b64_of_Z 10) (b64_of_Z 0).

Definition axis_08_06 : vec3 spec_float :=
  V3 (b64_of_Z 8 / b64_of_Z 10) (b64_of_Z 6 / b64_of_Z 10) (b64_of_Z 0).

Definition meta_rotated : MetadataParams spec_float :=
  sample_mono scp_equator_45 axis_06_08
    (V3 (- (b64_of_Z 8 / b64_of_Z 10)) (b64_of_Z 6 / b64_of_Z 10) (b64_of_Z 0))
    (V3 (b64_of_Z 5000000) (b64_of_Z 5000000) (of_Z 0)) e_z (of_Z 1).

Definition meta_skewed : MetadataParams spec_float :=
  sample_mono scp_equator_45 axis_06_08 axis_08_06
    (V3 (b64_of_Z 5000000) (b64_of_Z 5000000) (of_Z 0)) e_z (of_Z 1).

(** The image grid location [(17.4, 72.6)], in metres from the SCP. *)
Definition near_offset : vec2 spec_float :=
  V2 (b64_of_Z 174 / b64_of_Z 10) (b64_of_Z 726 / b64_of_Z 10).

(** [2e-9] as a binary64 number. *)
Definition tol_2e_9 : spec_float := b64_of_Z 2 / b64_of_Z 1000000000.

(** The image grid location 30 000 km along the rows, plus [2 ** -28]
    metres. *)
Definition far_offset : vec2 spec_float :=
  V2 (b64_of_Z 30000000 + b64_of_Z 1 / b64_of_Z (2 ^ 28)) (b64_of_Z 0).

(** [uCol] equal to [uRow]: collinear axes. *)
Definition meta_collinear : MetadataParams spec_float :=
  sample_mono scp_equator e_x e_x (V3 (b64_of_Z 7000000) (of_Z 0) (of_Z 0)) e_y (of_Z 1).

Definition point_off_scp : vec3 spec_float :=
  V3 (b64_of_Z 6378138) (b64_of_Z 2) (b64_of_Z 0).

(** ** Inputs for the monostatic ground plane projection *)

(** An ARP 30 km above the plane [x = 6378137] and 40 km along z,
    flying along y at 7 km/s; the contour of range 50 km and range rate
    0 meets the plane, the one of range 20 km does not. *)
Definition ps_in_reach : ProjectionSets.mono spec_float :=
  ProjectionSets.Mono (b64_of_Z 0)
    (V3 (b64_of_Z 6408137) (b64_of_Z 0) (b64_of_Z 40000))
    (V3 (b64_of_Z 0) (b64_of_Z 7000) (b64_of_Z 0))
    (b64_of_Z 50000) (b64_of_Z 0).

Definition ps_out_of_reach : ProjectionSets.mono spec_float :=
  ProjectionSets.Mono (b64_of_Z 0)
    (V3 (b64_of_Z 6408137) (b64_of_Z 0) (b64_of_Z 40000))
    (V3 (b64_of_Z 0) (b64_of_Z 7000) (b64_of_Z 0))
    (b64_of_Z 20000) (b64_of_Z 0).

(** ** Inputs for the dispatch on the grid type *)

Definition meta_plane_grid : MetadataParams R :=
  let m := meta_orthogonal_exact in
  {| Collect_Type := Collect_Type m; SCP := SCP m;
     SCP_Lat := SCP_Lat m; SCP_Lon := SCP_Lon m; SCP_HAE := SCP_HAE m;
     uRow := uRow m; uCol := uCol m;
     SideOfTrack := SideOfTrack m;
     Grid_Type := "PLANE"; IFA := "PFA";
     cT_COA := cT_COA m; ARP_Poly := ARP_Poly m;
     Xmt_Poly := Xmt_Poly m; Rcv_Poly := Rcv_Poly m; GRP_Poly := GRP_Poly m;
     cPA := cPA m; cKSF := cKSF m;
     ARP_SCP_COA := ARP_SCP_COA m; VARP_SCP_COA := VARP_SCP_COA m;
     Xmt_SCP_COA := Xmt_SCP_COA m; VXmt_SCP_COA := VXmt_SCP_COA m;
     Rcv_SCP_COA := Rcv_SCP_COA m; VRcv_SCP_COA := VRcv_SCP_COA m |}.

(** ** Inputs for the bistatic COA positions and velocities *)

(** The transmitter moves along x from 3 m at 1 m/s; the receiver and
    the reference point stay at the origin. *)
Definition meta_bistatic_line : MetadataParams spec_float :=
  sample_bi zero3
    (PCons (V3 (b64_of_Z 3) (b64_of_Z 0) (b64_of_Z 0))
           (PLast (V3 (b64_of_Z 1) (b64_of_Z 0) (b64_of_Z 0))))
    (PLast zero3) (PLast zero3).

(** ** Inputs for the ground plane basis *)

Definition gp_scene_point : vec3 spec_float :=
  V3 (b64_of_Z 0) (b64_of_Z 0) (b64_of_Z 6378137).

Definition gp_bpdot : vec3 spec_float :=
  V3 (b64_of_Z 2) (b64_of_Z 3) (b64_of_Z 0).

(** ** Inputs for the RGAZIM/PFA contour *)

Definition origin : vec2 spec_float := V2 (b64_of_Z 0) (b64_of_Z 0).

(** The largest binary64 number, about [1.8e308]. *)
Definition b64_max : spec_float := SFmax_float prec64 emax64.

(** Finite metadata whose scale factor overflows: the polar angle is
    the constant [2] and [cKSF = [0, b64_max]], so that the scale
    factor [0 + b64_max * 2] rounds to [+inf]. *)
Definition meta_ksf_overflow : MetadataParams spec_float :=
  let m := meta_orthogonal in
  {| Collect_Type := Collect_Type m; SCP := SCP m;
     SCP_Lat := SCP_Lat m; SCP_Lon := SCP_Lon m; SCP_HAE := SCP_HAE m;
     uRow := uRow m; uCol := uCol m;
     SideOfTrack := SideOfTrack m;
     Grid_Type := Grid_Type m; IFA := IFA m;
     cT_COA := cT_COA m; ARP_Poly := ARP_Poly m;
     Xmt_Poly := Xmt_Poly m; Rcv_Poly := Rcv_Poly m; GRP_Poly := GRP_Poly m;
     cPA := PLast (b64_of_Z 2);
     cKSF := PCons (b64_of_Z 0) (PLast b64_max);
     ARP_SCP_COA := ARP_SCP_COA m; VARP_SCP_COA := VARP_SCP_COA m;
     Xmt_SCP_COA := Xmt_SCP_COA m; VXmt_SCP_COA := VXmt_SCP_COA m;
     Rcv_SCP_COA := Rcv_SCP_COA m; VRcv_SCP_COA := VRcv_SCP_COA m |}.

(** An ARP 621 863 m above the SCP on the x axis, flying along y. *)
Definition coa_above_scp : CoaPosVels.t spec_float :=
  CoaPosVels.Monostatic
    [CoaPosVels.Mono (V3 (b64_of_Z 7000000) (b64_of_Z 0) (b64_of_Z 0))
                     (V3 (b64_of_Z 0) (b64_of_Z 7000) (b64_of_Z 0))].

(** The binary64 number nearest to pi. *)
Definition b64_pi : spec_float := S754_finite false 7074237752028440 (-51).

(** A table of the two values of cosine and sine every math library
    returns exactly, [cos 0 = 1] and [sin 0 = 0]; NaN stands for the
    entries the table does not hold. *)
Definition trig_at_zero : Trig spec_float :=
  {| fcos := fun x => if x =? b64_of_Z 0 then b64_of_Z 1 else S754_nan;
     fsin := fun x => if x =? b64_of_Z 0 then x else S754_nan;
     fdeg2rad := fun x => x * (b64_pi / b64_of_Z 180) |}.

(** ** Inputs for scene to image *)

(** A side-looking monostatic collect: the ARP is 30 km above and
    40 km south of the SCP, flying along y; the image plane is the
    slant plane, rows along the line of sight. *)
Definition meta_side_looking : MetadataParams spec_float :=
  sample_mono scp_equator
    (V3 (b64_of_Z (-3) / b64_of_Z 5) (b64_of_Z 0) (b64_of_Z 4 / b64_of_Z 5)) e_y
    (V3 (b64_of_Z 6408137) (b64_of_Z 0) (b64_of_Z (-40000)))
    (V3 (b64_of_Z 0) (b64_of_Z 7000) (b64_of_Z 0)) (b64_of_Z 1).

(** A scene point 100 m north of the SCP. *)
Definition scene_point_north : vec3 spec_float :=
  V3 (b64_of_Z 6378137) (b64_of_Z 0) (b64_of_Z 100).

(** [0.001]. *)
Definition one_mm : spec_float := b64_of_Z 1 / b64_of_Z 1000.

(** ** Inputs for the projection to a surface of constant HAE *)

(** A stand-in for the geodetic library that is exact on the x axis:
    latitude 0, longitude 0, and the height above the ellipsoid is the
    distance along x from the semi-major axis. *)
Definition geocoords_x_axis : Geocoords spec_float :=
  {| ecf_to_geodetic := fun p => V3 (b64_of_Z 0) (b64_of_Z 0) (v0 p - b64_of_Z 6378137);
     geodetic_to_ecf := fun llh => V3 (b64_of_Z 6378137 + v2 llh) (b64_of_Z 0) (b64_of_Z 0) |}.

(** The metadata [m] with another [SCP_HAE], every other field kept. *)
Definition with_SCP_HAE {F : Type} (h : F) (m : MetadataParams F) : MetadataParams F :=
  {| Collect_Type := Collect_Type m; SCP := SCP m;
     SCP_Lat := SCP_Lat m; SCP_Lon := SCP_Lon m; SCP_HAE := h;
     uRow := uRow m; uCol := uCol m;
     SideOfTrack := SideOfTrack m;
     Grid_Type := Grid_Type m; IFA := IFA m;
     cT_COA := cT_COA m; ARP_Poly := ARP_Poly m;
     Xmt_Poly := Xmt_Poly m; Rcv_Poly := Rcv_Poly m; GRP_Poly := GRP_Poly m;
     cPA := cPA m; cKSF := cKSF m;
     ARP_SCP_COA := ARP_SCP_COA m; VARP_SCP_COA := VARP_SCP_COA m;
     Xmt_SCP_COA := Xmt_SCP_COA m; VXmt_SCP_COA := VXmt_SCP_COA m;
     Rcv_SCP_COA := Rcv_SCP_COA m; VRcv_SCP_COA := VRcv_SCP_COA m |}.

(** Metadata whose [SCP_HAE] is recorded 1000 m above the height of
    its SCP. *)
Definition meta_scp_hae_off : MetadataParams spec_float :=
  with_SCP_HAE (b64_of_Z 1000) meta_side_looking.


(** ** Further inputs *)

(** The metadata [m] with another [Grid_Type], every other field
    kept. *)
Definition with_Grid_Type {F : Type} (g : string) (m : MetadataParams F)
  : MetadataParams F :=
  {| Collect_Type := Collect_Type m; SCP := SCP m;
     SCP_Lat := SCP_Lat m; SCP_Lon := SCP_Lon m; SCP_HAE := SCP_HAE m;
     uRow := uRow m; uCol := uCol m;
     SideOfTrack := SideOfTrack m;
     Grid_Type := g; IFA := IFA m;
     cT_COA := cT_COA m; ARP_Poly := ARP_Poly m;
     Xmt_Poly := Xmt_Poly m; Rcv_Poly := Rcv_Poly m; GRP_Poly := GRP_Poly m;
     cPA := cPA m; cKSF := cKSF m;
     ARP_SCP_COA := ARP_SCP_COA m; VARP_SCP_COA := VARP_SCP_COA m;
     Xmt_SCP_COA := Xmt_SCP_COA m; VXmt_SCP_COA := VXmt_SCP_COA m;
     Rcv_SCP_COA := Rcv_SCP_COA m; VRcv_SCP_COA := VRcv_SCP_COA m |}.

(** The side-looking collect on an RGZERO grid. *)
Definition meta_rgzero : MetadataParams spec_float :=
  with_Grid_Type "RGZERO" meta_side_looking.

(** An ARP that moves along the normal of the plane [x = 6378137]. *)
Definition ps_vertical_velocity : ProjectionSets.mono spec_float :=
  ProjectionSets.Mono (b64_of_Z 0)
    (V3 (b64_of_Z 6408137) (b64_of_Z 0) (b64_of_Z 40000))
    (V3 (b64_of_Z 7000) (b64_of_Z 0) (b64_of_Z 0))
    (b64_of_Z 50000) (b64_of_Z 0).

(** A monostatic collect whose ARP flies straight at the SCP. *)
Definition meta_radial_velocity : MetadataParams spec_float :=
  sample_mono scp_equator e_x e_y
    (V3 (b64_of_Z 7000000) (b64_of_Z 0) (b64_of_Z 0))
    (V3 (b64_of_Z 7000) (b64_of_Z 0) (b64_of_Z 0)) (b64_of_Z 1).

(** The scene points of the scene to image runs, and the values
    [scene_to_image] computes from them and from [meta_side_looking]
    before its loop. *)
Definition two_scene_points : list (vec3 spec_float) :=
  [scene_point_north; scp_equator].

Definition side_looking_u_gpn : list (vec3 spec_float) :=
  map (fun si => vdivs si (vnorm si)) two_scene_points.

Definition side_looking_u_proj : vec3 spec_float :=
  compute_scp_coa_slant_plane_normal meta_side_looking.

Definition side_looking_u_ipn : vec3 spec_float :=
  let ipn := cross (uRow meta_side_looking) (uCol meta_side_looking) in
  vdivs ipn (vnorm ipn).

Definition side_looking_sf : spec_float :=
  vdot side_looking_u_proj side_looking_u_ipn.

(** A bistatic collect around the SCP on the equator, and a projection
    set whose transmitter and receiver are at one place, 30 km above
    the SCP and 40 km from it along z, with one velocity; their
    average range to the SCP is 50 km. *)
Definition meta_bistatic_equator : MetadataParams spec_float :=
  sample_bi scp_equator (PLast zero3) (PLast zero3) (PLast zero3).

Definition ps_bistatic : ProjectionSets.bi spec_float :=
  ProjectionSets.Bi (b64_of_Z 0) None None
    (V3 (b64_of_Z 6408137) (b64_of_Z 0) (b64_of_Z (-40000)))
    (V3 (b64_of_Z 0) (b64_of_Z 7000) (b64_of_Z 0))
    (V3 (b64_of_Z 6408137) (b64_of_Z 0) (b64_of_Z (-40000)))
    (V3 (b64_of_Z 0) (b64_of_Z 7000) (b64_of_Z 0))
    (b64_of_Z 50000) (b64_of_Z 0).

(** Metadata whose [SCP_HAE] is recorded 1000 m below the height of
    its SCP. *)
Definition meta_scp_hae_below : MetadataParams spec_float :=
  with_SCP_HAE (b64_of_Z (-1000)) meta_side_looking.

(** ** Inputs in exact arithmetic *)

Definition origin_exact : vec3 R := V3 0%R 0%R 0%R.
Definition x_axis_exact : vec3 R := V3 1%R 0%R 0%R.
Definition y_axis_exact : vec3 R := V3 0%R 1%R 0%R.
Definition z_axis_exact : vec3 R := V3 0%R 0%R 1%R.

(** The real numbers have no NaN; a projection that meets none of the
    no-solution tests never reads this stand-in. *)
Definition no_nan : Special R := {| fnan := 0%R; fisfinite := fun _ => true |}.

(** An ARP 3 m above the plane [x = 0] and 4 m along z, flying along y
    at 7 m/s, with the contour of range 5 m and range rate 0. *)
Definition ps_in_reach_exact : ProjectionSets.mono R :=
  ProjectionSets.Mono 0%R (V3 3 0 4)%R (V3 0 7 0)%R 5%R 0%R.

(** A bistatic pointing vector at 45 degrees from the x axis. *)
Definition bp_diagonal_exact : vec3 R := V3 1%R 1%R 0%R.

(** Transmitter and receiver at the same place, 1 m from the origin
    along x, both moving along y at 1 m/s. *)
Definition coa_colocated_exact : CoaPosVels.bi R :=
  CoaPosVels.Bi None None None x_axis_exact y_axis_exact x_axis_exact y_axis_exact.

(** The scene point parameters of a batch of two: the origin, twice,
    seen from the colocated pair. *)
Definition colocated_pair_exact : list (ScenePointRRdotParams R) :=
  pt_r_rdot_parameters_bi meta_orthogonal_exact
    [coa_colocated_exact; coa_colocated_exact] [origin_exact; origin_exact].
(* ================================================================== *)
(** * Notions the statements use                                       *)
(* ================================================================== *)

(** ** binary64 values *)

Definition is_zero (x : spec_float) : Prop := exists s, x = S754_zero s.

(** Equal as numbers ([x == y]), or both NaN: the same float but
    possibly for the sign of a zero. *)
Definition same_value (x y : spec_float) : Prop :=
  x = y \/ (is_zero x /\ is_zero y).

Definition zero_or_nan (x : spec_float) : Prop := is_zero x \/ x = S754_nan.

(** A number below zero, and a number that is zero or above. *)
Definition b64_negative (x : spec_float) : Prop :=
  match x with
  | S754_finite true _ _ | S754_infinity true => True
  | _ => False
  end.

Definition b64_nonneg (x : spec_float) : Prop :=
  match x with
  | S754_zero _ | S754_finite false _ _ | S754_infinity false => True
  | _ => False
  end.

(** ** The specification's formulas, where the code departs from them *)

Section SpecificationFormulas.
Context {F : Type} `{Arith F}.

(** The transmit and receive times as the specification words them,
    point by point: [tx_COA = t_COA - |Xmt_Poly(t_COA) - GRP_Poly(t_COA)| / c]
    and [tr_COA = t_COA + |Rcv_Poly(t_COA) - GRP_Poly(t_COA)| / c]. *)
Definition tx_COA_pointwise (meta : MetadataParams F) (t_coa : F) : F :=
  t_coa - vnorm (vsub (_xyzpolyval t_coa (Xmt_Poly meta))
                      (_xyzpolyval t_coa (GRP_Poly meta))) / speed_of_light.

Definition tr_COA_pointwise (meta : MetadataParams F) (t_coa : F) : F :=
  t_coa + vnorm (vsub (_xyzpolyval t_coa (Rcv_Poly meta))
                      (_xyzpolyval t_coa (GRP_Poly meta))) / speed_of_light.

(** The transmit and receive times [compute_coa_pos_vel] returns. *)
Definition tx_COA_of (c : CoaPosVels.t F) : list (option F) :=
  match c with
  | CoaPosVels.Monostatic _ => []
  | CoaPosVels.Bistatic pts => map (@CoaPosVels.tx_COA F) pts
  end.

Definition tr_COA_of (c : CoaPosVels.t F) : list (option F) :=
  match c with
  | CoaPosVels.Monostatic _ => []
  | CoaPosVels.Bistatic pts => map (@CoaPosVels.tr_COA F) pts
  end.

(** [M_RRdot_GPXY] as the specification words it: first row
    [-(bP.uGX), 0], second row [-(bPDot.uGX), -(bPDot.uGY)]. *)
Definition M_RRdot_GPXY_by_rows (bp bpdot ugx ugy : vec3 F) : mat2 F :=
  mat2_neg (M2 (vsum (vmul bp ugx)) (of_Z 0)
               (vsum (vmul bpdot ugx)) (vsum (vmul bpdot ugy))).

Definition mat2_transpose (m : mat2 F) : mat2 F :=
  M2 (m00 m) (m10 m) (m01 m) (m11 m).

End SpecificationFormulas.

(** ** The RGAZIM/PFA contour *)

(** The polar angle, its rate, the scale factor and its derivative
    evaluate to finite numbers at the COA time [t], and so do the
    cosine and the sine of the polar angle. *)
Definition pfa_finite_at {T : Trig spec_float}
  (meta : MetadataParams spec_float) (t : spec_float) : Prop :=
  let theta := polyval t (cPA meta) in
  fisfinite (fcos theta) = true
  /\ fisfinite (fsin theta) = true
  /\ fisfinite (polyval t (polyder (cPA meta))) = true
  /\ fisfinite (polyval theta (cKSF meta)) = true
  /\ fisfinite (polyval theta (polyder (cKSF meta))) = true.

(** ** The loops *)

(** What a pass of [scene_to_image] leaves behind: the displacements
    are those of the ground plane points now held, and [success] was
    computed from these displacements and the flags now held. *)
Definition s2i_settled (s : list (vec3 spec_float)) (delta_gp_s2i : spec_float)
  (st : s2i_state) : Prop :=
  s2i_delta_gp st = map vnorm (map2 vsub s (s2i_p st))
  /\ s2i_success st
     = forallb (fun d => d <=? delta_gp_s2i) (s2i_delta_gp st)
       && forallb (fun b => b) (s2i_r_rdot_to_ground_success st).

(** Monostatic: the flag of a point says whether its ground plane
    point is finite. *)
Definition s2i_flags_finite (st : s2i_state (F := spec_float)) : Prop :=
  s2i_r_rdot_to_ground_success st = map isfinite3 (s2i_p st).

(** Point [i] is out of the iteration of
    [r_rdot_to_constant_hae_surface]: it is not above the threshold,
    and holds the height difference [d] and the ground plane point
    [gp]. *)
Definition hae_frozen_at (i : nat) (d : spec_float) (gp : vec3 spec_float)
  (st : hae_state) : Prop :=
  nth_error (hae_above_threshold st) i = Some false
  /\ nth_error (hae_delta_hae st) i = Some d
  /\ nth_error (hae_gpp st) i = Some gp.

(** ** Proof steps *)

(** Inverts [x <- c ;; k = inr _]: [c] returned. *)
Ltac bind_inv_as H x E :=
  match type of H with
  | bind ?c _ = inr _ =>
      destruct c as [|x] eqn:E; [discriminate H|]; cbn [bind] in H
  end.

Tactic Notation "bind_inv" hyp(H) "as" ident(x) ident(E) := bind_inv_as H x E.


(* ================================================================== *)
(** * Further notions                                                  *)
(* ================================================================== *)

(** ** Points and matrices in binary64 *)

(** Two points with the same coordinates, but possibly for the sign of
    a zero. *)
Definition same_point (a b : vec3 spec_float) : Prop :=
  same_value (v0 a) (v0 b) /\ same_value (v1 a) (v1 b) /\ same_value (v2 a) (v2 b).

Definition mat2_isfinite (m : mat2 spec_float) : bool :=
  fisfinite (m00 m) && fisfinite (m01 m) && fisfinite (m10 m) && fisfinite (m11 m).

(** ** The monostatic ground plane projection *)

Section MonostaticNoSolution.
Context {F : Type} {AR : Arith F} {SP : Special F}.

(** [vx] of [r_rdot_to_ground_plane_mono] before its no-solution test:
    the speed of the ARP along the ground plane. *)
Definition mono_vx (ps : ProjectionSets.mono F) (uz : vec3 F) : F :=
  let VARP := ProjectionSets.VARP_COA ps in
  let vz := vsum (vmul VARP uz) in
  fsqrt (vsum (vmap sq VARP) - sq vz).

(** [cos_az] of [r_rdot_to_ground_plane_mono] before its no-solution
    test. *)
Definition mono_cos_az (ps : ProjectionSets.mono F) (gref uz : vec3 F) : F :=
  let VARP := ProjectionSets.VARP_COA ps in
  let R_ := ProjectionSets.R_COA ps in
  let Rdot := ProjectionSets.Rdot_COA ps in
  let arpz0 := mono_arpz ps gref uz in
  let arpz := if fabs arpz0 >? R_ then fnan else arpz0 in
  let g := fsqrt (sq R_ - sq arpz) in
  let cos_graz := g / R_ in
  let sin_graz := arpz / R_ in
  let vz := vsum (vmul VARP uz) in
  let vx0 := mono_vx ps uz in
  let vx := if vx0 =? of_Z 0 then fnan else vx0 in
  (- Rdot + vz * sin_graz) / (vx * cos_graz).

End MonostaticNoSolution.

(** ** The loops, continued *)

(** The arrays [scene_to_image] returns, and its array of ground plane
    points, have one entry per scene point. *)
Definition s2i_shape {F : Type} (s : list (vec3 F)) (st : s2i_state (F := F)) : Prop :=
  List.length (s2i_image_grid_locations st) = List.length s
  /\ List.length (s2i_delta_gp st) = List.length s
  /\ List.length (s2i_p st) = List.length s.

(** Point [i] is out of the iteration of [scene_to_image]: it is not
    above the threshold, and holds the image grid location [il] (if
    the array has a place [i]), the displacement [d] and the ground
    plane point [p]. *)
Definition s2i_frozen_at (i : nat) (il : option (vec2 spec_float)) (d : spec_float)
  (p : vec3 spec_float) (st : s2i_state) : Prop :=
  nth_error (s2i_above_threshold st) i = Some false
  /\ nth_error (s2i_image_grid_locations st) i = il
  /\ nth_error (s2i_delta_gp st) i = Some d
  /\ nth_error (s2i_p st) i = Some p.

(** The number of height differences above the threshold. *)
Definition hae_count_above (delta_hae_max : spec_float) (delta_hae : list spec_float)
  : nat :=
  List.length (filter (fun d => d >? delta_hae_max) delta_hae).

(** What the loop of [r_rdot_to_constant_hae_surface] leaves behind
    after at least one pass: the mask and [success] come from the
    height differences and the flags now held, and when [success] is
    false the update of the ground planes went through. *)
Definition hae_settled (delta_hae_max : spec_float) (st : hae_state) : Prop :=
  hae_above_threshold st = map (fun d => d >? delta_hae_max) (hae_delta_hae st)
  /\ hae_success st
     = forallb (fun d => d <=? delta_hae_max) (hae_delta_hae st)
       && forallb (fun b => b) (hae_r_rdot_to_plane_success st)
  /\ (hae_success st = false ->
      hae_count_above delta_hae_max (hae_delta_hae st) = 1%nat
      \/ hae_count_above delta_hae_max (hae_delta_hae st) = 3%nat).

(** ** Geometry in exact arithmetic *)

(** The point [A - a U + p X + q Y]: [r_rdot_to_ground_plane_mono]
    builds its ground plane point in this form, from the ARP [A], the
    plane's normal [U] and the two directions [X], [Y] in the plane. *)
Definition frame_point (A U X Y : vec3 R) (a p q : R) : vec3 R :=
  vadd (vadd (vsub A (vscale a U)) (vscale p X)) (vscale q Y).

(** The sum of the squared lengths of the vectors of a batch. *)
Fixpoint sum_sq_lengths (l : list (vec3 R)) : R :=
  match l with
  | [] => 0%R
  | a :: l' => (vdot a a + sum_sq_lengths l')%R
  end.

(** ** Image segmentation *)

(** The number of rows per segment the writer settles on: all the rows
    when the image fits one segment, the integer
    [min(iloc_max, is_size_max // bytes_per_row)] otherwise. *)
Definition rows_per_segment (bytes_per_row rows : Z) : Z :=
  if (bytes_per_row * rows <=? Io.is_size_max)%Z then rows
  else Z.min Io.iloc_max (Io.is_size_max / bytes_per_row)%Z.

(** A check of all the integers from [0] up to [n], excluded. *)
Definition forall_below (P : Z -> bool) (n : N) : bool :=
  snd (N.iter n (fun s => (fst s + 1, snd s && P (fst s))%Z) (0%Z, true)).
(* ================================================================== *)
(** * binary64 numbers as real numbers                                 *)
(* ================================================================== *)

(** ** Rounding *)

(** What a shift record knows of the bits shifted out of [m]: the
    mantissa left is [q], and the round and sticky bits compare the
    remainder with half of [2 ** n]. *)
Definition shr_inv (m n : Z) (mrs : shr_record) : Prop :=
  exists rem : Z,
    (m = shr_m mrs * 2 ^ n + rem /\ 0 <= rem < 2 ^ n
     /\ match shr_r mrs, shr_s mrs with
        | false, false => rem = 0
        | false, true => 0 < 2 * rem < 2 ^ n
        | true, false => 2 * rem = 2 ^ n
        | true, true => 2 ^ n < 2 * rem
        end)%Z.

(** The binary64 number of sign [s] and mantissa [m] at the exponent
    [e], as [binary_round_aux] builds it once the mantissa has at most
    53 bits or is [2 ** 53]. *)
Definition b64_pack (s : bool) (m e : Z) : spec_float :=
  match m with
  | Z0 => S754_zero s
  | Zpos p =>
      if (m =? 2 ^ 53)%Z then
        if (e + 1 <=? emax64 - prec64)%Z then S754_finite s (Z.to_pos (2 ^ 52)) (e + 1)
        else S754_infinity s
      else if (e <=? emax64 - prec64)%Z then S754_finite s p e
      else S754_infinity s
  | Zneg _ => S754_nan
  end.

(** ** Values *)

(** [2 ** k] as a real number, for any integer [k]. *)
Definition bpow (k : Z) : R :=
  if (0 <=? k)%Z then IZR (2 ^ k) else (/ IZR (2 ^ (- k)))%R.

(** The real number a binary64 number stands for ([0] for what is not
    a number). *)
Definition b64_value (x : spec_float) : R :=
  match x with
  | S754_finite s m e => ((if s then -1 else 1) * IZR (Z.pos m) * bpow e)%R
  | _ => 0%R
  end.

(** A binary64 number: a zero, or a finite float whose mantissa and
    exponent are those of the format. *)
Definition b64_number (x : spec_float) : bool :=
  match x with
  | S754_zero _ => true
  | S754_finite _ m e => bounded prec64 emax64 m e
  | _ => false
  end.

Definition err (k : Z) : R := bpow (Z.max (k - 53) (-1074) - 1).

(** A float of the binary64 format: an infinity, NaN, a zero, or a
    finite float whose mantissa and exponent are those of the format. *)
Definition b64_valid (x : spec_float) : bool := valid_binary prec64 emax64 x.

Definition vec3_valid (a : vec3 spec_float) : bool :=
  b64_valid (v0 a) && b64_valid (v1 a) && b64_valid (v2 a).

(** ** Magnitudes, unit vectors and orthogonal vectors *)

(** Numbers of magnitude at most [bound]. *)
Definition b64_bounded (bound x : spec_float) : bool :=
  b64_number x && (fabs x <=? bound).

Definition vec3_bounded (bound : spec_float) (a : vec3 spec_float) : bool :=
  b64_bounded bound (v0 a) && b64_bounded bound (v1 a) && b64_bounded bound (v2 a).

(** [2 ** -50] and [2 ** -28]. *)
Definition two_pow_m50 : spec_float := S754_finite false (Z.to_pos (2 ^ 52)) (-102).
Definition two_pow_m28 : spec_float := S754_finite false (Z.to_pos (2 ^ 52)) (-80).

(** A unit vector, as binary64 has it: components of magnitude at most
    1, and [np.dot(u, u)] within [2 ** -50] of 1. *)
Definition unit_to_rounding (u : vec3 spec_float) : bool :=
  vec3_bounded (of_Z 1) u && (fabs (vdot u u - of_Z 1) <=? two_pow_m50).

(** Orthogonal vectors, as binary64 has them: [np.dot(u, v)] is at most
    [2 ** -28] in magnitude. *)
Definition orthogonal_to_rounding (u v : vec3 spec_float) : bool :=
  fabs (vdot u v) <=? two_pow_m28.

(** The SCP, the axes and an image grid location for which the round
    trip is shown to stay within the tolerance. *)
Definition round_trip_metadata (meta : MetadataParams spec_float) : bool :=
  vec3_bounded (of_Z 8323072) (SCP meta)
  && unit_to_rounding (uRow meta) && unit_to_rounding (uCol meta)
  && orthogonal_to_rounding (uRow meta) (uCol meta).

Definition round_trip_location (il : vec2 spec_float) : bool :=
  b64_bounded (of_Z 16384) (w0 il) && b64_bounded (of_Z 16384) (w1 il).

Definition within2 (tol : spec_float) (a b : vec2 spec_float) : bool :=
  within tol (w0 a) (w0 b) && within tol (w1 a) (w1 b).

(** ** The direction of the SCP COA slant plane normal *)

(** The vector [compute_scp_coa_slant_plane_normal] scales by the look
    sign and normalises: [(ARP_SCP_COA - SCP) x VARP_SCP_COA] for a
    monostatic collect, [bp x bpdot] for a bistatic one. *)
Definition spn_direction {F : Type} {AR : Arith F} (proj_metadata : MetadataParams F)
  : vec3 F :=
  if is_monostatic proj_metadata then
    cross (vsub (ARP_SCP_COA proj_metadata) (SCP proj_metadata))
          (VARP_SCP_COA proj_metadata)
  else
    let bistatic_results := _scp_r_rdot_projection_contour_bistatic proj_metadata in
    cross (bp_scp_coa bistatic_results) (bpdot_scp_coa bistatic_results).

(** ** The inner projections of [scene_to_image] *)

(** The place of point [i] among the points a mask selects: the number
    of selected points before it. *)
Fixpoint rank (mask : list bool) (i : nat) : nat :=
  match mask, i with
  | b :: m, S j => (if b then 1 else 0) + rank m j
  | _, _ => 0
  end.

(** Point [i] of the batch [s], with the image grid location [il_i],
    the ground plane point [P] and the flag [flag], comes out of an
    inner projection: a call of [r_rdot_to_ground_plane_mono] or
    [r_rdot_to_ground_plane_bi] on the points a mask selects, point
    [i] among them, with the projection sets of their image grid
    locations, that of point [i] being [il_i].  [P] is the entry of
    point [i] in the ground plane points the call returned.
    Monostatic: [flag] says that [P] is finite.  Bistatic: [flag] is
    the [success] the solver returned, which says that it ran a pass
    and that every displacement it returned is within
    [bistat_delta_gp_gpp]. *)
Definition s2i_projected {T : Trig spec_float}
  (proj_metadata : MetadataParams spec_float) (s : list (vec3 spec_float))
  (bistat_delta_gp_gpp : spec_float) (bistat_maxiter : nat)
  (i : nat) (il_i : vec2 spec_float) (P : vec3 spec_float) (flag : bool) : Prop :=
  let u_gpn := map (fun si => vdivs si (vnorm si)) s in
  exists (mask : list bool) (il : list (vec2 spec_float))
         (projection_sets : ProjectionSets.t spec_float),
    nth_error mask i = Some true
    /\ nth_error il i = Some il_i
    /\ compute_projection_sets proj_metadata (select mask il) = inr projection_sets
    /\ if is_monostatic proj_metadata then
         exists pa,
           r_rdot_to_ground_plane_mono proj_metadata projection_sets
             (select mask s) (select mask u_gpn) = inr pa
           /\ nth_error pa (rank mask i) = Some P
           /\ flag = isfinite3 P
       else
         exists pa dgp ok,
           r_rdot_to_ground_plane_bi proj_metadata projection_sets
             (select mask s) (select mask u_gpn)
             bistat_delta_gp_gpp bistat_maxiter = inr (pa, dgp, ok)
           /\ nth_error pa (rank mask i) = Some P
           /\ flag = ok
           /\ (ok = true <->
               bistat_maxiter <> O
               /\ Forall (fun d => (d <=? bistat_delta_gp_gpp) = true) dgp).

(** Before a pass: the points that are out of the iteration hold the
    values of an inner projection. *)
Definition s2i_frozen_projected {T : Trig spec_float}
  (proj_metadata : MetadataParams spec_float) (s : list (vec3 spec_float))
  (bistat_delta_gp_gpp : spec_float) (bistat_maxiter : nat)
  (st : s2i_state (F := spec_float)) : Prop :=
  forall i il_i P flag,
    nth_error (s2i_above_threshold st) i = Some false ->
    nth_error (s2i_image_grid_locations st) i = Some il_i ->
    nth_error (s2i_p st) i = Some P ->
    nth_error (s2i_r_rdot_to_ground_success st) i = Some flag ->
    s2i_projected proj_metadata s bistat_delta_gp_gpp bistat_maxiter i il_i P flag.

(** After a pass: every point does. *)
Definition s2i_all_projected {T : Trig spec_float}
  (proj_metadata : MetadataParams spec_float) (s : list (vec3 spec_float))
  (bistat_delta_gp_gpp : spec_float) (bistat_maxiter : nat)
  (st : s2i_state (F := spec_float)) : Prop :=
  forall i il_i P flag,
    nth_error (s2i_image_grid_locations st) i = Some il_i ->
    nth_error (s2i_p st) i = Some P ->
    nth_error (s2i_r_rdot_to_ground_success st) i = Some flag ->
    s2i_projected proj_metadata s bistat_delta_gp_gpp bistat_maxiter i il_i P flag.

(** The arrays of the loop have one entry per scene point. *)
Definition s2i_lengths (s : list (vec3 spec_float)) (st : s2i_state (F := spec_float)) : Prop :=
  List.length (s2i_g st) = List.length s
  /\ List.length (s2i_image_grid_locations st) = List.length s
  /\ List.length (s2i_p st) = List.length s
  /\ List.length (s2i_above_threshold st) = List.length s
  /\ List.length (s2i_r_rdot_to_ground_success st) = List.length s.

(* ================================================================== *)
(** * Facts about binary64 arithmetic                                  *)
(* ================================================================== *)

Lemma b64_mul_nan_l (x : spec_float) : S754_nan * x = S754_nan.
Proof. reflexivity. Qed.

Lemma b64_mul_nan_r (x : spec_float) : x * S754_nan = S754_nan.
Proof. destruct x; reflexivity. Qed.

Lemma b64_add_nan_l (x : spec_float) : S754_nan + x = S754_nan.
Proof. reflexivity. Qed.

Lemma b64_add_nan_r (x : spec_float) : x + S754_nan = S754_nan.
Proof. destruct x; reflexivity. Qed.

Lemma b64_sub_nan_l (x : spec_float) : S754_nan - x = S754_nan.
Proof. reflexivity. Qed.

Lemma b64_sub_nan_r (x : spec_float) : x - S754_nan = S754_nan.
Proof. destruct x; reflexivity. Qed.

(** The sign of a product or quotient is the exclusive or of the signs
    and rounding to nearest even is symmetric, so negation commutes
    with both. *)
Lemma b64_round_opp (s : bool) (m e : Z) (l : location) :
  binary_round_aux prec64 emax64 (negb s) m e l
  = SFopp (binary_round_aux prec64 emax64 s m e l).
Proof.
  unfold binary_round_aux.
  destruct (shr_fexp prec64 emax64 m e l) as [mrs e'].
  destruct (shr_fexp prec64 emax64 _ e' loc_Exact) as [mrs2 e2].
  destruct (shr_m mrs2); try reflexivity.
  destruct (Z.leb e2 (emax64 - prec64)); reflexivity.
Qed.

Lemma b64_mul_opp_l (x y : spec_float) : (- x) * y = - (x * y).
Proof.
  destruct x as [sx|sx| |sx mx ex], y as [sy|sy| |sy my ey]; try reflexivity;
    try (cbn; destruct sx, sy; reflexivity).
  cbn [fmul fneg Binary64 SFopp SFmul].
  rewrite <- b64_round_opp. destruct sx, sy; reflexivity.
Qed.

Lemma b64_mul_opp_r (x y : spec_float) : x * (- y) = - (x * y).
Proof.
  destruct x as [sx|sx| |sx mx ex], y as [sy|sy| |sy my ey]; try reflexivity;
    try (cbn; destruct sx, sy; reflexivity).
  cbn [fmul fneg Binary64 SFopp SFmul].
  rewrite <- b64_round_opp. destruct sx, sy; reflexivity.
Qed.

Lemma b64_opp_involutive (x : spec_float) : - (- x) = x.
Proof. destruct x as [s|s| |s m e]; try reflexivity; destruct s; reflexivity. Qed.

Lemma b64_mul_opp_opp (x y : spec_float) : (- x) * (- y) = x * y.
Proof. rewrite b64_mul_opp_l, b64_mul_opp_r. apply b64_opp_involutive. Qed.

Lemma b64_div_opp_l (x y : spec_float) : (- x) / y = - (x / y).
Proof.
  destruct x as [sx|sx| |sx mx ex], y as [sy|sy| |sy my ey]; try reflexivity;
    try (cbn; destruct sx, sy; reflexivity).
  cbn [fdiv fneg Binary64 SFopp SFdiv].
  destruct (SFdiv_core_binary prec64 emax64 (Z.pos mx) ex (Z.pos my) ey) as [[mz ez] lz].
  rewrite <- b64_round_opp. destruct sx, sy; reflexivity.
Qed.

(** A product with a non-finite factor, and a sum of two non-finite
    terms, are not finite. *)
Lemma b64_mul_nonfinite_l (x y : spec_float) :
  fisfinite x = false -> fisfinite (x * y) = false.
Proof.
  destruct x as [sx|sx| |sx mx ex]; try discriminate; intros _;
    destruct y; reflexivity.
Qed.

Lemma b64_add_nonfinite (x y : spec_float) :
  fisfinite x = false -> fisfinite y = false -> fisfinite (x + y) = false.
Proof.
  destruct x as [sx|sx| |sx mx ex]; try discriminate; intros _;
    destruct y as [sy|sy| |sy my ey]; try discriminate; intros _;
    try reflexivity.
  destruct sx, sy; reflexivity.
Qed.

Lemma b64_eqb_zero (x : spec_float) : (x =? of_Z 0) = true -> is_zero x.
Proof.
  destruct x as [s|s| |s m e]; cbn.
  - intros _. now exists s.
  - destruct s; discriminate.
  - discriminate.
  - destruct s; discriminate.
Qed.


(* ================================================================== *)
(** * binary64 rounding, value by value                                *)
(* ================================================================== *)

Section Digits.
Local Open Scope Z_scope.

Lemma digits2_pos_log2 (p : positive) : Z.pos (digits2_pos p) = Z.log2 (Z.pos p) + 1.
Proof.
  induction p as [p IH | p IH |]; cbn [digits2_pos]; try reflexivity.
  - rewrite Pos2Z.inj_succ, IH, Pos2Z.inj_xI. rewrite Z.log2_succ_double; lia.
  - rewrite Pos2Z.inj_succ, IH, Pos2Z.inj_xO. rewrite Z.log2_double; lia.
Qed.

Lemma Zdigits2_bounds (q d : Z) :
  0 < d -> 2 ^ (d - 1) <= q < 2 ^ d -> Zdigits2 q = d.
Proof.
  intros Hd [Hlo Hhi].
  assert (0 < q) by (assert (0 < 2 ^ (d - 1)) by (apply Z.pow_pos_nonneg; lia); lia).
  destruct q as [|p|p]; try lia. cbn [Zdigits2]. rewrite digits2_pos_log2.
  assert (Z.log2 (Z.pos p) = d - 1); [|lia].
  apply Z.log2_unique; [lia|]. replace (Z.succ (d - 1)) with d by lia. lia.
Qed.

Lemma Zdigits2_upper (q d : Z) : 0 <= d -> 0 <= q < 2 ^ d -> Zdigits2 q <= d.
Proof.
  intros Hd [Hlo Hhi]. destruct q as [|p|p]; cbn [Zdigits2]; try lia.
  rewrite digits2_pos_log2.
  assert (Z.log2 (Z.pos p) < d); [|lia].
  apply Z.log2_lt_pow2; lia.
Qed.

Lemma Zdigits2_nonneg (q : Z) : 0 <= Zdigits2 q.
Proof. destruct q; cbn; lia. Qed.

Lemma loc_of_shr_record_of_loc (m : Z) (l : location) :
  loc_of_shr_record (shr_record_of_loc m l) = l.
Proof. destruct l as [|[]]; reflexivity. Qed.

Lemma shr_m_record_of_loc (m : Z) (l : location) : shr_m (shr_record_of_loc m l) = m.
Proof. destruct l as [|[]]; reflexivity. Qed.

Lemma fexp64 (x : Z) : fexp prec64 emax64 x = Z.max (x - 53) (-1074).
Proof. reflexivity. Qed.

Lemma shr_fexp_keep (m e : Z) (l : location) :
  0 <= m < 2 ^ 53 -> -1074 <= e -> 2 ^ 52 <= m \/ e = -1074 ->
  shr_fexp prec64 emax64 m e l = (shr_record_of_loc m l, e).
Proof.
  intros Hm He Hc. unfold shr_fexp. rewrite fexp64.
  assert (Hn : Z.max (Zdigits2 m + e - 53) (-1074) - e <= 0).
  { destruct Hc as [Hlo | ->].
    - rewrite (@Zdigits2_bounds m 53) by lia. lia.
    - pose proof (@Zdigits2_upper m 53 ltac:(lia) Hm). lia. }
  unfold shr. destruct (Z.max _ _ - e); try reflexivity. lia.
Qed.

Lemma shr_fexp_one (m e : Z) (l : location) :
  2 ^ 53 <= m < 2 ^ 54 -> -1074 <= e ->
  shr_fexp prec64 emax64 m e l = (shr_1 (shr_record_of_loc m l), e + 1).
Proof.
  intros Hm He. unfold shr_fexp. rewrite fexp64.
  rewrite (@Zdigits2_bounds m 54) by lia.
  replace (Z.max (54 + e - 53) (-1074) - e) with 1 by lia. reflexivity.
Qed.

Lemma round_nearest_even_cases (m : Z) (l : location) :
  round_nearest_even m l = m \/ (l <> loc_Exact /\ l <> loc_Inexact Lt /\ round_nearest_even m l = m + 1).
Proof.
  destruct l as [|[]]; cbn; auto.
  - destruct (Z.even m); [auto|]. right. repeat split; congruence.
  - right. repeat split; congruence.
Qed.

Lemma Zdigits2_pos_bounds (p : positive) :
  2 ^ (Zdigits2 (Z.pos p) - 1) <= Z.pos p < 2 ^ Zdigits2 (Z.pos p).
Proof.
  cbn [Zdigits2]. rewrite digits2_pos_log2.
  replace (Z.log2 (Z.pos p) + 1 - 1) with (Z.log2 (Z.pos p)) by lia.
  pose proof (Z.log2_spec (Z.pos p) ltac:(lia)) as H.
  replace (Z.succ (Z.log2 (Z.pos p))) with (Z.log2 (Z.pos p) + 1) in H by lia.
  exact H.
Qed.

End Digits.

(** ** Shift records and rounding to nearest even *)

Section ShiftRecords.
Local Open Scope Z_scope.

(** [iter_pos] is iteration. *)
Lemma iter_pos_nat {A : Type} (f : A -> A) (p : positive) (x : A) :
  iter_pos f p x = Nat.iter (Pos.to_nat p) f x.
Proof.
  revert x. induction p as [p IH | p IH |]; intros x; cbn [iter_pos].
  - rewrite !IH, Pos2Nat.inj_xI.
    replace (2 * Pos.to_nat p)%nat with (Pos.to_nat p + Pos.to_nat p)%nat by lia.
    now rewrite Nat.iter_succ_r, Nat.iter_add.
  - rewrite !IH, Pos2Nat.inj_xO.
    replace (2 * Pos.to_nat p)%nat with (Pos.to_nat p + Pos.to_nat p)%nat by lia.
    now rewrite Nat.iter_add.
  - reflexivity.
Qed.

Lemma shr_inv_start (m : Z) : shr_inv m 0 (Build_shr_record m false false).
Proof. exists 0. cbn. lia. Qed.

Lemma shr_1_inv (m n : Z) (mrs : shr_record) :
  0 <= n -> 0 <= shr_m mrs -> shr_inv m n mrs ->
  shr_inv m (n + 1) (shr_1 mrs) /\ 0 <= shr_m (shr_1 mrs)
  /\ shr_m (shr_1 mrs) = shr_m mrs / 2.
Proof.
  intros Hn Hq (rem & Hm & Hrem & Hloc).
  destruct mrs as [q r s]. cbn [shr_m shr_r shr_s] in *.
  assert (Hp : 0 < 2 ^ n) by (apply Z.pow_pos_nonneg; lia).
  assert (Hp1 : 2 ^ (n + 1) = 2 * 2 ^ n) by (rewrite Z.pow_add_r; lia).
  destruct q as [|[p|p|]|p]; try lia; cbn [shr_1 shr_m shr_r shr_s].
  - (* 0 *)
    split; [|split; [lia | reflexivity]].
    exists rem. cbn [shr_m shr_r shr_s]. rewrite Hp1.
    split; [lia|]. split; [lia|]. destruct r, s; cbn [orb]; lia.
  - (* 2p + 1 *)
    split; [|split; [lia | rewrite Pos2Z.inj_xI; apply Z.div_unique with (r := 1); lia]].
    exists (2 ^ n + rem). cbn [shr_m shr_r shr_s]. rewrite Hp1.
    split; [rewrite Pos2Z.inj_xI in Hm; lia|]. split; [lia|].
    destruct r, s; cbn [orb]; lia.
  - (* 2p *)
    split; [|split; [lia | rewrite Pos2Z.inj_xO; apply Z.div_unique with (r := 0); lia]].
    exists rem. cbn [shr_m shr_r shr_s]. rewrite Hp1.
    split; [rewrite Pos2Z.inj_xO in Hm; lia|]. split; [lia|].
    destruct r, s; cbn [orb]; lia.
  - (* 1 *)
    split; [|split; [lia | reflexivity]].
    exists (2 ^ n + rem). cbn [shr_m shr_r shr_s]. rewrite Hp1.
    split; [lia|]. split; [lia|].
    destruct r, s; cbn [orb]; lia.
Qed.

Lemma shr_iter_inv (m : Z) (k : nat) (n : Z) (mrs : shr_record) :
  0 <= n -> 0 <= shr_m mrs -> shr_inv m n mrs ->
  shr_inv m (n + Z.of_nat k) (Nat.iter k shr_1 mrs)
  /\ 0 <= shr_m (Nat.iter k shr_1 mrs).
Proof.
  intros Hn Hq Hinv. induction k as [|k [IH IHq]].
  - cbn [Nat.iter]. now rewrite Z.add_0_r.
  - cbn [Nat.iter].
    destruct (@shr_1_inv m (n + Z.of_nat k) _ ltac:(lia) IHq IH) as (H1 & H2 & _).
    split; [|exact H2].
    replace (n + Z.of_nat (S k)) with (n + Z.of_nat k + 1) by lia. exact H1.
Qed.

(** The first step of [binary_round_aux] on an exact mantissa. *)
Lemma shr_exact_inv (m e n : Z) :
  0 <= m -> 0 <= n ->
  exists mrs,
    shr (Build_shr_record m false false) e n = (mrs, e + n)
    /\ shr_inv m n mrs /\ 0 <= shr_m mrs.
Proof.
  intros Hm Hn. unfold shr. destruct n as [|p|p]; try lia.
  - exists (Build_shr_record m false false). rewrite Z.add_0_r.
    split; [reflexivity|]. split; [apply shr_inv_start | exact Hm].
  - rewrite iter_pos_nat.
    destruct (@shr_iter_inv m (Pos.to_nat p) 0 (Build_shr_record m false false)
                ltac:(lia) Hm (shr_inv_start m)) as [H1 H2].
    rewrite positive_nat_Z, Z.add_0_l in H1.
    eexists. split; [reflexivity|]. split; assumption.
Qed.

(** Rounding to nearest even moves the mantissa by at most half of
    [2 ** n]. *)
Lemma round_nearest_even_inv (m n : Z) (mrs : shr_record) :
  0 <= n -> shr_inv m n mrs ->
  let m2 := round_nearest_even (shr_m mrs) (loc_of_shr_record mrs) in
  (m2 = shr_m mrs \/ m2 = shr_m mrs + 1)
  /\ 2 * Z.abs (m2 * 2 ^ n - m) <= 2 ^ n
  /\ (m = shr_m mrs * 2 ^ n -> m2 = shr_m mrs).
Proof.
  intros Hn (rem & Hm & Hrem & Hloc). cbv zeta.
  destruct mrs as [q r s]. cbn [shr_m shr_r shr_s loc_of_shr_record] in *.
  assert (Hp : 0 < 2 ^ n) by (apply Z.pow_pos_nonneg; lia).
  destruct r, s; cbn [round_nearest_even].
  - split; [now right|]. split; [nia | intros E; lia].
  - destruct (Z.even q); (split; [auto|]); (split; [nia | intros E; lia]).
  - split; [now left|]. split; [nia | reflexivity].
  - split; [now left|]. split; [nia | reflexivity].
Qed.

End ShiftRecords.


Section RoundToNearestEven.
Local Open Scope Z_scope.

Lemma quotient_bounds (m d n q rem : Z) :
  0 <= n -> 2 ^ (d - 1) <= m < 2 ^ d -> 1 <= d ->
  m = q * 2 ^ n + rem -> 0 <= rem < 2 ^ n ->
  (n <= d - 53 -> 2 ^ 52 <= q) /\ (d - 53 <= n -> q < 2 ^ 53)
  /\ (d - 53 < n -> q < 2 ^ 52) /\ 0 <= q.
Proof.
  intros Hn [Hlo Hhi] Hd Hm Hrem.
  assert (Hp : 0 < 2 ^ n) by (apply Z.pow_pos_nonneg; lia).
  assert (Hq0 : 0 <= q).
  { destruct (Z_lt_le_dec q 0); [|assumption]. exfalso.
    assert (0 < 2 ^ (d - 1)) by (apply Z.pow_pos_nonneg; lia). nia. }
  repeat split; try assumption.
  - intros Hle.
    assert (2 ^ (d - 1) = 2 ^ 52 * 2 ^ (d - 53 - n) * 2 ^ n).
    { rewrite <- !Z.pow_add_r by lia. f_equal. lia. }
    assert (0 < 2 ^ (d - 53 - n)) by (apply Z.pow_pos_nonneg; lia).
    destruct (Z_lt_le_dec q (2 ^ 52)); [exfalso|assumption].
    assert (0 < 2 ^ 52) by (apply Z.pow_pos_nonneg; lia).
    nia.
  - intros Hle.
    assert (2 ^ d <= 2 ^ 53 * 2 ^ n).
    { rewrite <- Z.pow_add_r by lia. apply Z.pow_le_mono_r; lia. }
    destruct (Z_lt_le_dec q (2 ^ 53)); [assumption|exfalso]. nia.
  - intros Hlt.
    assert (2 ^ d <= 2 ^ 52 * 2 ^ n).
    { rewrite <- Z.pow_add_r by lia. apply Z.pow_le_mono_r; lia. }
    destruct (Z_lt_le_dec q (2 ^ 52)); [assumption|exfalso]. nia.
Qed.

(** [binary_round_aux] on an exact mantissa whose exponent is at most
    the exponent of its format: the mantissa is cut to the format and
    rounded to nearest even. *)
Lemma binary_round_aux_exact (s : bool) (m e : Z) :
  0 < m ->
  let E0 := Z.max (Zdigits2 m + e - 53) (-1074) in
  e <= E0 ->
  exists m2 : Z,
    0 <= m2 <= 2 ^ 53
    /\ (2 ^ 52 <= m2 \/ E0 = -1074)
    /\ 2 * Z.abs (m2 * 2 ^ (E0 - e) - m) <= 2 ^ (E0 - e)
    /\ (forall q, m = q * 2 ^ (E0 - e) -> m2 = q)
    /\ binary_round_aux prec64 emax64 s m e loc_Exact = b64_pack s m2 E0.
Proof.
  intros Hm E0 He.
  destruct m as [|p|p]; try lia.
  pose proof (Zdigits2_pos_bounds p) as Hd.
  set (d := Zdigits2 (Z.pos p)) in *.
  assert (Hd1 : 1 <= d) by (unfold d; cbn; lia).
  set (n := E0 - e). assert (Hn : 0 <= n) by (unfold n; lia).
  unfold binary_round_aux. unfold shr_fexp at 1. rewrite fexp64. fold d. fold E0. fold n.
  cbn [shr_record_of_loc].
  destruct (@shr_exact_inv (Z.pos p) e n ltac:(lia) Hn) as (mrs & -> & Hinv & Hq0).
  replace (e + n) with E0 by (unfold n; lia).
  destruct (round_nearest_even_inv Hn Hinv) as (Hm2 & Herr & Hex).
  set (m2 := round_nearest_even (shr_m mrs) (loc_of_shr_record mrs)) in *.
  destruct Hinv as (rem & Hmq & Hrem & _).
  destruct (@quotient_bounds (Z.pos p) d n (shr_m mrs) rem Hn Hd Hd1 Hmq Hrem)
    as (Hlo & Hhi & Hhi' & _).
  assert (Hq53 : shr_m mrs < 2 ^ 53) by (apply Hhi; unfold n, E0; lia).
  assert (Hq52 : 2 ^ 52 <= shr_m mrs \/ (E0 = -1074 /\ (shr_m mrs < 2 ^ 52 \/ n = d - 53))).
  { destruct (Z.eq_dec n (d - 53)) as [E|E].
    - left. apply Hlo. lia.
    - right. split; [unfold n, E0 in *; lia|]. left. apply Hhi'. unfold n, E0 in *; lia. }
  exists m2.
  assert (Hm2r : 0 <= m2 <= 2 ^ 53) by lia.
  split; [exact Hm2r|].
  split; [destruct Hq52 as [?|[? _]]; [left; lia | now right]|].
  split; [exact Herr|].
  split.
  { intros q Eq. fold n in Eq.
    assert (Hp : 0 < 2 ^ n) by (apply Z.pow_pos_nonneg; lia).
    assert (Hq : q = shr_m mrs) by nia.
    subst q. apply Hex. exact Eq. }
  assert (HE0 : -1074 <= E0) by (unfold E0; lia).
  destruct (Z.eq_dec m2 (2 ^ 53)) as [E53 | N53].
  - rewrite shr_fexp_one by lia. rewrite E53.
    cbn [shr_record_of_loc shr_1 shr_m Z.pow Z.pow_pos Pos.iter Z.mul Pos.mul b64_pack].
    reflexivity.
  - rewrite shr_fexp_keep; [|lia|lia|].
    + cbn [shr_record_of_loc shr_m]. unfold b64_pack.
      destruct m2 as [|p2|p2]; try lia; [reflexivity|].
      replace (Z.pos p2 =? 2 ^ 53) with false by (symmetry; apply Z.eqb_neq; exact N53).
      reflexivity.
    + destruct Hq52 as [?|[? _]]; [left; lia | now right].
Qed.

End RoundToNearestEven.


(** ** The value of a rounded number *)

Section Values.
Local Open Scope R_scope.

Lemma IZR_pow2_pos (k : Z) : (0 <= k)%Z -> 0 < IZR (2 ^ k).
Proof. intros Hk. apply IZR_lt. apply Z.pow_pos_nonneg; lia. Qed.

Lemma bpow_pos (k : Z) : 0 < bpow k.
Proof.
  unfold bpow. destruct (Z.leb_spec 0 k).
  - now apply IZR_pow2_pos.
  - apply Rinv_0_lt_compat. apply IZR_pow2_pos. lia.
Qed.

Lemma bpow_nonneg_exp (k : Z) : (0 <= k)%Z -> bpow k = IZR (2 ^ k).
Proof. intros Hk. unfold bpow. destruct (Z.leb_spec 0 k); [reflexivity|lia]. Qed.

Lemma bpow_add (a b : Z) : bpow (a + b) = bpow a * bpow b.
Proof.
  assert (Hmul : forall x y : Z, (0 <= x)%Z -> (0 <= y)%Z ->
                 IZR (2 ^ (x + y)) = IZR (2 ^ x) * IZR (2 ^ y)).
  { intros x y Hx Hy. rewrite Z.pow_add_r by lia. apply mult_IZR. }
  assert (Hnz : forall x : Z, (0 <= x)%Z -> IZR (2 ^ x) <> 0).
  { intros x Hx. apply Rgt_not_eq, IZR_pow2_pos, Hx. }
  unfold bpow.
  destruct (Z.leb_spec 0 a) as [Ha|Ha], (Z.leb_spec 0 b) as [Hb|Hb],
           (Z.leb_spec 0 (a + b)) as [Hab|Hab]; try lia.
  - now apply Hmul.
  - pose proof (Hmul (a + b) (- b) ltac:(lia) ltac:(lia))%Z as H.
    replace (a + b + - b)%Z with a in H by lia. rewrite H. field. apply Hnz. lia.
  - pose proof (Hmul a (- (a + b)) ltac:(lia) ltac:(lia))%Z as H.
    replace (a + - (a + b))%Z with (- b)%Z in H by lia. rewrite H. field.
    split; apply Hnz; lia.
  - pose proof (Hmul (a + b) (- a) ltac:(lia) ltac:(lia))%Z as H.
    replace (a + b + - a)%Z with b in H by lia. rewrite H. field. apply Hnz. lia.
  - pose proof (Hmul b (- (a + b)) ltac:(lia) ltac:(lia))%Z as H.
    replace (b + - (a + b))%Z with (- a)%Z in H by lia. rewrite H. field.
    split; apply Hnz; lia.
  - pose proof (Hmul (- a) (- b) ltac:(lia) ltac:(lia))%Z as H.
    replace (- a + - b)%Z with (- (a + b))%Z in H by lia. rewrite H. field.
    split; apply Hnz; lia.
Qed.

Lemma bpow_0 : bpow 0 = 1.
Proof. reflexivity. Qed.

Lemma bpow_le (a b : Z) : (a <= b)%Z -> bpow a <= bpow b.
Proof.
  intros Hab. replace b with (a + (b - a))%Z by lia. rewrite bpow_add.
  rewrite (bpow_nonneg_exp (k := b - a)) by lia.
  assert (1 <= IZR (2 ^ (b - a))).
  { apply IZR_le. assert (0 < 2 ^ (b - a))%Z by (apply Z.pow_pos_nonneg; lia). lia. }
  pose proof (bpow_pos a). nra.
Qed.

Lemma bpow_lt (a b : Z) : (a < b)%Z -> bpow a < bpow b.
Proof.
  intros Hab. replace b with (a + (b - a))%Z by lia. rewrite bpow_add.
  rewrite (bpow_nonneg_exp (k := b - a)) by lia.
  assert (2 <= IZR (2 ^ (b - a))).
  { apply IZR_le. replace (b - a)%Z with (1 + (b - a - 1))%Z by lia.
    rewrite Z.pow_add_r by lia.
    assert (0 < 2 ^ (b - a - 1))%Z by (apply Z.pow_pos_nonneg; lia). lia. }
  pose proof (bpow_pos a). nra.
Qed.

Lemma bpow_lt_inv (a b : Z) : bpow a < bpow b -> (a < b)%Z.
Proof.
  intros H. destruct (Z_lt_le_dec a b); [assumption|].
  pose proof (@bpow_le b a ltac:(lia)). lra.
Qed.

Lemma bpow_half (k : Z) : bpow (k - 1) = bpow k / 2.
Proof.
  replace k with ((k - 1) + 1)%Z at 2 by lia. rewrite bpow_add.
  change (bpow 1) with 2. field.
Qed.

Lemma sign_abs (s : bool) (x : R) : Rabs ((if s then -1 else 1) * x) = Rabs x.
Proof.
  destruct s.
  - replace (-1 * x) with (- x) by ring. apply Rabs_Ropp.
  - now rewrite Rmult_1_l.
Qed.

(** ** The packed result *)

Local Open Scope Z_scope.

Lemma b64_pack_number (s : bool) (m e : Z) :
  0 <= m <= 2 ^ 53 -> (2 ^ 52 <= m \/ e = -1074) -> -1074 <= e <= 970 ->
  b64_number (b64_pack s m e) = true
  /\ b64_value (b64_pack s m e) = ((if s then -1 else 1) * IZR m * bpow e)%R.
Proof.
  intros Hm Hc He. unfold b64_pack.
  destruct m as [|p|p]; try lia.
  - split; [reflexivity|]. cbn. ring.
  - destruct (Z.eqb_spec (Z.pos p) (2 ^ 53)) as [E|N].
    + replace (e + 1 <=? emax64 - prec64) with true
        by (symmetry; apply Z.leb_le; unfold emax64, prec64; lia).
      split.
      * cbn [b64_number]. unfold bounded, canonical_mantissa. rewrite fexp64.
        change (Z.pos (digits2_pos (Z.to_pos (2 ^ 52)))) with 53.
        apply andb_true_iff. split; [apply Z.eqb_eq; lia|].
        apply Z.leb_le. unfold emax64, prec64. lia.
      * cbn [b64_value]. rewrite E.
        replace (e + 1) with (1 + e) by lia. rewrite bpow_add.
        change (bpow 1) with 2%R.
        change (IZR (Z.pos (Z.to_pos (2 ^ 52)))) with (IZR (2 ^ 52)).
        replace (IZR (2 ^ 53)) with (2 * IZR (2 ^ 52))%R; [ring|].
        rewrite <- mult_IZR. reflexivity.
    + replace (e <=? emax64 - prec64) with true
        by (symmetry; apply Z.leb_le; unfold emax64, prec64; lia).
      split; [|reflexivity].
      cbn [b64_number]. unfold bounded, canonical_mantissa. rewrite fexp64.
      apply andb_true_iff. split; [|apply Z.leb_le; unfold emax64, prec64; lia].
      apply Z.eqb_eq.
      change (Z.pos (digits2_pos p)) with (Zdigits2 (Z.pos p)).
      destruct Hc as [Hlo | ->].
      * rewrite (@Zdigits2_bounds (Z.pos p) 53) by lia. lia.
      * pose proof (@Zdigits2_upper (Z.pos p) 53 ltac:(lia) ltac:(lia)). lia.
Qed.

(** ** Rounding an exact mantissa *)

Lemma digits_below (m e k : Z) :
  0 < m -> (IZR m * bpow e < bpow k)%R -> Zdigits2 m + e <= k.
Proof.
  intros Hm Hlt. destruct m as [|p|p]; try lia.
  pose proof (Zdigits2_pos_bounds p) as [Hlo _].
  set (d := Zdigits2 (Z.pos p)) in *.
  assert (Hd1 : 1 <= d) by (unfold d; cbn; lia).
  assert (bpow (d - 1 + e) < bpow k)%R.
  { rewrite bpow_add. rewrite (bpow_nonneg_exp (k := d - 1)) by lia.
    apply IZR_le in Hlo. pose proof (bpow_pos e). nra. }
  apply bpow_lt_inv in H. lia.
Qed.

Lemma binary_round_aux_spec (s : bool) (m e k : Z) :
  0 < m -> e <= Z.max (Zdigits2 m + e - 53) (-1074) ->
  (IZR m * bpow e < bpow k)%R -> k <= 1023 ->
  let r := binary_round_aux prec64 emax64 s m e loc_Exact in
  b64_number r = true
  /\ (Rabs (b64_value r - (if s then -1 else 1) * IZR m * bpow e)
      <= bpow (Z.max (k - 53) (-1074) - 1))%R
  /\ (forall q, 0 <= q -> m = q * 2 ^ (Z.max (Zdigits2 m + e - 53) (-1074) - e) ->
      r = b64_pack s q (Z.max (Zdigits2 m + e - 53) (-1074))).
Proof.
  intros Hm He Hlt Hk r.
  pose proof (@digits_below m e k Hm Hlt) as Hd.
  destruct (@binary_round_aux_exact s m e Hm He) as (m2 & Hm2 & Hc & Herr & Hex & Hr).
  set (E0 := Z.max (Zdigits2 m + e - 53) (-1074)) in *.
  assert (HE0 : -1074 <= E0 <= 970) by (unfold E0; lia).
  destruct (@b64_pack_number s m2 E0 Hm2 Hc HE0) as [Hnum Hval].
  subst r. rewrite Hr. split; [exact Hnum|]. split.
  - rewrite Hval.
    replace ((if s then -1 else 1) * IZR m2 * bpow E0 - (if s then -1 else 1) * IZR m * bpow e)%R
      with ((if s then -1 else 1) * ((IZR m2 * bpow (E0 - e) - IZR m) * bpow e))%R.
    2:{ replace E0 with ((E0 - e) + e) at 2 by lia. rewrite bpow_add. ring. }
    rewrite sign_abs, Rabs_mult, (Rabs_pos_eq (bpow e)) by (left; apply bpow_pos).
    rewrite (@bpow_nonneg_exp (E0 - e)) by lia. rewrite <- mult_IZR, <- minus_IZR, <- abs_IZR.
    apply Rle_trans with (bpow (E0 - 1)); [|apply bpow_le; unfold E0; lia].
    rewrite bpow_half. replace E0 with ((E0 - e) + e) at 2 by lia.
    rewrite bpow_add, (@bpow_nonneg_exp (E0 - e)) by lia.
    apply IZR_le in Herr. rewrite mult_IZR in Herr.
    pose proof (bpow_pos e). change (IZR 2) with 2%R in Herr. nra.
  - intros q Hq Eq. f_equal. now apply Hex.
Qed.

End Values.


Section Normalisation.
Local Open Scope Z_scope.

Lemma number_canonical (s : bool) (m : positive) (e : Z) :
  b64_number (S754_finite s m e) = true ->
  e = Z.max (Zdigits2 (Z.pos m) + e - 53) (-1074) /\ e <= 971.
Proof.
  cbn [b64_number]. unfold bounded, canonical_mantissa. rewrite fexp64.
  intros H. apply andb_true_iff in H. destruct H as [H1 H2].
  apply Z.eqb_eq in H1. apply Z.leb_le in H2. unfold emax64, prec64 in H2.
  cbn [Zdigits2]. lia.
Qed.

Lemma number_digits (s : bool) (m : positive) (e : Z) :
  b64_number (S754_finite s m e) = true ->
  1 <= Zdigits2 (Z.pos m) <= 53
  /\ (Zdigits2 (Z.pos m) = 53 \/ e = -1074) /\ -1074 <= e <= 971.
Proof.
  intros H. destruct (number_canonical _ _ _ H) as [Hc He].
  assert (1 <= Zdigits2 (Z.pos m)) by (cbn; lia). lia.
Qed.

Lemma pos_iter_xO (m d : positive) : Z.pos (Pos.iter xO m d) = Z.pos m * 2 ^ Z.pos d.
Proof.
  induction d as [|d IH] using Pos.peano_ind.
  - cbn [Pos.iter]. rewrite Pos2Z.inj_xO. change (2 ^ 1) with 2. lia.
  - rewrite Pos.iter_succ, Pos2Z.inj_xO, IH, Pos2Z.inj_succ, Z.pow_succ_r by lia. lia.
Qed.

Lemma shl_align_spec (mx : positive) (ex ex' : Z) :
  snd (shl_align mx ex ex') = Z.min ex ex'
  /\ Z.pos (fst (shl_align mx ex ex')) = Z.pos mx * 2 ^ (ex - Z.min ex ex').
Proof.
  unfold shl_align. destruct (ex' - ex) as [|d|d] eqn:E; cbn [fst snd].
  - replace (Z.min ex ex') with ex by lia. rewrite Z.sub_diag. cbn. lia.
  - replace (Z.min ex ex') with ex by lia. rewrite Z.sub_diag. cbn. lia.
  - replace (Z.min ex ex') with ex' by lia. split; [reflexivity|].
    rewrite pos_iter_xO. f_equal. f_equal. lia.
Qed.

Lemma Zdigits2_shift (m j : Z) : 0 < m -> 0 <= j -> Zdigits2 (m * 2 ^ j) = Zdigits2 m + j.
Proof.
  intros Hm Hj. destruct m as [|p|p]; try lia.
  pose proof (Zdigits2_pos_bounds p) as [Hlo Hhi].
  set (d := Zdigits2 (Z.pos p)) in *.
  assert (1 <= d) by (unfold d; cbn; lia).
  assert (0 < 2 ^ j) by (apply Z.pow_pos_nonneg; lia).
  apply Zdigits2_bounds; [lia|].
  replace (d + j - 1) with ((d - 1) + j) by lia. rewrite !Z.pow_add_r by lia. nia.
Qed.

Lemma Zdigits2_mul_lower (a b : positive) :
  Zdigits2 (Z.pos a) + Zdigits2 (Z.pos b) - 1 <= Zdigits2 (Z.pos (a * b)).
Proof.
  pose proof (Zdigits2_pos_bounds a) as [Ha _].
  pose proof (Zdigits2_pos_bounds b) as [Hb _].
  pose proof (Zdigits2_pos_bounds (a * b)) as [_ Hab].
  set (da := Zdigits2 (Z.pos a)) in *. set (db := Zdigits2 (Z.pos b)) in *.
  set (d := Zdigits2 (Z.pos (a * b))) in *.
  assert (1 <= da) by (unfold da; cbn; lia).
  assert (1 <= db) by (unfold db; cbn; lia).
  assert (1 <= d) by (unfold d; cbn; lia).
  destruct (Z_lt_le_dec d (da + db - 1)) as [Hlt|]; [exfalso|lia].
  assert (2 ^ d <= 2 ^ (da - 1 + (db - 1))) by (apply Z.pow_le_mono_r; lia).
  rewrite Z.pow_add_r in H2 by lia. rewrite Pos2Z.inj_mul in Hab.
  assert (0 < 2 ^ (da - 1)) by (apply Z.pow_pos_nonneg; lia).
  assert (0 < 2 ^ (db - 1)) by (apply Z.pow_pos_nonneg; lia).
  nia.
Qed.

Local Open Scope R_scope.

(** Rounding an integer mantissa at any exponent. *)
Lemma binary_round_spec (s : bool) (m : positive) (e k : Z) :
  IZR (Z.pos m) * bpow e < bpow k -> (k <= 1023)%Z ->
  let r := binary_round prec64 emax64 s m e in
  b64_number r = true
  /\ Rabs (b64_value r - (if s then -1 else 1) * IZR (Z.pos m) * bpow e)
     <= bpow (Z.max (k - 53) (-1074) - 1).
Proof.
  intros Hlt Hk r. subst r. unfold binary_round. rewrite fexp64.
  change (Z.pos (digits2_pos m)) with (Zdigits2 (Z.pos m)).
  set (E0 := Z.max (Zdigits2 (Z.pos m) + e - 53) (-1074)).
  destruct (shl_align_spec m e E0) as [Hez Hmz].
  destruct (shl_align m e E0) as [mz ez]. cbn [fst snd] in Hez, Hmz.
  assert (Hval : IZR (Z.pos mz) * bpow ez = IZR (Z.pos m) * bpow e).
  { rewrite Hmz, mult_IZR, <- bpow_nonneg_exp by lia.
    rewrite Rmult_assoc, <- bpow_add. f_equal. f_equal. lia. }
  assert (Hdig : (Zdigits2 (Z.pos mz) + ez = Zdigits2 (Z.pos m) + e)%Z).
  { rewrite Hmz, Zdigits2_shift by lia. lia. }
  assert (Hpre : (ez <= Z.max (Zdigits2 (Z.pos mz) + ez - 53) (-1074))%Z).
  { rewrite Hdig. fold E0. lia. }
  rewrite <- Hval in Hlt.
  destruct (@binary_round_aux_spec s (Z.pos mz) ez k ltac:(lia) Hpre Hlt Hk)
    as (Hn & Hb & _).
  split; [exact Hn|].
  replace ((if s then -1 else 1) * IZR (Z.pos m) * bpow e)
    with ((if s then -1 else 1) * IZR (Z.pos mz) * bpow ez); [exact Hb|].
  rewrite !Rmult_assoc. now rewrite Hval.
Qed.

(** Rounding a signed integer at any exponent. *)
Lemma binary_normalize_spec (m e k : Z) :
  Rabs (IZR m * bpow e) < bpow k -> (k <= 1023)%Z ->
  let r := binary_normalize prec64 emax64 m e false in
  b64_number r = true
  /\ Rabs (b64_value r - IZR m * bpow e) <= bpow (Z.max (k - 53) (-1074) - 1).
Proof.
  intros Hlt Hk r. subst r. unfold binary_normalize.
  destruct m as [|p|p].
  - split; [reflexivity|]. cbn [b64_value]. rewrite Rmult_0_l, Rminus_0_r, Rabs_R0.
    left. apply bpow_pos.
  - rewrite Rabs_pos_eq in Hlt
      by (apply Rmult_le_pos; [apply IZR_le; lia | left; apply bpow_pos]).
    destruct (@binary_round_spec false p e k Hlt Hk) as [Hn Hb].
    split; [exact Hn|]. now rewrite Rmult_1_l in Hb.
  - assert (Hp : IZR (Z.pos p) * bpow e < bpow k).
    { replace (IZR (Z.neg p)) with (- IZR (Z.pos p)) in Hlt
        by (rewrite <- opp_IZR; reflexivity).
      rewrite Ropp_mult_distr_l_reverse, Rabs_Ropp, Rabs_pos_eq in Hlt; [exact Hlt|].
      apply Rmult_le_pos; [apply IZR_le; lia | left; apply bpow_pos]. }
    destruct (@binary_round_spec true p e k Hp Hk) as [Hn Hb].
    split; [exact Hn|].
    replace (IZR (Z.neg p)) with (-1 * IZR (Z.pos p))
      by (rewrite <- mult_IZR; reflexivity).
    exact Hb.
Qed.

End Normalisation.


(** ** The error of a product, a sum and a difference *)

Section Operations.
Local Open Scope R_scope.

Lemma err_pos (k : Z) : 0 < err k.
Proof. apply bpow_pos. Qed.

Ltac zero_error :=
  match goal with
  | |- Rabs ?t <= _ =>
      replace t with 0; [rewrite Rabs_R0; left; apply err_pos|]
  end.

Lemma sign_xorb (a b : bool) :
  (if xorb a b then -1 else 1) = (if a then -1 else 1) * (if b then -1 else 1).
Proof. destruct a, b; cbn; ring. Qed.

Lemma b64_value_finite (s : bool) (m : positive) (e : Z) :
  b64_value (S754_finite s m e) = (if s then -1 else 1) * (IZR (Z.pos m) * bpow e).
Proof. cbn [b64_value]. ring. Qed.

Lemma b64_mul_spec (x y : spec_float) (k : Z) :
  b64_number x = true -> b64_number y = true ->
  Rabs (b64_value x * b64_value y) < bpow k -> (k <= 1023)%Z ->
  b64_number (x * y)%fl = true
  /\ Rabs (b64_value (x * y)%fl - b64_value x * b64_value y) <= err k.
Proof.
  intros Hx Hy Hlt Hk. cbn [fmul Binary64].
  destruct x as [sx| | |sx mx ex]; try discriminate;
    destruct y as [sy| | |sy my ey]; try discriminate; cbn [SFmul];
    try (split; [reflexivity|]; zero_error; cbn [b64_value]; ring).
  destruct (number_digits _ _ _ Hx) as (Hdx & Hcx & Hex).
  destruct (number_digits _ _ _ Hy) as (Hdy & Hcy & Hey).
  pose proof (Zdigits2_mul_lower mx my) as Hd.
  assert (Hv : b64_value (S754_finite sx mx ex) * b64_value (S754_finite sy my ey)
               = (if xorb sx sy then -1 else 1) * IZR (Z.pos (mx * my)) * bpow (ex + ey)).
  { rewrite !b64_value_finite, sign_xorb, Pos2Z.inj_mul, mult_IZR, bpow_add. ring. }
  rewrite Hv in *.
  rewrite Rmult_assoc, sign_abs, Rabs_pos_eq in Hlt
    by (apply Rmult_le_pos; [apply IZR_le; lia | left; apply bpow_pos]).
  destruct (@binary_round_aux_spec (xorb sx sy) (Z.pos (mx * my)) (ex + ey) k
              ltac:(lia) ltac:(lia) Hlt Hk) as (Hn & Hb & _).
  split; assumption.
Qed.

(** The sum or difference of two finite floats, as an integer at the
    lower of the two exponents. *)
Lemma aligned_value (s : bool) (m : positive) (e ez : Z) :
  (ez <= e)%Z ->
  IZR (cond_Zopp s (Z.pos (fst (shl_align m e ez)))) * bpow ez
  = b64_value (S754_finite s m e).
Proof.
  intros Hle. destruct (shl_align_spec m e ez) as [_ Hm].
  replace (Z.min e ez) with ez in Hm by lia.
  rewrite b64_value_finite.
  replace (IZR (cond_Zopp s (Z.pos (fst (shl_align m e ez)))))
    with ((if s then -1 else 1) * IZR (Z.pos (fst (shl_align m e ez)))).
  2:{ destruct s; cbn [cond_Zopp]; [|ring].
      rewrite opp_IZR. ring. }
  rewrite Hm, mult_IZR, <- bpow_nonneg_exp by lia.
  rewrite !Rmult_assoc, <- bpow_add. do 3 f_equal. lia.
Qed.

Lemma b64_add_spec (x y : spec_float) (k : Z) :
  b64_number x = true -> b64_number y = true ->
  Rabs (b64_value x + b64_value y) < bpow k -> (k <= 1023)%Z ->
  b64_number (x + y)%fl = true
  /\ Rabs (b64_value (x + y)%fl - (b64_value x + b64_value y)) <= err k.
Proof.
  intros Hx Hy Hlt Hk. cbn [fadd Binary64].
  destruct x as [sx| | |sx mx ex]; try discriminate;
    destruct y as [sy| | |sy my ey]; try discriminate; cbn [SFadd].
  - split; [destruct sx, sy; reflexivity|]. zero_error.
    destruct sx, sy; cbn [b64_value]; ring.
  - split; [exact Hy|]. zero_error. cbn [b64_value]. ring.
  - split; [exact Hx|]. zero_error. cbn [b64_value]. ring.
  - cbv zeta.
    set (ez := Z.min ex ey).
    rewrite <- (@aligned_value sx mx ex ez), <- (@aligned_value sy my ey ez) in Hlt |- *
      by (unfold ez; lia).
    rewrite <- Rmult_plus_distr_r, <- plus_IZR in Hlt |- *.
    apply binary_normalize_spec; assumption.
Qed.

Lemma b64_sub_spec (x y : spec_float) (k : Z) :
  b64_number x = true -> b64_number y = true ->
  Rabs (b64_value x - b64_value y) < bpow k -> (k <= 1023)%Z ->
  b64_number (x - y)%fl = true
  /\ Rabs (b64_value (x - y)%fl - (b64_value x - b64_value y)) <= err k.
Proof.
  intros Hx Hy Hlt Hk. cbn [fsub Binary64].
  destruct x as [sx| | |sx mx ex]; try discriminate;
    destruct y as [sy| | |sy my ey]; try discriminate; cbn [SFsub].
  - split; [destruct sx, sy; reflexivity|]. zero_error.
    destruct sx, sy; cbn [b64_value]; ring.
  - split; [exact Hy|]. zero_error. cbn [b64_value]. destruct sy; cbn [negb]; ring.
  - split; [exact Hx|]. zero_error. cbn [b64_value]. ring.
  - cbv zeta.
    set (ez := Z.min ex ey).
    rewrite <- (@aligned_value sx mx ex ez), <- (@aligned_value sy my ey ez) in Hlt |- *
      by (unfold ez; lia).
    rewrite <- Rmult_minus_distr_r, <- minus_IZR in Hlt |- *.
    apply binary_normalize_spec; assumption.
Qed.

Lemma b64_opp_spec (x : spec_float) :
  b64_number (- x)%fl = b64_number x /\ b64_value (- x)%fl = - b64_value x.
Proof.
  destruct x as [s| | |s m e]; cbn; try (split; [reflexivity|ring]).
  split; [reflexivity|]. destruct s; cbn [negb]; ring.
Qed.

Lemma b64_abs_spec (x : spec_float) :
  b64_number (fabs x) = b64_number x /\ b64_value (fabs x) = Rabs (b64_value x).
Proof.
  destruct x as [s| | |s m e]; cbn [fabs Binary64 SFabs b64_number b64_value];
    try (split; [reflexivity|]; now rewrite Rabs_R0).
  split; [reflexivity|].
  replace ((if s then -1 else 1) * IZR (Z.pos m) * bpow e)
    with ((if s then -1 else 1) * (IZR (Z.pos m) * bpow e)) by ring.
  rewrite sign_abs, Rabs_pos_eq; [ring|].
  apply Rmult_le_pos; [apply IZR_le; lia | left; apply bpow_pos].
Qed.

End Operations.


(** ** Comparisons *)

Section Comparisons.
Local Open Scope R_scope.

Lemma mantissa_value_pos (m : positive) (e : Z) : 0 < IZR (Z.pos m) * bpow e.
Proof. apply Rmult_lt_0_compat; [apply IZR_lt; lia | apply bpow_pos]. Qed.

Lemma canonical_lt (s1 s2 : bool) (m1 m2 : positive) (e1 e2 : Z) :
  b64_number (S754_finite s1 m1 e1) = true ->
  b64_number (S754_finite s2 m2 e2) = true ->
  (e1 < e2)%Z ->
  IZR (Z.pos m1) * bpow e1 < IZR (Z.pos m2) * bpow e2.
Proof.
  intros H1 H2 Hlt.
  destruct (number_digits _ _ _ H1) as (Hd1 & Hc1 & He1).
  destruct (number_digits _ _ _ H2) as (Hd2 & Hc2 & He2).
  pose proof (Zdigits2_pos_bounds m1) as [_ Hhi].
  pose proof (Zdigits2_pos_bounds m2) as [Hlo _].
  assert (Hm1 : (Z.pos m1 < 2 ^ 53)%Z).
  { apply Z.lt_le_trans with (1 := Hhi). apply Z.pow_le_mono_r; lia. }
  assert (Hm2 : (2 ^ 52 <= Z.pos m2)%Z).
  { replace 52%Z with (Zdigits2 (Z.pos m2) - 1)%Z by lia. exact Hlo. }
  apply IZR_lt in Hm1. apply IZR_le in Hm2.
  rewrite <- !bpow_nonneg_exp in Hm1, Hm2 by lia.
  apply Rlt_le_trans with (bpow 53 * bpow e1).
  { pose proof (bpow_pos e1). nra. }
  apply Rle_trans with (bpow 52 * bpow e2).
  { rewrite <- !bpow_add. apply bpow_le. lia. }
  pose proof (bpow_pos e2). nra.
Qed.

Lemma pos_compare_cont_Eq (a b : positive) : Pos.compare_cont Eq a b = (Z.pos a ?= Z.pos b)%Z.
Proof. reflexivity. Qed.

Lemma b64_compare_spec (x y : spec_float) :
  b64_number x = true -> b64_number y = true ->
  match SFcompare x y with
  | Some Lt => b64_value x < b64_value y
  | Some Eq => b64_value x = b64_value y
  | Some Gt => b64_value y < b64_value x
  | None => False
  end.
Proof.
  intros Hx Hy.
  destruct x as [sx| | |sx mx ex]; try discriminate;
    destruct y as [sy| | |sy my ey]; try discriminate; cbn [SFcompare].
  - reflexivity.
  - pose proof (mantissa_value_pos my ey). rewrite b64_value_finite. cbn [b64_value].
    destruct sy; lra.
  - pose proof (mantissa_value_pos mx ex). rewrite b64_value_finite. cbn [b64_value].
    destruct sx; lra.
  - pose proof (mantissa_value_pos mx ex) as Px.
    pose proof (mantissa_value_pos my ey) as Py.
    rewrite !b64_value_finite.
    destruct sx, sy; try lra.
    + (* both negative *)
      destruct (Z.compare_spec ex ey) as [E|L|G].
      * subst ey. rewrite pos_compare_cont_Eq.
        pose proof (bpow_pos ex).
        destruct (Z.compare_spec (Z.pos mx) (Z.pos my)) as [E'|L'|G']; cbn [CompOpp].
        -- now rewrite E'.
        -- apply IZR_lt in L'. nra.
        -- apply IZR_lt in G'. nra.
      * pose proof (@canonical_lt _ _ _ _ _ _ Hx Hy L). lra.
      * pose proof (@canonical_lt _ _ _ _ _ _ Hy Hx G). lra.
    + destruct (Z.compare_spec ex ey) as [E|L|G].
      * subst ey. rewrite pos_compare_cont_Eq.
        pose proof (bpow_pos ex).
        destruct (Z.compare_spec (Z.pos mx) (Z.pos my)) as [E'|L'|G'].
        -- now rewrite E'.
        -- apply IZR_lt in L'. nra.
        -- apply IZR_lt in G'. nra.
      * pose proof (@canonical_lt _ _ _ _ _ _ Hx Hy L). lra.
      * pose proof (@canonical_lt _ _ _ _ _ _ Hy Hx G). lra.
Qed.

Lemma b64_leb_spec (x y : spec_float) :
  b64_number x = true -> b64_number y = true ->
  ((x <=? y)%fl = true <-> b64_value x <= b64_value y).
Proof.
  intros Hx Hy. pose proof (b64_compare_spec _ _ Hx Hy) as H.
  cbn [fleb Binary64]. unfold SFleb.
  destruct (SFcompare x y) as [[| |]|]; try contradiction.
  - split; [intros _; lra | reflexivity].
  - split; [intros _; lra | reflexivity].
  - split; [discriminate | intros Hle; lra].
Qed.

Lemma b64_ltb_spec (x y : spec_float) :
  b64_number x = true -> b64_number y = true ->
  ((x <? y)%fl = true <-> b64_value x < b64_value y).
Proof.
  intros Hx Hy. pose proof (b64_compare_spec _ _ Hx Hy) as H.
  cbn [fltb Binary64]. unfold SFltb.
  destruct (SFcompare x y) as [[| |]|]; try contradiction.
  - split; [discriminate | intros Hle; lra].
  - split; [intros _; exact H | reflexivity].
  - split; [discriminate | intros Hle; lra].
Qed.

(** A number between [1 - 3 * 2 ** -55] and [1 + 2 ** -54], both
    excluded, is [1]. *)
Lemma b64_number_near_one (x : spec_float) :
  b64_number x = true ->
  1 - 3 * bpow (-55) < b64_value x < 1 + bpow (-54) ->
  x = S754_finite false (Z.to_pos (2 ^ 52)) (-52).
Proof.
  intros Hx [Hlo Hhi].
  assert (H55 : bpow (-55) = / 36028797018963968) by reflexivity.
  assert (H54 : bpow (-54) = / 18014398509481984) by reflexivity.
  destruct x as [s| | |s m e]; try discriminate.
  - cbn [b64_value] in Hlo. lra.
  - destruct (number_digits _ _ _ Hx) as (Hd & Hc & He).
    pose proof (Zdigits2_pos_bounds m) as [Ml Mh].
    set (d := Zdigits2 (Z.pos m)) in *.
    rewrite b64_value_finite in Hlo, Hhi.
    pose proof (mantissa_value_pos m e) as Hp.
    destruct s; [lra|]. rewrite Rmult_1_l in Hlo, Hhi.
    (* the exponent *)
    assert (Hde : (0 <= d + e <= 1)%Z).
    { split.
      - assert (bpow (-1) < bpow (d + e)); [|apply bpow_lt_inv in H; lia].
        apply IZR_lt in Mh. rewrite <- bpow_nonneg_exp in Mh by lia.
        rewrite bpow_add. change (bpow (-1)) with (/ 2). pose proof (bpow_pos e). nra.
      - assert (bpow (d - 1 + e) < bpow 1); [|apply bpow_lt_inv in H; lia].
        apply IZR_le in Ml. rewrite <- bpow_nonneg_exp in Ml by lia.
        rewrite bpow_add. change (bpow 1) with 2. pose proof (bpow_pos e). nra. }
    assert (Hd53 : d = 53%Z) by lia.
    rewrite Hd53 in *.
    assert (Hm : (2 ^ 52 <= Z.pos m < 2 ^ 53)%Z) by lia.
    destruct (Z.eq_dec e (-52)) as [-> | Hne].
    + assert (Z.pos m = 2 ^ 52)%Z.
      { change (bpow (-52)) with (/ 4503599627370496) in Hhi.
        assert (IZR (Z.pos m) < 4503599627370497) by lra.
        apply lt_IZR in H. change (2 ^ 52)%Z with 4503599627370496%Z in *. lia. }
      f_equal. apply Pos2Z.inj. rewrite H. reflexivity.
    + exfalso. assert (e = -53)%Z by lia. subst e.
      change (bpow (-53)) with (/ 9007199254740992) in Hlo.
      assert (9007199254740991 < IZR (Z.pos m)) by lra.
      apply lt_IZR in H. change (2 ^ 53)%Z with 9007199254740992%Z in *. lia.
Qed.

End Comparisons.


(** ** Floats of the format *)

Section Validity.
Local Open Scope Z_scope.

Lemma shr_1_m (mrs : shr_record) : 0 <= shr_m mrs -> shr_m (shr_1 mrs) = shr_m mrs / 2.
Proof.
  destruct mrs as [q r s]. cbn [shr_m]. intros Hq.
  destruct q as [|[p|p|]|p]; try lia; cbn [shr_1 shr_m].
  - reflexivity.
  - rewrite Pos2Z.inj_xI. apply Z.div_unique with (r := 1); lia.
  - rewrite Pos2Z.inj_xO. apply Z.div_unique with (r := 0); lia.
  - reflexivity.
Qed.

Lemma shr_iter_m (k : nat) (mrs : shr_record) :
  0 <= shr_m mrs ->
  shr_m (Nat.iter k shr_1 mrs) = shr_m mrs / 2 ^ Z.of_nat k.
Proof.
  intros Hq. induction k as [|k IH].
  - cbn [Nat.iter]. cbn. now rewrite Z.div_1_r.
  - rewrite Nat.iter_succ, shr_1_m.
    + rewrite IH, Nat2Z.inj_succ, Z.pow_succ_r by lia.
      rewrite Z.div_div by (try apply Z.pow_pos_nonneg; lia). f_equal. lia.
    + rewrite IH. apply Z.div_pos; [lia | apply Z.pow_pos_nonneg; lia].
Qed.

Lemma shr_m_quotient (m e n : Z) (l : location) :
  0 <= m -> 0 <= n ->
  exists mrs,
    shr (shr_record_of_loc m l) e n = (mrs, e + n) /\ shr_m mrs = m / 2 ^ n.
Proof.
  intros Hm Hn. unfold shr. destruct n as [|p|p]; try lia.
  - eexists. rewrite Z.add_0_r. split; [reflexivity|].
    rewrite shr_m_record_of_loc. now rewrite Z.div_1_r.
  - eexists. split; [reflexivity|].
    rewrite iter_pos_nat, shr_iter_m, shr_m_record_of_loc, positive_nat_Z;
      [reflexivity | now rewrite shr_m_record_of_loc].
Qed.

(** [binary_round_aux] with any location: the result has a mantissa
    and an exponent of the format. *)
Lemma binary_round_aux_shape (s : bool) (m e : Z) (l : location) :
  0 <= m ->
  let E0 := Z.max (Zdigits2 m + e - 53) (-1074) in
  e <= E0 ->
  exists m2 : Z,
    0 <= m2 <= 2 ^ 53
    /\ (2 ^ 52 <= m2 \/ E0 = -1074)
    /\ binary_round_aux prec64 emax64 s m e l = b64_pack s m2 E0.
Proof.
  intros Hm E0 He.
  set (n := E0 - e). assert (Hn : 0 <= n) by (unfold n; lia).
  unfold binary_round_aux. unfold shr_fexp at 1. rewrite fexp64. fold E0. fold n.
  destruct (@shr_m_quotient m e n l Hm Hn) as (mrs & -> & Hq).
  replace (e + n) with E0 by (unfold n; lia).
  set (q := shr_m mrs) in *.
  assert (Hp : 0 < 2 ^ n) by (apply Z.pow_pos_nonneg; lia).
  pose proof (Z.div_mod m (2 ^ n) ltac:(lia)) as Hdm.
  pose proof (Z.mod_pos_bound m (2 ^ n) Hp) as Hrem.
  rewrite <- Hq in Hdm.
  assert (Hq0 : 0 <= q) by (rewrite Hq; apply Z.div_pos; lia).
  assert (Hqb : q < 2 ^ 53 /\ (2 ^ 52 <= q \/ (E0 = -1074 /\ q < 2 ^ 52) \/ (E0 = -1074 /\ 2 ^ 52 <= q))).
  { destruct m as [|p|p]; try lia.
    - assert (q = 0) by (rewrite Hq; apply Z.div_0_l; lia).
      cbn [Zdigits2] in E0. split; [lia|]. right. left. unfold E0 in *. lia.
    - pose proof (Zdigits2_pos_bounds p) as Hd.
      set (d := Zdigits2 (Z.pos p)) in *.
      assert (Hd1 : 1 <= d) by (unfold d; cbn; lia).
      destruct (@quotient_bounds (Z.pos p) d n q (Z.pos p mod 2 ^ n) Hn Hd Hd1
                  ltac:(lia) Hrem) as (Hlo & Hhi & Hhi' & _).
      split; [apply Hhi; unfold n, E0; lia|].
      destruct (Z.eq_dec n (d - 53)) as [E|E].
      + left. apply Hlo. lia.
      + right. left. split; [unfold n, E0 in *; lia|]. apply Hhi'. unfold n, E0 in *; lia. }
  destruct Hqb as [Hq53 Hq52].
  set (m2 := round_nearest_even q (loc_of_shr_record mrs)).
  assert (Hm2 : m2 = q \/ m2 = q + 1).
  { unfold m2. destruct (round_nearest_even_cases q (loc_of_shr_record mrs))
      as [-> | (_ & _ & ->)]; auto. }
  assert (HE0 : -1074 <= E0) by (unfold E0; lia).
  exists m2. split; [lia|]. split; [lia|].
  destruct (Z.eq_dec m2 (2 ^ 53)) as [E53 | N53].
  - rewrite shr_fexp_one by lia. rewrite E53.
    cbn [shr_record_of_loc shr_1 shr_m Z.pow Z.pow_pos Pos.iter Z.mul Pos.mul b64_pack].
    reflexivity.
  - rewrite shr_fexp_keep; [|lia|lia|lia].
    cbn [shr_record_of_loc shr_m]. unfold b64_pack.
    destruct m2 as [|p2|p2]; try lia; [reflexivity|].
    replace (Z.pos p2 =? 2 ^ 53) with false by (symmetry; apply Z.eqb_neq; exact N53).
    reflexivity.
Qed.

Lemma b64_pack_valid (s : bool) (m e : Z) :
  0 <= m <= 2 ^ 53 -> (2 ^ 52 <= m \/ e = -1074) -> -1074 <= e ->
  b64_valid (b64_pack s m e) = true.
Proof.
  intros Hm Hc He. unfold b64_pack, b64_valid.
  destruct m as [|p|p]; try lia; [reflexivity|].
  destruct (Z.eqb_spec (Z.pos p) (2 ^ 53)) as [E|N].
  - destruct (Z.leb_spec (e + 1) (emax64 - prec64)); [|reflexivity].
    cbn [valid_binary]. unfold bounded, canonical_mantissa. rewrite fexp64.
    change (Z.pos (digits2_pos (Z.to_pos (2 ^ 52)))) with 53.
    apply andb_true_iff. split; [apply Z.eqb_eq; lia | apply Z.leb_le; lia].
  - destruct (Z.leb_spec e (emax64 - prec64)); [|reflexivity].
    cbn [valid_binary]. unfold bounded, canonical_mantissa. rewrite fexp64.
    apply andb_true_iff. split; [|apply Z.leb_le; lia].
    apply Z.eqb_eq.
    change (Z.pos (digits2_pos p)) with (Zdigits2 (Z.pos p)).
    destruct Hc as [Hlo | ->].
    + rewrite (@Zdigits2_bounds (Z.pos p) 53) by lia. lia.
    + pose proof (@Zdigits2_upper (Z.pos p) 53 ltac:(lia) ltac:(lia)). lia.
Qed.

Lemma binary_round_aux_valid (s : bool) (m e : Z) (l : location) :
  0 <= m -> e <= Z.max (Zdigits2 m + e - 53) (-1074) ->
  b64_valid (binary_round_aux prec64 emax64 s m e l) = true.
Proof.
  intros Hm He.
  destruct (@binary_round_aux_shape s m e l Hm He) as (m2 & Hm2 & Hc & ->).
  apply b64_pack_valid; [exact Hm2 | exact Hc | lia].
Qed.

Lemma binary_round_valid (s : bool) (m : positive) (e : Z) :
  b64_valid (binary_round prec64 emax64 s m e) = true.
Proof.
  unfold binary_round. rewrite fexp64.
  change (Z.pos (digits2_pos m)) with (Zdigits2 (Z.pos m)).
  set (E0 := Z.max (Zdigits2 (Z.pos m) + e - 53) (-1074)).
  destruct (shl_align_spec m e E0) as [Hez Hmz].
  destruct (shl_align m e E0) as [mz ez]. cbn [fst snd] in Hez, Hmz.
  apply binary_round_aux_valid; [lia|].
  rewrite Hmz, Zdigits2_shift by lia. unfold E0 in *. lia.
Qed.

Lemma binary_normalize_valid (m e : Z) (sz : bool) :
  b64_valid (binary_normalize prec64 emax64 m e sz) = true.
Proof.
  destruct m; cbn [binary_normalize]; [reflexivity | |]; apply binary_round_valid.
Qed.

Lemma valid_canonical (s : bool) (m : positive) (e : Z) :
  b64_valid (S754_finite s m e) = true ->
  e = Z.max (Zdigits2 (Z.pos m) + e - 53) (-1074) /\ e <= 971.
Proof. intros H. apply (@number_canonical s m e). exact H. Qed.

Lemma b64_mul_valid (x y : spec_float) :
  b64_valid x = true -> b64_valid y = true -> b64_valid (x * y)%fl = true.
Proof.
  intros Hx Hy. cbn [fmul Binary64].
  destruct x as [sx|sx| |sx mx ex], y as [sy|sy| |sy my ey]; cbn [SFmul]; try reflexivity.
  destruct (valid_canonical _ _ _ Hx) as [Hcx _].
  destruct (valid_canonical _ _ _ Hy) as [Hcy _].
  pose proof (Zdigits2_mul_lower mx my) as Hd.
  assert (1 <= Zdigits2 (Z.pos mx)) by (cbn; lia).
  assert (1 <= Zdigits2 (Z.pos my)) by (cbn; lia).
  apply binary_round_aux_valid; lia.
Qed.

Lemma b64_sub_valid (x y : spec_float) :
  b64_valid x = true -> b64_valid y = true -> b64_valid (x - y)%fl = true.
Proof.
  intros Hx Hy. cbn [fsub Binary64].
  destruct x as [sx|sx| |sx mx ex], y as [sy|sy| |sy my ey]; cbn [SFsub];
    try reflexivity; try assumption.
  - destruct sx, sy; reflexivity.
  - destruct sx, sy; reflexivity.
  - apply binary_normalize_valid.
Qed.

Lemma b64_add_valid (x y : spec_float) :
  b64_valid x = true -> b64_valid y = true -> b64_valid (x + y)%fl = true.
Proof.
  intros Hx Hy. cbn [fadd Binary64].
  destruct x as [sx|sx| |sx mx ex], y as [sy|sy| |sy my ey]; cbn [SFadd];
    try reflexivity; try assumption.
  - destruct sx, sy; reflexivity.
  - destruct sx, sy; reflexivity.
  - apply binary_normalize_valid.
Qed.

(** Multiplying by [1] changes nothing, bit for bit. *)
Lemma b64_mul_one_l (x : spec_float) :
  b64_valid x = true -> (of_Z 1 * x)%fl = x.
Proof.
  intros Hx. cbn [fmul of_Z Binary64].
  change (b64_of_Z 1) with (S754_finite false (Z.to_pos (2 ^ 52)) (-52)).
  destruct x as [s|s| |s m e]; cbn [SFmul xorb]; try reflexivity.
  destruct (valid_canonical _ _ _ Hx) as [Hc He].
  pose proof (Zdigits2_pos_bounds m) as [_ Hhi].
  assert (Hd : 1 <= Zdigits2 (Z.pos m) <= 53) by (split; [cbn; lia | lia]).
  assert (Hm53 : Z.pos m < 2 ^ 53).
  { apply Z.lt_le_trans with (1 := Hhi). apply Z.pow_le_mono_r; lia. }
  assert (Hdig : Zdigits2 (Z.pos (Z.to_pos (2 ^ 52) * m)) = Zdigits2 (Z.pos m) + 52).
  { rewrite Pos2Z.inj_mul, Z.mul_comm. change (Z.pos (Z.to_pos (2 ^ 52))) with (2 ^ 52).
    apply Zdigits2_shift; lia. }
  assert (Hpre : -52 + e <= Z.max (Zdigits2 (Z.pos (Z.to_pos (2 ^ 52) * m)) + (-52 + e) - 53) (-1074)).
  { rewrite Hdig. lia. }
  destruct (@binary_round_aux_exact s (Z.pos (Z.to_pos (2 ^ 52) * m)) (-52 + e)
              ltac:(lia) Hpre) as (m2 & _ & _ & _ & Hex & ->).
  rewrite Hdig in Hex |- *.
  replace (Z.max (Zdigits2 (Z.pos m) + 52 + (-52 + e) - 53) (-1074)) with e in * by lia.
  rewrite (Hex (Z.pos m)).
  - unfold b64_pack.
    replace (Z.pos m =? 2 ^ 53) with false by (symmetry; apply Z.eqb_neq; lia).
    replace (e <=? emax64 - prec64) with true
      by (symmetry; apply Z.leb_le; unfold emax64, prec64; lia).
    reflexivity.
  - rewrite Pos2Z.inj_mul. change (Z.pos (Z.to_pos (2 ^ 52))) with (2 ^ 52).
    replace (e - (-52 + e)) with 52 by lia. lia.
Qed.

End Validity.


Section QuotientValidity.
Local Open Scope Z_scope.

(** A quotient is a float of the format, whatever is divided. *)
Lemma b64_div_valid (x y : spec_float) : b64_valid (x / y)%fl = true.
Proof.
  cbn [fdiv Binary64].
  destruct x as [sx|sx| |sx mx ex], y as [sy|sy| |sy my ey]; cbn [SFdiv]; try reflexivity.
  unfold SFdiv_core_binary. rewrite fexp64.
  pose proof (Zdigits2_pos_bounds mx) as [Hlx Hhx].
  pose proof (Zdigits2_pos_bounds my) as [Hly Hhy].
  set (d1 := Zdigits2 (Z.pos mx)) in *. set (d2 := Zdigits2 (Z.pos my)) in *.
  assert (Hd1 : 1 <= d1) by (unfold d1; cbn; lia).
  assert (Hd2 : 1 <= d2) by (unfold d2; cbn; lia).
  set (e' := Z.min (Z.max (d1 + ex - (d2 + ey) - 53) (-1074)) (ex - ey)).
  set (s := ex - ey - e'). assert (Hs : 0 <= s) by (unfold s, e'; lia).
  set (m' := match s with Z.pos _ => Z.shiftl (Z.pos mx) s | 0 => Z.pos mx | Z.neg _ => 0 end).
  assert (Hm' : m' = Z.pos mx * 2 ^ s).
  { unfold m'. destruct s as [|p|p] eqn:Es; try lia.
    rewrite Z.shiftl_mul_pow2 by lia. reflexivity. }
  pose proof (Z.div_mod m' (Z.pos my) ltac:(lia)) as Hdm.
  pose proof (Z.mod_pos_bound m' (Z.pos my) ltac:(lia)) as Hr.
  unfold Z.div, Z.modulo in Hdm, Hr.
  destruct (Z.div_eucl m' (Z.pos my)) as [q r] eqn:Hdiv.
  assert (H2s : 0 < 2 ^ s) by (apply Z.pow_pos_nonneg; lia).
  assert (Hq0 : 0 <= q) by nia.
  apply binary_round_aux_valid; [exact Hq0|].
  destruct (Z_le_gt_dec e' (-1074)) as [Hle | Hgt]; [lia|].
  assert (Hs53 : 53 - d1 + d2 <= s) by (unfold s, e' in *; lia).
  assert (Hq52 : 2 ^ 52 <= q).
  { assert (2 ^ 52 * 2 ^ d2 <= m').
    { rewrite Hm', <- Z.pow_add_r by lia.
      apply Z.le_trans with (2 ^ (d1 - 1) * 2 ^ s); [|nia].
      rewrite <- Z.pow_add_r by lia. apply Z.pow_le_mono_r; lia. }
    assert (0 < 2 ^ 52) by (apply Z.pow_pos_nonneg; lia).
    destruct (Z_lt_le_dec q (2 ^ 52)); [exfalso; nia | assumption]. }
  assert (53 <= Zdigits2 q); [|lia].
  destruct q as [|p|p]; try lia.
  pose proof (Zdigits2_pos_bounds p) as [_ Hhq].
  destruct (Z_lt_le_dec (Zdigits2 (Z.pos p)) 53) as [Hlt|]; [exfalso|assumption].
  assert (2 ^ Zdigits2 (Z.pos p) <= 2 ^ 52) by (apply Z.pow_le_mono_r; lia).
  lia.
Qed.

End QuotientValidity.

Lemma cross_valid (a b : vec3 spec_float) :
  vec3_valid a = true -> vec3_valid b = true -> vec3_valid (cross a b) = true.
Proof.
  unfold vec3_valid. intros Ha Hb.
  apply andb_true_iff in Ha. destruct Ha as [Ha Ha2].
  apply andb_true_iff in Ha. destruct Ha as [Ha0 Ha1].
  apply andb_true_iff in Hb. destruct Hb as [Hb Hb2].
  apply andb_true_iff in Hb. destruct Hb as [Hb0 Hb1].
  unfold cross. cbn [v0 v1 v2].
  rewrite !b64_sub_valid; try apply b64_mul_valid; auto.
Qed.

Lemma vsub_valid (a b : vec3 spec_float) :
  vec3_valid a = true -> vec3_valid b = true -> vec3_valid (vsub a b) = true.
Proof.
  unfold vec3_valid. intros Ha Hb.
  apply andb_true_iff in Ha. destruct Ha as [Ha Ha2].
  apply andb_true_iff in Ha. destruct Ha as [Ha0 Ha1].
  apply andb_true_iff in Hb. destruct Hb as [Hb Hb2].
  apply andb_true_iff in Hb. destruct Hb as [Hb0 Hb1].
  unfold vsub, vzip. cbn [v0 v1 v2].
  rewrite !b64_sub_valid; auto.
Qed.

Lemma vdivs_valid (a : vec3 spec_float) (n : spec_float) : vec3_valid (vdivs a n) = true.
Proof.
  unfold vec3_valid, vdivs, vmap. cbn [v0 v1 v2]. now rewrite !b64_div_valid.
Qed.

Lemma vscale_one (c : vec3 spec_float) :
  vec3_valid c = true -> vscale (of_Z 1) c = c.
Proof.
  unfold vec3_valid. intros Hc.
  apply andb_true_iff in Hc. destruct Hc as [Hc Hc2].
  apply andb_true_iff in Hc. destruct Hc as [Hc0 Hc1].
  destruct c as [c0 c1 c2]. unfold vscale, vmap. cbn [v0 v1 v2] in *.
  now rewrite !b64_mul_one_l.
Qed.

Lemma spn_direction_valid (meta : MetadataParams spec_float) :
  (is_monostatic meta = true ->
   vec3_valid (ARP_SCP_COA meta) = true /\ vec3_valid (SCP meta) = true
   /\ vec3_valid (VARP_SCP_COA meta) = true) ->
  vec3_valid (spn_direction meta) = true.
Proof.
  intros H. unfold spn_direction. destruct (is_monostatic meta).
  - destruct (H eq_refl) as (Ha & Hs & Hv).
    apply cross_valid; [apply vsub_valid|]; assumption.
  - cbv zeta. unfold _scp_r_rdot_projection_contour_bistatic.
    cbn [bp_scp_coa bpdot_scp_coa]. apply cross_valid; apply vdivs_valid.
Qed.


(* ================================================================== *)
(** * Image grid and image plane round trip (C1)                       *)
(* ================================================================== *)

Section RoundTrip.

Local Open Scope R_scope.

Lemma sum_sq_nonneg (a : vec3 R) : 0 <= vdot a a.
Proof.
  destruct a as [a0 a1 a2]. cbn. nra.
Qed.

Lemma unit_length_dot (a : vec3 R) : vnorm a = 1 -> vdot a a = 1.
Proof.
  unfold vnorm. cbn [fsqrt Exact]. intros Hn.
  rewrite <- (sqrt_sqrt (vdot a a) (sum_sq_nonneg a)), Hn. ring.
Qed.

(** Lagrange's identity: [|a|^2 |b|^2 - (a.b)^2 = |a x b|^2]. *)
Lemma lagrange_identity (a b : vec3 R) :
  vdot a a * vdot b b - vdot a b * vdot a b = vdot (cross a b) (cross a b).
Proof.
  destruct a as [a0 a1 a2], b as [b0 b1 b2]. cbn. ring.
Qed.

Lemma cross_nonzero_sq (c : vec3 R) : c <> V3 0 0 0 -> 0 < vdot c c.
Proof.
  destruct c as [c0 c1 c2]. intros Hc. cbn.
  destruct (Req_dec c0 0) as [H0|H0];
    [destruct (Req_dec c1 0) as [H1|H1];
     [destruct (Req_dec c2 0) as [H2|H2]|]|]; try nra.
  subst. now elim Hc.
Qed.

(** For unit axes that are not collinear, [sin_theta_col ** 2] is
    [1 - cos_theta_col ** 2] and is positive. *)
Lemma sin_theta_col_sq (meta : MetadataParams R) :
  vnorm (uRow meta) = 1 -> vnorm (uCol meta) = 1 ->
  cross (uRow meta) (uCol meta) <> V3 0 0 0 ->
  sin_theta_col meta * sin_theta_col meta
  = 1 - cos_theta_col meta * cos_theta_col meta
  /\ 0 < 1 - cos_theta_col meta * cos_theta_col meta.
Proof.
  intros Hr Hc Hx.
  pose proof (lagrange_identity (uRow meta) (uCol meta)) as HL.
  rewrite (unit_length_dot _ Hr), (unit_length_dot _ Hc) in HL.
  pose proof (cross_nonzero_sq Hx) as Hpos.
  assert (Hs : 0 < 1 - cos_theta_col meta * cos_theta_col meta).
  { unfold cos_theta_col. lra. }
  split; [|exact Hs].
  unfold sin_theta_col, sq. cbn [fsqrt fsub fmul of_Z Exact].
  apply sqrt_sqrt. lra.
Qed.

Lemma round_trip_pt (meta : MetadataParams R) (il : vec2 R) :
  vnorm (uRow meta) = 1 -> vnorm (uCol meta) = 1 ->
  cross (uRow meta) (uCol meta) <> V3 0 0 0 ->
  image_plane_point_to_image_grid_pt meta
    (image_grid_to_image_plane_point_pt meta il) = il.
Proof.
  intros Hr Hc Hx.
  destruct (sin_theta_col_sq meta Hr Hc Hx) as [Hs Hpos].
  pose proof (unit_length_dot _ Hr) as Hrr.
  pose proof (unit_length_dot _ Hc) as Hcc.
  unfold image_plane_point_to_image_grid_pt, m_il_ippt, pow_m2.
  cbn [fmul fdiv of_Z Exact]. rewrite Hs.
  unfold cos_theta_col in *.
  unfold image_grid_to_image_plane_point_pt, mat2_apply, mat2_scale.
  destruct il as [x y], (uRow meta) as [a0 a1 a2], (uCol meta) as [b0 b1 b2],
    (SCP meta) as [p0 p1 p2].
  cbn in *.
  set (c := a0 * b0 + a1 * b1 + a2 * b2) in *.
  replace ((p0 + (x * a0 + y * b0) - p0) * a0 + (p1 + (x * a1 + y * b1) - p1) * a1
           + (p2 + (x * a2 + y * b2) - p2) * a2)
    with (x * (a0 * a0 + a1 * a1 + a2 * a2) + y * c) by (unfold c; ring).
  replace ((p0 + (x * a0 + y * b0) - p0) * b0 + (p1 + (x * a1 + y * b1) - p1) * b1
           + (p2 + (x * a2 + y * b2) - p2) * b2)
    with (x * c + y * (b0 * b0 + b1 * b1 + b2 * b2)) by (unfold c; ring).
  rewrite Hrr, Hcc.
  f_equal; field; lra.
Qed.

(** In exact real arithmetic, for unit-length and non-collinear [uRow]
    and [uCol], [image_grid_to_image_plane_point] followed by
    [image_plane_point_to_image_grid] returns every image grid location
    exactly. *)
Lemma round_trip_exact (meta : MetadataParams R) (locs : list (vec2 R)) :
  vnorm (uRow meta) = 1 -> vnorm (uCol meta) = 1 ->
  cross (uRow meta) (uCol meta) <> V3 0 0 0 ->
  image_plane_point_to_image_grid meta
    (image_grid_to_image_plane_point meta locs) = inr locs.
Proof.
  intros Hr Hc Hx.
  unfold image_plane_point_to_image_grid, image_grid_to_image_plane_point, ret.
  f_equal. rewrite map_map.
  induction locs as [|il locs IH]; [reflexivity|].
  cbn [map]. now rewrite round_trip_pt, IH.
Qed.

End RoundTrip.

(** ** The round trip in binary64 *)

Section RoundTripRounding.
Local Open Scope R_scope.

Notation "[[ x ]]" := (b64_value x) (at level 0, format "[[ x ]]").

Lemma b64_bounded_spec (bound x : spec_float) :
  b64_number bound = true -> b64_bounded bound x = true ->
  b64_number x = true /\ Rabs [[x]] <= [[bound]].
Proof.
  intros Hb H. apply andb_true_iff in H. destruct H as [Hx Hle].
  split; [exact Hx|].
  destruct (b64_abs_spec x) as [Hn Hv].
  rewrite <- Hv. apply b64_leb_spec; [now rewrite Hn | exact Hb | exact Hle].
Qed.

Lemma Rabs_mult_le (a b A B : R) : Rabs a <= A -> Rabs b <= B -> Rabs (a * b) <= A * B.
Proof.
  intros Ha Hb. rewrite Rabs_mult.
  pose proof (Rabs_pos a). pose proof (Rabs_pos b). nra.
Qed.

Lemma Rabs_le_both (a A : R) : Rabs a <= A -> - A <= a <= A.
Proof. unfold Rabs. destruct (Rcase_abs a); lra. Qed.

Lemma Rabs_of_both (a A : R) : - A <= a <= A -> Rabs a <= A.
Proof. unfold Rabs. destruct (Rcase_abs a); lra. Qed.

Lemma Rabs_of_both_lt (a A : R) : - A < a < A -> Rabs a < A.
Proof. unfold Rabs. destruct (Rcase_abs a); lra. Qed.

(** One coordinate of the image plane point, minus the SCP. *)
Lemma coordinate_error (x y r c S : spec_float) :
  b64_number x = true -> b64_number y = true -> b64_number r = true ->
  b64_number c = true -> b64_number S = true ->
  Rabs [[x]] <= 16384 -> Rabs [[y]] <= 16384 ->
  Rabs [[r]] <= 1 -> Rabs [[c]] <= 1 -> Rabs [[S]] <= 8323072 ->
  let D := ((S + (x * r + y * c)) - S)%fl in
  b64_number D = true
  /\ Rabs ([[D]] - ([[x]] * [[r]] + [[y]] * [[c]])) <= / 2147483648 + 3 / 274877906944
  /\ Rabs [[D]] <= 32769.
Proof.
  intros Nx Ny Nr Nc NS Hx Hy Hr Hc HS D.
  pose proof (Rabs_mult_le _ _ Hx Hr) as Hxr.
  pose proof (Rabs_mult_le _ _ Hy Hc) as Hyc.
  destruct (@b64_mul_spec x r 15 Nx Nr) as [Na Ea];
    [change (bpow 15) with 32768; lra | lia |].
  destruct (@b64_mul_spec y c 15 Ny Nc) as [Nb Eb];
    [change (bpow 15) with 32768; lra | lia |].
  change (err 15) with (/ 549755813888) in Ea, Eb.
  set (a := (x * r)%fl) in *. set (b := (y * c)%fl) in *.
  apply Rabs_le_both in Hxr, Hyc, Ea, Eb, HS.
  destruct (@b64_add_spec a b 16 Na Nb) as [Nd Ed];
    [change (bpow 16) with 65536; apply Rabs_of_both_lt; lra | lia |].
  change (err 16) with (/ 274877906944) in Ed.
  set (d := (a + b)%fl) in *. apply Rabs_le_both in Ed.
  destruct (@b64_add_spec S d 23 NS Nd) as [NP EP];
    [change (bpow 23) with 8388608; apply Rabs_of_both_lt; lra | lia |].
  change (err 23) with (/ 2147483648) in EP.
  set (P := (S + d)%fl) in *. apply Rabs_le_both in EP.
  destruct (@b64_sub_spec P S 16 NP NS) as [ND ED];
    [change (bpow 16) with 65536; apply Rabs_of_both_lt; lra | lia |].
  change (err 16) with (/ 274877906944) in ED.
  fold D in ND, ED. apply Rabs_le_both in ED.
  split; [exact ND|]. split; apply Rabs_of_both; lra.
Qed.

Lemma err_le (j k : Z) : (j <= k)%Z -> err j <= err k.
Proof. intros H. unfold err. apply bpow_le. lia. Qed.

(** [np.dot] of two vectors of three numbers, the second with
    components of magnitude at most 1. *)
Lemma dot3_error (a b : vec3 spec_float) (k : Z) (A : R) :
  b64_number (v0 a) = true -> b64_number (v1 a) = true -> b64_number (v2 a) = true ->
  b64_number (v0 b) = true -> b64_number (v1 b) = true -> b64_number (v2 b) = true ->
  Rabs [[v0 a]] <= A -> Rabs [[v1 a]] <= A -> Rabs [[v2 a]] <= A ->
  Rabs [[v0 b]] <= 1 -> Rabs [[v1 b]] <= 1 -> Rabs [[v2 b]] <= 1 ->
  A < bpow k -> 3 * A + 4 * err (k + 1) < bpow (k + 1) -> (k + 1 <= 1023)%Z ->
  b64_number (vdot a b) = true
  /\ Rabs ([[vdot a b]] - ([[v0 a]] * [[v0 b]] + [[v1 a]] * [[v1 b]] + [[v2 a]] * [[v2 b]]))
     <= 3 * err k + 2 * err (k + 1)
  /\ Rabs [[vdot a b]] <= 3 * A + 3 * err k + 2 * err (k + 1).
Proof.
  intros Na0 Na1 Na2 Nb0 Nb1 Nb2 Ha0 Ha1 Ha2 Hb0 Hb1 Hb2 HA Hk Hk2.
  unfold vdot, vsum, vmul, vzip. cbn [v0 v1 v2].
  pose proof (err_pos k) as Hep.
  pose proof (@err_le k (k + 1) ltac:(lia)) as Hee.
  assert (Hmul : forall p q, b64_number p = true -> b64_number q = true ->
                 Rabs [[p]] <= A -> Rabs [[q]] <= 1 ->
                 b64_number (p * q)%fl = true
                 /\ - err k <= [[(p * q)%fl]] - [[p]] * [[q]] <= err k
                 /\ - A <= [[p]] * [[q]] <= A).
  { intros p q Np Nq Hp Hq.
    pose proof (Rabs_mult_le _ _ Hp Hq) as Hpq. rewrite Rmult_1_r in Hpq.
    destruct (@b64_mul_spec p q k Np Nq) as [N E]; [lra | lia |].
    split; [exact N|]. split; [now apply Rabs_le_both | now apply Rabs_le_both]. }
  destruct (Hmul _ _ Na0 Nb0 Ha0 Hb0) as (N0 & E0 & M0).
  destruct (Hmul _ _ Na1 Nb1 Ha1 Hb1) as (N1 & E1 & M1).
  destruct (Hmul _ _ Na2 Nb2 Ha2 Hb2) as (N2 & E2 & M2).
  set (p0 := (v0 a * v0 b)%fl) in *. set (p1 := (v1 a * v1 b)%fl) in *.
  set (p2 := (v2 a * v2 b)%fl) in *.
  destruct (@b64_add_spec p0 p1 (k + 1) N0 N1) as [Ns Es];
    [apply Rabs_of_both_lt; lra | lia |].
  set (s1 := (p0 + p1)%fl) in *. apply Rabs_le_both in Es.
  destruct (@b64_add_spec s1 p2 (k + 1) Ns N2) as [Nt Et];
    [apply Rabs_of_both_lt; lra | lia |].
  apply Rabs_le_both in Et.
  split; [exact Nt|]. split; apply Rabs_of_both; lra.
Qed.

Lemma number_valid (x : spec_float) : b64_number x = true -> b64_valid x = true.
Proof. destruct x; try discriminate; intros H; [reflexivity | exact H]. Qed.

Lemma number_zero_value (x : spec_float) :
  b64_number x = true -> [[x]] = 0 -> exists s, x = S754_zero s.
Proof.
  destruct x as [s| | |s m e]; try discriminate; intros _ H; [now exists s|].
  exfalso. rewrite b64_value_finite in H.
  pose proof (bpow_pos e). assert (0 < IZR (Z.pos m)) by (apply IZR_lt; lia).
  destruct s; nra.
Qed.

Lemma binary_round_aux_nonneg (m e : Z) (l : location) :
  0 <= [[binary_round_aux prec64 emax64 false m e l]].
Proof.
  unfold binary_round_aux.
  destruct (shr_fexp prec64 emax64 m e l) as [mrs' e'].
  destruct (shr_fexp prec64 emax64 _ e' loc_Exact) as [mrs'' e''].
  destruct (shr_m mrs'') as [|p|p]; cbn [b64_value]; try lra.
  destruct (e'' <=? emax64 - prec64)%Z; cbn [b64_value]; try lra.
  pose proof (bpow_pos e''). assert (0 < IZR (Z.pos p)) by (apply IZR_lt; lia). nra.
Qed.

Lemma b64_sq_nonneg (x : spec_float) : 0 <= [[(x * x)%fl]].
Proof.
  cbn [fmul Binary64].
  destruct x as [s|s| |s m e]; cbn [SFmul b64_value]; try lra.
  replace (xorb s s) with false by (now destruct s).
  apply binary_round_aux_nonneg.
Qed.

End RoundTripRounding.


Section RoundTripBudget.
Local Open Scope R_scope.

(** Cauchy-Schwarz in three dimensions. *)
Lemma cauchy_schwarz3 (a0 a1 a2 b0 b1 b2 : R) :
  (a0 * b0 + a1 * b1 + a2 * b2) * (a0 * b0 + a1 * b1 + a2 * b2)
  <= (a0 * a0 + a1 * a1 + a2 * a2) * (b0 * b0 + b1 * b1 + b2 * b2).
Proof.
  assert (H : (a0 * a0 + a1 * a1 + a2 * a2) * (b0 * b0 + b1 * b1 + b2 * b2)
              - (a0 * b0 + a1 * b1 + a2 * b2) * (a0 * b0 + a1 * b1 + a2 * b2)
              = (a0 * b1 - a1 * b0) * (a0 * b1 - a1 * b0)
                + (a0 * b2 - a2 * b0) * (a0 * b2 - a2 * b0)
                + (a1 * b2 - a2 * b1) * (a1 * b2 - a2 * b1)) by ring.
  pose proof (Rle_0_sqr (a0 * b1 - a1 * b0)) as H1.
  pose proof (Rle_0_sqr (a0 * b2 - a2 * b0)) as H2.
  pose proof (Rle_0_sqr (a1 * b2 - a2 * b1)) as H3.
  unfold Rsqr in *. lra.
Qed.

Lemma sq_le_bound (a T : R) : 0 <= T -> a * a <= T * T -> - T <= a <= T.
Proof. intros HT H. split; nra. Qed.

(** The component of the rounding errors [E] of the image plane point
    along an axis [u] of length about 1. *)
Lemma error_along_axis (E0 E1 E2 u0 u1 u2 : R) :
  Rabs E0 <= / 2147483648 + 3 / 274877906944 ->
  Rabs E1 <= / 2147483648 + 3 / 274877906944 ->
  Rabs E2 <= / 2147483648 + 3 / 274877906944 ->
  u0 * u0 + u1 * u1 + u2 * u2 <= 1 + 17 / 9007199254740992 ->
  - (826 / 1000000000000) <= E0 * u0 + E1 * u1 + E2 * u2 <= 826 / 1000000000000.
Proof.
  intros H0 H1 H2 Hu.
  apply Rabs_le_both in H0, H1, H2.
  pose proof (cauchy_schwarz3 E0 E1 E2 u0 u1 u2) as CS.
  set (B := / 2147483648 + 3 / 274877906944) in *.
  assert (HB : 0 < B) by (unfold B; lra).
  assert (S0 : E0 * E0 <= B * B) by nra.
  assert (S1 : E1 * E1 <= B * B) by nra.
  assert (S2 : E2 * E2 <= B * B) by nra.
  assert (Hn : 0 <= u0 * u0 + u1 * u1 + u2 * u2) by nra.
  apply sq_le_bound; [lra|].
  eapply Rle_trans; [exact CS|].
  apply Rle_trans with ((3 * (B * B)) * (1 + 17 / 9007199254740992)).
  - apply Rmult_le_compat; nra.
  - unfold B. lra.
Qed.

(** What the rounding errors of one round trip add up to, for the
    first of the two image coordinates: the errors [D - (x r + y c)] of
    the image plane point, [e1] and [e2] of the two dot products, and
    [e3] of the product with the matrix. *)
Lemma round_trip_budget
  (x y r0 r1 r2 c0 c1 c2 D0 D1 D2 cf px py il : R) :
  Rabs x <= 16384 -> Rabs y <= 16384 ->
  Rabs (r0 * r0 + r1 * r1 + r2 * r2 - 1) <= 17 / 9007199254740992 ->
  Rabs (c0 * c0 + c1 * c1 + c2 * c2 - 1) <= 17 / 9007199254740992 ->
  Rabs cf <= / 268435456 ->
  Rabs (cf - (r0 * c0 + r1 * c1 + r2 * c2)) <= 7 / 9007199254740992 ->
  Rabs (D0 - (x * r0 + y * c0)) <= / 2147483648 + 3 / 274877906944 ->
  Rabs (D1 - (x * r1 + y * c1)) <= / 2147483648 + 3 / 274877906944 ->
  Rabs (D2 - (x * r2 + y * c2)) <= / 2147483648 + 3 / 274877906944 ->
  Rabs (px - (D0 * r0 + D1 * r1 + D2 * r2)) <= 7 / 274877906944 ->
  Rabs (py - (D0 * c0 + D1 * c1 + D2 * c2)) <= 7 / 274877906944 ->
  Rabs (il - (px - cf * py)) <= / 137438953472 + / 36893488147419103232 ->
  Rabs (il - x) <= 95 / 100000000000.
Proof.
  intros Hx Hy Hr Hc Hcf Hg H0 H1 H2 Hpx Hpy Hil.
  set (nr := r0 * r0 + r1 * r1 + r2 * r2) in *.
  set (nc := c0 * c0 + c1 * c1 + c2 * c2) in *.
  set (g := r0 * c0 + r1 * c1 + r2 * c2) in *.
  set (E0 := D0 - (x * r0 + y * c0)) in *.
  set (E1 := D1 - (x * r1 + y * c1)) in *.
  set (E2 := D2 - (x * r2 + y * c2)) in *.
  set (e1 := px - (D0 * r0 + D1 * r1 + D2 * r2)) in *.
  set (e2 := py - (D0 * c0 + D1 * c1 + D2 * c2)) in *.
  set (e3 := il - (px - cf * py)) in *.
  assert (Hur : nr <= 1 + 17 / 9007199254740992)
    by (apply Rabs_le_both in Hr; lra).
  assert (Huc : nc <= 1 + 17 / 9007199254740992)
    by (apply Rabs_le_both in Hc; lra).
  pose proof (@error_along_axis E0 E1 E2 r0 r1 r2 H0 H1 H2 Hur) as Ter.
  pose proof (@error_along_axis E0 E1 E2 c0 c1 c2 H0 H1 H2 Huc) as Tec.
  set (Er := E0 * r0 + E1 * r1 + E2 * r2) in *.
  set (Ec := E0 * c0 + E1 * c1 + E2 * c2) in *.
  assert (Hid : il - x
                = x * (nr - 1) + y * (g - cf) + y * (cf * (1 - nc)) - cf * (x * g)
                  + Er - cf * Ec - cf * e2 + e1 + e3).
  { unfold e3, e2, e1, Er, Ec, E0, E1, E2, nr, nc, g. ring. }
  assert (Hg' : Rabs g <= / 134217728).
  { apply Rabs_le_both in Hg, Hcf. apply Rabs_of_both. lra. }
  assert (Hnc : Rabs (1 - nc) <= 17 / 9007199254740992).
  { apply Rabs_le_both in Hc. apply Rabs_of_both. lra. }
  assert (Hgc : Rabs (g - cf) <= 7 / 9007199254740992).
  { apply Rabs_le_both in Hg. apply Rabs_of_both. lra. }
  assert (HEc : Rabs Ec <= 826 / 1000000000000) by (apply Rabs_of_both; lra).
  pose proof (Rabs_le_both _ (Rabs_mult_le _ _ Hx Hr)) as T1.
  pose proof (Rabs_le_both _ (Rabs_mult_le _ _ Hy Hgc)) as T2.
  pose proof (Rabs_le_both _ (Rabs_mult_le _ _ Hy (Rabs_mult_le _ _ Hcf Hnc))) as T3.
  pose proof (Rabs_le_both _ (Rabs_mult_le _ _ Hcf (Rabs_mult_le _ _ Hx Hg'))) as T4.
  pose proof (Rabs_le_both _ (Rabs_mult_le _ _ Hcf HEc)) as T6.
  pose proof (Rabs_le_both _ (Rabs_mult_le _ _ Hcf Hpy)) as T7.
  apply Rabs_le_both in Hpx, Hil.
  apply Rabs_of_both. rewrite Hid. lra.
Qed.

End RoundTripBudget.


Section RoundTripInputs.
Local Open Scope R_scope.

Notation "[[ x ]]" := (b64_value x) (at level 0, format "[[ x ]]").

Ltac literal x := let v := eval vm_compute in x in change x with v.

Lemma value_one : [[of_Z 1]] = 1.
Proof.
  cbn [of_Z Binary64]. literal (b64_of_Z 1). cbn [b64_value].
  change (bpow (-52)) with (/ 4503599627370496). lra.
Qed.

Lemma value_two_pow_m28 : [[two_pow_m28]] = / 268435456.
Proof.
  literal two_pow_m28. cbn [b64_value].
  change (bpow (-80)) with (/ 1208925819614629174706176). lra.
Qed.

Lemma value_two_pow_m50 : [[two_pow_m50]] = / 1125899906842624.
Proof.
  literal two_pow_m50. cbn [b64_value].
  change (bpow (-102)) with (/ 5070602400912917605986812821504). lra.
Qed.

Lemma value_16384 : [[of_Z 16384]] = 16384.
Proof.
  cbn [of_Z Binary64]. literal (b64_of_Z 16384). cbn [b64_value].
  change (bpow (-38)) with (/ 274877906944). lra.
Qed.

Lemma value_8323072 : [[of_Z 8323072]] = 8323072.
Proof.
  cbn [of_Z Binary64]. literal (b64_of_Z 8323072). cbn [b64_value].
  match goal with |- context [bpow ?e] =>
    let b := eval vm_compute in (2 ^ (- e))%Z in change (bpow e) with (/ IZR b) end.
  lra.
Qed.

Lemma value_tol_1e_9 : b64_number tol_1e_9 = true /\ 99 / 100000000000 <= [[tol_1e_9]].
Proof.
  split; [reflexivity|].
  literal tol_1e_9. cbn [b64_value].
  match goal with |- context [bpow ?e] =>
    let b := eval vm_compute in (2 ^ (- e))%Z in change (bpow e) with (/ IZR b) end.
  lra.
Qed.

Lemma vec3_bounded_spec (bound : spec_float) (a : vec3 spec_float) :
  b64_number bound = true -> vec3_bounded bound a = true ->
  (b64_number (v0 a) = true /\ b64_number (v1 a) = true /\ b64_number (v2 a) = true)
  /\ Rabs [[v0 a]] <= [[bound]] /\ Rabs [[v1 a]] <= [[bound]] /\ Rabs [[v2 a]] <= [[bound]].
Proof.
  intros Hb H. unfold vec3_bounded in H.
  apply andb_true_iff in H. destruct H as [H H2].
  apply andb_true_iff in H. destruct H as [H0 H1].
  destruct (@b64_bounded_spec bound _ Hb H0). destruct (@b64_bounded_spec bound _ Hb H1).
  destruct (@b64_bounded_spec bound _ Hb H2). tauto.
Qed.

Lemma Rabs_sub_one_lt (a : R) : - 1 <= a -> a < 5 -> Rabs (a - 1) < 4.
Proof. intros. apply Rabs_of_both_lt. lra. Qed.

(** [np.dot(u, v)] for two vectors with components of magnitude at
    most 1. *)
Lemma unit_dot_error (u v : vec3 spec_float) :
  vec3_bounded (of_Z 1) u = true -> vec3_bounded (of_Z 1) v = true ->
  b64_number (vdot u v) = true
  /\ Rabs ([[vdot u v]] - ([[v0 u]] * [[v0 v]] + [[v1 u]] * [[v1 v]] + [[v2 u]] * [[v2 v]]))
     <= 7 / 9007199254740992
  /\ Rabs [[vdot u v]] <= 4.
Proof.
  intros Hu Hv.
  assert (N1 : b64_number (of_Z 1) = true) by (vm_compute; reflexivity).
  destruct (@vec3_bounded_spec (of_Z 1) u N1 Hu) as ((Nu0 & Nu1 & Nu2) & Bu0 & Bu1 & Bu2).
  destruct (@vec3_bounded_spec (of_Z 1) v N1 Hv) as ((Nv0 & Nv1 & Nv2) & Bv0 & Bv1 & Bv2).
  rewrite value_one in *.
  destruct (@dot3_error u v 1 1 Nu0 Nu1 Nu2 Nv0 Nv1 Nv2 Bu0 Bu1 Bu2 Bv0 Bv1 Bv2)
    as (N & E & M).
  - change (bpow 1) with 2. lra.
  - change (err (1 + 1)) with (/ 4503599627370496). change (bpow (1 + 1)) with 4. lra.
  - lia.
  - change (err (1 + 1)) with (/ 4503599627370496) in E, M.
    change (err 1) with (/ 9007199254740992) in E, M.
    split; [exact N|]. split; [|lra]. eapply Rle_trans; [exact E|]. lra.
Qed.

Lemma unit_to_rounding_spec (u : vec3 spec_float) :
  unit_to_rounding u = true ->
  vec3_bounded (of_Z 1) u = true
  /\ Rabs ([[v0 u]] * [[v0 u]] + [[v1 u]] * [[v1 u]] + [[v2 u]] * [[v2 u]] - 1)
     <= 17 / 9007199254740992.
Proof.
  intros H. unfold unit_to_rounding in H.
  apply andb_true_iff in H. destruct H as [Hb Hle].
  split; [exact Hb|].
  destruct (@unit_dot_error u u Hb Hb) as (N & E & M).
  set (d := vdot u u) in *.
  set (n := [[v0 u]] * [[v0 u]] + [[v1 u]] * [[v1 u]] + [[v2 u]] * [[v2 u]]) in *.
  assert (Hn : 0 <= n) by (unfold n; nra).
  apply Rabs_le_both in E.
  assert (N1 : b64_number (of_Z 1) = true) by (vm_compute; reflexivity).
  destruct (@b64_sub_spec d (of_Z 1) 2 N N1) as [Nz Ez].
  { rewrite value_one. change (bpow 2) with 4. apply Rabs_le_both in M.
    apply Rabs_of_both_lt. lra. }
  { lia. }
  rewrite value_one in Ez. change (err 2) with (/ 4503599627370496) in Ez.
  destruct (b64_abs_spec (d - of_Z 1)%fl) as [Na Va].
  assert (Hz : Rabs [[(d - of_Z 1)%fl]] <= / 1125899906842624).
  { rewrite <- Va, <- value_two_pow_m50.
    apply b64_leb_spec; [now rewrite Na | vm_compute; reflexivity | exact Hle]. }
  apply Rabs_le_both in Ez, Hz. apply Rabs_of_both. lra.
Qed.

End RoundTripInputs.


Section RoundTripBinary64.
Local Open Scope R_scope.

Notation "[[ x ]]" := (b64_value x) (at level 0, format "[[ x ]]").

(** For axes orthogonal to rounding, [1 - cos_theta_col ** 2] rounds
    to 1. *)
Lemma one_minus_sq_small (c : spec_float) :
  b64_number c = true -> Rabs [[c]] <= / 268435456 ->
  (of_Z 1 - c * c)%fl = of_Z 1.
Proof.
  intros Nc Hc.
  pose proof (Rabs_le_both _ (Rabs_mult_le _ _ Hc Hc)) as Hcc.
  destruct (@b64_mul_spec c c (-55) Nc Nc) as [Nt Et].
  { change (bpow (-55)) with (/ 36028797018963968). apply Rabs_of_both_lt. lra. }
  { lia. }
  change (err (-55)) with (/ 649037107316853453566312041152512) in Et.
  apply Rabs_le_both in Et.
  pose proof (b64_sq_nonneg c) as Hpos.
  set (t := (c * c)%fl) in *.
  destruct (Req_dec [[t]] 0) as [Hz|Hnz].
  - destruct (@number_zero_value t Nt Hz) as [s ->]. now destruct s.
  - assert (N1 : b64_number (of_Z 1) = true) by (vm_compute; reflexivity).
    destruct (@b64_sub_spec (of_Z 1) t 0 N1 Nt) as [Nw Ew].
    { rewrite value_one. change (bpow 0) with 1. apply Rabs_of_both_lt. lra. }
    { lia. }
    rewrite value_one in Ew. change (err 0) with (/ 18014398509481984) in Ew.
    apply Rabs_le_both in Ew.
    apply b64_number_near_one; [exact Nw|].
    change (bpow (-55)) with (/ 36028797018963968).
    change (bpow (-54)) with (/ 18014398509481984). lra.
Qed.

Lemma m_il_ippt_orthogonal (meta : MetadataParams spec_float) :
  let c := cos_theta_col meta in
  b64_number c = true -> Rabs [[c]] <= / 268435456 ->
  m_il_ippt meta = M2 (of_Z 1) (- c)%fl (- c)%fl (of_Z 1).
Proof.
  intros c Nc Hc. unfold m_il_ippt, sin_theta_col, sq. fold c.
  rewrite (@one_minus_sq_small c Nc Hc).
  assert (Hk : pow_m2 (fsqrt (of_Z 1 : spec_float)) = of_Z 1) by (vm_compute; reflexivity).
  rewrite Hk. unfold mat2_scale. cbn [m00 m01 m10 m11].
  assert (Nn : b64_valid (- c)%fl = true).
  { apply number_valid. destruct (b64_opp_spec c) as [-> _]. exact Nc. }
  rewrite (@b64_mul_one_l _ Nn).
  assert (H1 : (of_Z 1 * of_Z 1)%fl = (of_Z 1 : spec_float)) by (vm_compute; reflexivity).
  now rewrite H1.
Qed.

(** One row of [M_il_ippt @ ip]: [p + (-c) * q], for [|c| <= 2 ** -28]. *)
Lemma matrix_row_error (c p q : spec_float) :
  b64_number c = true -> b64_number p = true -> b64_number q = true ->
  Rabs [[c]] <= / 268435456 -> Rabs [[p]] <= 98308 -> Rabs [[q]] <= 98308 ->
  b64_number (p + (- c) * q)%fl = true
  /\ b64_number ((- c) * q + p)%fl = true
  /\ Rabs ([[(p + (- c) * q)%fl]] - ([[p]] - [[c]] * [[q]]))
     <= / 137438953472 + / 36893488147419103232
  /\ Rabs ([[((- c) * q + p)%fl]] - ([[p]] - [[c]] * [[q]]))
     <= / 137438953472 + / 36893488147419103232.
Proof.
  intros Nc Np Nq Hc Hp Hq.
  destruct (b64_opp_spec c) as [Nn Vn]. rewrite Nc in Nn.
  pose proof (Rabs_le_both _ (Rabs_mult_le _ _ Hc Hq)) as Hcq.
  destruct (@b64_mul_spec (- c)%fl q (-11) Nn Nq) as [Nm Em].
  { rewrite Vn. change (bpow (-11)) with (/ 2048). apply Rabs_of_both_lt. lra. }
  { lia. }
  rewrite Vn in Em. change (err (-11)) with (/ 36893488147419103232) in Em.
  apply Rabs_le_both in Em, Hp.
  set (m := ((- c) * q)%fl) in *.
  destruct (@b64_add_spec p m 17 Np Nm) as [N1 E1].
  { change (bpow 17) with 131072. apply Rabs_of_both_lt. lra. }
  { lia. }
  destruct (@b64_add_spec m p 17 Nm Np) as [N2 E2].
  { change (bpow 17) with 131072. apply Rabs_of_both_lt. lra. }
  { lia. }
  change (err 17) with (/ 137438953472) in E1, E2.
  apply Rabs_le_both in E1, E2.
  repeat split; try assumption; apply Rabs_of_both; lra.
Qed.

(** The comparison with the tolerance. *)
Lemma within_tolerance (a b : spec_float) :
  b64_number a = true -> b64_number b = true ->
  Rabs ([[a]] - [[b]]) <= 95 / 100000000000 ->
  within tol_1e_9 a b = true.
Proof.
  intros Na Nb H. unfold within.
  destruct (@b64_sub_spec a b (-29) Na Nb) as [Nz Ez].
  { change (bpow (-29)) with (/ 536870912).
    apply Rabs_le_both in H. apply Rabs_of_both_lt. lra. }
  { lia. }
  change (err (-29)) with (/ 9671406556917033397649408) in Ez.
  destruct (b64_abs_spec (a - b)%fl) as [Nf Vf].
  destruct value_tol_1e_9 as [Nt Vt].
  apply b64_leb_spec; [now rewrite Nf | exact Nt |].
  rewrite Vf. apply Rabs_le_both in H, Ez. 
  eapply Rle_trans; [|exact Vt]. apply Rabs_of_both. lra.
Qed.

Lemma round_trip_binary64_pt (meta : MetadataParams spec_float) (il : vec2 spec_float) :
  round_trip_metadata meta = true -> round_trip_location il = true ->
  within2 tol_1e_9
    (image_plane_point_to_image_grid_pt meta (image_grid_to_image_plane_point_pt meta il))
    il = true.
Proof.
  intros Hm Hl. unfold round_trip_metadata in Hm.
  apply andb_true_iff in Hm. destruct Hm as [Hm Ho].
  apply andb_true_iff in Hm. destruct Hm as [Hm Hc].
  apply andb_true_iff in Hm. destruct Hm as [HS Hr].
  unfold round_trip_location in Hl.
  apply andb_true_iff in Hl. destruct Hl as [Hx Hy].
  assert (N16 : b64_number (of_Z 16384) = true) by (vm_compute; reflexivity).
  assert (N83 : b64_number (of_Z 8323072) = true) by (vm_compute; reflexivity).
  assert (N1 : b64_number (of_Z 1) = true) by (vm_compute; reflexivity).
  destruct (@b64_bounded_spec (of_Z 16384) _ N16 Hx) as [Nx Bx].
  destruct (@b64_bounded_spec (of_Z 16384) _ N16 Hy) as [Ny By].
  rewrite value_16384 in Bx, By.
  destruct (@vec3_bounded_spec (of_Z 8323072) _ N83 HS)
    as ((NS0 & NS1 & NS2) & BS0 & BS1 & BS2).
  rewrite value_8323072 in BS0, BS1, BS2.
  destruct (@unit_to_rounding_spec _ Hr) as [Hrb Hrn].
  destruct (@unit_to_rounding_spec _ Hc) as [Hcb Hcn].
  destruct (@vec3_bounded_spec (of_Z 1) _ N1 Hrb) as ((Nr0 & Nr1 & Nr2) & Br0 & Br1 & Br2).
  destruct (@vec3_bounded_spec (of_Z 1) _ N1 Hcb) as ((Nc0 & Nc1 & Nc2) & Bc0 & Bc1 & Bc2).
  rewrite value_one in Br0, Br1, Br2, Bc0, Bc1, Bc2.
  destruct (@unit_dot_error _ _ Hrb Hcb) as (Ncf & Ecf & _).
  assert (Bcf : Rabs [[vdot (uRow meta) (uCol meta)]] <= / 268435456).
  { destruct (b64_abs_spec (vdot (uRow meta) (uCol meta))) as [Na Va].
    rewrite <- Va, <- value_two_pow_m28.
    apply b64_leb_spec; [now rewrite Na | vm_compute; reflexivity | exact Ho]. }
  unfold image_plane_point_to_image_grid_pt.
  rewrite (@m_il_ippt_orthogonal meta Ncf Bcf).
  unfold cos_theta_col.
  set (cf := vdot (uRow meta) (uCol meta)) in *.
  unfold image_grid_to_image_plane_point_pt.
  destruct il as [x y]. cbn [w0 w1] in *.
  destruct (uRow meta) as [r0 r1 r2], (uCol meta) as [c0 c1 c2], (SCP meta) as [S0 S1 S2].
  cbn [v0 v1 v2] in *.
  unfold vadd, vsub, vscale, vzip, vmap. cbn [v0 v1 v2].
  destruct (@coordinate_error x y r0 c0 S0 Nx Ny Nr0 Nc0 NS0 Bx By Br0 Bc0 BS0) as (ND0 & ED0 & BD0).
  destruct (@coordinate_error x y r1 c1 S1 Nx Ny Nr1 Nc1 NS1 Bx By Br1 Bc1 BS1) as (ND1 & ED1 & BD1).
  destruct (@coordinate_error x y r2 c2 S2 Nx Ny Nr2 Nc2 NS2 Bx By Br2 Bc2 BS2) as (ND2 & ED2 & BD2).
  set (D0 := (S0 + (x * r0 + y * c0) - S0)%fl) in *.
  set (D1 := (S1 + (x * r1 + y * c1) - S1)%fl) in *.
  set (D2 := (S2 + (x * r2 + y * c2) - S2)%fl) in *.
  change (vsum (vmul (V3 D0 D1 D2) (V3 r0 r1 r2))) with (vdot (V3 D0 D1 D2) (V3 r0 r1 r2)).
  change (vsum (vmul (V3 D0 D1 D2) (V3 c0 c1 c2))) with (vdot (V3 D0 D1 D2) (V3 c0 c1 c2)).
  assert (Hdot : forall u0 u1 u2 : spec_float,
            b64_number u0 = true -> b64_number u1 = true -> b64_number u2 = true ->
            Rabs [[u0]] <= 1 -> Rabs [[u1]] <= 1 -> Rabs [[u2]] <= 1 ->
            let p := vdot (V3 D0 D1 D2) (V3 u0 u1 u2) in
            b64_number p = true
            /\ Rabs ([[p]] - ([[D0]] * [[u0]] + [[D1]] * [[u1]] + [[D2]] * [[u2]]))
               <= 7 / 274877906944
            /\ Rabs [[p]] <= 98308).
  { intros u0 u1 u2 Nu0 Nu1 Nu2 Bu0 Bu1 Bu2 p.
    destruct (@dot3_error (V3 D0 D1 D2) (V3 u0 u1 u2) 16 32769
                ND0 ND1 ND2 Nu0 Nu1 Nu2 BD0 BD1 BD2 Bu0 Bu1 Bu2) as (N & E & M).
    - change (bpow 16) with 65536. lra.
    - change (err (16 + 1)) with (/ 137438953472).
      change (bpow (16 + 1)) with 131072. lra.
    - lia.
    - change (err (16 + 1)) with (/ 137438953472) in E, M.
      change (err 16) with (/ 274877906944) in E, M.
      cbn [v0 v1 v2] in E.
      split; [exact N|]. split; eapply Rle_trans; try eassumption; lra. }
  destruct (Hdot r0 r1 r2 Nr0 Nr1 Nr2 Br0 Br1 Br2) as (Npx & Epx & Bpx).
  destruct (Hdot c0 c1 c2 Nc0 Nc1 Nc2 Bc0 Bc1 Bc2) as (Npy & Epy & Bpy).
  set (px := vdot (V3 D0 D1 D2) (V3 r0 r1 r2)) in *.
  set (py := vdot (V3 D0 D1 D2) (V3 c0 c1 c2)) in *.
  unfold mat2_apply. cbn [m00 m01 m10 m11 w0 w1].
  rewrite (@b64_mul_one_l px (@number_valid px Npx)), (@b64_mul_one_l py (@number_valid py Npy)).
  destruct (@matrix_row_error cf px py Ncf Npx Npy Bcf Bpx Bpy) as (Nx' & _ & Ex' & _).
  destruct (@matrix_row_error cf py px Ncf Npy Npx Bcf Bpy Bpx) as (_ & Ny' & _ & Ey').
  unfold within2. cbn [w0 w1]. apply andb_true_iff. split.
  - apply within_tolerance; [exact Nx' | exact Nx |].
    apply (@round_trip_budget [[x]] [[y]] [[r0]] [[r1]] [[r2]] [[c0]] [[c1]] [[c2]]
             [[D0]] [[D1]] [[D2]] [[cf]] [[px]] [[py]]); assumption.
  - apply within_tolerance; [exact Ny' | exact Ny |].
    apply (@round_trip_budget [[y]] [[x]] [[c0]] [[c1]] [[c2]] [[r0]] [[r1]] [[r2]]
             [[D0]] [[D1]] [[D2]] [[cf]] [[py]] [[px]]); try assumption.
    + replace ([[c0]] * [[r0]] + [[c1]] * [[r1]] + [[c2]] * [[r2]])
        with ([[r0]] * [[c0]] + [[r1]] * [[c1]] + [[r2]] * [[c2]]) by ring.
      exact Ecf.
    + replace ([[y]] * [[c0]] + [[x]] * [[r0]]) with ([[x]] * [[r0]] + [[y]] * [[c0]]) by ring.
      exact ED0.
    + replace ([[y]] * [[c1]] + [[x]] * [[r1]]) with ([[x]] * [[r1]] + [[y]] * [[c1]]) by ring.
      exact ED1.
    + replace ([[y]] * [[c2]] + [[x]] * [[r2]]) with ([[x]] * [[r2]] + [[y]] * [[c2]]) by ring.
      exact ED2.
Qed.

End RoundTripBinary64.


Lemma round_trip_binary64 (meta : MetadataParams spec_float)
  (locs : list (vec2 spec_float)) :
  round_trip_metadata meta = true -> forallb round_trip_location locs = true ->
  exists locs',
    image_plane_point_to_image_grid meta (image_grid_to_image_plane_point meta locs)
    = inr locs'
    /\ Forall2 (fun il' il => within2 tol_1e_9 il' il = true) locs' locs.
Proof.
  intros Hm Hl.
  unfold image_plane_point_to_image_grid, image_grid_to_image_plane_point, ret.
  eexists. split; [reflexivity|]. rewrite map_map.
  induction locs as [|il locs IH]; [constructor|].
  cbn [forallb] in Hl. apply andb_true_iff in Hl. destruct Hl as [Hil Hl].
  cbn [map]. constructor; [|exact (IH Hl)].
  exact (@round_trip_binary64_pt meta il Hm Hil).
Qed.

(** C1, as amended.  [image_grid_to_image_plane_point] followed by
    [image_plane_point_to_image_grid] returns every image grid
    location
    - exactly, in exact real arithmetic, for unit-length and
      non-collinear [uRow] and [uCol];
    - within [1e-9] m in each coordinate, in binary64, for an SCP whose
      ECF coordinates are at most 8 323 072 m in magnitude (those of
      every point of the Earth's surface are), for [uRow] and [uCol]
      that are unit vectors and orthogonal to each other up to
      rounding, and for image grid coordinates of at most 16 384 m in
      magnitude. *)
Theorem round_trip_within_tolerance :
  (forall (meta : MetadataParams R) (locs : list (vec2 R)),
     vnorm (uRow meta) = 1%R -> vnorm (uCol meta) = 1%R ->
     cross (uRow meta) (uCol meta) <> V3 0%R 0%R 0%R ->
     image_plane_point_to_image_grid meta (image_grid_to_image_plane_point meta locs)
     = inr locs)
  /\ (forall (meta : MetadataParams spec_float) (locs : list (vec2 spec_float)),
        round_trip_metadata meta = true ->
        forallb round_trip_location locs = true ->
        exists locs',
          image_plane_point_to_image_grid meta
            (image_grid_to_image_plane_point meta locs) = inr locs'
          /\ Forall2 (fun il' il => within2 tol_1e_9 il' il = true) locs' locs).
Proof.
  split.
  - intros meta locs. apply round_trip_exact.
  - intros meta locs. apply round_trip_binary64.
Qed.

Lemma round_trip_within_tolerance_witness :
  round_trip_metadata meta_rotated = true
  /\ forallb round_trip_location [near_offset] = true
  /\ exists locs',
       image_plane_point_to_image_grid meta_rotated
         (image_grid_to_image_plane_point meta_rotated [near_offset]) = inr locs'
       /\ Forall2 (fun il' il => within2 tol_1e_9 il' il = true) locs' [near_offset].
Proof.
  assert (Hm : round_trip_metadata meta_rotated = true) by (vm_compute; reflexivity).
  assert (Hl : forallb round_trip_location [near_offset] = true) by (vm_compute; reflexivity).
  split; [exact Hm|]. split; [exact Hl|].
  exact (proj2 round_trip_within_tolerance meta_rotated [near_offset] Hm Hl).
Defined.

(** C1 as stated fails in binary64 next to the SCP when the axes are
    not orthogonal.  With the SCP on the equator at longitude 45
    degrees and the unit axes [(0.6, 0.8, 0)] and [(0.8, 0.6, 0)], 16.3
    degrees apart, the image grid location [(17.4, 72.6)], less than
    100 m from the SCP, comes back more than [2e-9] m off in both
    coordinates: the image plane point is rounded to the spacing
    [2 ** -30] m of binary64 at the coordinates of the SCP, and
    [M_il_ippt] scales the error by [1 / sin_theta_col ** 2], about
    12.8. *)
Lemma round_trip_binary64_counterexample :
  vec3_bounded (of_Z 8323072) (SCP meta_skewed) = true
  /\ unit_to_rounding (uRow meta_skewed) = true
  /\ unit_to_rounding (uCol meta_skewed) = true
  /\ orthogonal_to_rounding (uRow meta_skewed) (uCol meta_skewed) = false
  /\ vnorm (uRow meta_skewed) = of_Z 1
  /\ vnorm (uCol meta_skewed) = of_Z 1
  /\ cross (uRow meta_skewed) (uCol meta_skewed) <> zero3
  /\ b64_bounded (of_Z 100) (w0 near_offset) = true
  /\ b64_bounded (of_Z 100) (w1 near_offset) = true
  /\ exists il',
       image_plane_point_to_image_grid meta_skewed
         (image_grid_to_image_plane_point meta_skewed [near_offset]) = inr [il']
       /\ within tol_1e_9 (w0 il') (w0 near_offset) = false
       /\ within tol_2e_9 (w0 il') (w0 near_offset) = false
       /\ within tol_1e_9 (w1 il') (w1 near_offset) = false
       /\ within tol_2e_9 (w1 il') (w1 near_offset) = false.
Proof.
  repeat (split; [vm_compute; reflexivity|]).
  split; [vm_compute; discriminate|].
  repeat (split; [vm_compute; reflexivity|]).
  eexists. split; [vm_compute; reflexivity|].
  repeat split; vm_compute; reflexivity.
Qed.

(** The bound on the image grid coordinates is needed as well.  With
    orthogonal unit axes and the SCP on the equator, the image plane
    point of [far_offset] is [36378137 + 2 ** -28] along x, a tie
    between two neighbouring floats that rounds to [36378137]; the way
    back returns [30000000], which is [2 ** -28 > 1e-9] metres off. *)
Lemma round_trip_far_offset :
  round_trip_metadata meta_orthogonal = true
  /\ round_trip_location far_offset = false
  /\ image_plane_point_to_image_grid meta_orthogonal
       (image_grid_to_image_plane_point meta_orthogonal [far_offset])
     = inr [V2 (b64_of_Z 30000000) (b64_of_Z 0)]
  /\ within tol_1e_9 (b64_of_Z 30000000) (w0 far_offset) = false.
Proof. repeat split; vm_compute; reflexivity. Qed.


(* ================================================================== *)
(** * Collinear image plane axes (C6)                                  *)
(* ================================================================== *)

Lemma pow_m2_of_zero (s : spec_float) :
  is_zero s -> pow_m2 s = S754_infinity false.
Proof. intros [sg ->]. destruct sg; reflexivity. Qed.

Lemma m_il_ippt_nonfinite (meta : MetadataParams spec_float) :
  (sin_theta_col meta =? of_Z 0) = true ->
  fisfinite (m00 (m_il_ippt meta)) = false
  /\ fisfinite (m01 (m_il_ippt meta)) = false
  /\ fisfinite (m10 (m_il_ippt meta)) = false
  /\ fisfinite (m11 (m_il_ippt meta)) = false.
Proof.
  intros Hs. apply b64_eqb_zero in Hs.
  unfold m_il_ippt, mat2_scale. rewrite (pow_m2_of_zero Hs).
  cbn [m00 m01 m10 m11].
  repeat split; now apply b64_mul_nonfinite_l.
Qed.

Lemma collinear_pt_nonfinite (meta : MetadataParams spec_float) (p : vec3 spec_float) :
  (sin_theta_col meta =? of_Z 0) = true ->
  fisfinite (w0 (image_plane_point_to_image_grid_pt meta p)) = false
  /\ fisfinite (w1 (image_plane_point_to_image_grid_pt meta p)) = false.
Proof.
  intros Hs.
  destruct (m_il_ippt_nonfinite meta Hs) as (H00 & H01 & H10 & H11).
  unfold image_plane_point_to_image_grid_pt, mat2_apply. cbn [w0 w1].
  split; apply b64_add_nonfinite; now apply b64_mul_nonfinite_l.
Qed.

(** C6, as amended.  When the sine of the angle between [uRow] and
    [uCol] evaluates to zero, [image_plane_point_to_image_grid] raises
    nothing: it returns, and both coordinates of every returned
    location are an infinity or NaN. *)
Theorem collinear_returns_nonfinite
  (meta : MetadataParams spec_float) (pts : list (vec3 spec_float)) :
  (sin_theta_col meta =? of_Z 0) = true ->
  exists out,
    image_plane_point_to_image_grid meta pts = inr out
    /\ List.length out = List.length pts
    /\ Forall (fun il => fisfinite (w0 il) = false /\ fisfinite (w1 il) = false) out.
Proof.
  intros Hs. eexists. split; [reflexivity|]. split; [apply length_map|].
  apply Forall_forall. intros il Hin.
  apply in_map_iff in Hin as (p & <- & _).
  now apply collinear_pt_nonfinite.
Qed.

Lemma collinear_returns_nonfinite_witness :
  (sin_theta_col meta_collinear =? of_Z 0) = true
  /\ exists out,
       image_plane_point_to_image_grid meta_collinear [point_off_scp] = inr out
       /\ List.length out = 1%nat
       /\ Forall (fun il => fisfinite (w0 il) = false /\ fisfinite (w1 il) = false) out.
Proof.
  split; [reflexivity|].
  exact (collinear_returns_nonfinite meta_collinear [point_off_scp] eq_refl).
Defined.

(** C6 as stated fails: with [uCol = uRow] the call on a point off the
    SCP returns; both coordinates are NaN. *)
Lemma collinear_no_error_counterexample :
  cross (uRow meta_collinear) (uCol meta_collinear) = V3 (S754_zero false) (S754_zero false) (S754_zero false)
  /\ sin_theta_col meta_collinear = S754_zero false
  /\ image_plane_point_to_image_grid meta_collinear [point_off_scp]
     = inr [V2 S754_nan S754_nan].
Proof. repeat split; vm_compute; reflexivity. Qed.

(* ================================================================== *)
(** * Side of track and the SCP slant plane normal (C9)                *)
(* ================================================================== *)

Lemma vscale_minus_one (c : vec3 spec_float) :
  vscale (of_Z (-1)) c = vneg (vscale (of_Z 1) c).
Proof.
  unfold vscale, vneg, vmap. cbn [v0 v1 v2].
  change (of_Z (-1) : spec_float) with (- (of_Z 1 : spec_float)).
  now rewrite !b64_mul_opp_l.
Qed.

Lemma vnorm_vneg (a : vec3 spec_float) : vnorm (vneg a) = vnorm a.
Proof.
  unfold vnorm, vdot, vmul, vzip, vneg, vmap. cbn [v0 v1 v2].
  now rewrite !b64_mul_opp_opp.
Qed.

Lemma vdivs_vneg (a : vec3 spec_float) (n : spec_float) :
  vdivs (vneg a) n = vneg (vdivs a n).
Proof.
  unfold vdivs, vneg, vmap. cbn [v0 v1 v2].
  now rewrite !b64_div_opp_l.
Qed.

Lemma normalize_vneg (a : vec3 spec_float) :
  vdivs (vneg a) (vnorm (vneg a)) = vneg (vdivs a (vnorm a)).
Proof. now rewrite vnorm_vneg, vdivs_vneg. Qed.

Section UnitVectors.
Local Open Scope R_scope.

Lemma vnorm_normalized (a : vec3 R) :
  a <> V3 0 0 0 -> vnorm (vdivs a (vnorm a)) = 1.
Proof.
  intros Ha.
  pose proof (cross_nonzero_sq Ha) as Hpos.
  unfold vnorm at 1. unfold vdot, vsum, vmul, vdivs, vzip, vmap. cbn [v0 v1 v2].
  cbn [fadd fmul fdiv fsqrt Exact].
  assert (Hn : vnorm a <> 0).
  { unfold vnorm. cbn [fsqrt Exact]. intros E. apply sqrt_eq_0 in E; lra. }
  assert (Hsq : vnorm a * vnorm a = vdot a a).
  { unfold vnorm. cbn [fsqrt Exact]. apply sqrt_sqrt. lra. }
  replace (v0 a / vnorm a * (v0 a / vnorm a) + v1 a / vnorm a * (v1 a / vnorm a)
           + v2 a / vnorm a * (v2 a / vnorm a))
    with (vdot a a / (vnorm a * vnorm a)).
  - rewrite Hsq. replace (vdot a a / vdot a a) with 1 by (field; lra). apply sqrt_1.
  - unfold vdot, vsum, vmul, vzip. cbn [v0 v1 v2 fadd fmul Exact]. field. exact Hn.
Qed.

Lemma vscale_look_nonzero (s : side_of_track) (c : vec3 R) :
  c <> V3 0 0 0 -> vscale (of_Z (look_of s)) c <> V3 0 0 0.
Proof.
  intros Hc E. apply Hc. destruct c as [c0 c1 c2].
  unfold vscale, vmap in E. cbn [v0 v1 v2 fmul of_Z Exact] in E.
  injection E as E0 E1 E2.
  destruct s; cbn [look_of] in *; f_equal; lra.
Qed.

End UnitVectors.

Section SideOfTrackSign.
Local Open Scope R_scope.

(** C9.  [SideOfTrack] maps to the look sign [+1] for ["L"] and [-1]
    for ["R"], and this is the sign of the SCP COA slant plane normal:
    every other field kept,
    - in binary64, for a monostatic collect whose [ARP_SCP_COA], [SCP]
      and [VARP_SCP_COA] are floats of the format and for every
      bistatic collect, [compute_scp_coa_slant_plane_normal] returns
      for ["L"] the direction [spn_direction] divided by its length,
      bit for bit, and for ["R"] the negation of that;
    - in binary64, whatever the fields hold, the normal for ["R"] is
      the negation, component by component, of the one for ["L"];
    - in exact arithmetic, when the direction is not zero, both normals
      have length 1, the one for ["L"] along the direction and the one
      for ["R"] against it. *)
Theorem side_of_track_negates_normal :
  look_of LEFT = 1%Z
  /\ look_of RIGHT = (-1)%Z
  /\ (forall meta : MetadataParams spec_float,
        (is_monostatic meta = true ->
         vec3_valid (ARP_SCP_COA meta) = true /\ vec3_valid (SCP meta) = true
         /\ vec3_valid (VARP_SCP_COA meta) = true) ->
        let c := spn_direction meta in
        compute_scp_coa_slant_plane_normal (with_SideOfTrack LEFT meta)
        = vdivs c (vnorm c)
        /\ compute_scp_coa_slant_plane_normal (with_SideOfTrack RIGHT meta)
           = vneg (vdivs c (vnorm c)))
  /\ (forall meta : MetadataParams spec_float,
        compute_scp_coa_slant_plane_normal (with_SideOfTrack RIGHT meta)
        = vneg (compute_scp_coa_slant_plane_normal (with_SideOfTrack LEFT meta)))
  /\ (forall meta : MetadataParams R,
        spn_direction meta <> V3 0 0 0 ->
        let nl := compute_scp_coa_slant_plane_normal (with_SideOfTrack LEFT meta) in
        let nr := compute_scp_coa_slant_plane_normal (with_SideOfTrack RIGHT meta) in
        vnorm nl = 1 /\ vnorm nr = 1
        /\ 0 < vdot nl (spn_direction meta) /\ vdot nr (spn_direction meta) < 0).
Proof.
  split; [reflexivity|]. split; [reflexivity|].
  split; [|split].
  - intros meta Hvalid c.
    pose proof (spn_direction_valid meta Hvalid) as Hc. fold c in Hc.
    assert (HL : compute_scp_coa_slant_plane_normal (with_SideOfTrack LEFT meta)
                 = vdivs c (vnorm c)).
    { unfold compute_scp_coa_slant_plane_normal, c, spn_direction in *.
      change (is_monostatic (with_SideOfTrack LEFT meta)) with (is_monostatic meta).
      cbn [SideOfTrack with_SideOfTrack look_of].
      destruct (is_monostatic meta).
      - cbn [ARP_SCP_COA VARP_SCP_COA SCP with_SideOfTrack].
        now rewrite (vscale_one _ Hc).
      - change (_scp_r_rdot_projection_contour_bistatic (with_SideOfTrack LEFT meta))
          with (_scp_r_rdot_projection_contour_bistatic meta).
        cbv zeta in Hc |- *. now rewrite (vscale_one _ Hc). }
    split; [exact HL|]. rewrite <- HL.
    unfold compute_scp_coa_slant_plane_normal.
    change (is_monostatic (with_SideOfTrack RIGHT meta)) with (is_monostatic meta).
    change (is_monostatic (with_SideOfTrack LEFT meta)) with (is_monostatic meta).
    cbn [SideOfTrack with_SideOfTrack look_of].
    destruct (is_monostatic meta).
    + cbn [ARP_SCP_COA VARP_SCP_COA SCP with_SideOfTrack].
      rewrite vscale_minus_one. apply normalize_vneg.
    + change (_scp_r_rdot_projection_contour_bistatic (with_SideOfTrack RIGHT meta))
        with (_scp_r_rdot_projection_contour_bistatic meta).
      change (_scp_r_rdot_projection_contour_bistatic (with_SideOfTrack LEFT meta))
        with (_scp_r_rdot_projection_contour_bistatic meta).
      rewrite vscale_minus_one. apply normalize_vneg.
  - intros meta.
    unfold compute_scp_coa_slant_plane_normal.
    change (is_monostatic (with_SideOfTrack RIGHT meta)) with (is_monostatic meta).
    change (is_monostatic (with_SideOfTrack LEFT meta)) with (is_monostatic meta).
    cbn [SideOfTrack with_SideOfTrack look_of].
    destruct (is_monostatic meta).
    + cbn [ARP_SCP_COA VARP_SCP_COA SCP with_SideOfTrack].
      rewrite vscale_minus_one. apply normalize_vneg.
    + change (_scp_r_rdot_projection_contour_bistatic (with_SideOfTrack RIGHT meta))
        with (_scp_r_rdot_projection_contour_bistatic meta).
      change (_scp_r_rdot_projection_contour_bistatic (with_SideOfTrack LEFT meta))
        with (_scp_r_rdot_projection_contour_bistatic meta).
      rewrite vscale_minus_one. apply normalize_vneg.
  - intros meta Hc. cbv zeta.
    set (c := spn_direction meta) in *.
    assert (HL : compute_scp_coa_slant_plane_normal (with_SideOfTrack LEFT meta)
                 = vdivs (vscale 1 c) (vnorm (vscale 1 c))).
    { unfold compute_scp_coa_slant_plane_normal, c, spn_direction.
      change (is_monostatic (with_SideOfTrack LEFT meta)) with (is_monostatic meta).
      destruct (is_monostatic meta); reflexivity. }
    assert (HR : compute_scp_coa_slant_plane_normal (with_SideOfTrack RIGHT meta)
                 = vdivs (vscale (-1) c) (vnorm (vscale (-1) c))).
    { unfold compute_scp_coa_slant_plane_normal, c, spn_direction.
      change (is_monostatic (with_SideOfTrack RIGHT meta)) with (is_monostatic meta).
      destruct (is_monostatic meta); reflexivity. }
    rewrite HL, HR.
    assert (H1 : vscale 1 c <> V3 0 0 0).
    { apply (vscale_look_nonzero LEFT Hc). }
    assert (H2 : vscale (-1) c <> V3 0 0 0).
    { apply (vscale_look_nonzero RIGHT Hc). }
    split; [now apply vnorm_normalized|]. split; [now apply vnorm_normalized|].
    pose proof (cross_nonzero_sq Hc) as Hpos.
    assert (Hn1 : 0 < vnorm (vscale 1 c)).
    { pose proof (cross_nonzero_sq H1). unfold vnorm. cbn [fsqrt Exact].
      now apply sqrt_lt_R0. }
    assert (Hn2 : 0 < vnorm (vscale (-1) c)).
    { pose proof (cross_nonzero_sq H2). unfold vnorm. cbn [fsqrt Exact].
      now apply sqrt_lt_R0. }
    generalize dependent (vnorm (vscale 1 c)). intros n1 Hn1.
    generalize dependent (vnorm (vscale (-1) c)). intros n2 Hn2.
    destruct c as [c0 c1 c2].
    unfold vdot, vsum, vmul, vdivs, vscale, vzip, vmap in *.
    cbn [v0 v1 v2 fadd fsub fmul fdiv Exact] in *.
    split.
    + replace (1 * c0 / n1 * c0 + 1 * c1 / n1 * c1 + 1 * c2 / n1 * c2)
        with ((c0 * c0 + c1 * c1 + c2 * c2) / n1) by (field; lra).
      apply Rdiv_lt_0_compat; lra.
    + replace (-1 * c0 / n2 * c0 + -1 * c1 / n2 * c1 + -1 * c2 / n2 * c2)
        with (- ((c0 * c0 + c1 * c1 + c2 * c2) / n2)) by (field; lra).
      assert (0 < (c0 * c0 + c1 * c1 + c2 * c2) / n2) by (apply Rdiv_lt_0_compat; lra).
      lra.
Qed.

Lemma side_of_track_negates_normal_witness :
  vec3_valid (ARP_SCP_COA meta_side_looking) = true
  /\ vec3_valid (SCP meta_side_looking) = true
  /\ vec3_valid (VARP_SCP_COA meta_side_looking) = true
  /\ compute_scp_coa_slant_plane_normal (with_SideOfTrack LEFT meta_side_looking)
     = vdivs (spn_direction meta_side_looking) (vnorm (spn_direction meta_side_looking))
  /\ compute_scp_coa_slant_plane_normal (with_SideOfTrack RIGHT meta_side_looking)
     = vneg (vdivs (spn_direction meta_side_looking)
                   (vnorm (spn_direction meta_side_looking)))
  /\ spn_direction meta_orthogonal_exact <> V3 0 0 0
  /\ vnorm (compute_scp_coa_slant_plane_normal
              (with_SideOfTrack LEFT meta_orthogonal_exact)) = 1
  /\ vnorm (compute_scp_coa_slant_plane_normal
              (with_SideOfTrack RIGHT meta_orthogonal_exact)) = 1
  /\ 0 < vdot (compute_scp_coa_slant_plane_normal
                 (with_SideOfTrack LEFT meta_orthogonal_exact))
               (spn_direction meta_orthogonal_exact)
  /\ vdot (compute_scp_coa_slant_plane_normal
             (with_SideOfTrack RIGHT meta_orthogonal_exact))
          (spn_direction meta_orthogonal_exact) < 0.
Proof.
  assert (Va : vec3_valid (ARP_SCP_COA meta_side_looking) = true)
    by (vm_compute; reflexivity).
  assert (Vs : vec3_valid (SCP meta_side_looking) = true) by (vm_compute; reflexivity).
  assert (Vv : vec3_valid (VARP_SCP_COA meta_side_looking) = true)
    by (vm_compute; reflexivity).
  assert (Hc : spn_direction meta_orthogonal_exact <> V3 0 0 0).
  { cbn. intros E. injection E as _ _ E. lra. }
  destruct side_of_track_negates_normal as (_ & _ & Hb & _ & He).
  destruct (Hb meta_side_looking (fun _ => conj Va (conj Vs Vv))) as [HL HR].
  repeat (split; [assumption|]).
  exact (He meta_orthogonal_exact Hc).
Defined.

End SideOfTrackSign.


(* ================================================================== *)
(** * Monostatic projection of an out-of-reach contour (C4)            *)
(* ================================================================== *)

Lemma nth_error_map3 {A B C D : Type} (f : A -> B -> C -> D)
  (xs : list A) (ys : list B) (zs : list C) (j : nat) (x : A) (y : B) (z : C) :
  nth_error xs j = Some x -> nth_error ys j = Some y -> nth_error zs j = Some z ->
  nth_error (map3 f xs ys zs) j = Some (f x y z).
Proof.
  revert ys zs j.
  induction xs as [|x0 xs IH]; intros [|y0 ys] [|z0 zs] [|j]; cbn;
    try discriminate.
  - now intros [= ->] [= ->] [= ->].
  - apply IH.
Qed.

(** The no-solution mark spreads from [arpz] to the three coordinates
    of the ground plane point. *)
Lemma mono_pt_out_of_reach (meta : MetadataParams spec_float)
  (ps : ProjectionSets.mono spec_float) (gref ugpn : vec3 spec_float) :
  (fabs (mono_arpz ps gref ugpn) >? ProjectionSets.R_COA ps) = true ->
  r_rdot_to_ground_plane_mono_pt meta ps gref ugpn = V3 S754_nan S754_nan S754_nan.
Proof.
  intros Hout. unfold r_rdot_to_ground_plane_mono_pt.
  rewrite Hout. cbn zeta. cbn [fnan Binary64_special].
  unfold vadd, vsub, vscale, vzip, vmap. cbn [v0 v1 v2].
  now rewrite !b64_mul_nan_l, !b64_sub_nan_r, !b64_add_nan_l.
Qed.

(** C4.  In a batch of monostatic projection sets, a point whose ARP
    is farther from the ground plane than [R_COA] makes the call
    return (no exception) with NaN in the three coordinates of that
    point, and every point of the batch gets the ground plane point
    the call on that point alone returns. *)
Theorem mono_out_of_reach_nan (meta : MetadataParams spec_float)
  (pts : list (ProjectionSets.mono spec_float)) (gref ugpn : list (vec3 spec_float))
  (i : nat) (ps : ProjectionSets.mono spec_float) (g u : vec3 spec_float) :
  nth_error pts i = Some ps -> nth_error gref i = Some g -> nth_error ugpn i = Some u ->
  (fabs (mono_arpz ps g u) >? ProjectionSets.R_COA ps) = true ->
  exists out,
    r_rdot_to_ground_plane_mono meta (ProjectionSets.Monostatic pts) gref ugpn = inr out
    /\ nth_error out i = Some (V3 S754_nan S754_nan S754_nan)
    /\ forall j psj gj uj,
         nth_error pts j = Some psj -> nth_error gref j = Some gj ->
         nth_error ugpn j = Some uj ->
         exists oj,
           nth_error out j = Some oj
           /\ r_rdot_to_ground_plane_mono meta (ProjectionSets.Monostatic [psj]) [gj] [uj]
              = inr [oj].
Proof.
  intros Hp Hg Hu Hout. eexists. split; [reflexivity|]. split.
  - rewrite (nth_error_map3 _ _ _ _ _ Hp Hg Hu).
    now rewrite mono_pt_out_of_reach.
  - intros j psj gj uj Hpj Hgj Huj. eexists. split.
    + apply (nth_error_map3 _ _ _ _ _ Hpj Hgj Huj).
    + reflexivity.
Qed.

Lemma mono_out_of_reach_nan_witness :
  (fabs (mono_arpz ps_out_of_reach scp_equator e_x)
     >? ProjectionSets.R_COA ps_out_of_reach) = true
  /\ exists out,
       r_rdot_to_ground_plane_mono meta_orthogonal
         (ProjectionSets.Monostatic [ps_in_reach; ps_out_of_reach])
         [scp_equator; scp_equator] [e_x; e_x] = inr out
       /\ nth_error out 1 = Some (V3 S754_nan S754_nan S754_nan)
       /\ forall j psj gj uj,
            nth_error [ps_in_reach; ps_out_of_reach] j = Some psj ->
            nth_error [scp_equator; scp_equator] j = Some gj ->
            nth_error [e_x; e_x] j = Some uj ->
            exists oj,
              nth_error out j = Some oj
              /\ r_rdot_to_ground_plane_mono meta_orthogonal
                   (ProjectionSets.Monostatic [psj]) [gj] [uj] = inr [oj].
Proof.
  split; [reflexivity|].
  exact (mono_out_of_reach_nan meta_orthogonal
           [ps_in_reach; ps_out_of_reach] [scp_equator; scp_equator] [e_x; e_x]
           1 eq_refl eq_refl eq_refl eq_refl).
Defined.

(** The point in reach of the same batch is found where the geometry
    puts it: 80 km along z on the plane. *)
Example mono_batch_values :
  r_rdot_to_ground_plane_mono meta_orthogonal
    (ProjectionSets.Monostatic [ps_in_reach; ps_out_of_reach])
    [scp_equator; scp_equator] [e_x; e_x]
  = inr [V3 (b64_of_Z 6378137) (b64_of_Z 0) (b64_of_Z 80000);
         V3 S754_nan S754_nan S754_nan].
Proof. vm_compute. reflexivity. Qed.

(* ================================================================== *)
(** * Grid types without an implementation (C5)                        *)
(* ================================================================== *)

Section Dispatch.
Context {F : Type} `{Arith F} `{Trig F}.

(** C5.  Unless the grid type is RGAZIM and the image formation
    algorithm PFA, [compute_coa_r_rdot] raises on every input and never
    returns: [TypeError] from the call of a function defined without
    parameters (RGAZIM with RGAZCOMP, RGZERO, XRGYCR, XCTYAT, PLANE),
    [ValueError] when no function is chosen. *)
Theorem unsupported_grid_raises (meta : MetadataParams F)
  (locs : list (vec2 F)) (t_coa : list F) (coa : CoaPosVels.t F) :
  ~ (Grid_Type meta = "RGAZIM"%string /\ IFA meta = "PFA"%string) ->
  raises (compute_coa_r_rdot meta locs t_coa coa)
  /\ ~ returns (compute_coa_r_rdot meta locs t_coa coa)
  /\ (compute_coa_r_rdot meta locs t_coa coa = inl TypeError
      \/ compute_coa_r_rdot meta locs t_coa coa = inl ValueError).
Proof.
  intros Hpair.
  assert (Hcases : compute_coa_r_rdot meta locs t_coa coa = inl TypeError
                   \/ compute_coa_r_rdot meta locs t_coa coa = inl ValueError).
  { unfold compute_coa_r_rdot, select_r_rdot_func.
    destruct (String.eqb_spec (Grid_Type meta) "RGAZIM") as [Hg|Hg].
    - destruct (String.eqb_spec (IFA meta) "PFA") as [Hi|Hi]; [tauto|].
      destruct (String.eqb (IFA meta) "RGAZCOMP"); [now left | now right].
    - repeat match goal with
             | |- context [String.eqb ?a ?b] => destruct (String.eqb a b)
             end; (now left) || (now right). }
  split; [|split; [|exact Hcases]].
  - destruct Hcases as [-> | ->]; eexists; reflexivity.
  - intros [a Ha]. destruct Hcases as [E|E]; rewrite E in Ha; discriminate.
Qed.

(** The five pairs the specification names raise [TypeError]. *)
Lemma named_unsupported_grids (meta : MetadataParams F)
  (locs : list (vec2 F)) (t_coa : list F) (coa : CoaPosVels.t F) :
  (Grid_Type meta = "RGAZIM"%string /\ IFA meta = "RGAZCOMP"%string)
  \/ In (Grid_Type meta) ["RGZERO"; "XRGYCR"; "XCTYAT"; "PLANE"]%string ->
  compute_coa_r_rdot meta locs t_coa coa = inl TypeError.
Proof.
  unfold compute_coa_r_rdot, select_r_rdot_func.
  intros [[-> ->] | Hin]; [reflexivity|].
  cbn in Hin. destruct Hin as [<- | [<- | [<- | [<- | []]]]]; reflexivity.
Qed.

End Dispatch.

Lemma unsupported_grid_raises_witness :
  ~ (Grid_Type meta_plane_grid = "RGAZIM"%string /\ IFA meta_plane_grid = "PFA"%string)
  /\ raises (compute_coa_r_rdot meta_plane_grid [V2 0%R 0%R] [0%R]
               (CoaPosVels.Monostatic [CoaPosVels.Mono e_x e_y])).
Proof.
  assert (Hn : ~ (Grid_Type meta_plane_grid = "RGAZIM"%string
                  /\ IFA meta_plane_grid = "PFA"%string)).
  { intros [Hg _]. discriminate Hg. }
  split; [exact Hn|].
  exact (proj1 (unsupported_grid_raises meta_plane_grid [V2 0%R 0%R] [0%R]
                  (CoaPosVels.Monostatic [CoaPosVels.Mono e_x e_y]) Hn)).
Defined.

(* ================================================================== *)
(** * Bistatic transmit and receive times over a batch (C2)            *)
(* ================================================================== *)

(** A square is never a negative zero, so starting the sum of squares
    from [0] changes nothing. *)
Lemma b64_zero_plus_square (x : spec_float) : of_Z 0 + x * x = x * x.
Proof.
  destruct x as [s|s| |s m e]; try (destruct s; reflexivity); try reflexivity.
  cbn [fmul Binary64 SFmul]. unfold binary_round_aux.
  destruct (shr_fexp prec64 emax64 _ _ _) as [mrs e'].
  destruct (shr_fexp prec64 emax64 _ e' loc_Exact) as [mrs2 e2].
  replace (xorb s s) with false by (now destruct s).
  destruct (shr_m mrs2); try reflexivity.
  destruct (Z.leb e2 (emax64 - prec64)); reflexivity.
Qed.

Lemma norm_ravel_single (a : vec3 spec_float) : norm_ravel [a] = vnorm a.
Proof.
  unfold norm_ravel, vnorm, vdot, vsum, vmul, vzip.
  cbn [ravel3 flat_map app fold_left v0 v1 v2].
  now rewrite b64_zero_plus_square.
Qed.

(** On a single COA time the code computes the times of the
    specification. *)
Lemma coa_times_single (meta : MetadataParams spec_float) (t : spec_float) :
  is_monostatic meta = false ->
  tx_COA_of (compute_coa_pos_vel meta [t]) = [Some (tx_COA_pointwise meta t)]
  /\ tr_COA_of (compute_coa_pos_vel meta [t]) = [Some (tr_COA_pointwise meta t)].
Proof.
  intros Hbi. unfold compute_coa_pos_vel. rewrite Hbi.
  cbn [map map2 map3 tx_COA_of tr_COA_of CoaPosVels.tx_COA CoaPosVels.tr_COA].
  rewrite !norm_ravel_single. split; reflexivity.
Qed.

(** C2 fails on a batch.  For the COA times [0] and [1] the transmitter
    is 3 m and 4 m from the reference point, but both transmit times
    are retarded by [5 / c]: [np.linalg.norm] is called without an
    axis and returns the norm of the whole batch of range vectors,
    [sqrt(3**2 + 4**2)]. *)
Theorem coa_times_batch_shares_one_range :
  let t_coa := [b64_of_Z 0; b64_of_Z 1] in
  let c := (speed_of_light : spec_float) in
  tx_COA_of (compute_coa_pos_vel meta_bistatic_line t_coa)
  = [Some (b64_of_Z 0 - b64_of_Z 5 / c); Some (b64_of_Z 1 - b64_of_Z 5 / c)]
  /\ map (tx_COA_pointwise meta_bistatic_line) t_coa
     = [b64_of_Z 0 - b64_of_Z 3 / c; b64_of_Z 1 - b64_of_Z 4 / c]
  /\ tx_COA_of (compute_coa_pos_vel meta_bistatic_line t_coa)
     <> map Some (map (tx_COA_pointwise meta_bistatic_line) t_coa).
Proof.
  cbv zeta. repeat split; try (vm_compute; reflexivity).
  vm_compute. discriminate.
Qed.

(* ================================================================== *)
(** * The sensitivity matrix of the ground plane basis (C3)            *)
(* ================================================================== *)

Section Sensitivity.
Context {F : Type} `{Arith F}.

(** Whenever [compute_gp_xy_parameters] returns, its [M_RRdot_GPXY] is
    the transpose of the matrix of the specification. *)
Lemma M_RRdot_GPXY_is_transposed (pt ugpn bp bpdot : vec3 F)
  (q : ScenePointGpXyParams F) :
  gp_xy_parameters_pt pt ugpn bp bpdot = inr q ->
  M_RRdot_GPXY q = mat2_transpose (M_RRdot_GPXY_by_rows bp bpdot (uGX q) (uGY q)).
Proof.
  unfold gp_xy_parameters_pt, bind.
  destruct (inv2 _) as [e|mi]; [discriminate|].
  intros [= <-]. reflexivity.
Qed.

End Sensitivity.

(** Over the reals, [M_GPXY_RRdot] is the inverse of [M_RRdot_GPXY]
    whenever the call returns, and the call returns exactly when the
    determinant is not zero. *)
Lemma inv2_is_inverse (m mi : mat2 R) :
  inv2 m = inr mi ->
  mat2_mul mi m = M2 1%R 0%R 0%R 1%R /\ mat2_mul m mi = M2 1%R 0%R 0%R 1%R.
Proof.
  unfold inv2. cbn [feqb fmul fsub fdiv fneg of_Z Exact]. unfold Reqb.
  destruct (Req_dec_T _ 0%R) as [Hd|Hd]; [discriminate|].
  intros [= <-]. destruct m as [a b c d]. cbn in *.
  unfold mat2_mul; cbn. split; f_equal; field; exact Hd.
Qed.

Lemma M_GPXY_RRdot_is_inverse (pt ugpn bp bpdot : vec3 R)
  (q : ScenePointGpXyParams R) :
  gp_xy_parameters_pt pt ugpn bp bpdot = inr q ->
  mat2_mul (M_GPXY_RRdot q) (M_RRdot_GPXY q) = M2 1%R 0%R 0%R 1%R.
Proof.
  unfold gp_xy_parameters_pt, bind.
  destruct (inv2 _) as [e|mi] eqn:Hinv; [discriminate|].
  intros [= <-]. cbn [M_GPXY_RRdot M_RRdot_GPXY].
  exact (proj1 (inv2_is_inverse _ Hinv)).
Qed.

(** C3 fails on the layout of the matrix.  With [uGX = x], [uGY = y],
    [bP = x] and [bPDot = (2, 3, 0)] the specification's matrix has
    the rows [-1, 0] and [-2, -3]; the code returns the rows [-1, -2]
    and [0, -3]: the two inner arrays are stacked along the last axis
    and become the columns. *)
Theorem M_RRdot_GPXY_rows_are_columns :
  exists q,
    compute_gp_xy_parameters [gp_scene_point] [e_z] [e_x] [gp_bpdot] = inr [q]
    /\ uGX q = e_x /\ uGY q = e_y
    /\ M_RRdot_GPXY q
       = M2 (b64_of_Z (-1)) (b64_of_Z (-2)) (S754_zero true) (b64_of_Z (-3))
    /\ M_RRdot_GPXY_by_rows e_x gp_bpdot (uGX q) (uGY q)
       = M2 (b64_of_Z (-1)) (S754_zero true) (b64_of_Z (-2)) (b64_of_Z (-3))
    /\ M_RRdot_GPXY q <> M_RRdot_GPXY_by_rows e_x gp_bpdot (uGX q) (uGY q).
Proof.
  eexists. split; [vm_compute; reflexivity|].
  repeat split; try (vm_compute; reflexivity).
  vm_compute. discriminate.
Qed.

(* ================================================================== *)
(** * The RGAZIM/PFA contour at the SCP (C8)                           *)
(* ================================================================== *)

Lemma b64_zero_mul_finite (a b : spec_float) :
  is_zero a -> fisfinite b = true -> is_zero (a * b).
Proof.
  intros [s ->]. destruct b as [sb|sb| |sb mb eb]; try discriminate; intros _;
    eexists; reflexivity.
Qed.

Lemma b64_finite_mul_zero (a b : spec_float) :
  fisfinite a = true -> is_zero b -> is_zero (a * b).
Proof.
  intros Ha [s ->]. destruct a as [sa|sa| |sa ma ea]; try discriminate;
    eexists; reflexivity.
Qed.

Lemma b64_zero_add_zero (a b : spec_float) :
  is_zero a -> is_zero b -> is_zero (a + b).
Proof.
  intros [s ->] [s' ->]. destruct s, s'; eexists; reflexivity.
Qed.

Lemma b64_opp_zero (a : spec_float) : is_zero a -> is_zero (- a).
Proof. intros [s ->]. eexists; reflexivity. Qed.

Lemma b64_add_zero_r (x d : spec_float) : is_zero d -> same_value (x + d) x.
Proof.
  intros [s ->].
  destruct x as [sx|sx| |sx mx ex]; try (left; reflexivity).
  right. split; [|now exists sx]. destruct sx, s; eexists; reflexivity.
Qed.

Lemma b64_of_Z_0_zero : is_zero (of_Z 0 : spec_float).
Proof. now exists false. Qed.

Section ContourAtSCP.
Context {T : Trig spec_float}.

Lemma contour_at_origin (meta : MetadataParams spec_float)
  (t : spec_float) (ref : spec_float * spec_float) :
  pfa_finite_at meta t ->
  same_value (fst (rgazim_pfa_contour meta origin t ref)) (fst ref)
  /\ same_value (snd (rgazim_pfa_contour meta origin t ref)) (snd ref).
Proof.
  intros (Hc & Hs & Hdt & Hk & Hdk).
  unfold rgazim_pfa_contour. cbn [fst snd w0 w1 origin].
  change (b64_of_Z 0) with (of_Z 0 : spec_float).
  set (theta := polyval t (cPA meta)) in *.
  assert (Hka : is_zero (of_Z 0 * fcos theta + of_Z 0 * fsin theta)).
  { apply b64_zero_add_zero; apply b64_zero_mul_finite;
      auto using b64_of_Z_0_zero. }
  assert (Hkc : is_zero (- of_Z 0 * fsin theta + of_Z 0 * fcos theta)).
  { apply b64_zero_add_zero; apply b64_zero_mul_finite;
      auto using b64_of_Z_0_zero, b64_opp_zero. }
  split; apply b64_add_zero_r.
  - now apply b64_finite_mul_zero.
  - apply b64_zero_mul_finite; [|exact Hdt].
    apply b64_zero_add_zero; now apply b64_finite_mul_zero.
Qed.

Lemma contour_at_origin_batch (meta : MetadataParams spec_float)
  (ts : list spec_float) (refs : list (spec_float * spec_float)) :
  List.length ts = List.length refs ->
  Forall (pfa_finite_at meta) ts ->
  Forall2 (fun o ref => same_value (fst o) (fst ref) /\ same_value (snd o) (snd ref))
    (map3 (rgazim_pfa_contour meta) (map (fun _ => origin) ts) ts refs) refs.
Proof.
  revert refs. induction ts as [|t ts IH]; intros [|ref refs] Hlen Hfin;
    try discriminate; cbn [map map3]; constructor.
  - apply contour_at_origin. now inversion Hfin.
  - apply IH; [now injection Hlen | now inversion Hfin].
Qed.

(** C8, as amended.  For RGAZIM/PFA metadata and image grid locations
    all at [(0, 0)], at COA times where the polar angle, its rate, the
    scale factor, its derivative and the cosine and sine of the polar
    angle are finite, [compute_coa_r_rdot] returns for every point the
    SCP reference range and range rate of that point (the values of
    [rgazim_pfa_scp_ref]): the same floats, but possibly for the sign
    of a zero. *)
Theorem origin_contour_is_scp_reference (meta : MetadataParams spec_float)
  (ts : list spec_float) (coa : CoaPosVels.t spec_float)
  (refs : list (spec_float * spec_float)) :
  Grid_Type meta = "RGAZIM"%string -> IFA meta = "PFA"%string ->
  rgazim_pfa_scp_ref meta coa = inr refs ->
  List.length ts = List.length refs ->
  Forall (pfa_finite_at meta) ts ->
  exists out,
    compute_coa_r_rdot meta (map (fun _ => origin) ts) ts coa = inr out
    /\ Forall2 (fun o ref => same_value (fst o) (fst ref)
                             /\ same_value (snd o) (snd ref)) out refs.
Proof.
  intros Hg Hi Href Hlen Hfin.
  unfold compute_coa_r_rdot, select_r_rdot_func. rewrite Hg, Hi.
  cbn [String.eqb Ascii.eqb Bool.eqb call_r_rdot_func].
  unfold r_rdot_from_rgazim_pfa. rewrite Href. cbn [bind ret].
  eexists. split; [reflexivity|].
  now apply contour_at_origin_batch.
Qed.

End ContourAtSCP.

Lemma origin_contour_is_scp_reference_witness :
  Grid_Type meta_orthogonal = "RGAZIM"%string
  /\ IFA meta_orthogonal = "PFA"%string
  /\ rgazim_pfa_scp_ref meta_orthogonal coa_above_scp
     = inr [(b64_of_Z 621863, b64_of_Z 0)]
  /\ Forall (pfa_finite_at (T := trig_at_zero) meta_orthogonal) [b64_of_Z 5]
  /\ exists out,
       compute_coa_r_rdot (TR := trig_at_zero) meta_orthogonal
         (map (fun _ => origin) [b64_of_Z 5]) [b64_of_Z 5] coa_above_scp = inr out
       /\ Forall2 (fun o ref => same_value (fst o) (fst ref)
                                /\ same_value (snd o) (snd ref))
            out [(b64_of_Z 621863, b64_of_Z 0)].
Proof.
  assert (Hfin : Forall (pfa_finite_at (T := trig_at_zero) meta_orthogonal) [b64_of_Z 5]).
  { constructor; [|constructor]. repeat split; vm_compute; reflexivity. }
  assert (Href : rgazim_pfa_scp_ref meta_orthogonal coa_above_scp
                 = inr [(b64_of_Z 621863, b64_of_Z 0)]).
  { vm_compute. reflexivity. }
  repeat split; try assumption.
  exact (@origin_contour_is_scp_reference trig_at_zero meta_orthogonal
           [b64_of_Z 5] coa_above_scp _ eq_refl eq_refl Href eq_refl Hfin).
Defined.

(** Zero times anything is a zero or NaN, and so is a sum of such
    terms; infinity times such a term is NaN. *)
Lemma b64_zero_mul_any (a x : spec_float) : is_zero a -> zero_or_nan (a * x).
Proof.
  intros [s ->]. destruct x as [sx|sx| |sx mx ex];
    try (left; eexists; reflexivity); right; reflexivity.
Qed.

Lemma b64_zero_or_nan_add (x y : spec_float) :
  zero_or_nan x -> zero_or_nan y -> zero_or_nan (x + y).
Proof.
  intros [Hx | ->] [Hy | ->].
  - left. now apply b64_zero_add_zero.
  - right. apply b64_add_nan_r.
  - right. reflexivity.
  - right. reflexivity.
Qed.

Lemma b64_inf_mul_zero_or_nan (s : bool) (x : spec_float) :
  zero_or_nan x -> S754_infinity s * x = S754_nan.
Proof. intros [[sx ->] | ->]; reflexivity. Qed.

(** C8 as stated fails on overflow.  The metadata [meta_ksf_overflow]
    is finite and so are the COA time [0] and the ARP; the SCP
    reference values are [621863] and [0].  The scale factor overflows
    to [+inf], the phase slopes at [(0, 0)] are zeros (or NaN), and
    [inf * 0] is NaN: whatever cosine and sine return, range and range
    rate come out NaN. *)
Lemma origin_contour_overflow_counterexample :
  Grid_Type meta_ksf_overflow = "RGAZIM"%string
  /\ IFA meta_ksf_overflow = "PFA"%string
  /\ rgazim_pfa_scp_ref meta_ksf_overflow coa_above_scp
     = inr [(b64_of_Z 621863, b64_of_Z 0)]
  /\ forall T : Trig spec_float,
       compute_coa_r_rdot (TR := T) meta_ksf_overflow [origin] [b64_of_Z 0] coa_above_scp
       = inr [(S754_nan, S754_nan)].
Proof.
  split; [reflexivity|]. split; [reflexivity|].
  split; [vm_compute; reflexivity|].
  intros T.
  unfold compute_coa_r_rdot, select_r_rdot_func.
  cbn [Grid_Type IFA meta_ksf_overflow meta_orthogonal sample_mono
       String.eqb Ascii.eqb Bool.eqb call_r_rdot_func].
  unfold r_rdot_from_rgazim_pfa.
  replace (rgazim_pfa_scp_ref meta_ksf_overflow coa_above_scp)
    with (@inr error _ [(b64_of_Z 621863, b64_of_Z 0)]) by (vm_compute; reflexivity).
  cbn [bind ret map3]. do 2 f_equal.
  unfold rgazim_pfa_contour. cbn [fst snd w0 w1 origin].
  change (polyval (b64_of_Z 0) (cPA meta_ksf_overflow)) with (b64_of_Z 2).
  replace (polyval (b64_of_Z 2) (cKSF meta_ksf_overflow))
    with (S754_infinity false) by (vm_compute; reflexivity).
  set (c := fcos (b64_of_Z 2)). set (s := fsin (b64_of_Z 2)).
  assert (Hka : zero_or_nan (b64_of_Z 0 * c + b64_of_Z 0 * s)).
  { apply b64_zero_or_nan_add; apply b64_zero_mul_any; now exists false. }
  assert (Hkc : zero_or_nan (- b64_of_Z 0 * s + b64_of_Z 0 * c)).
  { apply b64_zero_or_nan_add; apply b64_zero_mul_any; [now exists true | now exists false]. }
  rewrite !(b64_inf_mul_zero_or_nan false Hka).
  rewrite !(b64_inf_mul_zero_or_nan false Hkc).
  rewrite !b64_add_nan_r. reflexivity.
Qed.

(* ================================================================== *)
(** * The success flag of [scene_to_image] (C7)                        *)
(* ================================================================== *)

Lemma length_assign {A : Type} (mask : list bool) (xs new : list A) :
  List.length (assign mask xs new) = List.length xs.
Proof.
  revert xs new. induction mask as [|b mask IH]; intros [|x xs] new;
    try reflexivity; [destruct b; reflexivity|].
  destruct b; [destruct new|]; cbn; now rewrite IH.
Qed.

Lemma length_map2 {A B C : Type} (f : A -> B -> C) (xs : list A) (ys : list B) :
  List.length (map2 f xs ys) = Nat.min (List.length xs) (List.length ys).
Proof.
  revert ys. induction xs as [|x xs IH]; intros [|y ys]; cbn; try reflexivity.
  now rewrite IH.
Qed.

Lemma nth_error_assign_false {A : Type} (mask : list bool) (xs new : list A) (i : nat) :
  nth_error mask i = Some false ->
  nth_error (assign mask xs new) i = nth_error xs i.
Proof.
  revert xs new i. induction mask as [|b mask IH]; intros xs new i Hm.
  - destruct i; discriminate.
  - destruct xs as [|x xs]; [destruct b; reflexivity|].
    destruct i as [|i]; cbn in Hm.
    + injection Hm as ->. reflexivity.
    + destruct b; [destruct new|]; cbn; now apply IH.
Qed.

Lemma forallb_Forall {A : Type} (f : A -> bool) (l : list A) :
  forallb f l = true <-> Forall (fun x => f x = true) l.
Proof.
  induction l as [|x l IH]; cbn.
  - split; [constructor | reflexivity].
  - rewrite andb_true_iff, IH. split.
    + intros [Hx Hl]. now constructor.
    + intros Hall. now inversion Hall.
Qed.

(** Writing [f] of the selected new entries into [map f] of the old
    array gives [map f] of the new array. *)
Lemma assign_map_select {A B : Type} (f : A -> B)
  (mask : list bool) (xs new : list A) :
  assign mask (map f xs) (map f (select mask (assign mask xs new)))
  = map f (assign mask xs new).
Proof.
  revert xs new. induction mask as [|b mask IH]; intros xs new.
  - destruct xs; reflexivity.
  - destruct xs as [|x xs]; [destruct b; reflexivity|].
    destruct b.
    + destruct new as [|n ns]; cbn [assign select map]; now rewrite IH.
    + cbn [assign select map]. now rewrite IH.
Qed.

Section SceneToImageSuccess.
Context {T : Trig spec_float}.

Variable proj_metadata : MetadataParams spec_float.
Variables s u_gpn : list (vec3 spec_float).
Variables u_proj u_ipn : vec3 spec_float.
Variable sf : spec_float.
Variables delta_gp_s2i bistat_delta_gp_gpp : spec_float.
Variable bistat_maxiter : nat.

Local Abbreviation step :=
  (s2i_step proj_metadata s u_gpn u_proj u_ipn sf
     delta_gp_s2i bistat_delta_gp_gpp bistat_maxiter).
Local Abbreviation loop :=
  (s2i_loop proj_metadata s u_gpn u_proj u_ipn sf
     delta_gp_s2i bistat_delta_gp_gpp bistat_maxiter).

Lemma s2i_step_settled (st st' : s2i_state) :
  step st = inr st' -> s2i_settled s delta_gp_s2i st'.
Proof.
  unfold s2i_step. intros Hst.
  bind_inv Hst as il Eil. bind_inv Hst as ps Eps. bind_inv Hst as pf Epf.
  injection Hst as <-. split; reflexivity.
Qed.

Lemma s2i_step_flags_finite (st st' : s2i_state) :
  is_monostatic proj_metadata = true ->
  s2i_flags_finite st -> step st = inr st' -> s2i_flags_finite st'.
Proof.
  unfold s2i_step, s2i_flags_finite. intros Hmono Hinv Hst.
  bind_inv Hst as il Eil. bind_inv Hst as ps Eps. rewrite Hmono in Hst.
  bind_inv Hst as pf Epf. bind_inv Epf as pa Epa. injection Epf as <-.
  injection Hst as <-. cbn [s2i_r_rdot_to_ground_success s2i_p fst snd].
  rewrite Hinv. apply assign_map_select.
Qed.

(** Bistatic: the flags of the points of a pass all take the [success]
    the inner solver returned for the pass. *)
Lemma s2i_step_flags_bistatic (st st' : s2i_state) :
  is_monostatic proj_metadata = false ->
  step st = inr st' ->
  exists projection_sets pa dgp ok,
    r_rdot_to_ground_plane_bi proj_metadata projection_sets
      (select (s2i_above_threshold st) s) (select (s2i_above_threshold st) u_gpn)
      bistat_delta_gp_gpp bistat_maxiter = inr (pa, dgp, ok)
    /\ s2i_p st' = assign (s2i_above_threshold st) (s2i_p st) pa
    /\ s2i_r_rdot_to_ground_success st'
       = assign_all (s2i_above_threshold st) (s2i_r_rdot_to_ground_success st) ok.
Proof.
  unfold s2i_step. intros Hbi Hst.
  bind_inv Hst as il Eil. bind_inv Hst as ps Eps. rewrite Hbi in Hst.
  bind_inv Hst as pf Epf. bind_inv Epf as r Er. destruct r as [[pa dgp] ok].
  injection Epf as <-. injection Hst as <-.
  exists ps, pa, dgp, ok. repeat split. exact Er.
Qed.

Lemma s2i_loop_settled (k : nat) (st st' : s2i_state) :
  loop (S k) st = inr st' -> s2i_settled s delta_gp_s2i st'.
Proof.
  revert st. induction k as [|k IH]; intros st Hloop; cbn [s2i_loop] in Hloop.
  - bind_inv Hloop as st1 E1.
    destruct (s2i_success st1); injection Hloop as <-;
      eapply s2i_step_settled; eassumption.
  - bind_inv Hloop as st1 E1. destruct (s2i_success st1).
    + injection Hloop as <-. eapply s2i_step_settled; eassumption.
    + eapply IH. exact Hloop.
Qed.

Lemma s2i_loop_flags_finite (n : nat) (st st' : s2i_state) :
  is_monostatic proj_metadata = true ->
  s2i_flags_finite st -> loop n st = inr st' -> s2i_flags_finite st'.
Proof.
  intros Hmono. revert st. induction n as [|n IH]; intros st Hinv Hloop;
    cbn [s2i_loop] in Hloop.
  - now injection Hloop as <-.
  - bind_inv Hloop as st1 E1.
    pose proof (s2i_step_flags_finite Hmono Hinv E1) as Hinv'.
    destruct (s2i_success st1).
    + now injection Hloop as <-.
    + eapply IH; eassumption.
Qed.

End SceneToImageSuccess.

Lemma s2i_init_flags_finite (s : list (vec3 spec_float)) :
  s2i_flags_finite (s2i_init s).
Proof.
  unfold s2i_flags_finite, s2i_init. cbn [s2i_r_rdot_to_ground_success s2i_p].
  rewrite map_map. reflexivity.
Qed.

(** The inner bistatic solver: when at least one pass runs, [success]
    says that every displacement it returns is within the threshold. *)
Lemma bi_step_success (proj_metadata : MetadataParams spec_float)
  (pts : list (ProjectionSets.bi spec_float)) (ugpn : list (vec3 spec_float))
  (delta_gp_gpp : spec_float) (st st' : bi_state) :
  bi_step proj_metadata pts ugpn delta_gp_gpp st = inr st' ->
  bi_success st' = forallb (fun d => d <=? delta_gp_gpp) (bi_delta_gp st').
Proof.
  unfold bi_step. intros Hst.
  bind_inv Hst as q Eq. bind_inv Hst as gp Egp. now injection Hst as <-.
Qed.

Lemma bi_loop_success (proj_metadata : MetadataParams spec_float)
  (pts : list (ProjectionSets.bi spec_float)) (ugpn : list (vec3 spec_float))
  (delta_gp_gpp : spec_float) (k : nat) (st st' : bi_state) :
  bi_loop proj_metadata pts ugpn delta_gp_gpp (S k) st = inr st' ->
  bi_success st' = forallb (fun d => d <=? delta_gp_gpp) (bi_delta_gp st').
Proof.
  revert st. induction k as [|k IH]; intros st Hloop; cbn [bi_loop] in Hloop.
  - bind_inv Hloop as st1 E1.
    destruct (bi_success st1); injection Hloop as <-;
      eapply bi_step_success; eassumption.
  - bind_inv Hloop as st1 E1. destruct (bi_success st1).
    + injection Hloop as <-. eapply bi_step_success; eassumption.
    + eapply IH. exact Hloop.
Qed.

Lemma bi_success_iff (T : Trig spec_float) (proj_metadata : MetadataParams spec_float)
  (projection_sets : ProjectionSets.t spec_float) (gref ugpn : list (vec3 spec_float))
  (delta_gp_gpp : spec_float) (k : nat)
  (g : list (vec3 spec_float)) (delta_gp : list spec_float) (ok : bool) :
  r_rdot_to_ground_plane_bi proj_metadata projection_sets gref ugpn delta_gp_gpp (S k)
  = inr (g, delta_gp, ok) ->
  ok = forallb (fun d => d <=? delta_gp_gpp) delta_gp.
Proof.
  unfold r_rdot_to_ground_plane_bi.
  destruct projection_sets as [pts|pts]; [discriminate|].
  intros Hrun. bind_inv Hrun as st Est. injection Hrun as <- <- <-.
  eapply bi_loop_success. exact Est.
Qed.

Lemma nth_error_assign_true {A : Type} (mask : list bool) (xs new : list A) (i : nat) (v : A) :
  nth_error mask i = Some true ->
  i < List.length xs ->
  nth_error new (rank mask i) = Some v ->
  nth_error (assign mask xs new) i = Some v.
Proof.
  revert xs new i. induction mask as [|b mask IH]; intros xs new i Hm Hi Hv.
  - destruct i; discriminate.
  - destruct xs as [|x xs]; [cbn in Hi; lia|].
    destruct i as [|i].
    + cbn in Hm. injection Hm as ->. cbn in Hv.
      destruct new as [|n ns]; [discriminate|]. cbn in *. exact Hv.
    + cbn [nth_error] in Hm. cbn [List.length] in Hi. apply PeanoNat.lt_S_n in Hi.
      destruct b.
      * cbn [rank] in Hv. destruct new as [|n ns]; [discriminate|].
        cbn [assign nth_error]. apply IH; assumption.
      * cbn [rank] in Hv. cbn [assign nth_error]. apply IH; assumption.
Qed.

Lemma nth_error_select_rank {A : Type} (mask : list bool) (xs : list A) (i : nat) (x : A) :
  nth_error mask i = Some true ->
  nth_error xs i = Some x ->
  nth_error (select mask xs) (rank mask i) = Some x.
Proof.
  revert xs i. induction mask as [|b mask IH]; intros xs i Hm Hx.
  - destruct i; discriminate.
  - destruct xs as [|y xs]; [destruct i; discriminate|].
    destruct i as [|i].
    + cbn in Hm. injection Hm as ->. cbn in *. exact Hx.
    + cbn [nth_error] in Hm, Hx. destruct b; cbn [select rank].
      * cbn. apply IH; assumption.
      * cbn. apply IH; assumption.
Qed.

Lemma nth_error_assign_all {A : Type} (mask : list bool) (xs : list A) (v : A) (i : nat) (b : bool) :
  nth_error mask i = Some b ->
  i < List.length xs ->
  nth_error (assign_all mask xs v) i = if b then Some v else nth_error xs i.
Proof.
  revert xs i. induction mask as [|c mask IH]; intros xs i Hm Hi.
  - destruct i; discriminate.
  - destruct xs as [|x xs]; [cbn in Hi; lia|].
    destruct i as [|i].
    + cbn in Hm. injection Hm as ->. destruct b; reflexivity.
    + cbn [nth_error] in Hm. cbn [List.length] in Hi. apply PeanoNat.lt_S_n in Hi.
      cbn [assign_all nth_error]. apply IH; assumption.
Qed.

Lemma length_assign_all {A : Type} (mask : list bool) (xs : list A) (v : A) :
  List.length (assign_all mask xs v) = List.length xs.
Proof.
  revert xs. induction mask as [|b mask IH]; intros [|x xs]; try reflexivity.
  cbn. now rewrite IH.
Qed.

Lemma length_select {A B : Type} (mask : list bool) (xs : list A) (ys : list B) :
  List.length xs = List.length ys ->
  List.length (select mask xs) = List.length (select mask ys).
Proof.
  revert xs ys. induction mask as [|b mask IH]; intros [|x xs] [|y ys] H;
    try reflexivity; try discriminate.
  cbn in H. injection H as H. destruct b; cbn; [f_equal|]; now apply IH.
Qed.

Lemma length_map3 {A B C D : Type} (f : A -> B -> C -> D)
  (xs : list A) (ys : list B) (zs : list C) :
  List.length (map3 f xs ys zs)
  = Nat.min (List.length xs) (Nat.min (List.length ys) (List.length zs)).
Proof.
  revert ys zs. induction xs as [|x xs IH]; intros [|y ys] [|z zs]; cbn; try reflexivity.
  now rewrite IH.
Qed.


Section ProjectionSetsShape.
Context {F : Type} {AR : Arith F} {SP : Special F} {TR : Trig F}.

Lemma length_pt_r_rdot_parameters_bi (meta : MetadataParams F)
  (pts : list (CoaPosVels.bi F)) (scene_points : list (vec3 F)) :
  List.length (pt_r_rdot_parameters_bi meta pts scene_points)
  = Nat.min (List.length pts) (List.length scene_points).
Proof.
  unfold pt_r_rdot_parameters_bi. cbv zeta. now rewrite length_map, length_map2.
Qed.

Lemma compute_projection_sets_length (meta : MetadataParams F)
  (locs : list (vec2 F)) (ps : ProjectionSets.t F) :
  compute_projection_sets meta locs = inr ps ->
  match ps with
  | ProjectionSets.Monostatic pts =>
      is_monostatic meta = true /\ List.length pts = List.length locs
  | ProjectionSets.Bistatic pts =>
      is_monostatic meta = false /\ List.length pts = List.length locs
  end.
Proof.
  unfold compute_projection_sets. cbv zeta. intros H.
  bind_inv H as rr Err.
  unfold compute_coa_r_rdot in Err.
  destruct (select_r_rdot_func meta) as [f|]; [|discriminate].
  destruct f; try discriminate. cbn [call_r_rdot_func] in Err.
  unfold r_rdot_from_rgazim_pfa in Err. bind_inv Err as ref Eref.
  injection Err as <-.
  unfold rgazim_pfa_scp_ref, compute_coa_pos_vel, compute_coa_time in *.
  destruct (is_monostatic meta) eqn:Hm.
  - injection Eref as <-. injection H as <-. split; [reflexivity|].
    rewrite !length_map3, !length_map, !Nat.min_id. reflexivity.
  - cbv zeta in *. cbn [compute_pt_r_rdot_parameters bind ret] in Eref.
    injection Eref as <-. injection H as <-. split; [reflexivity|].
    repeat rewrite ?length_map3, ?length_map, ?length_pt_r_rdot_parameters_bi, ?Nat.min_id.
    reflexivity.
Qed.

Lemma bi_step_length (meta : MetadataParams F) (pts : list (ProjectionSets.bi F))
  (ugpn : list (vec3 F)) (thr : F) (st st' : bi_state (F := F)) :
  bi_step meta pts ugpn thr st = inr st' ->
  List.length (bi_g st') = List.length (bi_g st).
Proof.
  unfold bi_step. intros H. bind_inv H as q Eq. bind_inv H as gp Egp.
  injection H as <-. cbn [bi_g]. apply length_assign.
Qed.

Lemma bi_loop_length (meta : MetadataParams F) (pts : list (ProjectionSets.bi F))
  (ugpn : list (vec3 F)) (thr : F) (n : nat) (st st' : bi_state (F := F)) :
  bi_loop meta pts ugpn thr n st = inr st' ->
  List.length (bi_g st') = List.length (bi_g st).
Proof.
  revert st. induction n as [|n IH]; intros st H; cbn [bi_loop] in H.
  - now injection H as <-.
  - bind_inv H as st1 E1. pose proof (bi_step_length _ _ _ _ _ E1) as L1.
    destruct (bi_success st1).
    + injection H as <-. exact L1.
    + rewrite (IH _ H). exact L1.
Qed.

Lemma r_rdot_to_ground_plane_bi_length (meta : MetadataParams F)
  (pts : list (ProjectionSets.bi F)) (gref ugpn : list (vec3 F)) (thr : F) (n : nat)
  (g : list (vec3 F)) (dgp : list F) (ok : bool) :
  r_rdot_to_ground_plane_bi meta (ProjectionSets.Bistatic pts) gref ugpn thr n
  = inr (g, dgp, ok) ->
  List.length g
  = Nat.min (List.length pts) (Nat.min (List.length gref) (List.length ugpn)).
Proof.
  unfold r_rdot_to_ground_plane_bi. cbv zeta. intros H. bind_inv H as st E.
  injection H as <- _ _. rewrite (bi_loop_length _ _ _ _ _ _ E). cbn [bi_g].
  apply length_map3.
Qed.

End ProjectionSetsShape.


Lemma bi_returned_success (T : Trig spec_float) (proj_metadata : MetadataParams spec_float)
  (projection_sets : ProjectionSets.t spec_float) (gref ugpn : list (vec3 spec_float))
  (delta_gp_gpp : spec_float) (maxiter : nat)
  (g : list (vec3 spec_float)) (delta_gp : list spec_float) (ok : bool) :
  r_rdot_to_ground_plane_bi proj_metadata projection_sets gref ugpn delta_gp_gpp maxiter
  = inr (g, delta_gp, ok) ->
  (ok = true <->
   maxiter <> O /\ Forall (fun d => (d <=? delta_gp_gpp) = true) delta_gp).
Proof.
  destruct maxiter as [|k]; intros Hrun.
  - unfold r_rdot_to_ground_plane_bi in Hrun.
    destruct projection_sets as [pts|pts]; [discriminate|].
    cbn [bi_loop bind ret bi_success] in Hrun. injection Hrun as _ _ <-.
    split; [discriminate | now intros [[] _]].
  - rewrite (bi_success_iff _ _ _ _ _ _ _ Hrun), forallb_Forall.
    split; [now split | now intros [_ H]].
Qed.

Lemma length_select_map {A B : Type} (f : A -> B) (mask : list bool) (xs : list A) :
  List.length (select mask (map f xs)) = List.length (select mask xs).
Proof. apply length_select, length_map. Qed.

Section SceneToImageProjected.
Context {T : Trig spec_float}.

Variable proj_metadata : MetadataParams spec_float.
Variable s : list (vec3 spec_float).
Variables u_proj u_ipn : vec3 spec_float.
Variable sf : spec_float.
Variables delta_gp_s2i bistat_delta_gp_gpp : spec_float.
Variable bistat_maxiter : nat.

Local Abbreviation u_gpn := (map (fun si : vec3 spec_float => vdivs si (vnorm si)) s).
Local Abbreviation step :=
  (s2i_step proj_metadata s u_gpn u_proj u_ipn sf
     delta_gp_s2i bistat_delta_gp_gpp bistat_maxiter).
Local Abbreviation loop :=
  (s2i_loop proj_metadata s u_gpn u_proj u_ipn sf
     delta_gp_s2i bistat_delta_gp_gpp bistat_maxiter).
Local Abbreviation projected :=
  (s2i_projected proj_metadata s bistat_delta_gp_gpp bistat_maxiter).

Lemma s2i_step_projected (st st' : s2i_state) :
  s2i_lengths s st ->
  s2i_frozen_projected proj_metadata s bistat_delta_gp_gpp bistat_maxiter st ->
  step st = inr st' ->
  s2i_lengths s st'
  /\ s2i_all_projected proj_metadata s bistat_delta_gp_gpp bistat_maxiter st'.
Proof.
  intros (Lg & Lil & Lp & Lm & Lf) Hfrozen Hst.
  unfold s2i_step in Hst.
  bind_inv Hst as il Eil. bind_inv Hst as ps Eps. bind_inv Hst as pf Epf.
  injection Hst as <-.
  set (mask := s2i_above_threshold st) in *.
  set (il' := assign mask (s2i_image_grid_locations st) il) in *.
  assert (Lil' : List.length il' = List.length s).
  { unfold il'. now rewrite length_assign. }
  pose proof (compute_projection_sets_length _ _ Eps) as Hps.
  assert (Lsel : List.length (select mask il') = List.length (select mask s)).
  { apply length_select. exact Lil'. }
  (* the ground plane points and the flags of the pass *)
  assert (Hpf : List.length (fst pf) = List.length s
                /\ List.length (snd pf) = List.length s
                /\ forall i il_i P flag,
                     nth_error mask i = Some true ->
                     nth_error il' i = Some il_i ->
                     nth_error (fst pf) i = Some P ->
                     nth_error (snd pf) i = Some flag ->
                     projected i il_i P flag).
  { destruct (is_monostatic proj_metadata) eqn:Hm.
    - bind_inv Epf as pa Epa. injection Epf as <-. cbn [fst snd].
      split; [now rewrite length_assign|]. split; [now rewrite length_assign|].
      intros i il_i P flag Hmi Hil HP Hflag.
      exists mask, il', ps. split; [exact Hmi|]. split; [exact Hil|].
      split; [exact Eps|]. rewrite Hm. exists pa. split; [exact Epa|].
      assert (Hi : i < List.length s).
      { rewrite <- Lil'. apply nth_error_Some. now rewrite Hil. }
      destruct (nth_error s i) as [si|] eqn:Hsi;
        [|apply nth_error_None in Hsi; lia].
      pose proof (nth_error_select_rank mask s i Hmi Hsi) as Hr.
      assert (Lpa : List.length pa = List.length (select mask s)).
      { unfold r_rdot_to_ground_plane_mono in Epa.
        destruct ps as [pts|pts]; [|discriminate]. injection Epa as <-.
        destruct Hps as [_ Hps]. rewrite length_map3, Hps, Lsel, length_select_map.
        rewrite !Nat.min_id. reflexivity. }
      destruct (nth_error pa (rank mask i)) as [v|] eqn:Hv.
      2:{ apply nth_error_None in Hv.
          assert (rank mask i < List.length (select mask s)).
          { apply nth_error_Some. now rewrite Hr. }
          lia. }
      assert (HP' : nth_error (assign mask (s2i_p st) pa) i = Some v).
      { apply nth_error_assign_true; [exact Hmi | rewrite Lp; exact Hi | exact Hv]. }
      rewrite HP' in HP. injection HP as ->. split; [reflexivity|].
      pose proof (nth_error_select_rank mask _ i Hmi HP') as Hsel.
      assert (Hf' : nth_error
                      (assign mask (s2i_r_rdot_to_ground_success st)
                         (map isfinite3 (select mask (assign mask (s2i_p st) pa)))) i
                    = Some (isfinite3 P)).
      { apply nth_error_assign_true; [exact Hmi | rewrite Lf; exact Hi |].
        now rewrite nth_error_map, Hsel. }
      rewrite Hf' in Hflag. now injection Hflag as <-.
    - bind_inv Epf as r Er. destruct r as [[pa dgp] ok]. injection Epf as <-.
      cbn [fst snd].
      split; [now rewrite length_assign|]. split; [now rewrite length_assign_all|].
      intros i il_i P flag Hmi Hil HP Hflag.
      exists mask, il', ps. split; [exact Hmi|]. split; [exact Hil|].
      split; [exact Eps|]. rewrite Hm. exists pa, dgp, ok. split; [exact Er|].
      assert (Hi : i < List.length s).
      { rewrite <- Lil'. apply nth_error_Some. now rewrite Hil. }
      destruct (nth_error s i) as [si|] eqn:Hsi;
        [|apply nth_error_None in Hsi; lia].
      pose proof (nth_error_select_rank mask s i Hmi Hsi) as Hr.
      assert (Lpa : List.length pa = List.length (select mask s)).
      { destruct ps as [pts|pts]; [discriminate|].
        rewrite (r_rdot_to_ground_plane_bi_length _ _ _ _ _ _ Er).
        destruct Hps as [_ Hps]. rewrite Hps, Lsel, length_select_map.
        rewrite !Nat.min_id. reflexivity. }
      destruct (nth_error pa (rank mask i)) as [v|] eqn:Hv.
      2:{ apply nth_error_None in Hv.
          assert (rank mask i < List.length (select mask s)).
          { apply nth_error_Some. now rewrite Hr. }
          lia. }
      assert (HP' : nth_error (assign mask (s2i_p st) pa) i = Some v).
      { apply nth_error_assign_true; [exact Hmi | rewrite Lp; exact Hi | exact Hv]. }
      rewrite HP' in HP. injection HP as ->. split; [reflexivity|].
      rewrite (@nth_error_assign_all _ mask _ ok i _ Hmi) in Hflag by (rewrite Lf; exact Hi).
      injection Hflag as <-. split; [reflexivity|].
      eapply bi_returned_success. exact Er. }
  destruct Hpf as (Lp' & Lf' & Hproj).
  split.
  - unfold s2i_lengths.
    cbn [s2i_g s2i_image_grid_locations s2i_p s2i_above_threshold
         s2i_r_rdot_to_ground_success].
    rewrite length_assign, !length_map, length_map2, Lp', Nat.min_id.
    repeat split; assumption.
  - unfold s2i_all_projected.
    cbn [s2i_image_grid_locations s2i_p s2i_r_rdot_to_ground_success].
    intros i il_i P flag Hil HP Hflag.
    assert (Hi : i < List.length s).
    { rewrite <- Lil'. apply nth_error_Some. now rewrite Hil. }
    destruct (nth_error mask i) as [[|]|] eqn:Hmi.
    + now apply Hproj.
    + (* the point was out of the iteration: nothing of it changed *)
      apply Hfrozen; [exact Hmi | | |].
      * unfold il' in Hil. now rewrite (nth_error_assign_false _ _ _ _ Hmi) in Hil.
      * destruct (is_monostatic proj_metadata).
        -- bind_inv Epf as pa Epa. injection Epf as <-. cbn [fst] in HP.
           now rewrite (nth_error_assign_false _ _ _ _ Hmi) in HP.
        -- bind_inv Epf as r Er. destruct r as [[pa dgp] ok]. injection Epf as <-.
           cbn [fst] in HP. now rewrite (nth_error_assign_false _ _ _ _ Hmi) in HP.
      * destruct (is_monostatic proj_metadata).
        -- bind_inv Epf as pa Epa. injection Epf as <-. cbn [snd] in Hflag.
           now rewrite (nth_error_assign_false _ _ _ _ Hmi) in Hflag.
        -- bind_inv Epf as r Er. destruct r as [[pa dgp] ok]. injection Epf as <-.
           cbn [snd] in Hflag.
           rewrite (@nth_error_assign_all _ mask _ ok i _ Hmi) in Hflag by (rewrite Lf; exact Hi).
           exact Hflag.
    + apply nth_error_None in Hmi. rewrite Lm in Hmi. exfalso. exact (proj1 (Nat.lt_nge _ _) Hi Hmi).
Qed.

Lemma s2i_loop_projected (k : nat) (st st' : s2i_state) :
  s2i_lengths s st ->
  s2i_frozen_projected proj_metadata s bistat_delta_gp_gpp bistat_maxiter st ->
  loop (S k) st = inr st' ->
  s2i_lengths s st'
  /\ s2i_all_projected proj_metadata s bistat_delta_gp_gpp bistat_maxiter st'.
Proof.
  revert st. induction k as [|k IH]; intros st HL HF Hloop; cbn [s2i_loop] in Hloop.
  - bind_inv Hloop as st1 E1.
    destruct (s2i_success st1); injection Hloop as <-;
      eapply s2i_step_projected; eassumption.
  - bind_inv Hloop as st1 E1.
    destruct (s2i_step_projected HL HF E1) as [HL1 HA1].
    destruct (s2i_success st1).
    + injection Hloop as <-. now split.
    + apply (IH st1); [exact HL1 | | exact Hloop].
      intros i il_i P flag _. apply HA1.
Qed.

End SceneToImageProjected.

Lemma s2i_init_lengths (s : list (vec3 spec_float)) : s2i_lengths s (s2i_init s).
Proof.
  unfold s2i_lengths, s2i_init. cbn. now rewrite !length_map.
Qed.

Lemma s2i_init_frozen_projected (T : Trig spec_float)
  (proj_metadata : MetadataParams spec_float) (s : list (vec3 spec_float))
  (bistat_delta_gp_gpp : spec_float) (bistat_maxiter : nat) :
  s2i_frozen_projected proj_metadata s bistat_delta_gp_gpp bistat_maxiter (s2i_init s).
Proof.
  intros i il_i P flag Hm. exfalso. unfold s2i_init in Hm.
  cbn [s2i_above_threshold] in Hm. rewrite nth_error_map in Hm.
  destruct (nth_error s i); discriminate.
Qed.

(** C7.  When [scene_to_image] returns after at least one pass, there
    are ground plane points [p] and flags, one per scene point, such
    that
    - the ground plane point and the flag of every scene point come out
      of an inner projection ([s2i_projected]): a call of
      [r_rdot_to_ground_plane_mono] or [r_rdot_to_ground_plane_bi] with
      the projection sets of image grid locations, that of the point
      being the one returned for it; monostatic, the flag says that the
      ground plane point is finite; bistatic, the flag is the [success]
      of the solver, which says that it ran a pass and that every
      displacement it returned is within [bistat_delta_gp_gpp];
    - [delta_gp] holds the distances from the scene points to [p];
    - [success] is [True] exactly when every [delta_gp] is at most
      [delta_gp_s2i] and every flag is set, which for a monostatic
      collect says that every ground plane point is finite. *)
Theorem scene_to_image_success_iff (T : Trig spec_float)
  (proj_metadata : MetadataParams spec_float) (scene_points : list (vec3 spec_float))
  (delta_gp_s2i : spec_float) (k : nat)
  (bistat_delta_gp_gpp : spec_float) (bistat_maxiter : nat)
  (image_grid_locations : list (vec2 spec_float)) (delta_gp : list spec_float)
  (success : bool) :
  scene_to_image proj_metadata scene_points delta_gp_s2i (S k)
    bistat_delta_gp_gpp bistat_maxiter
  = inr (image_grid_locations, delta_gp, success) ->
  exists (p : list (vec3 spec_float)) (flags : list bool),
    List.length image_grid_locations = List.length scene_points
    /\ List.length p = List.length scene_points
    /\ List.length flags = List.length scene_points
    /\ (forall i il_i P flag,
          nth_error image_grid_locations i = Some il_i ->
          nth_error p i = Some P ->
          nth_error flags i = Some flag ->
          s2i_projected proj_metadata scene_points bistat_delta_gp_gpp bistat_maxiter
            i il_i P flag)
    /\ delta_gp = map vnorm (map2 vsub scene_points p)
    /\ (success = true <->
        Forall (fun d => (d <=? delta_gp_s2i) = true) delta_gp
        /\ Forall (fun b => b = true) flags)
    /\ (is_monostatic proj_metadata = true ->
        (success = true <->
         Forall (fun d => (d <=? delta_gp_s2i) = true) delta_gp
         /\ Forall (fun P => isfinite3 P = true) p)).
Proof.
  unfold scene_to_image. intros Hrun. bind_inv Hrun as st Est.
  injection Hrun as <- <- <-.
  exists (s2i_p st), (s2i_r_rdot_to_ground_success st).
  pose proof Est as Hloop. unfold scene_to_image_run in Hloop.
  destruct (s2i_loop_settled _ _ _ _ _ _ _ _ _ _ _ Hloop) as [Hd Hs].
  destruct (s2i_loop_projected _ _ _ _ _ (s2i_init_lengths scene_points)
              (s2i_init_frozen_projected T proj_metadata scene_points
                 bistat_delta_gp_gpp bistat_maxiter) Hloop)
    as [(Lg & Lil & Lp & Lm & Lf) Hall].
  assert (Hiff : s2i_success st = true <->
                 Forall (fun d => (d <=? delta_gp_s2i) = true) (s2i_delta_gp st)
                 /\ Forall (fun b => b = true) (s2i_r_rdot_to_ground_success st)).
  { rewrite Hs, andb_true_iff, !forallb_Forall. reflexivity. }
  repeat (split; [assumption|]).
  intros Hmono.
  pose proof (s2i_loop_flags_finite _ _ _ _ _ _ _ _ _ _ Hmono
                (s2i_init_flags_finite scene_points) Hloop) as Hf.
  rewrite Hiff. unfold s2i_flags_finite in Hf. rewrite Hf.
  rewrite Forall_map. reflexivity.
Qed.

Lemma scene_to_image_success_iff_witness :
  exists locs dgp,
    scene_to_image (TR := trig_at_zero) meta_side_looking
      [scene_point_north; scp_equator] one_mm 10 one_mm 10 = inr (locs, dgp, true)
    /\ exists (p : list (vec3 spec_float)) (flags : list bool),
         List.length locs = 2%nat
         /\ List.length p = 2%nat
         /\ List.length flags = 2%nat
         /\ (forall i il_i P flag,
               nth_error locs i = Some il_i ->
               nth_error p i = Some P ->
               nth_error flags i = Some flag ->
               s2i_projected (T := trig_at_zero) meta_side_looking
                 [scene_point_north; scp_equator] one_mm 10 i il_i P flag)
         /\ dgp = map vnorm (map2 vsub [scene_point_north; scp_equator] p)
         /\ (true = true <->
             Forall (fun d => (d <=? one_mm) = true) dgp
             /\ Forall (fun b => b = true) flags)
         /\ (is_monostatic meta_side_looking = true ->
             (true = true <->
              Forall (fun d => (d <=? one_mm) = true) dgp
              /\ Forall (fun P => isfinite3 P = true) p)).
Proof.
  destruct (scene_to_image (TR := trig_at_zero) meta_side_looking
              [scene_point_north; scp_equator] one_mm 10 one_mm 10)
    as [e | [[locs dgp] ok]] eqn:Hrun; [vm_compute in Hrun; discriminate Hrun|].
  assert (Hok : ok = true).
  { vm_compute in Hrun. now injection Hrun as _ _ <-. }
  subst ok.
  exists locs, dgp. split; [reflexivity|].
  exact (@scene_to_image_success_iff trig_at_zero meta_side_looking
           [scene_point_north; scp_equator] one_mm 9 one_mm 10 locs dgp true Hrun).
Defined.


(* ================================================================== *)
(** * The signed height test of the constant HAE projection (C10)      *)
(* ================================================================== *)

(** Any negative height difference passes both tests of the loop
    against a threshold that is not negative. *)
Lemma negative_passes (d dmax : spec_float) :
  b64_negative d -> b64_nonneg dmax ->
  (d >? dmax) = false /\ (d <=? dmax) = true.
Proof.
  destruct d as [s|[]| |[] m e]; cbn; try contradiction; intros _;
    destruct dmax as [s'|[]| |[] m' e']; cbn; try contradiction; intros _;
    split; reflexivity.
Qed.

Section ConstantHAE.
Context {T : Trig spec_float} {G : Geocoords spec_float}.

Variable proj_metadata : MetadataParams spec_float.
Variable projection_sets : ProjectionSets.t spec_float.
Variable hae0 : list spec_float.
Variables delta_hae_max bistat_delta_gp_gpp : spec_float.
Variable bistat_maxiter : nat.

Local Abbreviation pass :=
  (hae_pass proj_metadata projection_sets hae0
     delta_hae_max bistat_delta_gp_gpp bistat_maxiter).
Local Abbreviation loop :=
  (hae_loop proj_metadata projection_sets hae0
     delta_hae_max bistat_delta_gp_gpp bistat_maxiter).

(** What a pass computes last: the mask and [success] come from the
    signed comparison of [delta_hae] with [delta_hae_max]. *)
Lemma hae_pass_tests (st st' : hae_state) :
  pass st = inr st' ->
  hae_above_threshold st' = map (fun d => d >? delta_hae_max) (hae_delta_hae st')
  /\ hae_success st'
     = forallb (fun d => d <=? delta_hae_max) (hae_delta_hae st')
       && forallb (fun b => b) (hae_r_rdot_to_plane_success st').
Proof.
  unfold hae_pass. intros Hst. bind_inv Hst as pr Epr.
  injection Hst as <-. split; reflexivity.
Qed.

Lemma hae_pass_keeps_frozen (i : nat) (d : spec_float) (gp : vec3 spec_float)
  (st st' : hae_state) :
  (d >? delta_hae_max) = false ->
  hae_frozen_at i d gp st -> pass st = inr st' -> hae_frozen_at i d gp st'.
Proof.
  intros Hd (Ha & Hdh & Hgp) Hst.
  unfold hae_pass in Hst. bind_inv Hst as pr Epr. injection Hst as <-.
  unfold hae_frozen_at.
  cbn [hae_above_threshold hae_delta_hae hae_gpp] in *.
  split; [|split].
  - rewrite nth_error_map, (@nth_error_assign_false _ _ _ _ _ Ha), Hdh.
    cbn [option_map]. f_equal. exact Hd.
  - now rewrite nth_error_assign_false.
  - now rewrite nth_error_assign_false.
Qed.

Lemma hae_update_keeps_frozen (i : nat) (d : spec_float) (gp : vec3 spec_float)
  (st st' : hae_state) :
  hae_frozen_at i d gp st -> hae_update st = inr st' -> hae_frozen_at i d gp st'.
Proof.
  intros Hf Hst. unfold hae_update in Hst. bind_inv Hst as du Edu.
  injection Hst as <-. exact Hf.
Qed.

Lemma hae_loop_keeps_frozen (i : nat) (d : spec_float) (gp : vec3 spec_float)
  (n : nat) (st st' : hae_state) :
  (d >? delta_hae_max) = false ->
  hae_frozen_at i d gp st -> loop n st = inr st' -> hae_frozen_at i d gp st'.
Proof.
  intros Hd. revert st. induction n as [|n IH]; intros st Hf Hloop;
    cbn [hae_loop] in Hloop.
  - now injection Hloop as <-.
  - bind_inv Hloop as st1 E1.
    pose proof (hae_pass_keeps_frozen Hd Hf E1) as Hf1.
    destruct (hae_success st1).
    + now injection Hloop as <-.
    + bind_inv Hloop as st2 E2.
      eapply IH; [|exact Hloop].
      eapply hae_update_keeps_frozen; eassumption.
Qed.

(** A pass that returns has found the fields of the metadata's collect
    type in the ensemble. *)
Lemma hae_pass_checks_fields (st st' : hae_state) :
  pass st = inr st' -> hae_check_fields proj_metadata projection_sets = inr tt.
Proof.
  unfold hae_pass, hae_project, hae_check_fields. intros Hst.
  bind_inv Hst as pr Epr.
  destruct (is_monostatic proj_metadata), projection_sets;
    try reflexivity; discriminate Epr.
Qed.

(** Monostatic: after a pass from the first state, the flag of a point
    says whether its ground plane point is finite. *)
Lemma hae_first_pass_flags (st1 : hae_state) :
  is_monostatic proj_metadata = true ->
  pass (hae_init proj_metadata hae0) = inr st1 ->
  hae_r_rdot_to_plane_success st1 = map isfinite3 (hae_gpp st1).
Proof.
  intros Hmono Hst. unfold hae_pass in Hst. bind_inv Hst as pr Epr.
  injection Hst as <-. cbn [hae_r_rdot_to_plane_success hae_gpp].
  unfold hae_project in Epr. rewrite Hmono in Epr.
  destruct projection_sets as [pts|pts]; [|discriminate Epr].
  bind_inv Epr as ga Ega. injection Epr as <-. cbn [fst snd].
  cbn [hae_init hae_r_rdot_to_plane_success hae_gpp hae_above_threshold].
  replace (map (fun _ : spec_float => false) hae0)
    with (map isfinite3 (map (fun _ : spec_float => nan3) hae0))
    by (rewrite map_map; reflexivity).
  apply assign_map_select.
Qed.

(** C10.  The test of the loop is the signed comparison
    [delta_hae > delta_hae_max].  Let the first pass leave point [i]
    with a negative height difference [d], however large, against a
    threshold that is not negative.  Then point [i] is not above the
    threshold; it keeps [d] and its ground plane point through every
    further pass; it passes [delta_hae <= delta_hae_max]; and when
    every point passes that test and every flag is set (monostatic:
    every ground plane point is finite), the call returns after this
    one pass with [success = True] and these height differences. *)
Theorem hae_test_is_signed (i : nat) (d : spec_float) (gp : vec3 spec_float)
  (st1 : hae_state) :
  pass (hae_init proj_metadata hae0) = inr st1 ->
  nth_error (hae_delta_hae st1) i = Some d ->
  nth_error (hae_gpp st1) i = Some gp ->
  b64_negative d -> b64_nonneg delta_hae_max ->
  hae_above_threshold st1 = map (fun x => x >? delta_hae_max) (hae_delta_hae st1)
  /\ nth_error (hae_above_threshold st1) i = Some false
  /\ (forall n st2 st',
        hae_update st1 = inr st2 -> loop n st2 = inr st' ->
        nth_error (hae_delta_hae st') i = Some d
        /\ nth_error (hae_gpp st') i = Some gp)
  /\ (d <=? delta_hae_max) = true
  /\ (is_monostatic proj_metadata = true ->
      hae_r_rdot_to_plane_success st1 = map isfinite3 (hae_gpp st1))
  /\ (Forall (fun x => (x <=? delta_hae_max) = true) (hae_delta_hae st1) ->
      Forall (fun b => b = true) (hae_r_rdot_to_plane_success st1) ->
      forall k,
        exists spp_tgt,
          r_rdot_to_constant_hae_surface proj_metadata projection_sets hae0
            delta_hae_max (S k) bistat_delta_gp_gpp bistat_maxiter
          = inr (spp_tgt, hae_delta_hae st1, true)).
Proof.
  intros Hpass Hd Hgp Hneg Hmax.
  destruct (negative_passes d delta_hae_max Hneg Hmax) as [Hgt Hle].
  destruct (hae_pass_tests _ Hpass) as [Hmask Hsucc].
  assert (Ha : nth_error (hae_above_threshold st1) i = Some false).
  { rewrite Hmask, nth_error_map, Hd. cbn [option_map]. f_equal. exact Hgt. }
  split; [exact Hmask|]. split; [exact Ha|]. split; [|split; [exact Hle|split]].
  - intros n st2 st' Hup Hloop.
    assert (Hf : hae_frozen_at i d gp st1) by (repeat split; assumption).
    pose proof (hae_update_keeps_frozen Hf Hup) as Hf2.
    destruct (hae_loop_keeps_frozen n Hgt Hf2 Hloop) as (_ & H1 & H2).
    now split.
  - intros Hmono. now apply hae_first_pass_flags.
  - intros Hall Hflags k.
    assert (Hs : hae_success st1 = true).
    { rewrite Hsucc, andb_true_iff, !forallb_Forall. now split. }
    unfold r_rdot_to_constant_hae_surface, r_rdot_to_constant_hae_surface_run.
    rewrite (hae_pass_checks_fields _ Hpass). cbn [bind hae_loop].
    rewrite Hpass. cbn [bind]. rewrite Hs. cbn [bind ret].
    unfold hae_u_spn.
    destruct projection_sets as [pts|pts]; cbn [bind ret compute_pt_r_rdot_parameters];
      eexists; rewrite Hs; reflexivity.
Qed.

End ConstantHAE.

Lemma hae_test_is_signed_witness :
  exists st1 gp,
    hae_pass (TR := trig_at_zero) (GC := geocoords_x_axis) meta_scp_hae_off
      (ProjectionSets.Monostatic [ps_in_reach]) [b64_of_Z 0]
      (b64_of_Z 1) one_mm 10 (hae_init (TR := trig_at_zero) meta_scp_hae_off [b64_of_Z 0])
    = inr st1
    /\ nth_error (hae_delta_hae st1) 0 = Some (b64_of_Z (-1000))
    /\ nth_error (hae_gpp st1) 0 = Some gp
    /\ isfinite3 gp = true
    /\ (fabs (b64_of_Z (-1000)) >? b64_of_Z 1) = true
    /\ nth_error (hae_above_threshold st1) 0 = Some false
    /\ exists spp_tgt,
         r_rdot_to_constant_hae_surface (TR := trig_at_zero) (GC := geocoords_x_axis)
           meta_scp_hae_off (ProjectionSets.Monostatic [ps_in_reach]) [b64_of_Z 0]
           (b64_of_Z 1) 3 one_mm 10
         = inr (spp_tgt, [b64_of_Z (-1000)], true).
Proof.
  destruct (hae_pass (TR := trig_at_zero) (GC := geocoords_x_axis) meta_scp_hae_off
              (ProjectionSets.Monostatic [ps_in_reach]) [b64_of_Z 0]
              (b64_of_Z 1) one_mm 10
              (hae_init (TR := trig_at_zero) meta_scp_hae_off [b64_of_Z 0]))
    as [e|st1] eqn:Hpass; [vm_compute in Hpass; discriminate Hpass|].
  assert (Hd : hae_delta_hae st1 = [b64_of_Z (-1000)]).
  { vm_compute in Hpass. injection Hpass as <-. reflexivity. }
  assert (Hf : hae_r_rdot_to_plane_success st1 = [true]).
  { vm_compute in Hpass. injection Hpass as <-. reflexivity. }
  destruct (hae_gpp st1) as [|gp rest] eqn:Hgpp;
    [vm_compute in Hpass; injection Hpass as <-; discriminate Hgpp|].
  assert (Hfin : isfinite3 gp = true).
  { vm_compute in Hpass. injection Hpass as <-.
    vm_compute in Hgpp. injection Hgpp as <- _. reflexivity. }
  assert (Hnth : nth_error (hae_delta_hae st1) 0 = Some (b64_of_Z (-1000))).
  { now rewrite Hd. }
  assert (Hgp : nth_error (hae_gpp st1) 0 = Some gp).
  { now rewrite Hgpp. }
  destruct (@hae_test_is_signed trig_at_zero geocoords_x_axis meta_scp_hae_off
              (ProjectionSets.Monostatic [ps_in_reach]) [b64_of_Z 0]
              (b64_of_Z 1) one_mm 10 0 (b64_of_Z (-1000)) gp st1
              Hpass Hnth Hgp I I)
    as (_ & Ha & _ & _ & _ & Hsucc).
  exists st1, gp.
  split; [reflexivity|]. split; [exact Hnth|]. split; [exact Hgp|].
  split; [exact Hfin|]. split; [reflexivity|]. split; [exact Ha|].
  rewrite <- Hd. apply Hsucc.
  - rewrite Hd. constructor; [reflexivity|constructor].
  - rewrite Hf. constructor; [reflexivity|constructor].
Defined.

(* ================================================================== *)
(** * The SCP and the origin of the image grid                         *)
(* ================================================================== *)
Lemma b64_zero_mul_finite3 (u : vec3 spec_float) :
  isfinite3 u = true ->
  is_zero (of_Z 0 * v0 u) /\ is_zero (of_Z 0 * v1 u) /\ is_zero (of_Z 0 * v2 u).
Proof.
  unfold isfinite3. rewrite !andb_true_iff. intros [[H0 H1] H2].
  repeat split; apply b64_zero_mul_finite; auto using b64_of_Z_0_zero.
Qed.
(** X1.  With finite image plane axes, the image grid location
    [(0, 0)] is mapped to the SCP: the image plane point returned has
    the coordinates of [SCP], but possibly for the sign of a zero. *)
Theorem grid_origin_maps_to_scp (meta : MetadataParams spec_float) :
  isfinite3 (uRow meta) = true -> isfinite3 (uCol meta) = true ->
  exists p,
    image_grid_to_image_plane_point meta [V2 (of_Z 0) (of_Z 0)] = [p]
    /\ same_point p (SCP meta).
Proof.
  intros Hr Hc. eexists. split; [reflexivity|].
  destruct (b64_zero_mul_finite3 _ Hr) as (R0 & R1 & R2).
  destruct (b64_zero_mul_finite3 _ Hc) as (C0 & C1 & C2).
  unfold image_grid_to_image_plane_point_pt, same_point, vadd, vscale, vzip, vmap.
  cbn [v0 v1 v2 w0 w1].
  repeat split; apply b64_add_zero_r; now apply b64_zero_add_zero.
Qed.

Lemma grid_origin_maps_to_scp_witness :
  isfinite3 (uRow meta_orthogonal) = true
  /\ isfinite3 (uCol meta_orthogonal) = true
  /\ exists p,
       image_grid_to_image_plane_point meta_orthogonal [V2 (of_Z 0) (of_Z 0)] = [p]
       /\ same_point p (SCP meta_orthogonal).
Proof.
  split; [reflexivity|]. split; [reflexivity|].
  exact (grid_origin_maps_to_scp meta_orthogonal eq_refl eq_refl).
Defined.

Lemma b64_sub_diag (x : spec_float) : fisfinite x = true -> is_zero (x - x).
Proof.
  destruct x as [s|s| |s m e]; try discriminate; intros _.
  - destruct s; eexists; reflexivity.
  - cbn [fsub Binary64 SFsub]. rewrite Z.sub_diag. eexists. reflexivity.
Qed.

Lemma b64_dot_zero (d u : vec3 spec_float) :
  is_zero (v0 d) -> is_zero (v1 d) -> is_zero (v2 d) -> isfinite3 u = true ->
  is_zero (vsum (vmul d u)).
Proof.
  intros D0 D1 D2. unfold isfinite3. rewrite !andb_true_iff. intros [[H0 H1] H2].
  unfold vsum, vmul, vzip. cbn [v0 v1 v2].
  repeat apply b64_zero_add_zero; now apply b64_zero_mul_finite.
Qed.
(** X2.  With a finite SCP, finite image plane axes and a finite
    matrix [m_il_ippt] (axes that are not collinear), the SCP is mapped
    to the image grid location [(0, 0)]: both coordinates returned are
    zeros. *)
Theorem scp_maps_to_grid_origin (meta : MetadataParams spec_float) :
  isfinite3 (SCP meta) = true ->
  isfinite3 (uRow meta) = true -> isfinite3 (uCol meta) = true ->
  mat2_isfinite (m_il_ippt meta) = true ->
  exists il,
    image_plane_point_to_image_grid meta [SCP meta] = inr [il]
    /\ is_zero (w0 il) /\ is_zero (w1 il).
Proof.
  intros Hs Hr Hc Hm. eexists. split; [reflexivity|].
  unfold image_plane_point_to_image_grid_pt.
  assert (Hd : is_zero (v0 (vsub (SCP meta) (SCP meta)))
               /\ is_zero (v1 (vsub (SCP meta) (SCP meta)))
               /\ is_zero (v2 (vsub (SCP meta) (SCP meta)))).
  { revert Hs. unfold isfinite3. rewrite !andb_true_iff. intros [[H0 H1] H2].
    unfold vsub, vzip. cbn [v0 v1 v2]. repeat split; now apply b64_sub_diag. }
  destruct Hd as (D0 & D1 & D2).
  pose proof (b64_dot_zero _ _ D0 D1 D2 Hr) as Zr.
  pose proof (b64_dot_zero _ _ D0 D1 D2 Hc) as Zc.
  revert Hm. unfold mat2_isfinite. rewrite !andb_true_iff. intros [[[M0 M1] M2'] M3].
  unfold mat2_apply. cbn [w0 w1].
  split; apply b64_zero_add_zero; now apply b64_finite_mul_zero.
Qed.

Lemma scp_maps_to_grid_origin_witness :
  isfinite3 (SCP meta_orthogonal) = true
  /\ isfinite3 (uRow meta_orthogonal) = true
  /\ isfinite3 (uCol meta_orthogonal) = true
  /\ mat2_isfinite (m_il_ippt meta_orthogonal) = true
  /\ exists il,
       image_plane_point_to_image_grid meta_orthogonal [SCP meta_orthogonal] = inr [il]
       /\ is_zero (w0 il) /\ is_zero (w1 il).
Proof.
  repeat (split; [reflexivity|]).
  exact (scp_maps_to_grid_origin meta_orthogonal eq_refl eq_refl eq_refl eq_refl).
Defined.

(* ================================================================== *)
(** * The other no-solution marks of the monostatic projection         *)
(* ================================================================== *)
Lemma b64_div_nan_r (x : spec_float) : x / S754_nan = S754_nan.
Proof. destruct x; reflexivity. Qed.

Lemma b64_div_nan_l (x : spec_float) : S754_nan / x = S754_nan.
Proof. reflexivity. Qed.

Lemma mono_pt_no_along_track_speed (meta : MetadataParams spec_float)
  (ps : ProjectionSets.mono spec_float) (gref ugpn : vec3 spec_float) :
  (mono_vx ps ugpn =? of_Z 0) = true ->
  r_rdot_to_ground_plane_mono_pt meta ps gref ugpn = nan3.
Proof.
  intros Hvx. unfold r_rdot_to_ground_plane_mono_pt. cbv zeta.
  unfold mono_vx in Hvx. cbv zeta in Hvx. rewrite Hvx.
  cbn [fnan Binary64_special].
  unfold vdivs, vmap, cross. cbn [v0 v1 v2].
  rewrite !b64_div_nan_r.
  unfold vadd, vscale, vzip, vmap, nan3. cbn [v0 v1 v2 fnan Binary64_special].
  rewrite ?b64_mul_nan_r, ?b64_add_nan_r, ?b64_sub_nan_l, ?b64_add_nan_l.
  reflexivity.
Qed.

Lemma mono_pt_azimuth_out_of_range (meta : MetadataParams spec_float)
  (ps : ProjectionSets.mono spec_float) (gref ugpn : vec3 spec_float) :
  (mono_cos_az ps gref ugpn <? of_Z (-1)) || (mono_cos_az ps gref ugpn >? of_Z 1) = true ->
  r_rdot_to_ground_plane_mono_pt meta ps gref ugpn = nan3.
Proof.
  intros Hc. unfold r_rdot_to_ground_plane_mono_pt. cbv zeta.
  unfold mono_cos_az, mono_vx in Hc. cbv zeta in Hc. rewrite Hc.
  cbn [fnan Binary64_special].
  unfold vadd, vscale, vzip, vmap, nan3. cbn [v0 v1 v2 fnan Binary64_special].
  rewrite ?b64_mul_nan_r, ?b64_mul_nan_l, ?b64_add_nan_r, ?b64_add_nan_l.
  reflexivity.
Qed.
(** X3.  [r_rdot_to_ground_plane_mono] marks two more cases as having
    no solution.  A point whose ARP has no speed along the ground plane
    ([vx == 0]), or whose cosine of the azimuth angle is below [-1] or
    above [1], makes the call return with NaN in the three coordinates
    of that point. *)
Theorem mono_no_solution_marks (meta : MetadataParams spec_float)
  (pts : list (ProjectionSets.mono spec_float)) (gref ugpn : list (vec3 spec_float))
  (i : nat) (ps : ProjectionSets.mono spec_float) (g u : vec3 spec_float) :
  nth_error pts i = Some ps -> nth_error gref i = Some g -> nth_error ugpn i = Some u ->
  (mono_vx ps u =? of_Z 0) = true
  \/ (mono_cos_az ps g u <? of_Z (-1)) || (mono_cos_az ps g u >? of_Z 1) = true ->
  exists out,
    r_rdot_to_ground_plane_mono meta (ProjectionSets.Monostatic pts) gref ugpn = inr out
    /\ nth_error out i = Some (V3 S754_nan S754_nan S754_nan).
Proof.
  intros Hp Hg Hu Hno. eexists. split; [reflexivity|].
  rewrite (nth_error_map3 _ _ _ _ _ Hp Hg Hu). f_equal.
  destruct Hno as [Hvx | Hc].
  - now apply mono_pt_no_along_track_speed.
  - now apply mono_pt_azimuth_out_of_range.
Qed.

Lemma mono_no_solution_marks_witness :
  (mono_vx ps_vertical_velocity e_x =? of_Z 0) = true
  /\ exists out,
       r_rdot_to_ground_plane_mono meta_orthogonal
         (ProjectionSets.Monostatic [ps_in_reach; ps_vertical_velocity])
         [scp_equator; scp_equator] [e_x; e_x] = inr out
       /\ nth_error out 1 = Some (V3 S754_nan S754_nan S754_nan).
Proof.
  split; [reflexivity|].
  exact (mono_no_solution_marks meta_orthogonal
           [ps_in_reach; ps_vertical_velocity] [scp_equator; scp_equator] [e_x; e_x]
           1 eq_refl eq_refl eq_refl (or_introl eq_refl)).
Defined.

(* ================================================================== *)
(** * What [scene_to_image] returns and raises                         *)
(* ================================================================== *)
Section Totality.
Context {F : Type} {AR : Arith F} {SP : Special F} {TR : Trig F}.

Variable proj_metadata : MetadataParams F.
Hypothesis Hgrid : Grid_Type proj_metadata = "RGAZIM"%string.
Hypothesis Hifa : IFA proj_metadata = "PFA"%string.

Lemma compute_projection_sets_returns (locs : list (vec2 F)) :
  exists ps,
    compute_projection_sets proj_metadata locs = inr ps
    /\ match ps with
       | ProjectionSets.Monostatic _ => is_monostatic proj_metadata = true
       | ProjectionSets.Bistatic _ => is_monostatic proj_metadata = false
       end.
Proof.
  unfold compute_projection_sets, compute_coa_r_rdot, select_r_rdot_func.
  rewrite Hgrid, Hifa.
  cbn [String.eqb Ascii.eqb Bool.eqb call_r_rdot_func].
  unfold r_rdot_from_rgazim_pfa, rgazim_pfa_scp_ref, compute_coa_pos_vel.
  destruct (is_monostatic proj_metadata) eqn:Hm; cbn [bind ret compute_pt_r_rdot_parameters];
    eexists; split; reflexivity.
Qed.

(** A call of [np.linalg.inv] is the only place of the bistatic solver
    that can raise. *)
Lemma compute_gp_xy_parameters_raises_LinAlgError
  (pts ugpn bp bpdot : list (vec3 F)) (e : error) :
  compute_gp_xy_parameters pts ugpn bp bpdot = inl e -> e = LinAlgError.
Proof.
  unfold compute_gp_xy_parameters.
  generalize (combine (combine (combine pts ugpn) bp) bpdot) as l.
  induction l as [|[[[pt u] b] bd] l IH]; cbn [mapM]; [discriminate|].
  unfold gp_xy_parameters_pt at 1, inv2.
  destruct (_ =? _); cbn [bind raise ret].
  - now intros [= <-].
  - destruct (mapM _ l) as [e'|r]; cbn [bind ret]; [|discriminate].
    intros [= <-]. now apply IH.
Qed.

Lemma bi_step_raises_LinAlgError (pts : list (ProjectionSets.bi F))
  (ugpn : list (vec3 F)) (thr : F) (st : bi_state (F := F)) (e : error) :
  bi_step proj_metadata pts ugpn thr st = inl e -> e = LinAlgError.
Proof.
  unfold bi_step. cbn [compute_pt_r_rdot_parameters bind ret].
  destruct (compute_gp_xy_parameters _ _ _ _) as [e'|gp] eqn:Egp; cbn [bind ret];
    [|discriminate].
  intros [= <-]. eapply compute_gp_xy_parameters_raises_LinAlgError; eassumption.
Qed.

Lemma bi_loop_raises_LinAlgError (pts : list (ProjectionSets.bi F))
  (ugpn : list (vec3 F)) (thr : F) (n : nat) (st : bi_state (F := F)) (e : error) :
  bi_loop proj_metadata pts ugpn thr n st = inl e -> e = LinAlgError.
Proof.
  revert st. induction n as [|n IH]; intros st; cbn [bi_loop]; [discriminate|].
  destruct (bi_step _ _ _ _ _) as [e'|st1] eqn:E1; cbn [bind].
  - intros [= <-]. eapply bi_step_raises_LinAlgError; eassumption.
  - destruct (bi_success st1); [discriminate|]. apply IH.
Qed.

Variables s u_gpn : list (vec3 F).
Variables u_proj u_ipn : vec3 F.
Variable sf : F.
Variables delta_gp_s2i bistat_delta_gp_gpp : F.
Variable bistat_maxiter : nat.

Lemma s2i_step_total (st : s2i_state (F := F)) :
  s2i_shape s st ->
  (exists st',
     s2i_step proj_metadata s u_gpn u_proj u_ipn sf
       delta_gp_s2i bistat_delta_gp_gpp bistat_maxiter st = inr st'
     /\ s2i_shape s st')
  \/ (is_monostatic proj_metadata = false
      /\ s2i_step proj_metadata s u_gpn u_proj u_ipn sf
           delta_gp_s2i bistat_delta_gp_gpp bistat_maxiter st = inl LinAlgError).
Proof.
  intros (Hil & Hd & Hp). unfold s2i_step.
  cbn [image_plane_point_to_image_grid bind ret].
  match goal with
  | |- context [compute_projection_sets proj_metadata ?l] =>
      destruct (compute_projection_sets_returns l) as (ps & -> & Hps)
  end.
  cbn [bind].
  destruct ps as [pts|pts]; rewrite Hps.
  - left. cbn [r_rdot_to_ground_plane_mono bind ret fst snd].
    eexists. split; [reflexivity|].
    unfold s2i_shape. cbn [s2i_image_grid_locations s2i_delta_gp s2i_p].
    rewrite length_map, length_map2, !length_assign, Hil, Hp.
    repeat split. apply Nat.min_id.
  - unfold r_rdot_to_ground_plane_bi.
    match goal with
    | |- context [bi_loop ?m ?p ?u ?t ?n ?st0] =>
        destruct (bi_loop m p u t n st0) as [e|bst] eqn:Eloop
    end; cbn [bind ret].
    + right. split; [reflexivity|].
      now rewrite (bi_loop_raises_LinAlgError _ _ _ _ _ Eloop).
    + left. cbn [fst snd]. eexists. split; [reflexivity|].
      unfold s2i_shape. cbn [s2i_image_grid_locations s2i_delta_gp s2i_p].
      rewrite length_map, length_map2, !length_assign, Hil, Hp.
      repeat split. apply Nat.min_id.
Qed.

Lemma s2i_loop_total (maxiter : nat) (st : s2i_state (F := F)) :
  s2i_shape s st ->
  (exists st',
     s2i_loop proj_metadata s u_gpn u_proj u_ipn sf
       delta_gp_s2i bistat_delta_gp_gpp bistat_maxiter maxiter st = inr st'
     /\ s2i_shape s st')
  \/ (is_monostatic proj_metadata = false
      /\ s2i_loop proj_metadata s u_gpn u_proj u_ipn sf
           delta_gp_s2i bistat_delta_gp_gpp bistat_maxiter maxiter st = inl LinAlgError).
Proof.
  revert st. induction maxiter as [|n IH]; intros st Hsh; cbn [s2i_loop].
  - left. now exists st.
  - destruct (s2i_step_total Hsh) as [(st1 & -> & Hsh1) | [Hbi ->]]; cbn [bind].
    + destruct (s2i_success st1); [left; now exists st1 | now apply IH].
    + now right.
Qed.
End Totality.

Lemma s2i_init_shape {F : Type} {SP : Special F} (s : list (vec3 F)) :
  s2i_shape s (s2i_init s).
Proof.
  unfold s2i_shape, s2i_init. cbn. now rewrite !length_map.
Qed.
(** X4.  On an RGAZIM/PFA collect [scene_to_image] returns for every
    batch of scene points, every threshold and every number of passes,
    unless the collect is bistatic and a ground plane sensitivity
    matrix is singular ([LinAlgError] from [np.linalg.inv]): a
    monostatic RGAZIM/PFA call never raises.  The arrays returned have
    one image grid location and one displacement per scene point. *)
Theorem scene_to_image_pfa_total {F : Type} {AR : Arith F} {SP : Special F} {TR : Trig F}
  (proj_metadata : MetadataParams F) (scene_points : list (vec3 F))
  (delta_gp_s2i : F) (maxiter : nat) (bistat_delta_gp_gpp : F) (bistat_maxiter : nat) :
  Grid_Type proj_metadata = "RGAZIM"%string -> IFA proj_metadata = "PFA"%string ->
  (exists image_grid_locations delta_gp success,
     scene_to_image proj_metadata scene_points delta_gp_s2i maxiter
       bistat_delta_gp_gpp bistat_maxiter
     = inr (image_grid_locations, delta_gp, success)
     /\ List.length image_grid_locations = List.length scene_points
     /\ List.length delta_gp = List.length scene_points)
  \/ (is_monostatic proj_metadata = false
      /\ scene_to_image proj_metadata scene_points delta_gp_s2i maxiter
           bistat_delta_gp_gpp bistat_maxiter = inl LinAlgError).
Proof.
  intros Hg Hi. unfold scene_to_image, scene_to_image_run.
  match goal with
  | |- context [s2i_loop ?m ?s ?u ?up ?ui ?sf ?d ?b ?bm ?n ?st] =>
      destruct (@s2i_loop_total F AR SP TR m Hg Hi s u up ui sf d b bm n st
                  (s2i_init_shape s))
        as [(st' & -> & (H1 & H2 & _)) | [Hbi ->]]
  end; cbn [bind ret].
  - left. now exists (s2i_image_grid_locations st'), (s2i_delta_gp st'), (s2i_success st').
  - now right.
Qed.

Lemma scene_to_image_pfa_total_witness :
  Grid_Type meta_side_looking = "RGAZIM"%string
  /\ IFA meta_side_looking = "PFA"%string
  /\ ((exists image_grid_locations delta_gp success,
         scene_to_image (TR := trig_at_zero) meta_side_looking two_scene_points
           one_mm 10 one_mm 10
         = inr (image_grid_locations, delta_gp, success)
         /\ List.length image_grid_locations = List.length two_scene_points
         /\ List.length delta_gp = List.length two_scene_points)
      \/ (is_monostatic meta_side_looking = false
          /\ scene_to_image (TR := trig_at_zero) meta_side_looking two_scene_points
               one_mm 10 one_mm 10 = inl LinAlgError)).
Proof.
  split; [reflexivity|]. split; [reflexivity|].
  exact (@scene_to_image_pfa_total spec_float _ _ trig_at_zero meta_side_looking
           two_scene_points one_mm 10 one_mm 10 eq_refl eq_refl).
Defined.

Section UnsupportedGrid.
Context {F : Type} {AR : Arith F} {SP : Special F} {TR : Trig F}.

Lemma compute_coa_r_rdot_unsupported (meta : MetadataParams F)
  (locs : list (vec2 F)) (t_coa : list F) (coa : CoaPosVels.t F) :
  ~ (Grid_Type meta = "RGAZIM"%string /\ IFA meta = "PFA"%string) ->
  compute_coa_r_rdot meta locs t_coa coa = inl TypeError
  \/ compute_coa_r_rdot meta locs t_coa coa = inl ValueError.
Proof.
  intros Hpair. unfold compute_coa_r_rdot, select_r_rdot_func.
  destruct (String.eqb_spec (Grid_Type meta) "RGAZIM") as [Hg|Hg].
  - destruct (String.eqb_spec (IFA meta) "PFA") as [Hi|Hi]; [tauto|].
    destruct (String.eqb (IFA meta) "RGAZCOMP"); [now left | now right].
  - repeat match goal with
           | |- context [String.eqb ?a ?b] => destruct (String.eqb a b)
           end; (now left) || (now right).
Qed.
(** X5.  On a collect that is not RGAZIM/PFA [scene_to_image] raises as
    soon as one pass runs, whatever the scene points are (an empty
    batch included): [TypeError] or [ValueError], from
    [compute_coa_r_rdot].  With [maxiter = 0] no pass runs and the call
    returns NaN for every point and [success = False]. *)
Theorem scene_to_image_unsupported_grid (proj_metadata : MetadataParams F)
  (scene_points : list (vec3 F))
  (delta_gp_s2i : F) (maxiter : nat) (bistat_delta_gp_gpp : F) (bistat_maxiter : nat) :
  ~ (Grid_Type proj_metadata = "RGAZIM"%string /\ IFA proj_metadata = "PFA"%string) ->
  match maxiter with
  | O =>
      scene_to_image proj_metadata scene_points delta_gp_s2i maxiter
        bistat_delta_gp_gpp bistat_maxiter
      = inr (map (fun _ => V2 fnan fnan) scene_points,
             map (fun _ => fnan) scene_points, false)
  | S _ =>
      scene_to_image proj_metadata scene_points delta_gp_s2i maxiter
        bistat_delta_gp_gpp bistat_maxiter = inl TypeError
      \/ scene_to_image proj_metadata scene_points delta_gp_s2i maxiter
           bistat_delta_gp_gpp bistat_maxiter = inl ValueError
  end.
Proof.
  intros Hpair. destruct maxiter as [|k]; [reflexivity|].
  unfold scene_to_image, scene_to_image_run. cbn [s2i_loop].
  unfold s2i_step. cbn [image_plane_point_to_image_grid bind ret].
  unfold compute_projection_sets.
  match goal with
  | |- context [compute_coa_r_rdot ?m ?l ?t ?c] =>
      destruct (compute_coa_r_rdot_unsupported m l t c Hpair) as [-> | ->]
  end; cbn [bind]; [now left | now right].
Qed.

End UnsupportedGrid.

Lemma scene_to_image_unsupported_grid_witness :
  ~ (Grid_Type meta_rgzero = "RGAZIM"%string /\ IFA meta_rgzero = "PFA"%string)
  /\ (scene_to_image (TR := trig_at_zero) meta_rgzero two_scene_points
        one_mm 10 one_mm 10 = inl TypeError
      \/ scene_to_image (TR := trig_at_zero) meta_rgzero two_scene_points
           one_mm 10 one_mm 10 = inl ValueError).
Proof.
  assert (Hn : ~ (Grid_Type meta_rgzero = "RGAZIM"%string
                  /\ IFA meta_rgzero = "PFA"%string)).
  { intros [Hg _]. discriminate Hg. }
  split; [exact Hn|].
  exact (@scene_to_image_unsupported_grid spec_float _ _ trig_at_zero meta_rgzero
           two_scene_points one_mm 10 one_mm 10 Hn).
Defined.

(* ================================================================== *)
(** * Converged points of [scene_to_image]                             *)
(* ================================================================== *)
Lemma nth_error_map2 {A B C : Type} (f : A -> B -> C) (xs : list A) (ys : list B) (i : nat) :
  nth_error (map2 f xs ys) i
  = match nth_error xs i, nth_error ys i with
    | Some x, Some y => Some (f x y)
    | _, _ => None
    end.
Proof.
  revert ys i. induction xs as [|x xs IH]; intros [|y ys] [|i]; cbn; try reflexivity.
  - now destruct (nth_error xs i).
  - apply IH.
Qed.

Lemma forallb_nth_false {A : Type} (f : A -> bool) (l : list A) (i : nat) (x : A) :
  nth_error l i = Some x -> f x = false -> forallb f l = false.
Proof.
  revert i. induction l as [|y l IH]; intros [|i]; cbn; try discriminate.
  - intros [= ->] ->. reflexivity.
  - intros Hn Hf. rewrite (IH _ Hn Hf). apply andb_false_r.
Qed.
Section SceneToImageFrozen.
Context {T : Trig spec_float}.

Variable proj_metadata : MetadataParams spec_float.
Variables s u_gpn : list (vec3 spec_float).
Variables u_proj u_ipn : vec3 spec_float.
Variable sf : spec_float.
Variables delta_gp_s2i bistat_delta_gp_gpp : spec_float.
Variable bistat_maxiter : nat.

Local Abbreviation step :=
  (s2i_step proj_metadata s u_gpn u_proj u_ipn sf
     delta_gp_s2i bistat_delta_gp_gpp bistat_maxiter).
Local Abbreviation loop :=
  (s2i_loop proj_metadata s u_gpn u_proj u_ipn sf
     delta_gp_s2i bistat_delta_gp_gpp bistat_maxiter).

(** What a pass writes: the places of the mask in
    [image_grid_locations] and [p], and the new mask from the new
    displacements. *)
Lemma s2i_step_writes (st st' : s2i_state) :
  step st = inr st' ->
  (exists il, s2i_image_grid_locations st'
              = assign (s2i_above_threshold st) (s2i_image_grid_locations st) il)
  /\ (exists pa, s2i_p st' = assign (s2i_above_threshold st) (s2i_p st) pa)
  /\ s2i_above_threshold st' = map (fun d => d >? delta_gp_s2i) (s2i_delta_gp st').
Proof.
  unfold s2i_step. intros Hst.
  bind_inv Hst as il Eil. bind_inv Hst as ps Eps. bind_inv Hst as pf Epf.
  injection Hst as <-.
  cbn [s2i_image_grid_locations s2i_p s2i_above_threshold s2i_delta_gp].
  split; [now exists il|]. split; [|reflexivity].
  destruct (is_monostatic proj_metadata).
  - bind_inv Epf as pa Epa. injection Epf as <-. now exists pa.
  - bind_inv Epf as r Er. destruct r as [[pa dgp] ok]. injection Epf as <-.
    now exists pa.
Qed.

Lemma s2i_step_keeps_frozen (i : nat) (il : option (vec2 spec_float)) (d : spec_float)
  (p si : vec3 spec_float) (st st' : s2i_state) :
  nth_error s i = Some si -> d = vnorm (vsub si p) -> (d >? delta_gp_s2i) = false ->
  s2i_frozen_at i il d p st -> step st = inr st' -> s2i_frozen_at i il d p st'.
Proof.
  intros Hsi Hd Hgt (Ha & Hil & Hdg & Hp) Hst.
  destruct (s2i_step_writes _ Hst) as ((il' & Eil) & (pa & Ep) & Emask).
  destruct (s2i_step_settled _ _ _ _ _ _ _ _ _ _ Hst) as [Edg _].
  assert (Hp' : nth_error (s2i_p st') i = Some p).
  { now rewrite Ep, nth_error_assign_false. }
  assert (Hdg' : nth_error (s2i_delta_gp st') i = Some d).
  { rewrite Edg, nth_error_map, nth_error_map2, Hsi, Hp'. cbn [option_map].
    now rewrite Hd. }
  unfold s2i_frozen_at. split; [|split; [|split]]; try assumption.
  - rewrite Emask, nth_error_map, Hdg'. cbn [option_map]. f_equal. exact Hgt.
  - now rewrite Eil, nth_error_assign_false.
Qed.

Lemma s2i_loop_keeps_frozen (i : nat) (il : option (vec2 spec_float)) (d : spec_float)
  (p si : vec3 spec_float) (n : nat) (st st' : s2i_state) :
  nth_error s i = Some si -> d = vnorm (vsub si p) -> (d >? delta_gp_s2i) = false ->
  s2i_frozen_at i il d p st -> loop n st = inr st' -> s2i_frozen_at i il d p st'.
Proof.
  intros Hsi Hd Hgt. revert st. induction n as [|n IH]; intros st Hf Hloop;
    cbn [s2i_loop] in Hloop.
  - now injection Hloop as <-.
  - bind_inv Hloop as st1 E1.
    pose proof (s2i_step_keeps_frozen Hsi Hd Hgt Hf E1) as Hf1.
    destruct (s2i_success st1).
    + now injection Hloop as <-.
    + eapply IH; eassumption.
Qed.

Lemma s2i_loop_settled_from (n : nat) (st st' : s2i_state) :
  s2i_settled s delta_gp_s2i st -> loop n st = inr st' ->
  s2i_settled s delta_gp_s2i st'.
Proof.
  destruct n as [|n]; intros Hs Hloop.
  - cbn in Hloop. now injection Hloop as <-.
  - eapply s2i_loop_settled. exact Hloop.
Qed.
(** X6.  A point that a pass of [scene_to_image] leaves at or below
    the threshold (or with a NaN displacement, which is not above the
    threshold either) is out of the iteration: its mask entry stays
    false, and its image grid location and its displacement are those
    of that pass in every later pass.  If its displacement fails
    [delta_gp <= delta_gp_s2i] (NaN: no projection solution), the loop
    ends with [success = False]. *)
Theorem scene_to_image_converged_point_is_final (i : nat) (st0 st1 : s2i_state) :
  step st0 = inr st1 ->
  nth_error (s2i_above_threshold st1) i = Some false ->
  forall n st',
    loop n st1 = inr st' ->
    nth_error (s2i_above_threshold st') i = Some false
    /\ nth_error (s2i_image_grid_locations st') i
       = nth_error (s2i_image_grid_locations st1) i
    /\ nth_error (s2i_delta_gp st') i = nth_error (s2i_delta_gp st1) i
    /\ (forall d, nth_error (s2i_delta_gp st1) i = Some d ->
        (d <=? delta_gp_s2i) = false -> s2i_success st' = false).
Proof.
  intros Hst Ha n st' Hloop.
  destruct (s2i_step_writes _ Hst) as (_ & _ & Emask).
  pose proof (s2i_step_settled _ _ _ _ _ _ _ _ _ _ Hst) as Hset.
  destruct Hset as [Edg Esucc].
  rewrite Emask, nth_error_map in Ha.
  destruct (nth_error (s2i_delta_gp st1) i) as [d|] eqn:Hdg; [|discriminate Ha].
  cbn [option_map] in Ha. injection Ha as Hgt.
  pose proof Hdg as Hdg2. rewrite Edg, nth_error_map, nth_error_map2 in Hdg2.
  destruct (nth_error s i) as [si|] eqn:Hsi; [|discriminate Hdg2].
  destruct (nth_error (s2i_p st1) i) as [p|] eqn:Hp; [|discriminate Hdg2].
  cbn [option_map] in Hdg2. injection Hdg2 as Hd. symmetry in Hd.
  assert (Hmask1 : nth_error (s2i_above_threshold st1) i = Some false).
  { rewrite Emask, nth_error_map, Hdg. cbn [option_map]. f_equal. exact Hgt. }
  assert (Hf : s2i_frozen_at i (nth_error (s2i_image_grid_locations st1) i) d p st1)
    by (repeat split; assumption).
  destruct (s2i_loop_keeps_frozen n Hsi Hd Hgt Hf Hloop) as (A' & I' & D' & P').
  split; [exact A'|]. split; [exact I'|]. split; [exact D'|].
  intros d' [= <-] Hle.
  destruct (s2i_loop_settled_from n (conj Edg Esucc) Hloop) as [_ Es'].
  rewrite Es'. rewrite (forallb_nth_false _ _ _ D' Hle). reflexivity.
Qed.
End SceneToImageFrozen.

Lemma scene_to_image_converged_point_is_final_witness :
  exists st1,
    s2i_step (TR := trig_at_zero) meta_side_looking two_scene_points
      side_looking_u_gpn side_looking_u_proj side_looking_u_ipn side_looking_sf
      one_mm one_mm 10 (s2i_init two_scene_points) = inr st1
    /\ nth_error (s2i_above_threshold st1) 1 = Some false
    /\ forall n st',
         s2i_loop (TR := trig_at_zero) meta_side_looking two_scene_points
           side_looking_u_gpn side_looking_u_proj side_looking_u_ipn side_looking_sf
           one_mm one_mm 10 n st1 = inr st' ->
         nth_error (s2i_image_grid_locations st') 1
         = nth_error (s2i_image_grid_locations st1) 1
         /\ nth_error (s2i_delta_gp st') 1 = nth_error (s2i_delta_gp st1) 1.
Proof.
  destruct (s2i_step (TR := trig_at_zero) meta_side_looking two_scene_points
              side_looking_u_gpn side_looking_u_proj side_looking_u_ipn side_looking_sf
              one_mm one_mm 10 (s2i_init two_scene_points))
    as [e|st1] eqn:Hstep; [vm_compute in Hstep; discriminate Hstep|].
  assert (Ha : nth_error (s2i_above_threshold st1) 1 = Some false).
  { vm_compute in Hstep. injection Hstep as <-. reflexivity. }
  exists st1. split; [reflexivity|]. split; [exact Ha|].
  intros n st' Hloop.
  destruct (@scene_to_image_converged_point_is_final trig_at_zero meta_side_looking
              two_scene_points side_looking_u_gpn side_looking_u_proj
              side_looking_u_ipn side_looking_sf one_mm one_mm 10
              1 (s2i_init two_scene_points) st1 Hstep Ha n st' Hloop)
    as (_ & Hil & Hd & _).
  split; assumption.
Defined.

(* ================================================================== *)
(** * The success flag of the bistatic solver                          *)
(* ================================================================== *)
(** X7.  When [r_rdot_to_ground_plane_bi] returns [(g, delta_gp,
    success)], [success] is true exactly when at least one pass ran
    ([maxiter] is not [0]) and every displacement returned is at most
    [delta_gp_gpp]. *)
Theorem bistatic_solver_success_iff (T : Trig spec_float)
  (proj_metadata : MetadataParams spec_float)
  (projection_sets : ProjectionSets.t spec_float) (gref ugpn : list (vec3 spec_float))
  (delta_gp_gpp : spec_float) (maxiter : nat)
  (g : list (vec3 spec_float)) (delta_gp : list spec_float) (success : bool) :
  r_rdot_to_ground_plane_bi proj_metadata projection_sets gref ugpn delta_gp_gpp maxiter
  = inr (g, delta_gp, success) ->
  (success = true <->
   maxiter <> O /\ Forall (fun d => (d <=? delta_gp_gpp) = true) delta_gp).
Proof.
  destruct maxiter as [|k]; intros Hrun.
  - unfold r_rdot_to_ground_plane_bi in Hrun.
    destruct projection_sets as [pts|pts]; [discriminate|].
    cbn [bi_loop bind ret bi_success] in Hrun. injection Hrun as _ _ <-.
    split; [discriminate | now intros [[] _]].
  - rewrite (bi_success_iff _ _ _ _ _ _ _ Hrun), forallb_Forall.
    split; [now split | now intros [_ H]].
Qed.

Lemma bistatic_solver_success_iff_witness :
  exists g delta_gp,
    r_rdot_to_ground_plane_bi (TR := trig_at_zero) meta_bistatic_equator
      (ProjectionSets.Bistatic [ps_bistatic]) [scp_equator] [e_x] one_mm 10
    = inr (g, delta_gp, true)
    /\ (true = true <->
        10%nat <> O /\ Forall (fun d => (d <=? one_mm) = true) delta_gp).
Proof.
  destruct (r_rdot_to_ground_plane_bi (TR := trig_at_zero) meta_bistatic_equator
              (ProjectionSets.Bistatic [ps_bistatic]) [scp_equator] [e_x] one_mm 10)
    as [e | [[g delta_gp] ok]] eqn:Hrun; [vm_compute in Hrun; discriminate Hrun|].
  assert (Hok : ok = true).
  { vm_compute in Hrun. now injection Hrun as _ _ <-. }
  subst ok. exists g, delta_gp. split; [reflexivity|].
  exact (@bistatic_solver_success_iff trig_at_zero meta_bistatic_equator
           (ProjectionSets.Bistatic [ps_bistatic]) [scp_equator] [e_x] one_mm 10
           g delta_gp true Hrun).
Defined.

(* ================================================================== *)
(** * Success and failure of the constant HAE projection               *)
(* ================================================================== *)
Lemma select_map_filter {A : Type} (f : A -> bool) (l : list A) :
  select (map f l) l = filter f l.
Proof.
  induction l as [|x l IH]; cbn; [reflexivity|].
  destruct (f x); now rewrite IH.
Qed.

Lemma hae_scaled_up_returns {F : Type} {AR : Arith F}
  (dh : list F) (u_up du : list (vec3 F)) :
  hae_scaled_up dh u_up = inr du -> List.length dh = 1%nat \/ List.length dh = 3%nat.
Proof.
  destruct dh as [|d0 [|d1 [|d2 [|d3 r]]]]; cbn; try discriminate; auto.
Qed.

Lemma hae_scaled_up_raises {F : Type} {AR : Arith F}
  (dh : list F) (u_up : list (vec3 F)) :
  List.length dh <> 1%nat -> List.length dh <> 3%nat ->
  hae_scaled_up dh u_up = inl ValueError.
Proof.
  destruct dh as [|d0 [|d1 [|d2 [|d3 r]]]]; cbn; try reflexivity; congruence.
Qed.
Section ConstantHAEFailure.
Context {T : Trig spec_float} {G : Geocoords spec_float}.

Variable proj_metadata : MetadataParams spec_float.
Variable projection_sets : ProjectionSets.t spec_float.
Variable hae0 : list spec_float.
Variables delta_hae_max bistat_delta_gp_gpp : spec_float.
Variable bistat_maxiter : nat.

Local Abbreviation pass :=
  (hae_pass proj_metadata projection_sets hae0
     delta_hae_max bistat_delta_gp_gpp bistat_maxiter).
Local Abbreviation loop :=
  (hae_loop proj_metadata projection_sets hae0
     delta_hae_max bistat_delta_gp_gpp bistat_maxiter).

Lemma hae_update_settled (st1 st2 : hae_state) :
  pass st1 = inr st2 -> forall st3, hae_update st2 = inr st3 ->
  hae_settled delta_hae_max st3.
Proof.
  intros Hpass st3 Hup.
  destruct (hae_pass_tests _ _ _ _ _ _ _ Hpass) as [Hmask Hsucc].
  unfold hae_update in Hup. bind_inv Hup as du Edu. injection Hup as <-.
  unfold hae_settled.
  cbn [hae_above_threshold hae_delta_hae hae_success hae_r_rdot_to_plane_success].
  split; [exact Hmask|]. split; [exact Hsucc|]. intros _.
  apply hae_scaled_up_returns in Edu.
  rewrite Hmask, select_map_filter in Edu. exact Edu.
Qed.

Lemma hae_loop_settled (k : nat) (st st' : hae_state) :
  loop (S k) st = inr st' -> hae_settled delta_hae_max st'.
Proof.
  revert st. induction k as [|k IH]; intros st Hloop; cbn [hae_loop] in Hloop.
  - bind_inv Hloop as st1 E1.
    destruct (hae_success st1) eqn:Hs.
    + injection Hloop as <-.
      destruct (hae_pass_tests _ _ _ _ _ _ _ E1) as [Hmask Hsucc].
      split; [exact Hmask|]. split; [exact Hsucc|]. congruence.
    + bind_inv Hloop as st2 E2. injection Hloop as <-.
      eapply hae_update_settled; eassumption.
  - bind_inv Hloop as st1 E1.
    destruct (hae_success st1) eqn:Hs.
    + injection Hloop as <-.
      destruct (hae_pass_tests _ _ _ _ _ _ _ E1) as [Hmask Hsucc].
      split; [exact Hmask|]. split; [exact Hsucc|]. congruence.
    + bind_inv Hloop as st2 E2. eapply IH. exact Hloop.
Qed.
(** X8.  When [r_rdot_to_constant_hae_surface], run for at least one
    pass, returns [(spp_tgt, delta_hae, success)], then [success] is
    true exactly when every height difference returned is at most
    [delta_hae_max] and every flag of [r_rdot_to_plane_success] is set;
    and when [success] is false, the number of height differences
    above [delta_hae_max] is 1 or 3: these are the only counts for
    which the update of the ground planes does not raise. *)
Theorem hae_success_meaning (k : nat)
  (spp_tgt : list (vec3 spec_float)) (delta_hae : list spec_float) (success : bool) :
  r_rdot_to_constant_hae_surface proj_metadata projection_sets hae0
    delta_hae_max (S k) bistat_delta_gp_gpp bistat_maxiter
  = inr (spp_tgt, delta_hae, success) ->
  exists st,
    r_rdot_to_constant_hae_surface_run proj_metadata projection_sets hae0
      delta_hae_max (S k) bistat_delta_gp_gpp bistat_maxiter = inr st
    /\ delta_hae = hae_delta_hae st
    /\ (success = true <->
        Forall (fun d => (d <=? delta_hae_max) = true) delta_hae
        /\ Forall (fun b => b = true) (hae_r_rdot_to_plane_success st))
    /\ (success = false ->
        hae_count_above delta_hae_max delta_hae = 1%nat
        \/ hae_count_above delta_hae_max delta_hae = 3%nat).
Proof.
  unfold r_rdot_to_constant_hae_surface. intros Hrun.
  bind_inv Hrun as st Est. bind_inv Hrun as u_spn Espn.
  injection Hrun as _ <- <-. exists st. split; [reflexivity|]. split; [reflexivity|].
  unfold r_rdot_to_constant_hae_surface_run in Est. bind_inv Est as u Eck.
  destruct (hae_loop_settled _ _ Est) as (_ & Hs & Hfail).
  split; [|exact Hfail].
  rewrite Hs, andb_true_iff, !forallb_Forall. reflexivity.
Qed.
(** X9.  If the first pass of [r_rdot_to_constant_hae_surface] does not
    succeed and the number of points it leaves above [delta_hae_max] is
    neither 1 nor 3, the call raises [ValueError]:
    [delta_hae[above_threshold] * u_up[above_threshold, :]] multiplies
    a [(k,)] array by a [(k, 3)] array.  This covers [k = 0], a pass
    that fails only because a point has no solution. *)
Theorem hae_unconverged_batch_raises (st1 : hae_state) (k : nat) :
  pass (hae_init proj_metadata hae0) = inr st1 ->
  hae_success st1 = false ->
  hae_count_above delta_hae_max (hae_delta_hae st1) <> 1%nat ->
  hae_count_above delta_hae_max (hae_delta_hae st1) <> 3%nat ->
  r_rdot_to_constant_hae_surface proj_metadata projection_sets hae0
    delta_hae_max (S k) bistat_delta_gp_gpp bistat_maxiter
  = inl ValueError.
Proof.
  intros Hpass Hs H1 H3.
  unfold r_rdot_to_constant_hae_surface, r_rdot_to_constant_hae_surface_run.
  rewrite (hae_pass_checks_fields _ _ _ _ _ _ _ Hpass). cbn [bind hae_loop].
  rewrite Hpass. cbn [bind]. rewrite Hs.
  destruct (hae_pass_tests _ _ _ _ _ _ _ Hpass) as [Hmask _].
  unfold hae_update. rewrite Hmask, select_map_filter.
  rewrite hae_scaled_up_raises by assumption. reflexivity.
Qed.
End ConstantHAEFailure.

Lemma hae_success_meaning_witness :
  exists spp_tgt st,
    r_rdot_to_constant_hae_surface (TR := trig_at_zero) (GC := geocoords_x_axis)
      meta_scp_hae_below (ProjectionSets.Monostatic [ps_in_reach]) [b64_of_Z 0]
      (b64_of_Z 1) 1 one_mm 10
    = inr (spp_tgt, [b64_of_Z 1000], false)
    /\ r_rdot_to_constant_hae_surface_run (TR := trig_at_zero) (GC := geocoords_x_axis)
         meta_scp_hae_below (ProjectionSets.Monostatic [ps_in_reach]) [b64_of_Z 0]
         (b64_of_Z 1) 1 one_mm 10 = inr st
    /\ (false = true <->
        Forall (fun d => (d <=? b64_of_Z 1) = true) [b64_of_Z 1000]
        /\ Forall (fun b => b = true) (hae_r_rdot_to_plane_success st))
    /\ hae_count_above (b64_of_Z 1) [b64_of_Z 1000] = 1%nat.
Proof.
  destruct (r_rdot_to_constant_hae_surface (TR := trig_at_zero) (GC := geocoords_x_axis)
              meta_scp_hae_below (ProjectionSets.Monostatic [ps_in_reach]) [b64_of_Z 0]
              (b64_of_Z 1) 1 one_mm 10)
    as [e | [[spp_tgt dh] ok]] eqn:Hrun; [vm_compute in Hrun; discriminate Hrun|].
  assert (Hd : dh = [b64_of_Z 1000]).
  { vm_compute in Hrun. now injection Hrun as _ <- _. }
  assert (Hok : ok = false).
  { vm_compute in Hrun. now injection Hrun as _ _ <-. }
  subst dh ok.
  destruct (@hae_success_meaning trig_at_zero geocoords_x_axis meta_scp_hae_below
              (ProjectionSets.Monostatic [ps_in_reach]) [b64_of_Z 0]
              (b64_of_Z 1) one_mm 10 0 spp_tgt [b64_of_Z 1000] false Hrun)
    as (st & Hst & _ & Hiff & _).
  exists spp_tgt, st. split; [reflexivity|]. split; [exact Hst|].
  split; [exact Hiff | reflexivity].
Defined.

Lemma hae_unconverged_batch_raises_witness :
  exists st1,
    hae_pass (TR := trig_at_zero) (GC := geocoords_x_axis) meta_scp_hae_below
      (ProjectionSets.Monostatic [ps_in_reach; ps_in_reach]) [b64_of_Z 0; b64_of_Z 0]
      (b64_of_Z 1) one_mm 10
      (hae_init (TR := trig_at_zero) meta_scp_hae_below [b64_of_Z 0; b64_of_Z 0])
    = inr st1
    /\ hae_success st1 = false
    /\ hae_count_above (b64_of_Z 1) (hae_delta_hae st1) = 2%nat
    /\ r_rdot_to_constant_hae_surface (TR := trig_at_zero) (GC := geocoords_x_axis)
         meta_scp_hae_below (ProjectionSets.Monostatic [ps_in_reach; ps_in_reach])
         [b64_of_Z 0; b64_of_Z 0] (b64_of_Z 1) 3 one_mm 10
       = inl ValueError.
Proof.
  destruct (hae_pass (TR := trig_at_zero) (GC := geocoords_x_axis) meta_scp_hae_below
              (ProjectionSets.Monostatic [ps_in_reach; ps_in_reach])
              [b64_of_Z 0; b64_of_Z 0] (b64_of_Z 1) one_mm 10
              (hae_init (TR := trig_at_zero) meta_scp_hae_below [b64_of_Z 0; b64_of_Z 0]))
    as [e|st1] eqn:Hpass; [vm_compute in Hpass; discriminate Hpass|].
  assert (Hs : hae_success st1 = false).
  { vm_compute in Hpass. injection Hpass as <-. reflexivity. }
  assert (Hc : hae_count_above (b64_of_Z 1) (hae_delta_hae st1) = 2%nat).
  { vm_compute in Hpass. injection Hpass as <-. reflexivity. }
  exists st1. split; [reflexivity|]. split; [exact Hs|]. split; [exact Hc|].
  apply (@hae_unconverged_batch_raises trig_at_zero geocoords_x_axis meta_scp_hae_below
           (ProjectionSets.Monostatic [ps_in_reach; ps_in_reach])
           [b64_of_Z 0; b64_of_Z 0] (b64_of_Z 1) one_mm 10 st1 2 Hpass Hs);
    rewrite Hc; discriminate.
Defined.

(* ================================================================== *)
(** * The slant plane normal at the SCP                                *)
(* ================================================================== *)
Section SlantPlaneNormal.
Local Open Scope R_scope.

(** X10.  In exact arithmetic, for a monostatic collect whose line of
    sight [ARP_SCP_COA - SCP] and velocity [VARP_SCP_COA] are not
    parallel, [compute_scp_coa_slant_plane_normal] returns a vector of
    length 1 that is orthogonal to the line of sight and to the
    velocity. *)
Theorem slant_plane_normal_is_unit (meta : MetadataParams R) :
  is_monostatic meta = true ->
  cross (vsub (ARP_SCP_COA meta) (SCP meta)) (VARP_SCP_COA meta) <> V3 0 0 0 ->
  let n := compute_scp_coa_slant_plane_normal meta in
  vnorm n = 1
  /\ vdot n (vsub (ARP_SCP_COA meta) (SCP meta)) = 0
  /\ vdot n (VARP_SCP_COA meta) = 0.
Proof.
  intros Hm Hc. cbv zeta. unfold compute_scp_coa_slant_plane_normal. rewrite Hm.
  set (a := vsub (ARP_SCP_COA meta) (SCP meta)) in *.
  set (v := VARP_SCP_COA meta) in *.
  pose proof (vscale_look_nonzero (SideOfTrack meta) Hc) as Hs.
  set (spn := vscale (of_Z (look_of (SideOfTrack meta))) (cross a v)) in *.
  split; [now apply vnorm_normalized|].
  assert (Hn : vnorm spn <> 0).
  { pose proof (cross_nonzero_sq Hs) as Hpos.
    unfold vnorm. cbn [fsqrt Exact]. intros E. apply sqrt_eq_0 in E; lra. }
  generalize dependent (vnorm spn). intros r Hr.
  unfold spn, vdot, vsum, vmul, vdivs, vscale, cross, vzip, vmap.
  cbn [v0 v1 v2 fadd fsub fmul fdiv Exact].
  split; field; exact Hr.
Qed.

Lemma slant_plane_normal_is_unit_witness :
  is_monostatic meta_orthogonal_exact = true
  /\ cross (vsub (ARP_SCP_COA meta_orthogonal_exact) (SCP meta_orthogonal_exact))
           (VARP_SCP_COA meta_orthogonal_exact) <> V3 0 0 0
  /\ vnorm (compute_scp_coa_slant_plane_normal meta_orthogonal_exact) = 1.
Proof.
  assert (Hc : cross (vsub (ARP_SCP_COA meta_orthogonal_exact) (SCP meta_orthogonal_exact))
                     (VARP_SCP_COA meta_orthogonal_exact) <> V3 0 0 0).
  { intros E. apply (f_equal (@v2 R)) in E. cbn in E. lra. }
  split; [reflexivity|]. split; [exact Hc|].
  exact (proj1 (slant_plane_normal_is_unit meta_orthogonal_exact eq_refl Hc)).
Defined.

End SlantPlaneNormal.

Lemma b64_sqrt_zero (x : spec_float) : is_zero x -> is_zero (fsqrt x).
Proof. intros [s ->]. now exists s. Qed.

Lemma b64_zero_div_zero (x y : spec_float) : is_zero x -> is_zero y -> x / y = S754_nan.
Proof. intros [s ->] [s' ->]. reflexivity. Qed.

Lemma b64_zero_is_finite (x : spec_float) : is_zero x -> fisfinite x = true.
Proof. intros [s ->]. reflexivity. Qed.

Lemma b64_look_is_finite (s : side_of_track) :
  fisfinite (of_Z (look_of s) : spec_float) = true.
Proof. destruct s; reflexivity. Qed.
(** X11.  In binary64, for a monostatic collect whose line of sight and
    velocity have a zero cross product (parallel vectors, or a zero
    velocity), [compute_scp_coa_slant_plane_normal] returns NaN in the
    three coordinates: the normal is [0 / 0], and nothing is raised. *)
Theorem degenerate_slant_plane_normal_is_nan (meta : MetadataParams spec_float) :
  is_monostatic meta = true ->
  let c := cross (vsub (ARP_SCP_COA meta) (SCP meta)) (VARP_SCP_COA meta) in
  is_zero (v0 c) -> is_zero (v1 c) -> is_zero (v2 c) ->
  compute_scp_coa_slant_plane_normal meta = V3 S754_nan S754_nan S754_nan.
Proof.
  intros Hm c H0 H1 H2. unfold compute_scp_coa_slant_plane_normal. rewrite Hm.
  fold c. cbv zeta.
  set (l := of_Z (look_of (SideOfTrack meta)) : spec_float).
  assert (Hl : fisfinite l = true) by apply b64_look_is_finite.
  assert (Z0 : is_zero (l * v0 c)) by (now apply b64_finite_mul_zero).
  assert (Z1 : is_zero (l * v1 c)) by (now apply b64_finite_mul_zero).
  assert (Z2 : is_zero (l * v2 c)) by (now apply b64_finite_mul_zero).
  assert (Hn : is_zero (vnorm (vscale l c))).
  { unfold vnorm, vdot, vsum, vmul, vscale, vzip, vmap. cbn [v0 v1 v2].
    apply b64_sqrt_zero.
    repeat apply b64_zero_add_zero;
      apply b64_zero_mul_finite; auto using b64_zero_is_finite. }
  unfold vdivs, vmap. unfold vscale at 1 2 3, vmap. cbn [v0 v1 v2].
  now rewrite !b64_zero_div_zero.
Qed.

Lemma degenerate_slant_plane_normal_is_nan_witness :
  is_monostatic meta_radial_velocity = true
  /\ compute_scp_coa_slant_plane_normal meta_radial_velocity
     = V3 S754_nan S754_nan S754_nan.
Proof.
  split; [reflexivity|].
  apply (degenerate_slant_plane_normal_is_nan meta_radial_velocity eq_refl);
    eexists; vm_compute; reflexivity.
Defined.

(* ================================================================== *)
(** * Velocities are the derivatives of the positions                  *)
(* ================================================================== *)
Section VelocityIsDerivative.
Local Open Scope R_scope.

(** Horner's scheme and its derivative: [polyder_from j c] evaluates to
    [j * c(x) + x * c'(x)]. *)
Lemma polyval_derivative (c : poly R) (x : R) :
  exists d,
    derivable_pt_lim (fun u => polyval u c) x d
    /\ forall j : Z, polyval x (polyder_from fmul fmul j c) = IZR j * polyval x c + x * d.
Proof.
  induction c as [c0 | c0 rest IH].
  - exists 0. split.
    + cbn [polyval fadd fmul of_Z Exact].
      replace 0 with (0 + (1 * 0 + x * 0)) at 1 by ring.
      apply derivable_pt_lim_plus; [apply derivable_pt_lim_const|].
      apply derivable_pt_lim_mult; [apply derivable_pt_lim_id | apply derivable_pt_lim_const].
    + intros j. cbn [polyder_from polyval fadd fmul of_Z Exact]. ring.
  - destruct IH as (d & Hd & Hder).
    exists (d * x + polyval x rest * 1). split.
    + cbn [polyval fadd fmul Exact].
      replace (d * x + polyval x rest * 1) with (0 + (d * x + polyval x rest * 1)) by ring.
      apply derivable_pt_lim_plus; [apply derivable_pt_lim_const|].
      apply (derivable_pt_lim_mult (fun u => polyval u rest) id); [exact Hd|].
      apply derivable_pt_lim_id.
    + intros j. cbn [polyder_from polyval fadd fmul of_Z Exact].
      rewrite Hder, plus_IZR. ring.
Qed.

(** [npp.polyder] is the derivative of [npp.polyval]. *)
Lemma polyder_is_derivative (c : poly R) (x : R) :
  derivable_pt_lim (fun u => polyval u c) x (polyval x (polyder c)).
Proof.
  destruct c as [c0 | c0 rest].
  - cbn [polyder polyder_with polyval fadd fmul of_Z Exact].
    replace (c0 * 0 + x * 0) with (0 + (1 * 0 + x * 0)) by ring.
    apply derivable_pt_lim_plus; [apply derivable_pt_lim_const|].
    apply derivable_pt_lim_mult; [apply derivable_pt_lim_id | apply derivable_pt_lim_const].
  - destruct (polyval_derivative rest x) as (d & Hd & Hder).
    unfold polyder. cbn [polyder_with]. rewrite (Hder 1%Z).
    cbn [polyval fadd fmul Exact].
    replace (1 * polyval x rest + x * d) with (0 + (d * x + polyval x rest * 1)) by ring.
    apply derivable_pt_lim_plus; [apply derivable_pt_lim_const|].
    apply (derivable_pt_lim_mult (fun u => polyval u rest) id); [exact Hd|].
    apply derivable_pt_lim_id.
Qed.

(** Differentiating a [(N, 3)] coefficient array differentiates each of
    its columns. *)
Lemma pmap_polyder_from (proj : vec3 R -> R) (j : Z) (c : poly (vec3 R)) :
  (forall (a : R) (v : vec3 R), proj (vscale a (vscale_r v 1)) = a * (proj v * 1)) ->
  pmap proj (polyder_from vscale vscale_r j c) = polyder_from fmul fmul j (pmap proj c).
Proof.
  intros Hp. revert j. induction c as [c0 | c0 rest IH]; intros j;
    cbn [polyder_from pmap of_Z Exact].
  - now rewrite Hp.
  - now rewrite Hp, IH.
Qed.

Lemma pmap_polyder3 (proj : vec3 R -> R) (c : poly (vec3 R)) :
  (forall (a b : R) (v : vec3 R), proj (vscale a (vscale_r v b)) = a * (proj v * b)) ->
  (forall (b : R) (v : vec3 R), proj (vscale_r v b) = proj v * b) ->
  pmap proj (polyder3 c) = polyder (pmap proj c).
Proof.
  intros Hp Hq. unfold polyder3, polyder. destruct c as [c0 | c0 rest];
    cbn [polyder_with pmap of_Z Exact].
  - now rewrite Hq.
  - apply pmap_polyder_from. intros a v. apply Hp.
Qed.
(** X12.  In exact arithmetic, the velocity [VARP_COA] that
    [compute_coa_pos_vel] returns for a monostatic collect at time [t]
    is the derivative at [t] of the position [ARP_COA] it returns, as a
    function of the COA time, coordinate by coordinate. *)
Theorem arp_velocity_is_derivative (meta : MetadataParams R) (t : R) :
  is_monostatic meta = true ->
  exists arp varp,
    compute_coa_pos_vel meta [t]
    = CoaPosVels.Monostatic [CoaPosVels.Mono arp varp]
    /\ arp = _xyzpolyval t (ARP_Poly meta)
    /\ derivable_pt_lim (fun u => v0 (_xyzpolyval u (ARP_Poly meta))) t (v0 varp)
    /\ derivable_pt_lim (fun u => v1 (_xyzpolyval u (ARP_Poly meta))) t (v1 varp)
    /\ derivable_pt_lim (fun u => v2 (_xyzpolyval u (ARP_Poly meta))) t (v2 varp).
Proof.
  intros Hm. unfold compute_coa_pos_vel. rewrite Hm. cbn [map].
  eexists _, _. split; [reflexivity|]. split; [reflexivity|].
  unfold _xyzpolyval. cbn [v0 v1 v2].
  rewrite !pmap_polyder3; try (intros; reflexivity).
  repeat split; apply polyder_is_derivative.
Qed.

Lemma arp_velocity_is_derivative_witness :
  is_monostatic meta_orthogonal_exact = true
  /\ exists arp varp,
       compute_coa_pos_vel meta_orthogonal_exact [0]
       = CoaPosVels.Monostatic [CoaPosVels.Mono arp varp]
       /\ derivable_pt_lim
            (fun u => v1 (_xyzpolyval u (ARP_Poly meta_orthogonal_exact))) 0 (v1 varp).
Proof.
  split; [reflexivity|].
  destruct (arp_velocity_is_derivative meta_orthogonal_exact 0 eq_refl)
    as (arp & varp & Hc & _ & _ & H1 & _).
  exists arp, varp. split; assumption.
Defined.

End VelocityIsDerivative.

(* ================================================================== *)
(** * The geometry of the ground plane projection                      *)
(* ================================================================== *)
Section MonostaticGeometry.
Local Open Scope R_scope.

(** ** Dot and cross products *)

Lemma vdot_vsub_l (a b c : vec3 R) : vdot (vsub a b) c = vdot a c - vdot b c.
Proof. destruct a, b, c. cbn. ring. Qed.

Lemma vdot_vscale_l (s : R) (a c : vec3 R) : vdot (vscale s a) c = s * vdot a c.
Proof. destruct a, c. cbn. ring. Qed.

Lemma vdot_vdivs_l (a c : vec3 R) (s : R) : vdot (vdivs a s) c = vdot a c / s.
Proof. destruct a, c. cbn. unfold Rdiv. ring. Qed.

Lemma vdot_comm (a b : vec3 R) : vdot a b = vdot b a.
Proof. destruct a, b. cbn. ring. Qed.

Lemma vdot_cross_l (a b : vec3 R) : vdot (cross a b) a = 0.
Proof. destruct a, b. cbn. ring. Qed.

Lemma vdot_cross_r (a b : vec3 R) : vdot (cross a b) b = 0.
Proof. destruct a, b. cbn. ring. Qed.

Lemma vdot_cross_cross (a b c : vec3 R) :
  vdot (cross a b) (cross a c) = vdot a a * vdot b c - vdot a b * vdot a c.
Proof. destruct a, b, c. cbn. ring. Qed.

Lemma vsum_sq (v : vec3 R) : vsum (vmap sq v) = vdot v v.
Proof. reflexivity. Qed.


Lemma frame_point_height (A G U X Y : vec3 R) (a p q : R) :
  vdot (vsub (frame_point A U X Y a p q) G) U
  = vdot (vsub A G) U - a * vdot U U + p * vdot X U + q * vdot Y U.
Proof. destruct A, G, U, X, Y. cbn. ring. Qed.

Lemma frame_point_range (A U X Y : vec3 R) (a p q : R) :
  let d := vsub A (frame_point A U X Y a p q) in
  vdot d d
  = a * a * vdot U U + p * p * vdot X X + q * q * vdot Y Y
    - 2 * a * p * vdot X U - 2 * a * q * vdot Y U + 2 * p * q * vdot Y X.
Proof. destruct A, U, X, Y. cbn. ring. Qed.

Lemma frame_point_against (A U X Y W : vec3 R) (a p q : R) :
  vdot W (vsub A (frame_point A U X Y a p q))
  = a * vdot W U - p * vdot W X - q * vdot W Y.
Proof. destruct A, U, X, Y, W. cbn. ring. Qed.

Lemma frame_point_from (A U X Y W : vec3 R) (a p q : R) :
  vdot (vsub (frame_point A U X Y a p q) A) W
  = - a * vdot U W + p * vdot X W + q * vdot Y W.
Proof. destruct A, U, X, Y, W. cbn. ring. Qed.

Lemma vdot_rejection (v u w : vec3 R) (s t : R) :
  vdot (vdivs (vsub v (vscale s u)) t) w = (vdot v w - s * vdot u w) / t.
Proof. destruct v, u, w. cbn. unfold Rdiv. ring. Qed.

Lemma vdot_rejection_sq (v u : vec3 R) (s t : R) :
  let x := vdivs (vsub v (vscale s u)) t in
  vdot x x = (vdot v v - 2 * s * vdot v u + s * s * vdot u u) / t / t.
Proof. destruct v, u. cbn. unfold Rdiv. ring. Qed.

Lemma vdot_triple_rejection (v u : vec3 R) (s t : R) :
  vdot v (cross u (vdivs (vsub v (vscale s u)) t)) = 0.
Proof. destruct v, u. cbn. unfold Rdiv. ring. Qed.

Lemma vdot_cross_self_l (a b : vec3 R) : vdot a (cross a b) = 0.
Proof. destruct a, b. cbn. ring. Qed.

Lemma vdot_cross_self_r (a b : vec3 R) : vdot b (cross a b) = 0.
Proof. destruct a, b. cbn. ring. Qed.

Lemma vnorm_axis (a : vec3 R) : vdot a a = 1 -> vnorm a = 1.
Proof. intros H. unfold vnorm. cbn [fsqrt Exact]. rewrite H. apply sqrt_1. Qed.

(** ** The monostatic ground plane point *)

(** X21.  In exact arithmetic, for a plane with a unit normal, a range
    contour that meets the plane away from the nadir of the ARP
    ([|arpz| < R_COA]), an ARP that moves along the plane ([vx <> 0])
    and an azimuth cosine within [[-1, 1]], the point
    [r_rdot_to_ground_plane_mono] returns lies in the plane through
    [gref], is at range [R_COA] from the ARP, has range rate
    [Rdot_COA], and lies on the side of the track [SideOfTrack] names:
    [look * (P - ARP) . (ugpn x VARP) >= 0]. *)
Theorem mono_ground_plane_point_geometry (SP : Special R) (meta : MetadataParams R)
  (ps : ProjectionSets.mono R) (gref ugpn : vec3 R) :
  vdot ugpn ugpn = 1 ->
  Rabs (mono_arpz ps gref ugpn) < ProjectionSets.R_COA ps ->
  mono_vx ps ugpn <> 0 ->
  -1 <= mono_cos_az ps gref ugpn <= 1 ->
  let P := r_rdot_to_ground_plane_mono_pt meta ps gref ugpn in
  let ARP := ProjectionSets.ARP_COA ps in
  let VARP := ProjectionSets.VARP_COA ps in
  vdot (vsub P gref) ugpn = 0
  /\ vnorm (vsub ARP P) = ProjectionSets.R_COA ps
  /\ vdot VARP (vdivs (vsub ARP P) (vnorm (vsub ARP P))) = ProjectionSets.Rdot_COA ps
  /\ 0 <= IZR (look_of (SideOfTrack meta)) * vdot (vsub P ARP) (cross ugpn VARP).
Proof.
  intros HU Ha Hvx Hc. 
  unfold r_rdot_to_ground_plane_mono_pt, mono_cos_az, mono_vx in *. cbv zeta in *.
  set (A := ProjectionSets.ARP_COA ps) in *.
  set (V := ProjectionSets.VARP_COA ps) in *.
  set (R_ := ProjectionSets.R_COA ps) in *.
  set (Rdot := ProjectionSets.Rdot_COA ps) in *.
  set (a := mono_arpz ps gref ugpn) in *.
  set (vz := vsum (vmul V ugpn)) in *.
  set (vx := fsqrt (vsum (vmap sq V) - sq vz)%fl) in *.
  assert (C1 : (fabs a >? R_)%fl = false).
  { cbn [fabs fltb Exact]. unfold Rltb. destruct (Rlt_dec R_ (Rabs a)); [lra | reflexivity]. }
  assert (C2 : (vx =? of_Z 0)%fl = false).
  { cbn [feqb of_Z Exact]. unfold Reqb. destruct (Req_dec_T vx 0); [contradiction | reflexivity]. }
  rewrite C1, C2 in *.
  set (g := fsqrt (sq R_ - sq a)%fl) in *.
  set (c := ((- Rdot + vz * (a / R_)) / (vx * (g / R_)))%fl) in *.
  assert (C3 : ((c <? of_Z (-1))%fl || (c >? of_Z 1)%fl)%bool = false).
  { cbn [fltb of_Z Exact]. unfold Rltb.
    destruct (Rlt_dec c (-1)); [lra|]. destruct (Rlt_dec 1 c); [lra | reflexivity]. }
  rewrite C3. clear C1 C2 C3.
  set (lk := of_Z (look_of (SideOfTrack meta))).
  set (q := fsqrt (of_Z 1 - sq c)%fl).
  set (ux := vdivs (vsub V (vscale vz ugpn)) vx).
  set (uy := cross ugpn ux).
  fold (frame_point A ugpn ux uy a (g * c)%fl (g * (lk * q))%fl).
  set (P := frame_point A ugpn ux uy a (g * c)%fl (g * (lk * q))%fl).
  change (IZR (look_of (SideOfTrack meta))) with lk.
  (* the scalars *)
  assert (HR : 0 < R_) by (pose proof (Rabs_pos a); lra).
  assert (Hg2 : g * g = R_ * R_ - a * a /\ 0 < g).
  { assert (0 < R_ * R_ - a * a).
    { assert (a * a < R_ * R_); [|lra].
      unfold Rabs in Ha. destruct (Rcase_abs a); nra. }
    unfold g, sq. cbn [fsqrt fsub fmul Exact]. split.
    - apply sqrt_sqrt. lra.
    - apply sqrt_lt_R0. lra. }
  destruct Hg2 as [Hg2 Hg].
  assert (Hvx2 : vx * vx = vdot V V - vz * vz /\ 0 < vx).
  { unfold vx in *. rewrite vsum_sq in *. unfold sq in *.
    cbn [fsqrt fsub fmul Exact] in *.
    destruct (Rle_dec 0 (vdot V V - vz * vz)) as [Hp | Hn].
    - split; [apply sqrt_sqrt; exact Hp|].
      pose proof (sqrt_pos (vdot V V - vz * vz)). lra.
    - exfalso. apply Hvx. apply sqrt_neg_0. lra. }
  destruct Hvx2 as [Hvx2 Hvxp].
  assert (Hq2 : q * q = 1 - c * c /\ 0 <= q).
  { unfold q, sq. cbn [fsqrt fsub fmul of_Z Exact]. split.
    - apply sqrt_sqrt. nra.
    - apply sqrt_pos. }
  destruct Hq2 as [Hq2 Hq].
  assert (Hlk : lk * lk = 1).
  { unfold lk. cbn [of_Z Exact]. destruct (SideOfTrack meta); cbn [look_of]; lra. }
  assert (Hcdef : c * vx * g = - Rdot * R_ + vz * a).
  { unfold c. cbn [fadd fneg fmul fdiv Exact]. field. lra. }
  (* the frame *)
  assert (Hvz : vdot V ugpn = vz) by reflexivity.
  assert (Hxu : vdot ux ugpn = 0).
  { unfold ux. rewrite vdot_rejection, Hvz, HU. field. lra. }
  assert (Hxx : vdot ux ux = 1).
  { unfold ux. rewrite vdot_rejection_sq, Hvz, HU.
    replace (vdot V V - 2 * vz * vz + vz * vz * 1) with (vx * vx) by lra.
    field. lra. }
  assert (Hyu : vdot uy ugpn = 0) by apply vdot_cross_l.
  assert (Hyx : vdot uy ux = 0) by apply vdot_cross_r.
  assert (Hyy : vdot uy uy = 1).
  { unfold uy. rewrite vdot_cross_cross, HU, Hxx, (vdot_comm ugpn ux), Hxu. ring. }
  assert (Hvxx : vdot V ux = vx).
  { rewrite vdot_comm. unfold ux. rewrite vdot_rejection, (vdot_comm ugpn V), Hvz.
    replace (vdot V V - vz * vz) with (vx * vx) by lra. field. lra. }
  assert (Hvy : vdot V uy = 0) by apply vdot_triple_rejection.
  assert (Hrange : vdot (vsub A P) (vsub A P) = R_ * R_).
  { unfold P. rewrite frame_point_range, HU, Hxx, Hyy, Hxu, Hyu, Hyx.
    cbn [fmul Exact]. 
    replace (g * (lk * q) * (g * (lk * q))) with (g * g * (lk * lk) * (q * q)) by ring.
    rewrite Hlk, Hq2. replace (g * c * (g * c)) with (g * g * (c * c)) by ring.
    rewrite Hg2. ring. }
  assert (Hnorm : vnorm (vsub A P) = R_).
  { unfold vnorm. cbn [fsqrt Exact]. rewrite Hrange. apply sqrt_square. lra. }
  split; [|split; [|split]].
  - unfold P. rewrite frame_point_height, HU, Hxu, Hyu.
    change (vdot (vsub A gref) ugpn) with a. ring.
  - exact Hnorm.
  - rewrite Hnorm, vdot_comm, vdot_vdivs_l, vdot_comm. unfold P.
    rewrite frame_point_against, Hvz, Hvxx, Hvy. cbn [fmul Exact].
    replace (a * vz - g * c * vx - g * (lk * q) * 0) with (Rdot * R_) by lra.
    field. lra.
  - unfold P. rewrite frame_point_from, vdot_cross_self_l.
    assert (Hxw : vdot ux (cross ugpn V) = 0).
    { unfold ux. rewrite vdot_rejection, vdot_cross_self_r, vdot_cross_self_l. field. lra. }
    assert (Hyw : vdot uy (cross ugpn V) = vx).
    { unfold uy. rewrite vdot_cross_cross, HU, (vdot_comm ugpn ux), Hxu, (vdot_comm ux V), Hvxx.
      ring. }
    rewrite Hxw, Hyw. cbn [fmul Exact].
    replace (lk * (- a * 0 + g * c * 0 + g * (lk * q) * vx)) with (lk * lk * (g * q * vx)) by ring.
    rewrite Hlk. assert (0 <= g * q * vx); [|lra].
    apply Rmult_le_pos; [apply Rmult_le_pos|]; lra.
Qed.

Lemma mono_arpz_in_reach_exact :
  mono_arpz ps_in_reach_exact origin_exact x_axis_exact = 3.
Proof. unfold mono_arpz. cbn. lra. Qed.

Lemma mono_vx_in_reach_exact : mono_vx ps_in_reach_exact x_axis_exact = 7.
Proof.
  unfold mono_vx. cbv zeta. unfold vsum, vmul, vmap, vzip, sq.
  cbn [v0 v1 v2 ProjectionSets.VARP_COA ps_in_reach_exact x_axis_exact fsqrt fadd fsub fmul Exact].
  replace (0 * 0 + 7 * 7 + 0 * 0 - (0 * 1 + 7 * 0 + 0 * 0) * (0 * 1 + 7 * 0 + 0 * 0))
    with (7 * 7) by lra.
  apply sqrt_square. lra.
Qed.

Lemma mono_cos_az_in_reach_exact :
  mono_cos_az (SP := no_nan) ps_in_reach_exact origin_exact x_axis_exact = 0.
Proof.
  unfold mono_cos_az. cbv zeta. rewrite mono_vx_in_reach_exact, mono_arpz_in_reach_exact.
  cbn [ProjectionSets.R_COA ProjectionSets.Rdot_COA ProjectionSets.VARP_COA ps_in_reach_exact
       fabs fltb feqb of_Z Exact].
  unfold Rltb, Reqb.
  destruct (Rlt_dec 5 (Rabs 3)) as [H|_].
  { rewrite Rabs_pos_eq in H; lra. }
  destruct (Req_dec_T 7 0) as [H|_]; [lra|].
  unfold vsum, vmul, vzip. cbn [v0 v1 v2 x_axis_exact fadd fsub fmul fdiv fneg fsqrt Exact].
  unfold Rdiv. ring.
Qed.

Lemma mono_ground_plane_point_geometry_witness :
  vdot x_axis_exact x_axis_exact = 1
  /\ Rabs (mono_arpz ps_in_reach_exact origin_exact x_axis_exact)
     < ProjectionSets.R_COA ps_in_reach_exact
  /\ mono_vx ps_in_reach_exact x_axis_exact <> 0
  /\ -1 <= mono_cos_az (SP := no_nan) ps_in_reach_exact origin_exact x_axis_exact <= 1
  /\ vnorm (vsub (ProjectionSets.ARP_COA ps_in_reach_exact)
              (r_rdot_to_ground_plane_mono_pt (SP := no_nan) meta_orthogonal_exact
                 ps_in_reach_exact origin_exact x_axis_exact))
     = 5.
Proof.
  assert (H1 : vdot x_axis_exact x_axis_exact = 1) by (cbn; lra).
  assert (H2 : Rabs (mono_arpz ps_in_reach_exact origin_exact x_axis_exact)
               < ProjectionSets.R_COA ps_in_reach_exact).
  { rewrite mono_arpz_in_reach_exact, Rabs_pos_eq; cbn; lra. }
  assert (H3 : mono_vx ps_in_reach_exact x_axis_exact <> 0).
  { rewrite mono_vx_in_reach_exact. lra. }
  assert (H4 : -1 <= mono_cos_az (SP := no_nan) ps_in_reach_exact origin_exact x_axis_exact <= 1).
  { rewrite mono_cos_az_in_reach_exact. lra. }
  repeat (split; [assumption|]).
  exact (proj1 (proj2 (@mono_ground_plane_point_geometry no_nan meta_orthogonal_exact
                         ps_in_reach_exact origin_exact x_axis_exact H1 H2 H3 H4))).
Defined.

End MonostaticGeometry.

(* ================================================================== *)
(** * The ground plane basis                                           *)
(* ================================================================== *)
Section GroundPlaneBasis.
Local Open Scope R_scope.

Lemma vdivs_zero (s : R) : vdivs (V3 0 0 0) s = V3 0 0 0.
Proof. unfold vdivs, vmap. cbn [v0 v1 v2 fdiv Exact]. unfold Rdiv. f_equal; ring. Qed.

Lemma vdot_zero_r (a : vec3 R) : vdot a (V3 0 0 0) = 0.
Proof. destruct a. cbn. ring. Qed.

Lemma vdot_vscale_r_l (u w : vec3 R) (s : R) : vdot (vscale_r u s) w = s * vdot u w.
Proof. destruct u, w. cbn. ring. Qed.

(** X22.  In exact arithmetic, for a unit ground plane normal,
    whenever [compute_gp_xy_parameters] returns for a point, [uGX] and
    [uGY] are unit vectors, orthogonal to each other and to [ugpn]: an
    orthonormal basis of the ground plane. *)
Theorem ground_plane_basis_is_orthonormal (pt ugpn bp_pt bpdot_pt : vec3 R)
  (q : ScenePointGpXyParams R) :
  vdot ugpn ugpn = 1 ->
  gp_xy_parameters_pt pt ugpn bp_pt bpdot_pt = ret q ->
  vnorm (uGX q) = 1 /\ vnorm (uGY q) = 1
  /\ vdot (uGX q) (uGY q) = 0
  /\ vdot (uGX q) ugpn = 0 /\ vdot (uGY q) ugpn = 0.
Proof.
  intros HU H. unfold gp_xy_parameters_pt in H. cbv zeta in H.
  set (gx := vsub bp_pt (vscale_r ugpn (vsum (vmul bp_pt ugpn)))) in *.
  set (ugx := vdivs gx (vnorm gx)) in *.
  set (sgn := if (vsum (vmul ugpn pt) >? of_Z 0)%fl then of_Z 1 else of_Z (-1)) in *.
  set (gy := vscale sgn (cross ugpn ugx)) in *.
  set (ugy := vdivs gy (vnorm gy)) in *.
  unfold ret in H. bind_inv H as m E. injection H as <-. cbn [uGX uGY].
  unfold inv2 in E.
  match type of E with (if ?b then _ else _) = _ => destruct b eqn:Hdet; [discriminate E|] end.
  clear E m. unfold mat2_neg, stack_columns in Hdet.
  cbn [m00 m01 m10 m11 w0 w1 feqb fsub fmul fneg of_Z Exact] in Hdet.
  unfold Reqb in Hdet.
  match type of Hdet with (if ?d then _ else _) = _ => destruct d as [|Hd]; [discriminate|] end.
  clear Hdet.
  fold (vdot bp_pt ugx) in Hd. fold (vdot bpdot_pt ugx) in Hd. fold (vdot bpdot_pt ugy) in Hd.
  assert (Hx : gx <> V3 0 0 0).
  { intros E. apply Hd. unfold ugx. rewrite E, vdivs_zero, !vdot_zero_r. ring. }
  assert (Hy : gy <> V3 0 0 0).
  { intros E. apply Hd. unfold ugy. rewrite E, vdivs_zero, !vdot_zero_r. ring. }
  assert (Hxu : vdot ugx ugpn = 0).
  { unfold ugx. rewrite vdot_vdivs_l. unfold gx.
    rewrite vdot_vsub_l, vdot_vscale_r_l, HU. change (vsum (vmul bp_pt ugpn)) with (vdot bp_pt ugpn).
    unfold Rdiv. ring. }
  split; [apply vnorm_normalized, Hx|].
  split; [apply vnorm_normalized, Hy|].
  split; [|split; [exact Hxu|]].
  - rewrite vdot_comm. unfold ugy. rewrite vdot_vdivs_l. unfold gy.
    rewrite vdot_vscale_l, vdot_cross_r. unfold Rdiv. ring.
  - unfold ugy. rewrite vdot_vdivs_l. unfold gy.
    rewrite vdot_vscale_l, vdot_cross_l. unfold Rdiv. ring.
Qed.

Lemma gp_xy_parameters_pt_exact_returns :
  exists q, gp_xy_parameters_pt x_axis_exact x_axis_exact bp_diagonal_exact z_axis_exact = ret q.
Proof.
  unfold gp_xy_parameters_pt. cbv zeta.
  assert (Hgx : vsub bp_diagonal_exact
                  (vscale_r x_axis_exact (vsum (vmul bp_diagonal_exact x_axis_exact)))
                = V3 0 1 0).
  { unfold vsub, vscale_r, vsum, vmul, vzip, vmap.
    cbn [v0 v1 v2 bp_diagonal_exact x_axis_exact fadd fsub fmul Exact]. f_equal; ring. }
  rewrite Hgx.
  rewrite (@vnorm_axis (V3 0 1 0)) by (cbn; ring).
  assert (Hugx : vdivs (V3 0 1 0) 1 = V3 0 1 0).
  { unfold vdivs, vmap. cbn [v0 v1 v2 fdiv Exact]. f_equal; field. }
  rewrite Hugx.
  assert (Hs : (vsum (vmul x_axis_exact x_axis_exact) >? of_Z 0)%fl = true).
  { cbn. unfold Rltb. destruct (Rlt_dec _ _) as [|H]; [reflexivity | exfalso; apply H; lra]. }
  rewrite Hs.
  assert (Hgy : vscale (of_Z 1) (cross x_axis_exact (V3 0 1 0)) = V3 0 0 1).
  { unfold vscale, cross, vmap.
    cbn [v0 v1 v2 x_axis_exact fadd fsub fmul of_Z Exact]. f_equal; ring. }
  rewrite Hgy.
  rewrite (@vnorm_axis (V3 0 0 1)) by (cbn; ring).
  assert (Hugy : vdivs (V3 0 0 1) 1 = V3 0 0 1).
  { unfold vdivs, vmap. cbn [v0 v1 v2 fdiv Exact]. f_equal; field. }
  rewrite Hugy.
  unfold inv2, mat2_neg, stack_columns.
  cbn [m00 m01 m10 m11 w0 w1 feqb Exact].
  unfold Reqb.
  match goal with |- context [Req_dec_T ?d ?z] => destruct (Req_dec_T d z) as [E|_] end.
  { exfalso. cbn in E. lra. }
  cbn [bind]. eexists. reflexivity.
Qed.

Lemma ground_plane_basis_is_orthonormal_witness :
  vdot x_axis_exact x_axis_exact = 1
  /\ exists q,
       gp_xy_parameters_pt x_axis_exact x_axis_exact bp_diagonal_exact z_axis_exact = ret q
       /\ vnorm (uGX q) = 1 /\ vnorm (uGY q) = 1.
Proof.
  assert (H1 : vdot x_axis_exact x_axis_exact = 1) by (cbn; lra).
  split; [exact H1|].
  destruct gp_xy_parameters_pt_exact_returns as [q Hq].
  exists q. split; [exact Hq|].
  destruct (@ground_plane_basis_is_orthonormal _ _ _ _ _ H1 Hq) as (Hx & Hy & _).
  split; assumption.
Defined.

End GroundPlaneBasis.

(* ================================================================== *)
(** * The slant plane normals of a batch                               *)
(* ================================================================== *)
Section BatchNormal.
Local Open Scope R_scope.

Lemma fold_left_ravel3 (l : list (vec3 R)) (s : R) :
  fold_left (fun acc x => (acc + x * x)%fl) (ravel3 l) s = s + sum_sq_lengths l.
Proof.
  revert s. induction l as [|a l IH]; intros s.
  - cbn. ring.
  - destruct a as [a0 a1 a2]. unfold ravel3 in *. cbn [flat_map app fold_left v0 v1 v2].
    rewrite IH. cbn. ring.
Qed.

Lemma norm_ravel_sq (l : list (vec3 R)) : norm_ravel l = sqrt (sum_sq_lengths l).
Proof.
  unfold norm_ravel. cbn [fsqrt of_Z Exact]. rewrite fold_left_ravel3. f_equal. ring.
Qed.

Lemma sum_sq_lengths_nonneg (l : list (vec3 R)) : 0 <= sum_sq_lengths l.
Proof.
  induction l as [|[a0 a1 a2] l IH]; cbn; [lra|]. nra.
Qed.

Lemma sum_sq_lengths_vdivs (l : list (vec3 R)) (n : R) :
  sum_sq_lengths (map (fun a => vdivs a n) l) = sum_sq_lengths l / n / n.
Proof.
  induction l as [|[a0 a1 a2] l IH]; cbn [map sum_sq_lengths].
  - unfold Rdiv. ring.
  - rewrite IH. cbn. unfold Rdiv. ring.
Qed.

Lemma uSPN_PT_of_batch (meta : MetadataParams R) (pts : list (CoaPosVels.bi R))
  (scene_points : list (vec3 R)) :
  exists spn : list (vec3 R),
    map (@uSPN_PT R) (pt_r_rdot_parameters_bi meta pts scene_points)
    = map (fun a => vdivs a (norm_ravel spn)) spn.
Proof.
  unfold pt_r_rdot_parameters_bi. cbv zeta.
  match goal with |- context [norm_ravel (map snd ?p)] => set (pre := p) end.
  exists (map snd pre). rewrite !map_map. apply map_ext.
  intros [[[[r rd] bp] bpd] spn]. reflexivity.
Qed.

Lemma sum_sq_lengths_nth (l : list (vec3 R)) (i : nat) (a : vec3 R) :
  nth_error l i = Some a -> vdot a a <= sum_sq_lengths l.
Proof.
  revert i. induction l as [|b l IH]; intros [|i] H; cbn in H; try discriminate.
  - injection H as ->. pose proof (sum_sq_lengths_nonneg l). cbn [sum_sq_lengths]. lra.
  - apply IH in H. assert (0 <= vdot b b) by (destruct b; cbn; nra).
    cbn [sum_sq_lengths]. lra.
Qed.

Lemma sum_sq_lengths_nth2 (l : list (vec3 R)) (i j : nat) (a b : vec3 R) :
  i <> j -> nth_error l i = Some a -> nth_error l j = Some b ->
  vdot a a + vdot b b <= sum_sq_lengths l.
Proof.
  revert i j. induction l as [|c l IH]; intros [|i] [|j] Hij Hi Hj; cbn in Hi, Hj;
    try discriminate; try congruence.
  - injection Hi as ->. apply sum_sq_lengths_nth in Hj. cbn [sum_sq_lengths]. lra.
  - injection Hj as ->. apply sum_sq_lengths_nth in Hi. cbn [sum_sq_lengths]. lra.
  - assert (0 <= vdot c c) by (destruct c; cbn; nra).
    assert (i <> j) by congruence.
    pose proof (IH i j ltac:(assumption) Hi Hj). cbn [sum_sq_lengths]. lra.
Qed.

Lemma sum_sq_lengths_normalized (spn : list (vec3 R)) :
  norm_ravel spn <> 0 ->
  sum_sq_lengths (map (fun a => vdivs a (norm_ravel spn)) spn) = 1.
Proof.
  intros Hn. rewrite sum_sq_lengths_vdivs.
  rewrite norm_ravel_sq in *.
  pose proof (sum_sq_lengths_nonneg spn) as Hp.
  set (s := sum_sq_lengths spn) in *.
  assert (Hs2 : sqrt s * sqrt s = s) by (apply sqrt_sqrt; exact Hp).
  rewrite <- Hs2 at 1. field. exact Hn.
Qed.

Lemma vdivs_by_zero (a : vec3 R) : vdivs a 0 = V3 0 0 0.
Proof.
  destruct a as [a0 a1 a2]. unfold vdivs, vmap. cbn [v0 v1 v2 fdiv Exact].
  unfold Rdiv. rewrite Rinv_0. f_equal; ring.
Qed.

(** X23.  In exact arithmetic, [compute_pt_r_rdot_parameters] divides
    every [spn_pt] of a batch by the one norm of the whole array: when
    some returned [uSPN_PT] is not zero, the norm of the whole
    [uSPN_PT] array is 1; the [uSPN_PT] of a single point is a unit
    vector; and in a batch where another point has a [uSPN_PT] that is
    not zero, a point's [uSPN_PT] is shorter than 1. *)
Theorem batch_slant_plane_normals_share_one_norm (meta : MetadataParams R)
  (pts : list (CoaPosVels.bi R)) (scene_points : list (vec3 R))
  (qs : list (ScenePointRRdotParams R)) :
  qs = pt_r_rdot_parameters_bi meta pts scene_points ->
  (exists q, In q qs /\ uSPN_PT q <> V3 0 0 0) ->
  norm_ravel (map (@uSPN_PT R) qs) = 1
  /\ (forall q, qs = [q] -> vnorm (uSPN_PT q) = 1)
  /\ (forall i j qi qj, i <> j ->
        nth_error qs i = Some qi -> nth_error qs j = Some qj ->
        uSPN_PT qj <> V3 0 0 0 -> vnorm (uSPN_PT qi) < 1).
Proof.
  intros -> (q & Hin & Hq).
  destruct (uSPN_PT_of_batch meta pts scene_points) as [spn Hs].
  assert (Hn : norm_ravel spn <> 0).
  { intros E. apply Hq.
    apply (in_map (@uSPN_PT R)) in Hin. rewrite Hs, E in Hin.
    apply in_map_iff in Hin. destruct Hin as (a & <- & _). apply vdivs_by_zero. }
  pose proof (@sum_sq_lengths_normalized spn Hn) as Hsum. rewrite <- Hs in Hsum.
  split; [|split].
  - rewrite norm_ravel_sq, Hsum. apply sqrt_1.
  - intros q1 E. rewrite E in Hsum. cbn [map sum_sq_lengths] in Hsum.
    apply vnorm_axis. lra.
  - intros i j qi qj Hij Hi Hj Hnz.
    pose proof (@sum_sq_lengths_nth2 _ i j (uSPN_PT qi) (uSPN_PT qj) Hij
                  (map_nth_error (@uSPN_PT R) _ _ Hi) (map_nth_error (@uSPN_PT R) _ _ Hj)) as Hle.
    rewrite Hsum in Hle.
    pose proof (cross_nonzero_sq Hnz) as Hpos.
    unfold vnorm. cbn [fsqrt Exact]. rewrite <- sqrt_1.
    apply sqrt_lt_1_alt. split; [|lra].
    destruct (uSPN_PT qi); cbn; nra.
Qed.

Lemma spn_pt_colocated_exact (look : Z) :
  snd (pt_r_rdot_pre look x_axis_exact y_axis_exact x_axis_exact y_axis_exact origin_exact)
  = V3 0 0 (IZR look).
Proof.
  unfold pt_r_rdot_pre. cbv zeta. cbn [snd].
  assert (Hn : vnorm (vsub x_axis_exact origin_exact) = 1).
  { apply vnorm_axis. cbn. ring. }
  rewrite Hn.
  unfold vscale, cross, vdivs, vadd, vsub, vscale, vsum, vmul, vzip, vmap.
  cbn [v0 v1 v2 x_axis_exact y_axis_exact origin_exact fadd fsub fmul fdiv of_Z Exact].
  f_equal; field.
Qed.

Lemma batch_slant_plane_normals_share_one_norm_witness :
  (exists q, In q colocated_pair_exact /\ uSPN_PT q <> V3 0 0 0)
  /\ norm_ravel (map (@uSPN_PT R) colocated_pair_exact) = 1
  /\ forall q, nth_error colocated_pair_exact 0 = Some q -> vnorm (uSPN_PT q) < 1.
Proof.
  assert (Hq : exists q0 q1,
             colocated_pair_exact = [q0; q1]
             /\ uSPN_PT q0 <> V3 0 0 0 /\ uSPN_PT q1 <> V3 0 0 0).
  { unfold colocated_pair_exact, pt_r_rdot_parameters_bi. cbv zeta.
    cbn [map2 map coa_colocated_exact CoaPosVels.Xmt_COA CoaPosVels.VXmt_COA
         CoaPosVels.Rcv_COA CoaPosVels.VRcv_COA].
    set (look := look_of (SideOfTrack meta_orthogonal_exact)).
    pose proof (spn_pt_colocated_exact look) as Hs.
    destruct (pt_r_rdot_pre look x_axis_exact y_axis_exact x_axis_exact y_axis_exact
                origin_exact) as [[[[r rd] bp] bpd] spn].
    cbn [snd] in Hs. subst spn. cbn [map snd].
    eexists _, _. split; [reflexivity|]. cbn [uSPN_PT].
    assert (Hl : IZR look * IZR look = 1).
    { unfold look. destruct (SideOfTrack meta_orthogonal_exact); cbn [look_of]; lra. }
    assert (Hn : norm_ravel [V3 0 0 (IZR look); V3 0 0 (IZR look)] <> 0).
    { rewrite norm_ravel_sq. cbn [sum_sq_lengths].
      replace (vdot (V3 0 0 (IZR look)) (V3 0 0 (IZR look))) with (IZR look * IZR look)
        by (cbn; ring).
      rewrite Hl. intros E. apply sqrt_eq_0 in E; lra. }
    assert (Hnz : vdivs (V3 0 0 (IZR look))
                    (norm_ravel [V3 0 0 (IZR look); V3 0 0 (IZR look)]) <> V3 0 0 0).
    { intros E. apply (f_equal (@v2 R)) in E. unfold vdivs, vmap in E.
      cbn [v0 v1 v2 fdiv Exact] in E.
      apply (f_equal (fun x => x * norm_ravel [V3 0 0 (IZR look); V3 0 0 (IZR look)])) in E.
      unfold Rdiv in E. rewrite Rmult_assoc, Rinv_l, Rmult_1_r, Rmult_0_l in E by exact Hn.
      rewrite E in Hl. lra. }
    split; exact Hnz. }
  destruct Hq as (q0 & q1 & Hqs & H0 & H1).
  assert (Hex : exists q, In q colocated_pair_exact /\ uSPN_PT q <> V3 0 0 0).
  { exists q0. split; [rewrite Hqs; now left | exact H0]. }
  destruct (@batch_slant_plane_normals_share_one_norm meta_orthogonal_exact
              [coa_colocated_exact; coa_colocated_exact] [origin_exact; origin_exact]
              colocated_pair_exact eq_refl Hex)
    as (Hnorm & _ & Hlt).
  split; [exact Hex|]. split; [exact Hnorm|].
  intros q Hq0. apply (Hlt 0%nat 1%nat q q1); [discriminate | exact Hq0 | | exact H1].
  rewrite Hqs. reflexivity.
Defined.

End BatchNormal.

(* ================================================================== *)
(** * Image segmentation of the NITF writer                            *)
(* ================================================================== *)

Section Packaging.

Local Open Scope Z_scope.

(** ** The floor of a binary64 quotient of integers *)

Lemma shiftl_double (m e : Z) : Z.shiftl (2 * m) e = Z.shiftl m (e + 1).
Proof.
  replace (2 * m) with (Z.shiftl m 1) by (rewrite Z.shiftl_mul_pow2; lia).
  rewrite Z.shiftl_shiftl by lia. f_equal. lia.
Qed.

Lemma shiftl_double_succ (m e : Z) : e <= -1 -> Z.shiftl (2 * m + 1) e = Z.shiftl m (e + 1).
Proof.
  intros He. rewrite <- shiftl_double.
  rewrite !Z.shiftl_div_pow2 by lia.
  replace (- e) with (1 + (- e - 1)) by lia.
  rewrite Z.pow_add_r, Z.pow_1_r by lia.
  assert (Hp : 0 < 2 ^ (- e - 1)) by (apply Z.pow_pos_nonneg; lia).
  rewrite <- !Z.div_div by lia.
  replace ((2 * m + 1) / 2) with m by (apply Z.div_unique with (r := 1); lia).
  replace (2 * m / 2) with m by (apply Z.div_unique with (r := 0); lia).
  reflexivity.
Qed.

(** The second rounding step of [binary_round_aux]: a mantissa of at
    most 53 bits is kept, [2 ** 53] is renormalised. *)
Lemma round_finish (m e : Z) :
  0 <= m <= 2 ^ 53 -> -1074 <= e <= 0 -> 2 ^ 52 <= m \/ e = -1074 ->
  Io.floor_to_int
    (let '(mrs, e') := shr_fexp prec64 emax64 m e loc_Exact in
     match shr_m mrs with
     | 0 => S754_zero false
     | Z.pos p => if e' <=? emax64 - prec64 then S754_finite false p e' else S754_infinity false
     | Z.neg _ => S754_nan
     end)
  = inr (Z.shiftl m e).
Proof.
  intros Hm He Hc.
  destruct (Z.eq_dec m (2 ^ 53)) as [-> | Hne].
  - rewrite shr_fexp_one by lia. cbn [shr_record_of_loc shr_1 shr_m Z.pow Z.pow_pos Pos.iter Z.mul Pos.mul].
    replace (e + 1 <=? emax64 - prec64) with true
      by (symmetry; apply Z.leb_le; unfold emax64, prec64; lia).
    cbn [Io.floor_to_int cond_Zopp]. f_equal.
    change (Z.pos 4503599627370496) with (2 ^ 52). change (Z.pos 9007199254740992) with (2 * 2 ^ 52).
    now rewrite shiftl_double.
  - rewrite shr_fexp_keep by lia. cbn [shr_record_of_loc shr_m].
    destruct m as [|p|p]; try lia.
    + cbn [Io.floor_to_int]. now rewrite Z.shiftl_0_l.
    + replace (e <=? emax64 - prec64) with true
        by (symmetry; apply Z.leb_le; unfold emax64, prec64; lia).
      reflexivity.
Qed.

(** Rounding a quotient of 53 or 54 bits (or a tiny one at the least
    exponent): the floor of the rounded number is the floor of
    [q * 2 ** e] or of [(q + 1) * 2 ** e]. *)
Lemma binary_round_aux_floor (q e : Z) (l : location) :
  0 <= q < 2 ^ 54 -> -1074 <= e <= -1 -> 2 ^ 52 <= q \/ e = -1074 ->
  Io.floor_to_int (binary_round_aux prec64 emax64 false q e l) = inr (Z.shiftl q e)
  \/ Io.floor_to_int (binary_round_aux prec64 emax64 false q e l) = inr (Z.shiftl (q + 1) e).
Proof.
  intros Hq He Hc. unfold binary_round_aux.
  destruct (Z_lt_le_dec q (2 ^ 53)) as [Hlt | Hge].
  - rewrite shr_fexp_keep by lia.
    rewrite shr_m_record_of_loc, loc_of_shr_record_of_loc.
    destruct (round_nearest_even_cases q l) as [-> | (_ & _ & ->)].
    + left. apply round_finish; lia.
    + right. apply round_finish; lia.
  - rewrite shr_fexp_one by lia.
    destruct q as [|p|p]; try lia.
    destruct p as [h | h |]; try (cbn in Hge; lia).
    + (* q = 2h + 1 *)
      assert (Hh : 2 ^ 52 <= Z.pos h < 2 ^ 53) by lia.
      destruct l as [|[]]; cbn [shr_record_of_loc shr_1 shr_m loc_of_shr_record orb];
        match goal with
        | |- context [round_nearest_even ?m ?l'] =>
            destruct (round_nearest_even_cases m l') as [-> | (_ & _ & ->)]
        end;
        try (left; rewrite round_finish by lia; f_equal;
             rewrite Pos2Z.inj_xI; symmetry; apply shiftl_double_succ; lia);
        right; rewrite round_finish by lia; f_equal;
        rewrite Pos2Z.inj_xI;
        replace (2 * Z.pos h + 1 + 1) with (2 * (Z.pos h + 1)) by lia;
        symmetry; apply shiftl_double.
    + (* q = 2h *)
      assert (Hh : 2 ^ 52 <= Z.pos h < 2 ^ 53) by lia.
      left.
      assert (Hr : forall s, round_nearest_even (Z.pos h)
                     (loc_of_shr_record {| shr_m := Z.pos h; shr_r := false; shr_s := s |})
                   = Z.pos h) by (intros []; reflexivity).
      destruct l as [|[]]; cbn [shr_record_of_loc shr_1 shr_m orb]; rewrite Hr;
        rewrite round_finish by lia; f_equal;
        rewrite Pos2Z.inj_xO; symmetry; apply shiftl_double.
Qed.

(** Rounding the scaled quotient up by one does not reach the next
    integer: the divisor is below the scale. *)
Lemma succ_quotient_same_floor (a b K : Z) :
  0 <= a -> 0 < b < K ->
  (a * K / b + 1) / K = a * K / b / K.
Proof.
  intros Ha Hb.
  pose proof (Z.div_mod (a * K) b ltac:(lia)) as Hab.
  pose proof (Z.mod_pos_bound (a * K) b ltac:(lia)) as Hr.
  set (q := a * K / b) in *. set (r := (a * K) mod b) in *.
  pose proof (Z.div_mod q K ltac:(lia)) as Hq.
  pose proof (Z.mod_pos_bound q K ltac:(lia)) as Hu.
  set (t := q / K) in *. set (u := q mod K) in *.
  symmetry. apply Z.div_unique with (r := u + 1); [|lia].
  left. split; [lia|].
  destruct (Z.eq_dec u (K - 1)) as [Eu|]; [|lia].
  exfalso.
  assert (E : K * ((t + 1) * b - a) = b - r) by nia.
  assert (0 < (t + 1) * b - a) by nia.
  nia.
Qed.

(** Python's [a / b] on ints, floored: for [0 < a < 2 ** 53] and
    [0 < b] it is the integer quotient. *)
Lemma floor_truediv_pos (a b : positive) :
  Z.pos a < 2 ^ 53 ->
  Io.floor_to_int (SFdiv prec64 emax64 (S754_finite false a 0) (S754_finite false b 0))
  = inr (Z.pos a / Z.pos b).
Proof.
  intros Ha. cbn [SFdiv xorb]. unfold SFdiv_core_binary.
  pose proof (Zdigits2_pos_bounds a) as Hda.
  pose proof (Zdigits2_pos_bounds b) as Hdb.
  set (d1 := Zdigits2 (Z.pos a)) in *. set (d2 := Zdigits2 (Z.pos b)) in *.
  assert (Hd1 : 1 <= d1 <= 53).
  { split; [unfold d1; cbn; lia|].
    destruct (Z_le_gt_dec d1 53) as [|Hgt]; [assumption|exfalso].
    assert (2 ^ 53 <= 2 ^ (d1 - 1)) by (apply Z.pow_le_mono_r; lia). lia. }
  assert (Hd2 : 1 <= d2) by (unfold d2; cbn; lia).
  rewrite fexp64.
  replace (d1 + 0 - (d2 + 0)) with (d1 - d2) by lia.
  replace (0 - 0) with 0 by lia.
  set (e' := Z.min (Z.max (d1 - d2 - 53) (-1074)) 0).
  assert (He' : -1074 <= e' <= -1) by (unfold e'; lia).
  replace (0 - e') with (- e') by lia.
  destruct (- e') as [|s|s] eqn:Es; try lia.
  rewrite Z.shiftl_mul_pow2 by lia.
  set (K := 2 ^ Z.pos s).
  assert (HK : 0 < K) by (apply Z.pow_pos_nonneg; lia).
  pose proof (Z.div_mod (Z.pos a * K) (Z.pos b) ltac:(lia)) as Hab.
  pose proof (Z.mod_pos_bound (Z.pos a * K) (Z.pos b) ltac:(lia)) as Hr.
  unfold Z.div, Z.modulo in Hab, Hr |- *.
  destruct (Z.div_eucl (Z.pos a * K) (Z.pos b)) as [q r] eqn:Hdiv.
  assert (Hq : q = Z.pos a * K / Z.pos b) by (unfold Z.div; now rewrite Hdiv).
  assert (Hq0 : 0 <= q) by (rewrite Hq; apply Z.div_pos; nia).
  (* the quotient has at most 54 bits *)
  assert (Hs : Z.pos s <= 53 + d2 - d1) by (unfold e' in Es; lia).
  assert (Hq54 : q < 2 ^ 54).
  { assert (Z.pos a * K < 2 ^ 54 * 2 ^ (d2 - 1)).
    { rewrite <- Z.pow_add_r by lia.
      apply Z.lt_le_trans with (2 ^ d1 * K); [nia|].
      unfold K. rewrite <- Z.pow_add_r by lia. apply Z.pow_le_mono_r; lia. }
    assert (0 < 2 ^ 54) by (apply Z.pow_pos_nonneg; lia).
    nia. }
  (* and at least 53, unless the exponent is the least one *)
  assert (Hq52 : 2 ^ 52 <= q \/ e' = -1074).
  { destruct (Z.eq_dec e' (-1074)) as [|Hne]; [now right|left].
    assert (Es' : Z.pos s = 53 + d2 - d1) by (unfold e' in Es, Hne; lia).
    assert (2 ^ 52 * 2 ^ d2 <= Z.pos a * K).
    { rewrite <- Z.pow_add_r by lia.
      apply Z.le_trans with (2 ^ (d1 - 1) * K); [|nia].
      unfold K. rewrite <- Z.pow_add_r by lia. apply Z.pow_le_mono_r; lia. }
    assert (0 < 2 ^ 52) by (apply Z.pow_pos_nonneg; lia).
    destruct (Z_lt_le_dec q (2 ^ 52)) as [Hlt|]; [exfalso|assumption].
    nia. }
  assert (Hfl : Z.shiftl q e' = Z.pos a / Z.pos b).
  { rewrite Z.shiftl_div_pow2 by lia. rewrite Es. fold K. rewrite Hq.
    rewrite Z.div_div by lia. rewrite Z.div_mul_cancel_r by lia. reflexivity. }
  assert (Hfl1 : Z.shiftl (q + 1) e' = Z.pos a / Z.pos b).
  { rewrite <- Hfl. rewrite !Z.shiftl_div_pow2 by lia. rewrite Es. fold K.
    destruct (Z_lt_le_dec (Z.pos b) K) as [HbK | HbK].
    - rewrite Hq. apply succ_quotient_same_floor; lia.
    - (* the divisor is at least the scale: the least exponent, and
         both quotients are 0 *)
      assert (Es' : Z.pos s = 1074).
      { destruct (Z.eq_dec (Z.pos s) 1074) as [|Hne]; [assumption|exfalso].
        assert (d2 <= Z.pos s) by (unfold e' in Es; lia).
        assert (2 ^ d2 <= K) by (unfold K; apply Z.pow_le_mono_r; lia).
        lia. }
      assert (HK54 : 2 ^ 54 <= K) by (unfold K; rewrite Es'; apply Z.pow_le_mono_r; lia).
      assert (q <= Z.pos a) by nia.
      assert (2 ^ 53 < 2 ^ 54) by (apply Z.pow_lt_mono_r; lia).
      rewrite !Z.div_small by lia. reflexivity. }
  destruct (binary_round_aux_floor (new_location (Z.pos b) r) (conj Hq0 Hq54) He' Hq52)
    as [E | E]; rewrite E; f_equal;
    [rewrite Hfl | rewrite Hfl1]; reflexivity.
Qed.

(** ** The number of rows of a segment *)

Lemma PIXEL_TYPES_bytes (pixel_type : option string) (info : Io.pixel_type_info) :
  Io.PIXEL_TYPES pixel_type = inr info ->
  Io.bytes info = 8 \/ Io.bytes info = 4 \/ Io.bytes info = 2.
Proof.
  unfold Io.PIXEL_TYPES. destruct pixel_type as [k|]; [|discriminate].
  repeat match goal with
         | |- context [String.eqb ?a ?b] => destruct (String.eqb a b)
         end; intros [= <-]; cbn; auto.
Qed.

Lemma is_size_max_53 : Io.is_size_max < 2 ^ 53.
Proof. reflexivity. Qed.

(** For rows of a positive number of bytes [np.floor] of the binary64
    quotient is the integer quotient. *)
Lemma num_rows_limit_pos (bytes_per_row : Z) :
  0 < bytes_per_row ->
  Io.num_rows_limit bytes_per_row
  = inr (Z.min Io.iloc_max (Io.is_size_max / bytes_per_row)).
Proof.
  intros Hb. unfold Io.num_rows_limit, Io.truediv.
  destruct bytes_per_row as [|b|b]; try lia.
  cbn [Z.eqb Io.int_operand].
  change (Io.int_operand Io.is_size_max) with (S754_finite false 9999999998 0).
  rewrite floor_truediv_pos by reflexivity. reflexivity.
Qed.

(** For a negative number the quotient is finite as well: no
    conversion fails. *)
Lemma num_rows_limit_neg (bytes_per_row : Z) :
  bytes_per_row < 0 -> exists l, Io.num_rows_limit bytes_per_row = inr l.
Proof.
  intros Hb. unfold Io.num_rows_limit, Io.truediv.
  destruct bytes_per_row as [|b|b]; try lia.
  cbn [Z.eqb Io.int_operand].
  change (Io.int_operand Io.is_size_max) with (S754_finite false 9999999998 0).
  pose proof (@floor_truediv_pos 9999999998 b eq_refl) as Hpos.
  cbn [SFdiv xorb] in Hpos |- *.
  destruct (SFdiv_core_binary prec64 emax64 (Z.pos 9999999998) 0 (Z.pos b) 0)
    as [[mz ez] lz].
  change true with (negb false). rewrite b64_round_opp.
  destruct (binary_round_aux prec64 emax64 false mz ez lz); try discriminate Hpos;
    cbn; eexists; reflexivity.
Qed.

(** X13.  For an image of a known pixel type with a positive number of
    columns, [num_rows_limit], which the writer computes as
    [min(iloc_max, int(np.floor(is_size_max / bytes_per_row)))] with a
    binary64 division, is the integer
    [min(99999, (10 ** 10 - 2) // bytes_per_row)]: the rounding of the
    quotient never reaches the next integer. *)
Theorem num_rows_limit_is_integer_quotient (pixel_type : option string)
  (info : Io.pixel_type_info) (cols : Z) :
  Io.PIXEL_TYPES pixel_type = inr info -> 0 < cols ->
  Io.num_rows_limit (cols * Io.bytes info)
  = inr (Z.min 99999 ((10 ^ 10 - 2) / (cols * Io.bytes info))).
Proof.
  intros Hpt Hcols. pose proof (PIXEL_TYPES_bytes _ Hpt) as Hb.
  apply num_rows_limit_pos. lia.
Qed.

Lemma num_rows_limit_is_integer_quotient_witness :
  exists info,
    Io.PIXEL_TYPES (Some "RE16I_IM16I"%string) = inr info
    /\ Io.num_rows_limit (30011 * Io.bytes info)
       = inr (Z.min 99999 ((10 ^ 10 - 2) / (30011 * Io.bytes info))).
Proof.
  eexists. split; [reflexivity|].
  apply (@num_rows_limit_is_integer_quotient (Some "RE16I_IM16I"%string) _ 30011);
    reflexivity.
Defined.

(** ** The loop over the rows *)

Lemma segment_loop_nth (rows cols L : Z) :
  0 < L ->
  forall (fuel : nat) (off : Z) (segs : list Io.segment_limits),
    Io.segment_loop fuel rows cols L off = Some segs ->
    forall i : nat,
      nth_error segs i
      = if off + Z.of_nat i * L <? rows
        then Some (off + Z.of_nat i * L, Z.min rows (off + (Z.of_nat i + 1) * L), 0, cols)
        else None.
Proof.
  intros HL. induction fuel as [|fuel IH]; intros off segs Hloop i;
    cbn [Io.segment_loop] in Hloop.
  - destruct (off <? rows) eqn:Hoff; [discriminate|]. injection Hloop as <-.
    replace (off + Z.of_nat i * L <? rows) with false by (symmetry; apply Z.ltb_ge; nia).
    now destruct i.
  - destruct (off <? rows) eqn:Hoff.
    + destruct (Io.segment_loop fuel rows cols L (Z.min rows (off + L))) as [rest|] eqn:Hrest;
        [|discriminate]. cbn [option_map] in Hloop. injection Hloop as <-.
      apply Z.ltb_lt in Hoff.
      destruct i as [|i]; cbn [nth_error].
      * replace (off + Z.of_nat 0 * L <? rows) with true by (symmetry; apply Z.ltb_lt; lia).
        repeat f_equal; lia.
      * rewrite (IH _ _ Hrest i).
        destruct (Z_lt_le_dec (off + L) rows) as [Hlt | Hge].
        -- rewrite Z.min_r by lia.
           replace (off + L + Z.of_nat i * L) with (off + Z.of_nat (S i) * L) by lia.
           replace (off + L + (Z.of_nat i + 1) * L) with (off + (Z.of_nat (S i) + 1) * L) by lia.
           reflexivity.
        -- rewrite Z.min_l by lia.
           replace (rows + Z.of_nat i * L <? rows) with false by (symmetry; apply Z.ltb_ge; nia).
           replace (off + Z.of_nat (S i) * L <? rows) with false
             by (symmetry; apply Z.ltb_ge; nia).
           reflexivity.
    + injection Hloop as <-. apply Z.ltb_ge in Hoff.
      replace (off + Z.of_nat i * L <? rows) with false by (symmetry; apply Z.ltb_ge; nia).
      now destruct i.
Qed.

Lemma segment_loop_ends (rows cols L : Z) :
  0 < L ->
  forall (fuel : nat) (off : Z),
    rows - off <= Z.of_nat fuel ->
    exists segs, Io.segment_loop fuel rows cols L off = Some segs.
Proof.
  intros HL. induction fuel as [|fuel IH]; intros off Hf; cbn [Io.segment_loop].
  - replace (off <? rows) with false by (symmetry; apply Z.ltb_ge; lia). now eexists.
  - destruct (off <? rows) eqn:Hoff; [|now eexists]. apply Z.ltb_lt in Hoff.
    destruct (IH (Z.min rows (off + L)) ltac:(lia)) as [rest ->]. now eexists.
Qed.

Lemma segment_loop_never_ends (rows cols L : Z) :
  L <= 0 -> forall (fuel : nat) (off : Z),
    off < rows -> Io.segment_loop fuel rows cols L off = None.
Proof.
  intros HL. induction fuel as [|fuel IH]; intros off Hoff; cbn [Io.segment_loop];
    replace (off <? rows) with true by (symmetry; apply Z.ltb_lt; lia);
    [reflexivity|].
  rewrite IH by lia. reflexivity.
Qed.

(** X14.  For an image of a known pixel type with at least one row and
    one column whose rows are no longer than [is_size_max] bytes, the
    segmentation ends (for every bound on the passes of its loop that
    is at least the number of rows) and the segments tile the image:
    with [L] rows per segment, segment [i] holds the rows from [i * L]
    to [min(rows, (i + 1) * L)] and all the columns, for every [i] with
    [i * L < rows], and there is no other segment.  [L] is [rows] when
    the image fits one segment and [num_rows_limit] otherwise. *)
Theorem image_segments_tile_the_rows (pixel_type : option string)
  (info : Io.pixel_type_info) (rows cols : Z) :
  Io.PIXEL_TYPES pixel_type = inr info ->
  0 < rows -> 0 < cols -> cols * Io.bytes info <= Io.is_size_max ->
  let L := rows_per_segment (cols * Io.bytes info) rows in
  0 < L
  /\ exists segs,
       (forall fuel : nat,
          rows <= Z.of_nat fuel ->
          Io.image_segment_limits fuel pixel_type rows cols = inr (Some segs))
       /\ forall i : nat,
            nth_error segs i
            = if Z.of_nat i * L <? rows
              then Some (Z.of_nat i * L, Z.min rows ((Z.of_nat i + 1) * L), 0, cols)
              else None.
Proof.
  intros Hpt Hrows Hcols Hfit. cbv zeta.
  pose proof (PIXEL_TYPES_bytes _ Hpt) as Hb.
  set (bpr := cols * Io.bytes info) in *.
  assert (Hbpr : 0 < bpr) by (unfold bpr; lia).
  unfold Io.image_segment_limits. rewrite Hpt. fold bpr.
  rewrite (num_rows_limit_pos Hbpr).
  unfold rows_per_segment.
  destruct (bpr * rows <=? Io.is_size_max) eqn:Hp.
  - split; [lia|]. exists [(0, rows, 0, cols)]. split; [reflexivity|].
    intros [|[|i]]; cbn [nth_error].
    + replace (Z.of_nat 0 * rows <? rows) with true by (symmetry; apply Z.ltb_lt; lia).
      repeat f_equal; lia.
    + replace (Z.of_nat 1 * rows <? rows) with false by (symmetry; apply Z.ltb_ge; lia).
      reflexivity.
    + replace (Z.of_nat (S (S i)) * rows <? rows) with false
        by (symmetry; apply Z.ltb_ge; nia).
      reflexivity.
  - set (L := Z.min Io.iloc_max (Io.is_size_max / bpr)).
    assert (HL : 0 < L).
    { unfold L, Io.iloc_max.
      assert (1 <= Io.is_size_max / bpr) by (apply Z.div_le_lower_bound; lia). lia. }
    split; [exact HL|].
    destruct (@segment_loop_ends rows cols L HL (Z.to_nat rows) 0 ltac:(lia)) as [segs Hsegs].
    exists segs. split.
    + intros fuel Hfuel.
      destruct (@segment_loop_ends rows cols L HL fuel 0 ltac:(lia)) as [segs' Hsegs'].
      rewrite Hsegs'. do 2 f_equal.
      apply nth_error_ext. intros i.
      rewrite (@segment_loop_nth rows cols L HL _ _ _ Hsegs' i),
        (@segment_loop_nth rows cols L HL _ _ _ Hsegs i).
      reflexivity.
    + intros i. rewrite (@segment_loop_nth rows cols L HL _ _ _ Hsegs i). reflexivity.
Qed.

Lemma image_segments_tile_the_rows_witness :
  exists info segs,
    Io.PIXEL_TYPES (Some "RE32F_IM32F"%string) = inr info
    /\ rows_per_segment (500000000 * Io.bytes info) 5 = 2
    /\ Io.image_segment_limits 5 (Some "RE32F_IM32F"%string) 5 500000000
       = inr (Some segs)
    /\ nth_error segs 2 = Some (4, 5, 0, 500000000)
    /\ nth_error segs 3 = None.
Proof.
  destruct (Io.PIXEL_TYPES (Some "RE32F_IM32F"%string)) as [e|info] eqn:Hpt;
    [discriminate Hpt|].
  assert (Hb : Io.bytes info = 8) by (injection Hpt as <-; reflexivity).
  assert (HL : rows_per_segment (500000000 * Io.bytes info) 5 = 2)
    by (rewrite Hb; reflexivity).
  assert (Hfit : 500000000 * Io.bytes info <= Io.is_size_max)
    by (rewrite Hb; discriminate).
  destruct (@image_segments_tile_the_rows (Some "RE32F_IM32F"%string) info 5 500000000
              Hpt eq_refl eq_refl Hfit)
    as (_ & segs & Hrun & Hnth).
  exists info, segs. split; [reflexivity|]. split; [exact HL|].
  split; [apply Hrun; discriminate|].
  rewrite !Hnth, HL. split; reflexivity.
Defined.

(** X15.  Whenever the segmentation of an image with a positive number
    of columns returns, every segment holds at most [is_size_max =
    10 ** 10 - 2] bytes; and when the image does not fit one segment,
    every segment has at least one row and at most [iloc_max = 99999]
    rows. *)
Theorem image_segments_within_limits (fuel : nat) (pixel_type : option string)
  (info : Io.pixel_type_info) (rows cols : Z) (segs : list Io.segment_limits) :
  Io.PIXEL_TYPES pixel_type = inr info -> 0 < cols ->
  Io.image_segment_limits fuel pixel_type rows cols = inr (Some segs) ->
  forall (i : nat) (row_start row_stop col_start col_stop : Z),
    nth_error segs i = Some (row_start, row_stop, col_start, col_stop) ->
    (row_stop - row_start) * (cols * Io.bytes info) <= Io.is_size_max
    /\ (Io.is_size_max < rows * (cols * Io.bytes info) ->
        0 < row_stop - row_start <= Io.iloc_max).
Proof.
  intros Hpt Hcols. pose proof (PIXEL_TYPES_bytes _ Hpt) as Hb.
  unfold Io.image_segment_limits. rewrite Hpt.
  set (bpr := cols * Io.bytes info) in *.
  assert (Hbpr : 0 < bpr) by (unfold bpr; lia).
  rewrite (num_rows_limit_pos Hbpr).
  destruct (bpr * rows <=? Io.is_size_max) eqn:Hp.
  - apply Z.leb_le in Hp. intros [= <-] [|[|i]] r0 r1 c0 c1; cbn [nth_error];
      try discriminate. intros [= <- <- <- <-]. split; lia.
  - apply Z.leb_gt in Hp. intros [= Hloop].
    set (L := Z.min Io.iloc_max (Io.is_size_max / bpr)) in *.
    destruct (Z_lt_le_dec 0 L) as [HL | HL].
    + intros i r0 r1 c0 c1 Hn.
      rewrite (@segment_loop_nth rows cols L HL _ _ _ Hloop i) in Hn.
      destruct (0 + Z.of_nat i * L <? rows) eqn:Hi; [|discriminate].
      apply Z.ltb_lt in Hi. injection Hn as <- <- <- <-.
      assert (HLb : L * bpr <= Io.is_size_max).
      { assert (Io.is_size_max / bpr * bpr <= Io.is_size_max)
          by (rewrite Z.mul_comm; apply Z.mul_div_le; lia).
        assert (L <= Io.is_size_max / bpr) by (unfold L; lia). nia. }
      assert (HLi : L <= Io.iloc_max) by (unfold L; lia).
      assert (Hd : 0 < Z.min rows (0 + (Z.of_nat i + 1) * L) - (0 + Z.of_nat i * L) <= L)
        by lia.
      set (d := Z.min rows (0 + (Z.of_nat i + 1) * L) - (0 + Z.of_nat i * L)) in *.
      split; [|intros _; lia].
      apply Z.le_trans with (L * bpr); [|exact HLb].
      apply Z.mul_le_mono_nonneg_r; lia.
    + assert (0 < Io.is_size_max) by reflexivity.
      assert (0 < rows) by nia.
      rewrite (@segment_loop_never_ends rows cols L HL fuel 0) in Hloop by lia.
      discriminate.
Qed.

Lemma image_segments_within_limits_witness :
  exists info segs,
    Io.PIXEL_TYPES (Some "RE32F_IM32F"%string) = inr info
    /\ Io.image_segment_limits 10 (Some "RE32F_IM32F"%string) 300000 10000
       = inr (Some segs)
    /\ nth_error segs 3 = Some (299997, 300000, 0, 10000)
    /\ (300000 - 299997) * (10000 * Io.bytes info) <= Io.is_size_max.
Proof.
  destruct (Io.PIXEL_TYPES (Some "RE32F_IM32F"%string)) as [e|info] eqn:Hpt;
    [discriminate Hpt|].
  destruct (Io.image_segment_limits 10 (Some "RE32F_IM32F"%string) 300000 10000)
    as [e | [segs|]] eqn:Hrun; try (vm_compute in Hrun; discriminate Hrun).
  assert (Hn : nth_error segs 3 = Some (299997, 300000, 0, 10000)).
  { vm_compute in Hrun. injection Hrun as <-. reflexivity. }
  exists info, segs. split; [reflexivity|]. split; [reflexivity|]. split; [exact Hn|].
  exact (proj1 (@image_segments_within_limits 10 (Some "RE32F_IM32F"%string) info
                  300000 10000 segs Hpt eq_refl Hrun 3 _ _ _ _ Hn)).
Defined.

(** X16.  For an image with at least one row whose rows are longer than
    [is_size_max] bytes, [num_rows_limit] is 0 and the loop
    [while row_offset < rows] makes no progress: whatever the bound on
    its passes, it is reached with the condition of the loop still
    true.  The constructor of the writer does not return. *)
Theorem image_segmentation_never_ends (fuel : nat) (pixel_type : option string)
  (info : Io.pixel_type_info) (rows cols : Z) :
  Io.PIXEL_TYPES pixel_type = inr info ->
  0 < rows -> Io.is_size_max < cols * Io.bytes info ->
  Io.image_segment_limits fuel pixel_type rows cols = inr None.
Proof.
  intros Hpt Hrows Hwide. pose proof (PIXEL_TYPES_bytes _ Hpt) as Hb.
  unfold Io.image_segment_limits. rewrite Hpt.
  set (bpr := cols * Io.bytes info) in *.
  assert (Hbpr : 0 < bpr) by (unfold Io.is_size_max in Hwide; lia).
  rewrite (num_rows_limit_pos Hbpr).
  replace (bpr * rows <=? Io.is_size_max) with false by (symmetry; apply Z.leb_gt; nia).
  rewrite Z.div_small by (unfold Io.is_size_max in *; lia).
  assert (HL : Z.min Io.iloc_max 0 <= 0) by (unfold Io.iloc_max; lia).
  now rewrite (@segment_loop_never_ends rows cols _ HL fuel 0) by lia.
Qed.

Lemma image_segmentation_never_ends_witness :
  exists info,
    Io.PIXEL_TYPES (Some "RE32F_IM32F"%string) = inr info
    /\ Io.is_size_max < 1250000000 * Io.bytes info
    /\ Io.image_segment_limits 1000 (Some "RE32F_IM32F"%string) 1 1250000000 = inr None.
Proof.
  destruct (Io.PIXEL_TYPES (Some "RE32F_IM32F"%string)) as [e|info] eqn:Hpt;
    [discriminate Hpt|].
  assert (Hw : Io.is_size_max < 1250000000 * Io.bytes info)
    by (injection Hpt as <-; reflexivity).
  exists info. split; [reflexivity|]. split; [exact Hw|].
  exact (@image_segmentation_never_ends 1000 (Some "RE32F_IM32F"%string) info
           1 1250000000 Hpt eq_refl Hw).
Defined.

(** X17.  The segmentation raises in two cases only: [KeyError] when
    the pixel type is not a key of [PIXEL_TYPES], and
    [ZeroDivisionError] when the image has no columns (whatever its
    number of rows). *)
Theorem image_segmentation_exceptions (fuel : nat) (pixel_type : option string)
  (rows cols : Z) (e : Io.error) :
  Io.image_segment_limits fuel pixel_type rows cols = inl e <->
  Io.PIXEL_TYPES pixel_type = inl e
  \/ (exists info, Io.PIXEL_TYPES pixel_type = inr info)
     /\ cols = 0 /\ e = Io.ZeroDivisionError.
Proof.
  unfold Io.image_segment_limits.
  destruct (Io.PIXEL_TYPES pixel_type) as [e0|info] eqn:Hpt.
  - split; [intros [= <-]; now left|].
    intros [[= <-] | ([info [=]] & _)]. reflexivity.
  - pose proof (PIXEL_TYPES_bytes _ Hpt) as Hb.
    set (bpr := cols * Io.bytes info) in *.
    destruct (Z.lt_trichotomy cols 0) as [Hneg | [-> | Hpos]].
    + destruct (@num_rows_limit_neg bpr ltac:(unfold bpr; lia)) as [l ->].
      split; [destruct (_ <=? _); discriminate|].
      intros [[=] | (_ & -> & _)]. lia.
    + subst bpr. cbn [Z.mul]. unfold Io.num_rows_limit, Io.truediv. cbn [Z.eqb].
      split; [intros [= <-]; right; eauto|].
      intros [[=] | (_ & _ & ->)]. reflexivity.
    + rewrite (@num_rows_limit_pos bpr ltac:(unfold bpr; lia)).
      split; [destruct (_ <=? _); discriminate|].
      intros [[=] | (_ & -> & _)]. lia.
Qed.

(** ** The image subheaders *)

Lemma forall_below_spec (P : Z -> bool) (n : N) :
  forall_below P n = true -> forall k, 0 <= k < Z.of_N n -> P k = true.
Proof.
  unfold forall_below.
  assert (H : forall n,
             fst (N.iter n (fun s => (fst s + 1, snd s && P (fst s))) (0, true)) = Z.of_N n
             /\ (snd (N.iter n (fun s => (fst s + 1, snd s && P (fst s))) (0, true)) = true ->
                 forall k, 0 <= k < Z.of_N n -> P k = true)).
  { intros m. induction m as [|m [IH1 IH2]] using N.peano_ind.
    - split; [reflexivity|]. intros _ k Hk. cbn in Hk. lia.
    - rewrite N.iter_succ. cbn [fst snd]. rewrite IH1. split; [lia|].
      rewrite andb_true_iff. intros [Hs Hp] k Hk.
      destruct (Z.eq_dec k (Z.of_N m)) as [-> | Hne]; [exact Hp|].
      apply IH2; [exact Hs | lia]. }
  apply H.
Qed.

(** [f"{n:05d}"] has five characters for every [n] that ILOC can hold. *)
Lemma format_05d_length (n : Z) :
  0 <= n <= Io.iloc_max -> String.length (Io.format_0d 5 n) = 5%nat.
Proof.
  intros Hn.
  assert (Hall : forall_below (fun k => Nat.eqb (String.length (Io.format_0d 5 k)) 5)
                   100000 = true) by (vm_compute; reflexivity).
  apply Nat.eqb_eq.
  apply (forall_below_spec _ _ Hall). unfold Io.iloc_max in Hn. lia.
Qed.

Lemma string_length_append (s t : string) :
  String.length (s ++ t) = (String.length s + String.length t)%nat.
Proof. induction s as [|c s IH]; cbn; [reflexivity | now rewrite IH]. Qed.

Lemma nth_error_combine {A B : Type} (xs : list A) (ys : list B) (i : nat) :
  nth_error (combine xs ys) i
  = match nth_error xs i, nth_error ys i with
    | Some x, Some y => Some (x, y)
    | _, _ => None
    end.
Proof.
  revert ys i. induction xs as [|x xs IH]; intros [|y ys] [|i]; cbn; try reflexivity.
  - now destruct (nth_error xs i).
  - apply IH.
Qed.

Lemma nth_error_image_segment_headers (L cols : Z) (segs : list Io.segment_limits) (i : nat) :
  nth_error (Io.image_segment_headers L cols segs) i
  = option_map (Io.image_segment_header (List.length segs) L cols i) (nth_error segs i).
Proof.
  unfold Io.image_segment_headers.
  rewrite nth_error_map, nth_error_combine, nth_error_seq.
  destruct (nth_error segs i) as [seg|] eqn:Hseg.
  - assert (Hi : (i < List.length segs)%nat) by (apply nth_error_Some; congruence).
    apply Nat.ltb_lt in Hi. rewrite Hi. reflexivity.
  - now destruct (Nat.ltb i (List.length segs)).
Qed.

(** X18.  In the image subheaders the writer builds from the
    segmentation, every ILOC has 10 characters.  The first segment is
    at row and column 0 of level 0; every other segment is attached to
    the segment before it ([IALVL] is the [IDLVL] of that segment), at
    the row offset that is the number of rows ([NROWS]) of that
    segment and column offset 0: the segments lie one below the
    other. *)
Theorem image_segments_are_stacked (fuel : nat) (pixel_type : option string)
  (info : Io.pixel_type_info) (rows cols L : Z) (segs : list Io.segment_limits) :
  Io.PIXEL_TYPES pixel_type = inr info -> 0 < cols ->
  Io.num_rows_limit (cols * Io.bytes info) = inr L ->
  Io.image_segment_limits fuel pixel_type rows cols = inr (Some segs) ->
  forall (i : nat) (h : Io.ImageSegmentHeader),
    nth_error (Io.image_segment_headers L cols segs) i = Some h ->
    String.length (Io.ILOC h) = 10%nat
    /\ match i with
       | O => Io.ILOC h = "0000000000"%string /\ Io.IALVL h = 0
       | S j =>
           exists h',
             nth_error (Io.image_segment_headers L cols segs) j = Some h'
             /\ Io.IALVL h = Io.IDLVL h'
             /\ Io.ILOC h = (Io.format_0d 5 (Io.NROWS h') ++ "00000")%string
       end.
Proof.
  intros Hpt Hcols HL Hsegs i h Hh.
  pose proof (PIXEL_TYPES_bytes _ Hpt) as Hb.
  set (bpr := cols * Io.bytes info) in *.
  assert (Hbpr : 0 < bpr) by (unfold bpr; lia).
  rewrite (num_rows_limit_pos Hbpr) in HL. injection HL as HL.
  rewrite nth_error_image_segment_headers in Hh.
  destruct (nth_error segs i) as [[[[r0 r1] c0] c1]|] eqn:Hseg; [|discriminate].
  cbn [option_map] in Hh. injection Hh as <-.
  destruct i as [|j].
  - cbn [Io.image_segment_header Io.ILOC Io.IALVL Nat.eqb]. repeat split.
  - (* a second segment: the rows went through the loop *)
    unfold Io.image_segment_limits in Hsegs. rewrite Hpt in Hsegs. fold bpr in Hsegs.
    rewrite (num_rows_limit_pos Hbpr), HL in Hsegs.
    destruct (bpr * rows <=? Io.is_size_max).
    { injection Hsegs as <-. destruct j; discriminate Hseg. }
    injection Hsegs as Hloop.
    assert (HLpos : 0 < L).
    { destruct (Z_lt_le_dec 0 L) as [|Hle]; [assumption|exfalso].
      destruct (Z_lt_le_dec 0 rows) as [Hr|Hr].
      - rewrite (@segment_loop_never_ends rows cols L Hle fuel 0 Hr) in Hloop.
        discriminate.
      - destruct fuel; cbn [Io.segment_loop] in Hloop;
          replace (0 <? rows) with false in Hloop by (symmetry; apply Z.ltb_ge; lia);
          injection Hloop as <-; discriminate Hseg. }
    assert (HLmax : L <= Io.iloc_max) by (rewrite <- HL; lia).
    pose proof (@segment_loop_nth rows cols L HLpos _ _ _ Hloop) as Hnth.
    rewrite (Hnth (S j)) in Hseg.
    destruct (0 + Z.of_nat (S j) * L <? rows) eqn:Hi; [|discriminate].
    apply Z.ltb_lt in Hi. injection Hseg as <- <- <- <-.
    cbn [Io.image_segment_header Io.ILOC Io.IALVL Nat.eqb].
    split.
    + rewrite string_length_append, format_05d_length by lia. reflexivity.
    + rewrite nth_error_image_segment_headers, (Hnth j).
      replace (0 + Z.of_nat j * L <? rows) with true by (symmetry; apply Z.ltb_lt; nia).
      cbn [option_map]. eexists. split; [reflexivity|].
      cbn [Io.image_segment_header Io.IDLVL Io.NROWS]. split; [lia|].
      do 2 f_equal. lia.
Qed.

Lemma image_segments_are_stacked_witness :
  exists info segs h,
    Io.PIXEL_TYPES (Some "RE32F_IM32F"%string) = inr info
    /\ Io.image_segment_limits 10 (Some "RE32F_IM32F"%string) 300000 10000
       = inr (Some segs)
    /\ nth_error (Io.image_segment_headers 99999 10000 segs) 3 = Some h
    /\ Io.ILOC h = "9999900000"%string
    /\ String.length (Io.ILOC h) = 10%nat.
Proof.
  destruct (Io.PIXEL_TYPES (Some "RE32F_IM32F"%string)) as [e|info] eqn:Hpt;
    [discriminate Hpt|].
  assert (Hb : Io.bytes info = 8) by (injection Hpt as <-; reflexivity).
  destruct (Io.image_segment_limits 10 (Some "RE32F_IM32F"%string) 300000 10000)
    as [e | [segs|]] eqn:Hrun; try (vm_compute in Hrun; discriminate Hrun).
  destruct (nth_error (Io.image_segment_headers 99999 10000 segs) 3) as [h|] eqn:Hh;
    [|vm_compute in Hrun; injection Hrun as <-; discriminate Hh].
  assert (Hi : Io.ILOC h = "9999900000"%string).
  { vm_compute in Hrun. injection Hrun as <-. vm_compute in Hh.
    injection Hh as <-. reflexivity. }
  exists info, segs, h. split; [reflexivity|]. split; [reflexivity|].
  split; [exact Hh|]. split; [exact Hi|].
  exact (proj1 (@image_segments_are_stacked 10 (Some "RE32F_IM32F"%string) info
                  300000 10000 99999 segs Hpt eq_refl
                  ltac:(rewrite Hb; vm_compute; reflexivity) Hrun 3 h Hh)).
Defined.


(* ================================================================== *)
(** * The checks of [write_image]                                      *)
(* ================================================================== *)

Lemma dtype_eqb_eq (a b : Io.dtype) : Io.dtype_eqb a b = true <-> a = b.
Proof.
  destruct a, b; cbn; try (split; [discriminate | congruence]); try tauto.
  rewrite String.eqb_eq. split; congruence.
Qed.

Lemma int64_id (z : Z) : - 2 ^ 63 <= z < 2 ^ 63 -> Io.int64 z = z.
Proof.
  intros Hz. unfold Io.int64. rewrite Z.mod_small; lia.
Qed.

(** X19.  Without [start], [write_image] passes a two-dimensional array
    on to the NITF writer exactly when the dtype of the array is the
    dtype of the pixel type and the shape of the array is
    [(NumRows, NumCols)] ([NumRows] and [NumCols] being [int64]
    numbers); the start indices it passes on are [(0, 0)].  In every
    other case it raises. *)
Theorem write_image_whole_image (pixel_type : option string) (rows cols h w : Z)
  (array_dtype : Io.dtype) (start_indices : list Z) :
  - 2 ^ 63 <= rows < 2 ^ 63 -> - 2 ^ 63 <= cols < 2 ^ 63 ->
  Io.write_image pixel_type rows cols array_dtype [h; w] None = inr start_indices
  <-> (exists info, Io.PIXEL_TYPES pixel_type = inr info /\ Io.dtype_of info = array_dtype)
      /\ h = rows /\ w = cols /\ start_indices = [0; 0].
Proof.
  intros Hrows Hcols. unfold Io.write_image.
  destruct (Io.PIXEL_TYPES pixel_type) as [e|info] eqn:Hpt.
  { split; [discriminate | intros ([info [[=] _]] & _)]. }
  destruct (Io.dtype_eqb (Io.dtype_of info) array_dtype) eqn:Hdt; cbn [negb].
  2:{ split; [discriminate|]. intros ([info' [[= <-] Heq]] & _).
      apply dtype_eqb_eq in Heq. congruence. }
  apply dtype_eqb_eq in Hdt.
  cbn [Io.broadcast List.length Nat.eqb map2 Io.any existsb map].
  destruct (Z.eqb_spec h rows) as [-> | Hh]; cbn [negb orb].
  2:{ split; [discriminate | intros (_ & ? & _); contradiction]. }
  destruct (Z.eqb_spec w cols) as [-> | Hw]; cbn [negb orb].
  2:{ split; [discriminate | intros (_ & _ & ? & _); contradiction]. }
  cbn [Io.broadcast List.length Nat.eqb map2 Io.any existsb map Z.ltb Z.compare orb Z.add].
  rewrite !int64_id by assumption.
  rewrite !Z.gtb_ltb, !Z.ltb_irrefl.
  cbn [orb]. split.
  - intros [= <-]. repeat split. now exists info.
  - intros (_ & _ & _ & ->). reflexivity.
Qed.

Lemma write_image_whole_image_witness :
  Io.write_image (Some "AMP8I_PHS8I"%string) 100 200 Io.amp_phase_uint8 [100; 200] None
  = inr [0; 0]
  <-> (exists info,
         Io.PIXEL_TYPES (Some "AMP8I_PHS8I"%string) = inr info
         /\ Io.dtype_of info = Io.amp_phase_uint8)
      /\ 100 = 100 /\ 200 = 200 /\ [0; 0] = [0; 0].
Proof.
  apply (@write_image_whole_image (Some "AMP8I_PHS8I"%string) 100 200 100 200
           Io.amp_phase_uint8 [0; 0]); split; (discriminate || reflexivity).
Defined.

(** X20.  With start indices [(r, c)], [write_image] passes a
    two-dimensional array of shape [(h, w)] on to the NITF writer
    exactly when the dtype of the array is the dtype of the pixel
    type, [r] and [c] are not negative, and the block ends inside the
    image: [r + h <= NumRows] and [c + w <= NumCols] (the sums being
    [int64] numbers); the start indices it passes on are [(r, c)].  In
    every other case it raises. *)
Theorem write_image_block (pixel_type : option string) (rows cols h w r c : Z)
  (array_dtype : Io.dtype) (start_indices : list Z) :
  - 2 ^ 63 <= r + h < 2 ^ 63 -> - 2 ^ 63 <= c + w < 2 ^ 63 ->
  Io.write_image pixel_type rows cols array_dtype [h; w] (Some (Io.int_array [r; c]))
  = inr start_indices
  <-> (exists info, Io.PIXEL_TYPES pixel_type = inr info /\ Io.dtype_of info = array_dtype)
      /\ 0 <= r /\ 0 <= c /\ r + h <= rows /\ c + w <= cols
      /\ start_indices = [r; c].
Proof.
  intros Hr Hc. unfold Io.write_image.
  destruct (Io.PIXEL_TYPES pixel_type) as [e|info] eqn:Hpt.
  { split; [discriminate | intros ([info [[=] _]] & _)]. }
  destruct (Io.dtype_eqb (Io.dtype_of info) array_dtype) eqn:Hdt; cbn [negb].
  2:{ split; [discriminate|]. intros ([info' [[= <-] Heq]] & _).
      apply dtype_eqb_eq in Heq. congruence. }
  apply dtype_eqb_eq in Hdt.
  cbn [Io.broadcast List.length Nat.eqb map2 Io.any existsb map].
  destruct (Z.ltb_spec r 0) as [Hr0 | Hr0]; cbn [orb].
  { split; [discriminate | intros (_ & ? & _); lia]. }
  destruct (Z.ltb_spec c 0) as [Hc0 | Hc0]; cbn [orb].
  { split; [discriminate | intros (_ & _ & ? & _); lia]. }
  rewrite !int64_id by assumption.
  rewrite !Z.gtb_ltb.
  destruct (Z.ltb_spec rows (r + h)) as [Hrh | Hrh]; cbn [orb].
  { split; [discriminate | intros (_ & _ & _ & ? & _); lia]. }
  destruct (Z.ltb_spec cols (c + w)) as [Hcw | Hcw]; cbn [orb].
  { split; [discriminate | intros (_ & _ & _ & _ & ? & _); lia]. }
  split.
  - intros [= <-]. repeat split; try assumption. now exists info.
  - intros (_ & _ & _ & _ & _ & ->). reflexivity.
Qed.

Lemma write_image_block_witness :
  Io.write_image (Some "RE32F_IM32F"%string) 100 200 Io.complex64 [10; 20]
    (Some (Io.int_array [90; 180]))
  = inr [90; 180]
  <-> (exists info,
         Io.PIXEL_TYPES (Some "RE32F_IM32F"%string) = inr info
         /\ Io.dtype_of info = Io.complex64)
      /\ 0 <= 90 /\ 0 <= 180 /\ 90 + 10 <= 100 /\ 180 + 20 <= 200
      /\ [90; 180] = [90; 180].
Proof.
  apply (@write_image_block (Some "RE32F_IM32F"%string) 100 200 10 20 90 180
           Io.complex64 [90; 180]); split; (discriminate || reflexivity).
Defined.

End Packaging.
